(* ===== verification/_CoqProject ===== *)
-Q . S2P
Prelude.v
Proto.v
Parse.v
Wire.v
Verdict.v
Relay.v
Lift.v
MacText.v
Decimal.v
Hostapd.v
Config.v
Validation.v
Packet.v
Tap.v
App.v
Log.v
System.v
Types.v
Daemon.v
Spec.v
Startup.v
Ledger.v
EndToEnd.v
Main.v
Regression.v
