(* ===== verification/Prelude.v ===== *)
(** * rerrb: verification of the 802.11r RRB relay daemon

    The program (crate [rerrb], sources under [src/src/]) listens passively on the
    switch-facing ports of a router, picks out 802.11r RRB frames addressed to the
    access points of this host, removes their management VLAN tag and writes them to
    a private TAP device whose [tc] rule redirects them to the bridge that hostapd
    listens on.  Its parts:

    - [proto/mod.rs], [proto/parse.rs]: the filter identity, the counters and the
      frame validator [classify];
    - [relay.rs]: untagging, counter mapping and the rate limiter;
    - [config.rs], [hostapd.rs]: settings, their validation, and the assembly of the
      filter from them, sysfs and the hostapd control sockets;
    - [packet.rs]: the packet sockets with their kernel filter;
    - [tap.rs]: the TAP device and the redirect rule;
    - [app.rs]: one capture task per source port, one inject task that owns the TAP,
      a bounded channel between them, and the counters they share;
    - [main.rs]: the command line.

    ** Files

    - [Prelude]: machine integers, byte strings and slices, Rust's [Result] with its
      [?], loops of fallible steps, the monad of programs that call the operating
      system, counting, tactics and the hint database [rrb].
    - [Proto]: [proto/mod.rs].  Arrays are lists whose length the predicates [*_wf]
      state; these are what the Rust types guarantee.
    - [Parse]: [proto/parse.rs].  The trait [ReadFrame] is a class with the slice
      instance; [ReadFrameOk] states what the parser relies on.  The bounded [for]
      loops are folds over the index range, or fixpoints whose fuel is the loop bound
      itself, so no fuel is ever exhausted that the code would not exhaust.
    - [Wire]: a grammar of RRB frames with its encoder, and the authorisation policy
      of a filter; [classify] accepts exactly the encodings of authorised frames.
    - [Verdict]: the checks of [classify] as an ordered list; a rejection carries the
      counter of the first check that fails.  Truncation of accepted frames.
    - [Relay]: [relay.rs].  A panic of [untag] is [None].
    - [Lift]: frames whose tag the driver moved into the metadata, against the same
      frames with the tag inline.
    - [MacText]: byte strings, and [mac] of [config.rs].
    - [Decimal]: numbers printed in decimal, and read back.
    - [Hostapd]: [hostapd.rs]; the directory listing and the answers to the socket
      calls of a query are parameters ([HostapdEnv]).
    - [Config]: [config.rs]; the YAML parser, sysfs and the answers of hostapd at each
      attempt are parameters ([Env]).  Out-of-range array accesses are [Err Panic].
    - [Validation]: which settings are valid, specified without the code's helpers.
    - [Packet]: [packet.rs]; the BPF machine is the class [Cbpf] with the documented
      meaning of three instructions, and [interp_machine] is an instance; what the
      kernel delivers and how it answers calls are parameters.
    - [Tap]: [tap.rs] as programs over a trace of calls ([TapEnv] answers them).
    - [App]: the pieces of [app.rs] between two awaits, and the channel as an
      interface ([Channel], [ChannelOk]) with a list instance.
    - [Log]: the line that [log_counters] writes, and a reader for it.
    - [System]: the tasks interleaved.  [exec] is one step of one task, [reachable]
      the states of a run, [view] the cases of a step; the invariants are proved by
      induction over [reachable].
    - [Types]: what the source's types and buffer sizes promise of a state, preserved
      by every step.
    - [Daemon]: what holds of every reachable state.
    - [Spec]: an abstract relay without buffers, channel or tasks, and the simulation
      that makes the daemon refine it.
    - [Startup]: [run] of [app.rs], its calls in order with every early return, and the
      set of tasks it spawns: which relay, socket, filter, mode and budget each is
      given ([Task]), which have ended, and what the drop of the rest releases.
    - [Ledger]: what those calls acquire and release.
    - [EndToEnd]: the tasks of a run as the parameters of [System], and what this says
      of a written frame in terms of the settings file.
    - [Main]: [main.rs], the subcommands with their defaults and the exit status.
    - [Regression]: the repository's unit tests, evaluated in the model.

    ** What the theorems show

    - The validator ([Wire], [Verdict]): acceptance is equivalent to a grammar and a
      policy; rejections are precise; the encrypted payload is never interpreted; empty or out-of-range configurations fail closed.
    - The relay ([Relay], [Lift]): what is injected is the same frame without its tag,
      and the two VLAN representations of a frame get the same verdict and are injected
      as the same bytes; an injected frame is not accepted again; the limiter is
      exact and its 64-bit register never wraps.
    - The configuration ([MacText], [Hostapd], [Config], [Validation]): parsers against their printed
      forms, discovery complete and fail-closed, validation exact, and the assembled
      filter is the configuration; together with the validator this says who may be
      relayed, and to whom.
    - The capture side ([Packet]): the kernel filter keeps exactly the candidates and
      costs no acceptable frame; the receive loop never returns this host's own
      traffic or stale bytes; capture starts only after the guards are in place.
    - The TAP ([Tap]): a finished relay or none; only the up flag is changed; clean-up
      attempts everything.
    - The daemon ([System], [Daemon]): on every interleaving the counters are exact
      modulo 2^64, every frame is accounted for (only the limiter and tasks that are
      ended drop any) and order is kept, the TAP only receives
      authorised frames and not faster than allowed, observe mode is passive, nothing
      panics, a blocked sender gets through, and the inject task drains and ends by
      steps of its own (at most 129 after the captures have stopped); the line logged at the end tells every counter.
    - The types ([Types]): from any typed state, reachable or not, every step leads to
      a typed state, in which every frame held is an untagged frame of the grammar.
    - The specification ([Spec]): the labels an observer sees of any run are those of a
      run of the abstract relay, so what that relay guarantees (no frame more often
      than it was heard, the budget per second, silence in observe mode) holds of the
      daemon.
    - Start and stop ([Startup], [Ledger], [EndToEnd]): set-up is ordered, and however a
      run ends, each device and socket that the system granted is released exactly
      once; relayed traffic is what was configured.
    - The command line ([Main]): what each subcommand's success means, and that
      [destroy] looks for what [run] installs, on the device under the name that the
      kernel reports.

    ** Modelling choices

    [usize] is [nat] with the wrap-around of 64 bits written out where the parser adds
    ([+ᵤ]); [u8] to [u64] quantities are [Z], and increments of [u64] wrap, since the
    build disables overflow checks.  Log output is modelled where computing it could
    panic.  Errors are values that keep what identifies the failing call; the wording
    of messages is not modelled.  The daemon runs on one thread, so the code between
    two awaits is one step; aborting a task at an await, as shutdown does, is an event
    that may happen at any time.  In [Startup] the tasks run at the awaits of [run], and a
    parameter says which of them end there; the order in which a [JoinSet] drops its
    tasks is a parameter too, with the law that it drops exactly those still in it
    ([abort_all_ok]).  Message bodies longer than the receive buffer are cut
    by the kernel, as [recvmsg] documents.

    Not modelled: the contents of third-party libraries (tokio, tun-rs, serde_yaml,
    clap, tracing) and of the kernel, which are parameters; in particular the YAML
    syntax with its refusal of unknown fields, argument syntax and usage texts, and
    the level filtering of log entries.  Packaging and unit files hold no logic. *)

From Stdlib Require Import ZArith Lia.
From Stdlib Require Import Strings.Byte.
From stdpp Require Import base list gmap numbers list_numbers.

Declare Scope rrb_scope.
Delimit Scope rrb_scope with rrb.

(** ** Machine integers

    [u8] data that travels on the wire is Stdlib's [byte]; [u8], [u16], [u32]
    and [u64] quantities are [Z] in range, wrapped where the code can wrap;
    [usize] is [nat], with the 64-bit wrap-around of the target written out. *)

Definition b2z (b : byte) : Z := Z.of_N (Byte.to_N b).

Definition z2b (z : Z) : byte :=
  default Byte.x00 (Byte.of_N (Z.to_N (z mod 256))).

(** [bytes_of] writes byte-string literals as lists of numbers. *)
Definition bytes_of (l : list Z) : list byte := z2b <$> l.

Definition usize_modulus : Z := (2 ^ 64)%Z.
Definition u64_modulus : Z := (2 ^ 64)%Z.

(** Wrapping [+] on [usize]: both Cargo profiles build without overflow checks. *)
Definition uadd (a b : nat) : nat :=
  Z.to_nat ((Z.of_nat a + Z.of_nat b) mod usize_modulus).

(** [usize::checked_add]. *)
Definition checked_add (a b : nat) : option nat :=
  if (Z.of_nat a + Z.of_nat b <? usize_modulus)%Z then Some (a + b) else None.

(** Wrapping [+ 1] on [u64]. *)
Definition u64_incr (z : Z) : Z := ((z + 1) mod u64_modulus)%Z.

Infix "+ᵤ" := uadd (at level 50, left associativity) : rrb_scope.

Definition u16_from_be_bytes (hi lo : byte) : Z := (b2z hi * 256 + b2z lo)%Z.
Definition u16_from_le_bytes (lo hi : byte) : Z := (b2z lo + b2z hi * 256)%Z.
Definition u16_to_be_bytes (z : Z) : list byte := [z2b (z / 256); z2b z].
Definition u16_to_le_bytes (z : Z) : list byte := [z2b z; z2b (z / 256)].

Definition is_u16 (z : Z) : Prop := (0 <= z < 65536)%Z.

Definition is_u64 (z : Z) : Prop := (0 <= z < u64_modulus)%Z.

(** ** Slices: [l[a..b]] where the code knows that [a <= b <= l.len()]. *)
Definition slice {A} (a b : nat) (l : list A) : list A := take (b - a) (drop a l).

(** ** Results: Rust's [Result<A, E>] with the monad of the [?] operator. *)
Inductive result (E A : Type) : Type :=
| Ok (a : A)
| Err (e : E).
Arguments Ok {E A} a.
Arguments Err {E A} e.

#[export] Instance result_ret E : MRet (result E) := fun A a => Ok a.
#[export] Instance result_bind E : MBind (result E) := fun A B k m =>
  match m with Ok a => k a | Err e => Err e end.
#[export] Instance result_fmap E : FMap (result E) := fun A B f m =>
  match m with Ok a => Ok (f a) | Err e => Err e end.

(** [Option::ok_or]. *)
Definition ok_or {E A} (o : option A) (e : E) : result E A :=
  match o with Some a => Ok a | None => Err e end.

(** [anyhow::ensure!]. *)
Definition ensure {E} (b : bool) (e : E) : result E unit :=
  if b then Ok tt else Err e.

(** [Result::is_ok]. *)
Definition is_ok {E A} (m : result E A) : bool :=
  match m with Ok _ => true | Err _ => false end.

(** The left-to-right loop of fallible steps: [for x in l { acc = step(acc, x)?; }]. *)
Fixpoint try_fold {E A S} (step : S -> A -> result E S) (acc : S) (l : list A) : result E S :=
  match l with
  | [] => Ok acc
  | x :: l' => acc' ← step acc x; try_fold step acc' l'
  end.

(** [l.iter().map(g).collect::<Result<Vec<_>>>()]: the first error wins. *)
Fixpoint try_map {E A B} (g : A -> result E B) (l : list A) : result E (list B) :=
  match l with
  | [] => Ok []
  | x :: l' => y ← g x; ys ← try_map g l'; Ok (y :: ys)
  end.

(** [l.iter().enumerate()]. *)
Definition enumerate {A} (l : list A) : list (nat * A) := zip (seq 0 (length l)) l.

(** ** Programs that talk to the operating system

    A computation appends the requests it makes to a trace; the answers come from
    an oracle that may depend on everything requested before. *)
Definition Sys (Ev E A : Type) : Type := list Ev -> result E A * list Ev.

#[export] Instance Sys_ret Ev E : MRet (Sys Ev E) := fun A a tr => (Ok a, tr).
#[export] Instance Sys_bind Ev E : MBind (Sys Ev E) := fun A B k m tr =>
  match m tr with
  | (Ok a, tr') => k a tr'
  | (Err e, tr') => (Err e, tr')
  end.

Definition request {Ev E Rs} (oracle : list Ev -> Ev -> Rs) (ev : Ev) : Sys Ev E Rs :=
  fun tr => (Ok (oracle tr ev), tr ++ [ev]).

Definition from_result {Ev E A} (r : result E A) : Sys Ev E A := fun tr => (r, tr).

(** Run [cleanup] when [m] fails: the drop of an owned resource on an early return. *)
Definition on_error {Ev E A} (m : Sys Ev E A) (cleanup : Ev) : Sys Ev E A := fun tr =>
  match m tr with
  | (Ok a, tr') => (Ok a, tr')
  | (Err e, tr') => (Err e, tr' ++ [cleanup])
  end.

(** ** Decidable equality and countability of bytes *)
#[export] Instance byte_eq_dec : EqDecision byte := Byte.byte_eq_dec.
#[export] Instance byte_inhabited : Inhabited byte := populate Byte.x00.
#[export] Program Instance byte_countable : Countable byte :=
  inj_countable Byte.to_N Byte.of_N _.
Next Obligation. intros x. apply Byte.of_to_N. Qed.

#[export] Instance result_eq_dec {E A} `{EqDecision E, EqDecision A} : EqDecision (result E A).
Proof. solve_decision. Defined.

(** ** Tactics *)

(** Split the conditionals and binds of a computation known to return. *)
Ltac invert_ok H :=
  repeat match type of H with
  | context [match ?x with _ => _ end] =>
      let E := fresh "E" in destruct x eqn:E; try discriminate H
  end.

(** Turn boolean tests of the code into the propositions they decide. *)
Ltac to_prop :=
  repeat match goal with
  | H : andb _ _ = true |- _ => apply andb_true_iff in H as [? ?]
  | H : orb _ _ = false |- _ => apply orb_false_iff in H as [? ?]
  | H : negb _ = true |- _ => apply negb_true_iff in H
  | H : negb _ = false |- _ => apply negb_false_iff in H
  | H : bool_decide _ = true |- _ => apply bool_decide_eq_true in H
  | H : bool_decide _ = false |- _ => apply bool_decide_eq_false in H
  | H : Nat.eqb _ _ = true |- _ => apply Nat.eqb_eq in H
  | H : Nat.eqb _ _ = false |- _ => apply Nat.eqb_neq in H
  | H : Nat.ltb _ _ = true |- _ => apply Nat.ltb_lt in H
  | H : Nat.ltb _ _ = false |- _ => apply Nat.ltb_ge in H
  | H : Nat.leb _ _ = true |- _ => apply Nat.leb_le in H
  | H : Nat.leb _ _ = false |- _ => apply Nat.leb_gt in H
  | H : Z.eqb _ _ = true |- _ => apply Z.eqb_eq in H
  | H : Z.eqb _ _ = false |- _ => apply Z.eqb_neq in H
  | H : Z.ltb _ _ = true |- _ => apply Z.ltb_lt in H
  | H : Z.ltb _ _ = false |- _ => apply Z.ltb_ge in H
  | H : Z.leb _ _ = true |- _ => apply Z.leb_le in H
  | H : Z.leb _ _ = false |- _ => apply Z.leb_gt in H
  end.

Create HintDb rrb.
Create Rewrite HintDb rrb.

(** ** Bytes and integers *)

Lemma b2z_range b : (0 <= b2z b < 256)%Z.
Proof. unfold b2z. pose proof (Byte.to_N_bounded b). lia. Qed.

Lemma z2b_b2z b : z2b (b2z b) = b.
Proof.
  unfold z2b. rewrite Z.mod_small by apply b2z_range.
  unfold b2z. rewrite N2Z.id, Byte.of_to_N. reflexivity.
Qed.

Lemma b2z_z2b z : b2z (z2b z) = (z mod 256)%Z.
Proof.
  unfold z2b. pose proof (Z.mod_pos_bound z 256 eq_refl) as Hr.
  destruct (Byte.of_N (Z.to_N (z mod 256))) as [b|] eqn:Hb; simpl.
  - apply Byte.to_of_N in Hb. unfold b2z. rewrite Hb. lia.
  - apply Byte.of_N_None_iff in Hb. lia.
Qed.

Lemma b2z_inj b1 b2 : b2z b1 = b2z b2 -> b1 = b2.
Proof. intros H. rewrite <- (z2b_b2z b1), <- (z2b_b2z b2). by rewrite H. Qed.

Lemma z2b_inj z1 z2 : (0 <= z1 < 256)%Z -> (0 <= z2 < 256)%Z -> z2b z1 = z2b z2 -> z1 = z2.
Proof.
  intros H1 H2 H%(f_equal b2z). rewrite !b2z_z2b, !Z.mod_small in H; lia.
Qed.

Lemma u16_from_le_range lo hi : is_u16 (u16_from_le_bytes lo hi).
Proof.
  unfold is_u16, u16_from_le_bytes.
  pose proof (b2z_range lo). pose proof (b2z_range hi). lia.
Qed.

Lemma u16_from_be_range hi lo : is_u16 (u16_from_be_bytes hi lo).
Proof.
  unfold is_u16, u16_from_be_bytes.
  pose proof (b2z_range lo). pose proof (b2z_range hi). lia.
Qed.

Lemma u16_le_roundtrip z lo hi :
  is_u16 z -> u16_to_le_bytes z = [lo; hi] -> u16_from_le_bytes lo hi = z.
Proof.
  unfold is_u16, u16_to_le_bytes, u16_from_le_bytes. intros Hz [= <- <-].
  rewrite !b2z_z2b. Z.div_mod_to_equations. lia.
Qed.

Lemma u16_be_roundtrip z lo hi :
  is_u16 z -> u16_to_be_bytes z = [hi; lo] -> u16_from_be_bytes hi lo = z.
Proof.
  unfold is_u16, u16_to_be_bytes, u16_from_be_bytes. intros Hz [= <- <-].
  rewrite !b2z_z2b. Z.div_mod_to_equations. lia.
Qed.

Lemma u16_to_from_le lo hi : u16_to_le_bytes (u16_from_le_bytes lo hi) = [lo; hi].
Proof.
  unfold u16_to_le_bytes, u16_from_le_bytes.
  pose proof (b2z_range lo). pose proof (b2z_range hi).
  f_equal; [|f_equal]; apply b2z_inj; rewrite b2z_z2b; Z.div_mod_to_equations; lia.
Qed.

Lemma u16_to_from_be hi lo : u16_to_be_bytes (u16_from_be_bytes hi lo) = [hi; lo].
Proof.
  unfold u16_to_be_bytes, u16_from_be_bytes.
  pose proof (b2z_range lo). pose proof (b2z_range hi).
  f_equal; [|f_equal]; apply b2z_inj; rewrite b2z_z2b; Z.div_mod_to_equations; lia.
Qed.

Lemma uadd_small a b : (Z.of_nat a + Z.of_nat b < usize_modulus)%Z -> uadd a b = a + b.
Proof. unfold uadd, usize_modulus. intros H. rewrite Z.mod_small; lia. Qed.

Lemma checked_add_small a b :
  (Z.of_nat a + Z.of_nat b < usize_modulus)%Z -> checked_add a b = Some (a + b).
Proof. unfold checked_add. intros H. by rewrite (proj2 (Z.ltb_lt _ _) H). Qed.

(** ** Results *)

Lemma bind_Ok {E A B} (m : result E A) (k : A -> result E B) b :
  (m ≫= k) = Ok b <-> exists a, m = Ok a /\ k a = Ok b.
Proof.
  destruct m as [a|e]; simpl; split.
  - eauto.
  - by intros (a' & [= ->] & ?).
  - discriminate.
  - by intros (a' & ? & ?).
Qed.

Lemma bind_Err {E A B} (m : result E A) (k : A -> result E B) e :
  (m ≫= k) = Err e <-> m = Err e \/ exists a, m = Ok a /\ k a = Err e.
Proof.
  destruct m as [a|e']; simpl; split.
  - eauto.
  - by intros [?|(a' & [= ->] & ?)].
  - intros [= ->]. by left.
  - by intros [[= ->]|(a' & ? & ?)].
Qed.

Lemma ok_or_Ok {E A} (o : option A) (e : E) a : ok_or o e = Ok a <-> o = Some a.
Proof. destruct o; simpl; naive_solver. Qed.

Lemma ensure_Ok {E} b (e : E) u : ensure b e = Ok u <-> b = true.
Proof. destruct b, u; simpl; naive_solver. Qed.

Lemma ensure_Err {E} b (e e' : E) : ensure b e = Err e' <-> e = e' /\ b = false.
Proof. destruct b; split; [done|by intros [_ ?]|by intros [= <-]|by intros [<- _]]. Qed.

Lemma try_fold_app {E A S} (step : S -> A -> result E S) acc l1 l2 :
  try_fold step acc (l1 ++ l2) = (acc' ← try_fold step acc l1; try_fold step acc' l2).
Proof.
  revert acc. induction l1 as [|x l1 IH]; intros acc; [done|]. simpl.
  destruct (step acc x); simpl; [apply IH|done].
Qed.

(** Loop-invariant rule: [I i s] is the state before element [i] is processed. *)
Lemma try_fold_inv {E A S} (step : S -> A -> result E S) (I : nat -> S -> Prop) l s s' :
  I 0 s ->
  (forall i x s1 s2, l !! i = Some x -> I i s1 -> step s1 x = Ok s2 -> I (i + 1) s2) ->
  try_fold step s l = Ok s' ->
  I (length l) s'.
Proof.
  revert s s'. induction l as [|x l IH] using rev_ind; intros s s' H0 Hstep Hrun.
  - by injection Hrun as <-.
  - rewrite try_fold_app in Hrun. apply bind_Ok in Hrun as (s1 & Hl & Hx).
    simpl in Hx. apply bind_Ok in Hx as (s2 & Hx & [= <-]).
    rewrite length_app. simpl. eapply Hstep; [| |exact Hx].
    + by rewrite lookup_app_r, Nat.sub_diag by lia.
    + eapply IH; [done| |done]. intros i y s3 s4 Hi. apply Hstep.
      by apply lookup_app_l_Some.
Qed.

(** Where a failing loop failed. *)
Lemma try_fold_err {E A S} (step : S -> A -> result E S) (I : nat -> S -> Prop) l s e :
  I 0 s ->
  (forall i x s1 s2, l !! i = Some x -> I i s1 -> step s1 x = Ok s2 -> I (i + 1) s2) ->
  try_fold step s l = Err e ->
  exists i x s', l !! i = Some x /\ I i s' /\ step s' x = Err e.
Proof.
  induction l as [|x l IH] using rev_ind; intros H0 Hstep Hrun; [done|].
  assert (forall i y s1 s2, l !! i = Some y -> I i s1 -> step s1 y = Ok s2 -> I (i + 1) s2) as Hl.
  { intros i y s1 s2 Hi. apply Hstep. by apply lookup_app_l_Some. }
  rewrite try_fold_app in Hrun. apply bind_Err in Hrun as [Hrun|(s1 & Hs1 & Hrun)].
  - destruct (IH H0 Hl Hrun) as (i & y & s' & Hi & Hrest). exists i, y, s'.
    split; [by apply lookup_app_l_Some|done].
  - simpl in Hrun. apply bind_Err in Hrun as [Hrun|(s2 & _ & ?)]; [|done].
    exists (length l), x, s1. split_and!; [by rewrite lookup_app_r, Nat.sub_diag by lia| |done].
    by eapply try_fold_inv.
Qed.

(** ** Slices and arrays *)

Lemma length_slice {A} a b (l : list A) : b <= length l -> length (slice a b l) = b - a.
Proof. intros. unfold slice. rewrite length_take, length_drop. lia. Qed.

Lemma slice_app_l {A} (p q : list A) b : b = length p -> slice 0 b (p ++ q) = p.
Proof. intros ->. unfold slice. rewrite drop_0, Nat.sub_0_r. apply take_app_length. Qed.

Lemma slice_app_mid {A} (p q r : list A) a b :
  a = length p -> b = length p + length q -> slice a b (p ++ q ++ r) = q.
Proof.
  intros -> ->. unfold slice. rewrite drop_app_length.
  replace (length p + length q - length p) with (length q) by lia.
  apply take_app_length.
Qed.

Lemma slice_split {A} a b c (l : list A) :
  a <= b -> b <= c -> slice a c l = slice a b l ++ slice b c l.
Proof.
  intros Hab Hbc. unfold slice.
  replace (c - a) with ((b - a) + (c - b)) by lia.
  rewrite <- take_take_drop, drop_drop. do 3 f_equal. lia.
Qed.

Lemma slice_nil {A} a (l : list A) : slice a a l = [].
Proof. unfold slice. by rewrite Nat.sub_diag. Qed.

Lemma lookup_slice {A} a b (l : list A) i : i < b - a -> slice a b l !! i = l !! (a + i).
Proof. intros. unfold slice. rewrite lookup_take_lt, lookup_drop by lia. done. Qed.

Lemma slice_slice {A} a b c d (l : list A) :
  c + b <= d -> slice a b (slice c d l) = slice (c + a) (c + b) l.
Proof.
  intros Hb. unfold slice. rewrite skipn_firstn_comm, take_take, drop_drop.
  f_equal. lia.
Qed.

Lemma lookup_total_slice {A} `{Inhabited A} a b (l : list A) i :
  i < b - a -> slice a b l !!! i = l !!! (a + i).
Proof. intros Hi. by rewrite !list_lookup_total_alt, lookup_slice. Qed.

Lemma slice_full {A} (l : list A) b : length l <= b -> slice 0 b l = l.
Proof. intros. unfold slice. rewrite drop_0. apply take_ge. lia. Qed.

(** Cutting a known encoding off the front of a slice. *)
Lemma slice_app_inv {A} a c (l p q : list A) :
  c <= length l -> slice a c l = p ++ q ->
  a + length p <= c \/ p = [] /\ q = [].
Proof.
  intros Hc H. assert (length (slice a c l) = c - a) as Hl by by apply length_slice.
  rewrite H, length_app in Hl.
  destruct (decide (a <= c)); [left; lia|right].
  split; apply length_zero_iff_nil; lia.
Qed.

Lemma slice_prefix {A} a b c (l p q : list A) :
  slice a c l = p ++ q -> b = a + length p -> b <= c -> slice a b l = p.
Proof.
  intros H -> Hc. apply (f_equal (take (length p))) in H.
  rewrite take_app_length in H. rewrite <- H at 2. unfold slice.
  rewrite take_take. f_equal. lia.
Qed.

Lemma slice_suffix {A} a b c (l p q : list A) :
  slice a c l = p ++ q -> b = a + length p -> slice b c l = q.
Proof.
  intros H ->. apply (f_equal (drop (length p))) in H.
  rewrite drop_app_length in H. rewrite <- H. unfold slice.
  rewrite skipn_firstn_comm, drop_drop. f_equal. lia.
Qed.

(** ** Bounded scans: the [for] loops that set a flag or remember an index. *)

Lemma fold_flag {A} (P : A -> bool) l b :
  fold_left (fun found x => if P x then true else found) l b = b || existsb P l.
Proof.
  revert b. induction l as [|x l IH]; intros b; simpl; [by rewrite orb_false_r|].
  rewrite IH. destruct (P x), b; done.
Qed.

Lemma fold_flag_seq (P : nat -> bool) n :
  fold_left (fun found i => if P i then true else found) (seq 0 n) false = true <->
  exists i, i < n /\ P i = true.
Proof.
  rewrite fold_flag. simpl. rewrite existsb_exists. setoid_rewrite in_seq.
  split; intros (i & ? & ?); exists i; split; auto; lia.
Qed.

Lemma fold_last_seq_Some (P : nat -> bool) n i :
  fold_left (fun m i => if P i then Some i else m) (seq 0 n) None = Some i <->
  i < n /\ P i = true /\ forall j, i < j < n -> P j = false.
Proof.
  induction n as [|n IH]; [simpl; split; [done|lia]|].
  rewrite seq_S, fold_left_app. simpl. destruct (P n) eqn:Hn.
  - split.
    + intros [= <-]. repeat split; [lia|done|intros; lia].
    + intros (Hi & Hp & Hlast). f_equal.
      destruct (decide (i = n)); [done|]. by rewrite (Hlast n) in Hn by lia.
  - rewrite IH. split; intros (Hi & Hp & Hlast); repeat split; try done; try lia.
    + intros j Hj. destruct (decide (j = n)) as [->|]; [done|]. apply Hlast. lia.
    + destruct (decide (i = n)) as [->|]; [congruence|lia].
    + intros j Hj. apply Hlast. lia.
Qed.

Lemma fold_last_seq_None (P : nat -> bool) n :
  fold_left (fun m i => if P i then Some i else m) (seq 0 n) None = None <->
  forall i, i < n -> P i = false.
Proof.
  induction n as [|n IH]; [simpl; split; [lia|done]|].
  rewrite seq_S, fold_left_app. simpl. destruct (P n) eqn:Hn.
  - split; [done|]. intros H. by rewrite H in Hn by lia.
  - rewrite IH. split; intros H i Hi; [|apply H; lia].
    destruct (decide (i = n)) as [->|]; [done|]. apply H. lia.
Qed.

(** A loop whose steps cannot fail is a plain fold. *)
Lemma try_fold_total {E A S} (step : S -> A -> result E S) (g : S -> A -> S) l acc :
  (forall s x, x ∈ l -> step s x = Ok (g s x)) -> try_fold step acc l = Ok (fold_left g l acc).
Proof.
  revert acc. induction l as [|x l IH]; intros acc Hok; simpl; [done|].
  rewrite Hok by set_solver. simpl. apply IH. intros. apply Hok. set_solver.
Qed.

Lemma try_map_Ok {E A B} (g : A -> result E B) l ys :
  try_map g l = Ok ys <-> Forall2 (fun x y => g x = Ok y) l ys.
Proof.
  revert ys. induction l as [|x l IH]; intros ys; simpl; split.
  - intros [= <-]. constructor.
  - intros H. by inversion H.
  - intros (y & Hy & (ys' & Hys & [= <-])%bind_Ok)%bind_Ok. constructor; [done|]. by apply IH.
  - intros H. inversion H as [|? y ? ys' Hy Hys]; subst. rewrite Hy. cbn [mbind result_bind].
    by rewrite (proj2 (IH ys') Hys).
Qed.

Lemma lookup_enumerate {A} (l : list A) i j x :
  enumerate l !! i = Some (j, x) <-> j = i /\ l !! i = Some x.
Proof.
  unfold enumerate. rewrite lookup_zip_Some, lookup_seq. split.
  - intros [[-> _] ?]. done.
  - intros [-> Hx]. split; [split; [done|]|done]. by apply lookup_lt_Some in Hx.
Qed.

Lemma length_enumerate {A} (l : list A) : length (enumerate l) = length l.
Proof. unfold enumerate. rewrite length_zip_with, length_seq. lia. Qed.

(** The loop that fills an array with [out[i] = g(x)?]. *)
Lemma fill_array {E A B} (g : A -> result E B) l : forall k pre rest,
  length pre = k -> length rest = length l ->
  try_fold (fun out '(i, x) => v ← g x; Ok (<[i := v]> out)) (pre ++ rest) (zip (seq k (length l)) l) =
  (vs ← try_map g l; Ok (pre ++ vs)).
Proof.
  induction l as [|x l IH]; intros k pre rest Hk Hr; simpl.
  { destruct rest; [done|discriminate Hr]. }
  destruct rest as [|r rest]; [discriminate Hr|]. injection Hr as Hr.
  destruct (g x) as [v|e]; [|done]. cbn [mbind result_bind].
  rewrite insert_app_r_alt by lia. rewrite Hk, Nat.sub_diag. cbn [insert list_insert].
  rewrite (app_assoc pre [v] rest : pre ++ v :: rest = (pre ++ [v]) ++ rest).
  rewrite (IH (S k)); [|rewrite length_app; simpl; lia|done].
  destruct (try_map g l); [|done]. cbn [mbind result_bind]. by rewrite <- app_assoc.
Qed.

#[export] Hint Resolve b2z_range u16_from_le_range u16_from_be_range : rrb.
#[export] Hint Rewrite @length_app @length_take @length_drop @length_replicate : rrb.

(** ** Counting *)

Definition count_if {A} (P : A -> bool) (l : list A) : nat := length (List.filter P l).

Lemma count_if_app {A} (P : A -> bool) l1 l2 : count_if P (l1 ++ l2) = count_if P l1 + count_if P l2.
Proof. unfold count_if. by rewrite List.filter_app, length_app. Qed.

Lemma count_if_cons {A} (P : A -> bool) x l : count_if P (x :: l) = (if P x then 1 else 0) + count_if P l.
Proof. unfold count_if. simpl. by destruct (P x). Qed.

Lemma count_if_snoc {A} (P : A -> bool) x l : count_if P (l ++ [x]) = count_if P l + (if P x then 1 else 0).
Proof. rewrite count_if_app, count_if_cons. unfold count_if. simpl. lia. Qed.

Lemma count_if_false {A} (l : list A) : count_if (fun _ => false) l = 0.
Proof. induction l; [done|]. by rewrite count_if_cons. Qed.

Lemma count_if_true {A} (l : list A) : count_if (fun _ => true) l = length l.
Proof. induction l as [|x l IH]; [done|]. rewrite count_if_cons, IH. done. Qed.

Lemma count_if_ext {A} (P Q : A -> bool) l : (forall x, P x = Q x) -> count_if P l = count_if Q l.
Proof. intros H. induction l as [|x l IH]; [done|]. by rewrite !count_if_cons, H, IH. Qed.

#[export] Instance count_if_perm {A} (P : A -> bool) : Proper ((≡ₚ) ==> (=)) (count_if P).
Proof. induction 1; rewrite ?count_if_cons; lia. Qed.

Lemma Forall_elem {A} (P : A -> Prop) l x : Forall P l -> x ∈ l -> P x.
Proof. intros Hl Hx. by eapply Forall_forall in Hl. Qed.

(** Extending one list of a list of lists extends the concatenation, up to order. *)
Lemma concat_insert_app {A B} (g : A -> list B) (l : list A) i x y k :
  l !! i = Some x -> g y = g x ++ k -> concat (g <$> <[i:=y]> l) ≡ₚ concat (g <$> l) ++ k.
Proof.
  intros Hi Hg. rewrite list_fmap_insert, Hg. revert i Hi. induction l as [|z l IH]; intros [|i] Hi; simplify_eq/=.
  - rewrite <- !app_assoc. apply Permutation_app_head, Permutation_app_comm.
  - rewrite IH by done. by rewrite app_assoc.
Qed.

Lemma concat_insert_same {A B} (g : A -> list B) (l : list A) i x y :
  l !! i = Some x -> g y = g x -> concat (g <$> <[i:=y]> l) = concat (g <$> l).
Proof.
  intros Hi Hg. rewrite list_fmap_insert, Hg, list_insert_id; [done|]. by rewrite list_lookup_fmap, Hi.
Qed.

(** ** Programs over the operating system: lemmas *)

Lemma Sys_bind_Ok {Ev E A B} (m : Sys Ev E A) (k : A -> Sys Ev E B) tr y tr'' :
  (m ≫= k) tr = (Ok y, tr'') <-> exists x tr', m tr = (Ok x, tr') /\ k x tr' = (Ok y, tr'').
Proof.
  unfold mbind, Sys_bind. destruct (m tr) as [[x|e] tr'].
  - split; [eauto|]. by intros (? & ? & [= <- <-] & ?).
  - split; [done|]. by intros (? & ? & ? & ?).
Qed.

Lemma request_Ok {Ev E Rs} (oracle : list Ev -> Ev -> Rs) ev tr (r : result E Rs) tr' :
  request oracle ev tr = (r, tr') <-> r = Ok (oracle tr ev) /\ tr' = tr ++ [ev].
Proof. unfold request. split; [by intros [= <- <-]|by intros [-> ->]]. Qed.

Lemma from_result_Ok {Ev E A} (m : result E A) (tr tr' : list Ev) r :
  from_result m tr = (r, tr') <-> r = m /\ tr' = tr.
Proof. unfold from_result. split; [by intros [= <- <-]|by intros [-> ->]]. Qed.

Lemma mret_Ok {Ev E A} (x y : A) (tr tr' : list Ev) :
  mret (M := Sys Ev E) x tr = (Ok y, tr') <-> y = x /\ tr' = tr.
Proof. unfold mret, Sys_ret. split; [by intros [= <- <-]|by intros [-> ->]]. Qed.

(** Every request that [m] makes, on any run, satisfies [P]. *)
Definition emits {Ev E A} (P : Ev -> Prop) (m : Sys Ev E A) : Prop :=
  forall tr, exists ext, (m tr).2 = tr ++ ext /\ Forall P ext.

Lemma emits_bind {Ev E A B} (P : Ev -> Prop) (m : Sys Ev E A) (k : A -> Sys Ev E B) :
  emits P m -> (forall x, emits P (k x)) -> emits P (m ≫= k).
Proof.
  intros Hm Hk tr. destruct (Hm tr) as (e1 & He1 & H1). unfold mbind, Sys_bind.
  destruct (m tr) as [[x|e] tr']; cbn in *; subst tr'; [|eauto].
  destruct (Hk x (tr ++ e1)) as (e2 & -> & H2). exists (e1 ++ e2). split; [by rewrite app_assoc|by apply Forall_app_2].
Qed.

Lemma emits_request {Ev E Rs} (P : Ev -> Prop) (oracle : list Ev -> Ev -> Rs) ev :
  P ev -> emits P (request (E := E) oracle ev).
Proof. intros H tr. exists [ev]. cbn. split; [done|by constructor]. Qed.

Lemma emits_from_result {Ev E A} (P : Ev -> Prop) (m : result E A) : emits P (from_result m).
Proof. intros tr. exists []. cbn. by rewrite app_nil_r. Qed.

Lemma emits_mret {Ev E A} (P : Ev -> Prop) (x : A) : emits P (mret (M := Sys Ev E) x).
Proof. intros tr. exists []. cbn. by rewrite app_nil_r. Qed.

#[export] Hint Resolve emits_bind emits_request emits_from_result emits_mret : rrb.
