(* ===== verification/Proto.v ===== *)
(** * The RRB protocol model: [src/src/proto/mod.rs]

    The size constants, the filter identity ([Peer], [Local], [Filter]) with its
    defaults, and the [Counter] vocabulary.  A Rust array [[T; N]] is a list; the
    [*_wf] predicates say that it has its declared length and that every integer
    field is in the range of its type. *)

From Stdlib Require Import ZArith Lia Strings.Byte.
From Stdlib Require Import Strings.String.
From stdpp Require Import base list numbers.
From S2P Require Import Prelude.
Local Open Scope nat_scope.

Definition MAX_PEERS : nat := 8.
Definition MAX_LOCALS : nat := 8.
Definition MAX_FRAME : nat := 2048.
Definition MAX_TLVS : nat := 16.
Definition MAX_R0KH : nat := 48.
Definition MAX_PEER_BSSIDS : nat := 8.

(** A [[u8; 6]] MAC address. *)
Definition Mac : Type := list byte.

Record Peer := mkPeer {
  peer_mac : Mac;
  bssid_count : Z;
  bssids : list Mac;
}.

Record Local_ := mkLocal {
  local_bssid : Mac;
  r0kh_len : Z;
  r0kh : list byte;
}.

Record Filter := mkFilter {
  management_vlan : Z;
  peer_count : Z;
  local_count : Z;
  target_mac : Mac;
  locals : list Local_;
  peers : list Peer;
}.

Definition Peer_default : Peer :=
  {| peer_mac := replicate 6 Byte.x00;
     bssid_count := 0;
     bssids := replicate MAX_PEER_BSSIDS (replicate 6 Byte.x00) |}.

Definition Local_default : Local_ :=
  {| local_bssid := replicate 6 Byte.x00;
     r0kh_len := 0;
     r0kh := replicate MAX_R0KH Byte.x00 |}.

Definition Filter_default : Filter :=
  {| management_vlan := 1;
     peer_count := 0;
     local_count := 0;
     target_mac := replicate 6 Byte.x00;
     locals := replicate MAX_LOCALS Local_default;
     peers := replicate MAX_PEERS Peer_default |}.

Inductive Counter : Set :=
| Seen
| Length
| Vlan_
| EtherAddress
| OuiType
| SourceBss
| DestinationBss
| AuthLength
| Tlv
| BroadcastScope
| Matched
| Observed
| RateLimited
| Injected
| InjectError
| Pull
| Response
| Push
| SeqRequest
| SeqResponse.

(** [c as usize]: the discriminant of the [repr(u32)] enum. *)
Definition counter_index (c : Counter) : nat :=
  match c with
  | Seen => 0 | Length => 1 | Vlan_ => 2 | EtherAddress => 3 | OuiType => 4
  | SourceBss => 5 | DestinationBss => 6 | AuthLength => 7 | Tlv => 8
  | BroadcastScope => 9 | Matched => 10 | Observed => 11 | RateLimited => 12
  | Injected => 13 | InjectError => 14 | Pull => 15 | Response => 16
  | Push => 17 | SeqRequest => 18 | SeqResponse => 19
  end.

Definition COUNTER_NAMES : list string :=
  [ "seen"; "reject_length"; "reject_vlan"; "reject_ether_address";
    "reject_oui_or_type"; "reject_source_bss"; "reject_destination_bss";
    "reject_auth_length"; "reject_tlv"; "reject_broadcast_scope"; "matched";
    "observed"; "rate_limited"; "injected"; "inject_error"; "pull"; "response";
    "push"; "seq_request"; "seq_response" ]%string.

(** The counters in declaration order. *)
Definition all_counters : list Counter :=
  [ Seen; Length; Vlan_; EtherAddress; OuiType; SourceBss; DestinationBss;
    AuthLength; Tlv; BroadcastScope; Matched; Observed; RateLimited; Injected;
    InjectError; Pull; Response; Push; SeqRequest; SeqResponse ].

(** The counters a frame can be rejected with. *)
Definition reject_counters : list Counter :=
  [ Length; Vlan_; EtherAddress; OuiType; SourceBss; DestinationBss;
    AuthLength; Tlv; BroadcastScope ].

(** The counters of the five message types. *)
Definition kind_counters : list Counter :=
  [ Pull; Response; Push; SeqRequest; SeqResponse ].

#[export] Instance Counter_eq_dec : EqDecision Counter.
Proof. solve_decision. Defined.
#[export] Instance Peer_eq_dec : EqDecision Peer.
Proof. solve_decision. Defined.
#[export] Instance Local_eq_dec : EqDecision Local_.
Proof. solve_decision. Defined.
#[export] Instance Filter_eq_dec : EqDecision Filter.
Proof. solve_decision. Defined.
#[export] Instance Peer_inhabited : Inhabited Peer := populate Peer_default.
#[export] Instance Local_inhabited : Inhabited Local_ := populate Local_default.
#[export] Instance Filter_inhabited : Inhabited Filter := populate Filter_default.

(** ** What the Rust types guarantee *)

Definition Peer_wf (p : Peer) : Prop :=
  length (peer_mac p) = 6 /\ (0 <= bssid_count p < 256)%Z /\
  length (bssids p) = MAX_PEER_BSSIDS /\ Forall (fun b => length b = 6) (bssids p).

Definition Local_wf (l : Local_) : Prop :=
  length (local_bssid l) = 6 /\ (0 <= r0kh_len l < 256)%Z /\ length (r0kh l) = MAX_R0KH.

Definition Filter_wf (f : Filter) : Prop :=
  is_u16 (management_vlan f) /\ (0 <= peer_count f < 256)%Z /\
  (0 <= local_count f < 256)%Z /\ length (target_mac f) = 6 /\
  length (locals f) = MAX_LOCALS /\ Forall Local_wf (locals f) /\
  length (peers f) = MAX_PEERS /\ Forall Peer_wf (peers f).

Lemma counter_index_inj c1 c2 : counter_index c1 = counter_index c2 -> c1 = c2.
Proof. destruct c1, c2; simpl; congruence. Qed.

Lemma counter_index_lt c : counter_index c < length COUNTER_NAMES.
Proof. destruct c; simpl; lia. Qed.

Lemma counter_index_surj i : i < length COUNTER_NAMES -> exists c, counter_index c = i.
Proof.
  intros Hi. destruct (lookup_lt_is_Some_2 all_counters i Hi) as [c Hc]. exists c.
  do 20 (destruct i as [|i]; [by injection Hc as <-|]). simpl in Hi. lia.
Qed.

Lemma all_counters_lookup c : all_counters !! counter_index c = Some c.
Proof. destruct c; reflexivity. Qed.

Lemma Filter_default_wf : Filter_wf Filter_default.
Proof.
  repeat split; simpl; try lia;
    by repeat (constructor || split || lia).
Qed.

Lemma Filter_wf_peer f i : Filter_wf f -> i < MAX_PEERS -> Peer_wf (peers f !!! i).
Proof.
  intros (_ & _ & _ & _ & _ & _ & Hlen & Hall) Hi.
  eapply Forall_lookup_total_1; [exact Hall|lia].
Qed.

Lemma Filter_wf_local f i : Filter_wf f -> i < MAX_LOCALS -> Local_wf (locals f !!! i).
Proof.
  intros (_ & _ & _ & _ & Hlen & Hall & _) Hi.
  eapply Forall_lookup_total_1; [exact Hall|lia].
Qed.

#[export] Hint Resolve Filter_default_wf Filter_wf_peer Filter_wf_local : rrb.
