(* ===== verification/Parse.v ===== *)
(** * The frame parser: [src/src/proto/parse.rs]

    [classify] and [parse_rrb] are translated statement by statement, over the
    [ReadFrame] trait as in the source.  Every early [return Err(..)] is a branch
    of the definition, every bounded [for] loop a fold over its range. *)

From Stdlib Require Import ZArith Lia Strings.Byte.
From stdpp Require Import base list numbers list_numbers sets.
From S2P Require Import Prelude Proto.
Local Open Scope nat_scope.
Local Open Scope rrb_scope.

Definition ETH_P_RRB : Z := 0x88b7.
Definition TPID_8021Q : Z := 0x8100.
Definition TCI_VID_MASK : Z := 0x0fff.
Definition ETH_HEADER_LEN : nat := 14.
Definition ETH_TYPE_OFFSET : nat := 12.
Definition VLAN_TAG_LEN : nat := 4.
Definition RRB_HEADER_LEN : nat := 20.
Definition RRB_SELECTOR : list byte := [Byte.x00; Byte.x13; Byte.x74; Byte.x00; Byte.x01].
Definition KIND_PULL : Z := 1.
Definition KIND_RESPONSE : Z := 2.
Definition KIND_PUSH : Z := 3.
Definition KIND_SEQ_REQUEST : Z := 4.
Definition KIND_SEQ_RESPONSE : Z := 5.
Definition TLV_R0KH : Z := 4.
Definition TLV_R1KH : Z := 5.
Definition TLV_HEADER_LEN : nat := 4.
Definition SIV_LEN : nat := 16.
Definition BROADCAST : Mac := replicate 6 Byte.xff.

(** ** The [ReadFrame] trait and its implementation for byte slices *)

Class ReadFrame (R : Type) := {
  rf_len : R -> nat;
  (** [rf_read r n offset] is [r.read::<n>(offset)]. *)
  rf_read : R -> nat -> nat -> option (list byte);
}.

(** The default method of the trait. *)
Definition rf_is_empty {R} `{ReadFrame R} (r : R) : bool := rf_len r =? 0.

(** [self.get(a..b)]: [None] when the range is not within the slice. *)
Definition slice_get {A} (l : list A) (a b : nat) : option (list A) :=
  if (a <=? b) && (b <=? length l) then Some (slice a b l) else None.

(** [self.get(offset..offset.checked_add(N)?)?.try_into().ok()]. *)
Definition slice_read (l : list byte) (n offset : nat) : option (list byte) :=
  stop ← checked_add offset n;
  s ← slice_get l offset stop;
  if length s =? n then Some s else None.

#[export] Instance slice_ReadFrame : ReadFrame (list byte) :=
  {| rf_len := length; rf_read := slice_read |}.

Record Vlan := mkVlan {
  present : bool;
  proto : Z;
  tci : Z;
}.

(** [#[derive(Default)]]. *)
Definition Vlan_default : Vlan := {| present := false; proto := 0; tci := 0 |}.

Record Match := mkMatch {
  kind : Z;
  body_offset : nat;
}.

#[export] Instance Vlan_eq_dec : EqDecision Vlan.
Proof. solve_decision. Defined.
#[export] Instance Match_eq_dec : EqDecision Match.
Proof. solve_decision. Defined.

(** ** The bounded scans of [parse_rrb] *)

(** [for i in 0..MAX_PEERS { if i < peer_count && peers[i].mac == src
    { matched_peer = Some(i) } }]: the last match stays. *)
Definition scan_peers (f : Filter) (src : Mac) : option nat :=
  fold_left
    (fun matched i =>
       if (i <? Z.to_nat (peer_count f)) && bool_decide (peer_mac (peers f !!! i) = src)
       then Some i else matched)
    (seq 0 MAX_PEERS) None.

Definition scan_bssids (peer : Peer) (bss : Mac) : bool :=
  fold_left
    (fun found j =>
       if (j <? Z.to_nat (bssid_count peer)) && bool_decide (bssids peer !!! j = bss)
       then true else found)
    (seq 0 MAX_PEER_BSSIDS) false.

Definition scan_locals (f : Filter) (bss : Mac) : bool :=
  fold_left
    (fun found i =>
       if (i <? Z.to_nat (local_count f)) && bool_decide (local_bssid (locals f !!! i) = bss)
       then true else found)
    (seq 0 MAX_LOCALS) false.

(** The source BSS test on the matched peer: [true] when the frame is rejected. *)
Definition source_bss_rejected (f : Filter) (matched_peer : option nat) (bss : Mac) : bool :=
  match matched_peer with
  | Some i =>
      let peer := peers f !!! i in
      if (0 <? bssid_count peer)%Z then negb (scan_bssids peer bss) else false
  | None => false
  end.

(** The mutable locals of the TLV walk. *)
Record Walk := mkWalk {
  pos : nat;
  tags : list Z;
  r0kh_position : nat;
  r0kh_size : nat;
}.

(** [for (j, previous) in tags.iter().enumerate() { if j < i && *previous == tag .. }] *)
Definition seen_tag (tags : list Z) (i : nat) (tag : Z) : bool :=
  existsb (fun '(j, previous) => (j <? i) && (previous =? tag)%Z) (zip (seq 0 (length tags)) tags).

Section Parser.
Context {R : Type} `{ReadFrame R}.

(** The TLV walk: [fuel] counts the iterations left of [for i in 0..MAX_TLVS]. *)
Fixpoint walk_tlvs (r : R) (end_ : nat) (fuel i : nat) (w : Walk) : result Counter Walk :=
  match fuel with
  | 0 => Ok w
  | S fuel' =>
      if pos w =? end_ then Ok w
      else if end_ <? pos w +ᵤ TLV_HEADER_LEN then Err Tlv
      else
        tlv ← ok_or (rf_read r 4 (pos w)) Tlv;
        let tag := u16_from_le_bytes (tlv !!! 0) (tlv !!! 1) in
        let size := Z.to_nat (u16_from_le_bytes (tlv !!! 2) (tlv !!! 3)) in
        if seen_tag (tags w) i tag then Err Tlv
        else
          let tags' := <[i := tag]> (tags w) in
          let pos1 := pos w +ᵤ TLV_HEADER_LEN in
          if end_ <? pos1 +ᵤ size then Err Tlv
          else
            let is_r0kh := (tag =? TLV_R0KH)%Z in
            walk_tlvs r end_ fuel' (S i)
              {| pos := pos1 +ᵤ size;
                 tags := tags';
                 r0kh_position := if is_r0kh then pos1 else r0kh_position w;
                 r0kh_size := if is_r0kh then size else r0kh_size w |}
  end.

(** The inner comparison loop [for j in 0..MAX_R0KH], which breaks at [size]. *)
Fixpoint same_r0kh (r : R) (position size : nat) (id : list byte) (fuel j : nat)
    (identical : bool) : result Counter bool :=
  match fuel with
  | 0 => Ok identical
  | S fuel' =>
      if j =? size then Ok identical
      else
        b ← ok_or (rf_read r 1 (position +ᵤ j)) Tlv;
        same_r0kh r position size id fuel' (S j)
          (if bool_decide (b !!! 0 = id !!! j) then identical else false)
  end.

(** The scan over the locals' R0KH-IDs [for i in 0..MAX_LOCALS]. *)
Definition scan_r0kh (r : R) (f : Filter) (position size : nat) : result Counter bool :=
  try_fold
    (fun found i =>
       if (Z.to_nat (local_count f) <=? i) ||
          negb (Z.to_nat (r0kh_len (locals f !!! i)) =? size)
       then Ok found
       else
         identical ← same_r0kh r position size (r0kh (locals f !!! i)) MAX_R0KH 0 true;
         Ok (if (identical : bool) then true else found))
    false (seq 0 MAX_LOCALS).

Definition parse_rrb (r : R) (body : nat) (f : Filter) : result Counter Match :=
  dst ← ok_or (rf_read r 6 0) Length;
  src ← ok_or (rf_read r 6 6) Length;
  if bool_decide (dst <> target_mac f) && bool_decide (dst <> BROADCAST) then Err EtherAddress
  else
  let matched_peer := scan_peers f src in
  if (0 <? peer_count f)%Z && bool_decide (matched_peer = None) then Err EtherAddress
  else
  header ← ok_or (rf_read r RRB_HEADER_LEN body) Length;
  let header5 := b2z (header !!! 5) in
  if bool_decide (slice 0 5 header <> RRB_SELECTOR) || (header5 <? KIND_PULL)%Z
     || (KIND_SEQ_RESPONSE <? header5)%Z then Err OuiType
  else if source_bss_rejected f matched_peer (slice 6 12 header) then Err SourceBss
  else
  let broadcast := bool_decide (slice 12 18 header = BROADCAST) in
  if negb broadcast && negb (scan_locals f (slice 12 18 header)) then Err DestinationBss
  else
  let alen := Z.to_nat (u16_from_le_bytes (header !!! 18) (header !!! 19)) in
  let end_ := body +ᵤ RRB_HEADER_LEN +ᵤ alen in
  if rf_len r <? end_ +ᵤ SIV_LEN then Err AuthLength
  else
  w ← walk_tlvs r end_ MAX_TLVS 0
        {| pos := body +ᵤ RRB_HEADER_LEN; tags := replicate MAX_TLVS 0%Z;
           r0kh_position := 0; r0kh_size := 0 |};
  if negb (pos w =? end_) then Err Tlv
  else
  let accept : result Counter Match := Ok {| kind := header5; body_offset := body |} in
  if broadcast then
    if (negb (header5 =? KIND_PULL)%Z && negb (header5 =? KIND_SEQ_REQUEST)%Z)
       || (r0kh_size w =? 0) || (MAX_R0KH <? r0kh_size w) then Err BroadcastScope
    else
    r0kh_found ← scan_r0kh r f (r0kh_position w) (r0kh_size w);
    if negb r0kh_found then Err BroadcastScope else accept
  else accept.

(** The VLAN gate of [classify]: the offset of the RRB body. *)
Definition vlan_gate (r : R) (vlan : Vlan) (f : Filter) (proto_ : Z) : result Counter nat :=
  if present vlan then
    if negb (proto vlan =? TPID_8021Q)%Z
       || negb (Z.land (tci vlan) TCI_VID_MASK =? management_vlan f)%Z
       || negb (proto_ =? ETH_P_RRB)%Z
    then Err Vlan_
    else Ok ETH_HEADER_LEN
  else
    tag ← ok_or (rf_read r 4 ETH_HEADER_LEN) Vlan_;
    let inline_tci := u16_from_be_bytes (tag !!! 0) (tag !!! 1) in
    if negb (proto_ =? TPID_8021Q)%Z
       || negb (Z.land inline_tci TCI_VID_MASK =? management_vlan f)%Z
       || bool_decide (slice 2 4 tag <> u16_to_be_bytes ETH_P_RRB)
    then Err Vlan_
    else Ok (ETH_HEADER_LEN + VLAN_TAG_LEN).

Definition classify (r : R) (vlan : Vlan) (f : Filter) : result Counter Match :=
  if (rf_len r <? ETH_HEADER_LEN) || (MAX_FRAME <? rf_len r) then Err Length
  else
  p ← ok_or (rf_read r 2 ETH_TYPE_OFFSET) Length;
  let proto_ := u16_from_be_bytes (p !!! 0) (p !!! 1) in
  body ← vlan_gate r vlan f proto_;
  parse_rrb r body f.

End Parser.

(** ** What the parser relies on: a reader is a view of a byte string *)

Class ReadFrameOk (R : Type) `{ReadFrame R} := {
  rf_bytes : R -> list byte;
  rf_len_ok r : rf_len r = length (rf_bytes r);
  rf_read_ok r n offset :
    (Z.of_nat offset + Z.of_nat n < usize_modulus)%Z ->
    rf_read r n offset =
      if offset + n <=? length (rf_bytes r)
      then Some (slice offset (offset + n) (rf_bytes r)) else None;
}.

Lemma slice_read_ok (l : list byte) n offset :
  (Z.of_nat offset + Z.of_nat n < usize_modulus)%Z ->
  slice_read l n offset =
    if offset + n <=? length l then Some (slice offset (offset + n) l) else None.
Proof.
  intros Hb. unfold slice_read. rewrite checked_add_small by done. simpl. unfold slice_get.
  rewrite (proj2 (Nat.leb_le offset (offset + n))) by lia. simpl.
  destruct (Nat.leb_spec (offset + n) (length l)); [|done]. simpl.
  rewrite length_slice by done.
  by replace (offset + n - offset =? n) with true by (symmetry; apply Nat.eqb_eq; lia).
Qed.

#[export] Instance slice_ReadFrameOk : ReadFrameOk (list byte) :=
  {| rf_bytes := fun l => l; rf_len_ok := fun _ => eq_refl; rf_read_ok := slice_read_ok |}.

(** ** The scans *)

Lemma scan_bssids_spec p bss :
  scan_bssids p bss = true <->
  exists j, j < MAX_PEER_BSSIDS /\ j < Z.to_nat (bssid_count p) /\ bssids p !!! j = bss.
Proof.
  unfold scan_bssids. rewrite fold_flag_seq.
  split; intros (j & Hj & Hp); exists j; to_prop; split; auto.
  destruct Hp as [Hc <-]. apply andb_true_iff.
  by rewrite Nat.ltb_lt, bool_decide_eq_true.
Qed.

Lemma scan_locals_spec f bss :
  scan_locals f bss = true <->
  exists i, i < MAX_LOCALS /\ i < Z.to_nat (local_count f) /\ local_bssid (locals f !!! i) = bss.
Proof.
  unfold scan_locals. rewrite fold_flag_seq.
  split; intros (j & Hj & Hp); exists j; to_prop; split; auto.
  destruct Hp as [Hc <-]. apply andb_true_iff.
  by rewrite Nat.ltb_lt, bool_decide_eq_true.
Qed.

(** [peer_at f src i]: entry [i] is in use and has Ethernet address [src]. *)
Definition peer_at (f : Filter) (src : Mac) (i : nat) : Prop :=
  i < MAX_PEERS /\ i < Z.to_nat (peer_count f) /\ peer_mac (peers f !!! i) = src.

Lemma scan_peers_Some f src i :
  scan_peers f src = Some i <-> peer_at f src i /\ forall j, i < j -> ~ peer_at f src j.
Proof.
  unfold scan_peers, peer_at.
  rewrite (fold_last_seq_Some (fun i => (i <? _) && bool_decide _)).
  rewrite andb_true_iff, Nat.ltb_lt, bool_decide_eq_true.
  setoid_rewrite andb_false_iff. setoid_rewrite Nat.ltb_ge.
  setoid_rewrite bool_decide_eq_false. split.
  - intros (Hi & Hp & Hlast). split; [tauto|]. intros j Hj (Hj1 & Hj2 & Hj3).
    destruct (Hlast j); [lia|lia|done].
  - intros (Hi & Hlast). repeat split; try tauto. intros j Hj.
    destruct (decide (Z.to_nat (peer_count f) <= j)); [by left|right].
    intros Heq. apply (Hlast j); [lia|]. repeat split; [lia|lia|done].
Qed.

Lemma scan_peers_None f src : scan_peers f src = None <-> forall i, ~ peer_at f src i.
Proof.
  unfold scan_peers, peer_at. rewrite (fold_last_seq_None (fun i => (i <? _) && bool_decide _)).
  setoid_rewrite andb_false_iff. setoid_rewrite Nat.ltb_ge.
  setoid_rewrite bool_decide_eq_false. split.
  - intros H i (H1 & H2 & H3). destruct (H i H1); [lia|done].
  - intros H i Hi. destruct (decide (Z.to_nat (peer_count f) <= i)); [by left|right].
    intros Heq. apply (H i). repeat split; [lia|lia|done].
Qed.

Lemma seen_tag_spec tags i tag : seen_tag tags i tag = true <-> tag ∈ take i tags.
Proof.
  unfold seen_tag.
  assert (forall k, existsb (fun '(j, previous) => (j <? k + i) && (previous =? tag)%Z)
                      (zip (seq k (length tags)) tags) = true <-> tag ∈ take i tags) as Hk.
  { revert i. induction tags as [|t tags IH]; intros i k; simpl.
    - rewrite take_nil. set_solver.
    - destruct i as [|i]; simpl.
      + rewrite Nat.add_0_r, Nat.ltb_irrefl. simpl.
        specialize (IH 0 (S k)). rewrite Nat.add_0_r in IH. split; [|set_solver].
        intros Hex. exfalso. apply existsb_exists in Hex as ([j p] & Hin & Hj).
        apply in_combine_l, in_seq in Hin. to_prop. lia.
      + rewrite orb_true_iff, andb_true_iff, Nat.ltb_lt, Z.eqb_eq, elem_of_cons.
        specialize (IH i (S k)). replace (S k + i) with (k + S i) in IH by lia.
        rewrite IH. split; [intros [[_ ->]|?]; auto|intros [->|?]; auto].
        left. split; [lia|done]. }
  apply (Hk 0).
Qed.
