(* ===== verification/Wire.v ===== *)
(** * The wire format as a grammar, and the parser's refinement of it

    The frame layout documented at the head of [src/src/proto/parse.rs] as data
    ([Wire]), its encoder ([encode]) and the acceptance policy ([authorized]) as
    propositions about the decoded frame.  [classify] accepts exactly the
    encodings of the frames that the policy allows. *)

From Stdlib Require Import ZArith Lia Strings.Byte.
From stdpp Require Import base list numbers list_numbers sets.
From S2P Require Import Prelude Proto Parse.
Local Open Scope nat_scope.
Local Open Scope rrb_scope.

(** ** Frames as data *)

Record TlvElem := mkTlv { tlv_tag : Z; tlv_value : list byte }.

Record Rrb := mkRrb {
  rrb_kind : Z;
  rrb_source : Mac;
  rrb_destination : Mac;
  rrb_tlvs : list TlvElem;
  rrb_payload : list byte;
}.

Record Wire := mkWire {
  eth_dst : Mac;
  eth_src : Mac;
  inline_tag : option Z;
  rrb : Rrb;
}.

Definition encode_tlv (t : TlvElem) : list byte :=
  u16_to_le_bytes (tlv_tag t) ++ u16_to_le_bytes (Z.of_nat (length (tlv_value t))) ++ tlv_value t.

Definition encode_tlvs (ts : list TlvElem) : list byte := concat (map encode_tlv ts).

(** The fixed RRB header for an auth-data block of [alen] bytes. *)
Definition encode_header (p : Rrb) (alen : nat) : list byte :=
  RRB_SELECTOR ++ [z2b (rrb_kind p)] ++ rrb_source p ++ rrb_destination p
    ++ u16_to_le_bytes (Z.of_nat alen).

Definition encode_rrb (p : Rrb) : list byte :=
  encode_header p (length (encode_tlvs (rrb_tlvs p))) ++ encode_tlvs (rrb_tlvs p) ++ rrb_payload p.

Definition encode_tag (tag : option Z) : list byte :=
  match tag with
  | Some t => u16_to_be_bytes TPID_8021Q ++ u16_to_be_bytes t
  | None => []
  end.

Definition encode (w : Wire) : list byte :=
  eth_dst w ++ eth_src w ++ encode_tag (inline_tag w) ++ u16_to_be_bytes ETH_P_RRB
    ++ encode_rrb (rrb w).

(** ** Well-formed frames *)

Definition tlv_wf (t : TlvElem) : Prop :=
  is_u16 (tlv_tag t) /\ is_u16 (Z.of_nat (length (tlv_value t))).

Definition rrb_wf (p : Rrb) : Prop :=
  (KIND_PULL <= rrb_kind p <= KIND_SEQ_RESPONSE)%Z /\
  length (rrb_source p) = 6 /\ length (rrb_destination p) = 6 /\
  Forall tlv_wf (rrb_tlvs p) /\ NoDup (map tlv_tag (rrb_tlvs p)) /\
  length (rrb_tlvs p) <= MAX_TLVS /\
  is_u16 (Z.of_nat (length (encode_tlvs (rrb_tlvs p)))) /\
  SIV_LEN <= length (rrb_payload p).

Definition wire_wf (w : Wire) : Prop :=
  length (eth_dst w) = 6 /\ length (eth_src w) = 6 /\
  (forall t, inline_tag w = Some t -> is_u16 t) /\ rrb_wf (rrb w).

(** ** The acceptance policy *)

(** Exactly one management tag: inline, or in the receive metadata. *)
Definition vlan_ok (f : Filter) (v : Vlan) (tag : option Z) : Prop :=
  if present v
  then tag = None /\ proto v = TPID_8021Q /\ Z.land (tci v) TCI_VID_MASK = management_vlan f
  else exists t, tag = Some t /\ Z.land t TCI_VID_MASK = management_vlan f.

(** The sender is a configured peer (the last entry with its address decides)
    claiming one of that peer's BSSIDs; an empty list is a wildcard. *)
Definition sender_ok (f : Filter) (src source_bss : Mac) : Prop :=
  peer_count f = 0%Z \/
  exists i, peer_at f src i /\ (forall j, i < j -> ~ peer_at f src j) /\
    (bssid_count (peers f !!! i) = 0%Z \/
     exists j, j < MAX_PEER_BSSIDS /\ j < Z.to_nat (bssid_count (peers f !!! i)) /\
       bssids (peers f !!! i) !!! j = source_bss).

Definition local_bss (f : Filter) (bss : Mac) : Prop :=
  exists i, i < MAX_LOCALS /\ i < Z.to_nat (local_count f) /\ local_bssid (locals f !!! i) = bss.

(** The value of the R0KH-ID element, if there is one. *)
Definition r0kh_of (ts : list TlvElem) : option (list byte) :=
  tlv_value <$> find (fun t => tlv_tag t =? TLV_R0KH)%Z ts.

(** [id] is the R0KH-ID of a configured local BSS. *)
Definition local_r0kh (f : Filter) (id : list byte) : Prop :=
  exists i, i < MAX_LOCALS /\ i < Z.to_nat (local_count f) /\
    Z.to_nat (r0kh_len (locals f !!! i)) = length id /\
    take (length id) (r0kh (locals f !!! i)) = id.

Definition broadcast_ok (f : Filter) (p : Rrb) : Prop :=
  (rrb_kind p = KIND_PULL \/ rrb_kind p = KIND_SEQ_REQUEST) /\
  exists id, r0kh_of (rrb_tlvs p) = Some id /\ 1 <= length id <= MAX_R0KH /\ local_r0kh f id.

Definition rrb_authorized (f : Filter) (dst src : Mac) (p : Rrb) : Prop :=
  (dst = target_mac f \/ dst = BROADCAST) /\
  sender_ok f src (rrb_source p) /\
  if decide (rrb_destination p = BROADCAST) then broadcast_ok f p
  else local_bss f (rrb_destination p).

Definition authorized (f : Filter) (v : Vlan) (w : Wire) : Prop :=
  vlan_ok f v (inline_tag w) /\ rrb_authorized f (eth_dst w) (eth_src w) (rrb w).

(** Where the RRB body of an encoded frame starts. *)
Definition wire_body_offset (w : Wire) : nat :=
  match inline_tag w with Some _ => ETH_HEADER_LEN + VLAN_TAG_LEN | None => ETH_HEADER_LEN end.

(** ** Lengths *)

Lemma length_encode_tlv t : length (encode_tlv t) = 4 + length (tlv_value t).
Proof. done. Qed.

Lemma length_encode_header p alen :
  length (rrb_source p) = 6 -> length (rrb_destination p) = 6 ->
  length (encode_header p alen) = RRB_HEADER_LEN.
Proof. intros H1 H2. unfold encode_header. rewrite !length_app, H1, H2. done. Qed.

Lemma encode_tlvs_cons t ts : encode_tlvs (t :: ts) = encode_tlv t ++ encode_tlvs ts.
Proof. done. Qed.

(** ** The TLV walk reads exactly the encodings of TLV lists *)

Section Walk.
Context {R : Type} `{ReadFrameOk R} (r : R) (end_ : nat).
Local Abbreviation bs := (rf_bytes r).
Hypothesis end_in : end_ <= length bs.
Hypothesis bs_small : (Z.of_nat (length bs) < 2 ^ 32)%Z.

(** The four header bytes of an element as numbers. *)
Lemma tlv_header_read t rest p :
  tlv_wf t -> p <= end_ -> slice p end_ bs = encode_tlv t ++ rest ->
  exists a b c d, rf_read r 4 p = Some [a; b; c; d] /\
    u16_from_le_bytes a b = tlv_tag t /\
    Z.to_nat (u16_from_le_bytes c d) = length (tlv_value t) /\
    p + 4 + length (tlv_value t) <= end_.
Proof.
  intros [Htag Hlen] Hp Hs.
  assert (p + length (encode_tlv t) <= end_) as Hle.
  { destruct (slice_app_inv _ _ _ _ _ end_in Hs) as [|[[=] _]]; done. }
  rewrite length_encode_tlv in Hle.
  do 4 eexists. split_and!; [|by eapply u16_le_roundtrip| |lia].
  - rewrite rf_read_ok by (unfold usize_modulus; lia).
    rewrite (proj2 (Nat.leb_le _ _)) by lia. f_equal.
    unfold encode_tlv in Hs. rewrite <- app_assoc, app_assoc in Hs.
    change (u16_to_le_bytes _ ++ u16_to_le_bytes _) with
      [z2b (tlv_tag t); z2b (tlv_tag t / 256); z2b (Z.of_nat (length (tlv_value t)));
       z2b (Z.of_nat (length (tlv_value t)) / 256)] in Hs.
    eapply slice_prefix; [exact Hs|done|simpl; lia].
  - erewrite u16_le_roundtrip; [|exact Hlen|done]. lia.
Qed.

(** The R0KH-ID registers after a walk over [ts]. *)
Definition r0kh_registers (ts : list TlvElem) (w w' : Walk) : Prop :=
  match r0kh_of ts with
  | Some id =>
      r0kh_size w' = length id /\ r0kh_position w' + length id <= end_ /\
      slice (r0kh_position w') (r0kh_position w' + length id) bs = id
  | None => r0kh_size w' = r0kh_size w /\ r0kh_position w' = r0kh_position w
  end.

Lemma take_insert_snoc {A} (l : list A) i x : i < length l -> take (S i) (<[i := x]> l) = take i l ++ [x].
Proof.
  intros Hi. erewrite take_S_r by by apply list_lookup_insert_eq.
  by rewrite take_insert_ge by lia.
Qed.

Lemma walk_complete ts : forall fuel i w,
  slice (pos w) end_ bs = encode_tlvs ts -> pos w <= end_ ->
  Forall tlv_wf ts -> length ts <= fuel -> i + fuel <= length (tags w) ->
  NoDup (take i (tags w) ++ map tlv_tag ts) ->
  exists w', walk_tlvs r end_ fuel i w = Ok w' /\ pos w' = end_ /\ r0kh_registers ts w w'.
Proof.
  induction ts as [|t ts IH]; intros fuel i w Hs Hpos Hwf Hfuel Htags Hnd.
  { apply (f_equal length) in Hs. rewrite length_slice in Hs by done. simpl in Hs.
    assert (pos w = end_) as Heq by lia.
    exists w. split; [|done]. destruct fuel; simpl; [done|]. by rewrite Heq, Nat.eqb_refl. }
  destruct fuel as [|fuel]; simpl in Hfuel; [lia|].
  inversion Hwf as [|? ? Hwt Hwts]; subst. rewrite encode_tlvs_cons in Hs.
  destruct (tlv_header_read t (encode_tlvs ts) (pos w)) as (a & b & c & d & Hread & Htag & Hsize & Hle);
    try done.
  simpl. rewrite !uadd_small by (unfold usize_modulus, TLV_HEADER_LEN; lia).
  rewrite (proj2 (Nat.eqb_neq _ _)), (proj2 (Nat.ltb_ge _ _)), Hread
    by (unfold TLV_HEADER_LEN; lia).
  simpl. rewrite Htag, Hsize.
  rewrite uadd_small by (unfold usize_modulus, TLV_HEADER_LEN; lia).
  assert (seen_tag (tags w) i (tlv_tag t) = false) as ->.
  { apply not_true_iff_false. rewrite seen_tag_spec. intros Hin.
    apply NoDup_app in Hnd as (_ & Hdisj & _). apply (Hdisj _ Hin). simpl. set_solver. }
  rewrite (proj2 (Nat.ltb_ge _ _)) by (unfold TLV_HEADER_LEN; lia).
  edestruct (IH fuel (S i)) as (w' & Hrun & Hend & Hreg);
    [| | | | | |exists w'; split; [exact Hrun|split; [exact Hend|]]]; simpl; try done; try lia.
  - eapply slice_suffix; [exact Hs|]. rewrite length_encode_tlv. unfold TLV_HEADER_LEN. lia.
  - rewrite length_insert. lia.
  - rewrite take_insert_snoc, <- app_assoc by lia. done.
  - unfold r0kh_registers, r0kh_of in *. simpl in Hreg |- *.
    destruct (tlv_tag t =? TLV_R0KH)%Z eqn:Hr; simpl; [|done].
    destruct (find _ ts) as [t'|] eqn:Hfind.
    { exfalso. apply find_some in Hfind as [Hin Ht']. to_prop.
      apply NoDup_app in Hnd as (_ & _ & Hnd). simpl in Hnd.
      apply NoDup_cons in Hnd as [Hnin _]. apply Hnin. rewrite Hr, <- Ht'.
      by apply list_elem_of_In, in_map. }
    destruct Hreg as [-> ->]. simpl. unfold TLV_HEADER_LEN. split_and!; [done|lia|].
    unfold encode_tlv in Hs. rewrite <- !app_assoc in Hs.
    eapply (slice_suffix _ (pos w + 2)) in Hs; [|done].
    eapply (slice_suffix _ (pos w + 4)) in Hs; [|simpl; lia].
    eapply slice_prefix; [exact Hs|done|lia].
Qed.

Lemma walk_sound fuel : forall i w w',
  walk_tlvs r end_ fuel i w = Ok w' -> pos w' = end_ -> pos w <= end_ ->
  i + fuel <= length (tags w) -> NoDup (take i (tags w)) ->
  exists ts, slice (pos w) end_ bs = encode_tlvs ts /\ Forall tlv_wf ts /\
    length ts <= fuel /\ NoDup (take i (tags w) ++ map tlv_tag ts).
Proof.
  induction fuel as [|fuel IH]; intros i w w' Hrun Hend Hpos Htags Hnd; simpl in Hrun.
  { injection Hrun as <-. exists []. rewrite Hend, slice_nil, app_nil_r. done. }
  destruct (Nat.eqb_spec (pos w) end_) as [Heq|Hne].
  { injection Hrun as <-. exists []. rewrite Heq, slice_nil, app_nil_r.
    split_and!; [done|constructor|simpl; lia|done]. }
  rewrite uadd_small in Hrun by (unfold usize_modulus, TLV_HEADER_LEN; lia).
  destruct (Nat.ltb_spec end_ (pos w + TLV_HEADER_LEN)) as [|Hhdr]; [done|].
  unfold TLV_HEADER_LEN in *.
  rewrite rf_read_ok, (proj2 (Nat.leb_le _ _)) in Hrun by (unfold usize_modulus; lia).
  simpl in Hrun.
  pose proof (length_slice (pos w) (pos w + 4) bs ltac:(lia)) as Hl4.
  destruct (slice (pos w) (pos w + 4) bs) as [|a [|b [|c [|d [|]]]]] eqn:Hs4; simpl in Hl4; try lia.
  simpl in Hrun. pose proof (u16_from_le_range c d) as Hcd. unfold is_u16 in Hcd.
  set (tag := u16_from_le_bytes a b) in *.
  set (size := Z.to_nat (u16_from_le_bytes c d)) in *.
  rewrite uadd_small in Hrun by (unfold usize_modulus; lia).
  destruct (seen_tag (tags w) i tag) eqn:Hseen; [done|].
  destruct (Nat.ltb_spec end_ (pos w + 4 + size)) as [|Hval]; [done|].
  apply IH in Hrun as (ts & Hs & Hwf & Hlen & Hnd'); simpl in *; try done.
  - exists ({| tlv_tag := tag; tlv_value := slice (pos w + 4) (pos w + 4 + size) bs |} :: ts).
    pose proof (length_slice (pos w + 4) (pos w + 4 + size) bs ltac:(lia)) as Hlv.
    replace (pos w + 4 + size - (pos w + 4)) with size in Hlv by lia.
    rewrite take_insert_snoc, <- app_assoc in Hnd' by lia.
    split_and!; [|constructor; [split; simpl|done]|simpl; lia|done].
    + rewrite encode_tlvs_cons, <- Hs. unfold encode_tlv. cbn [tlv_tag tlv_value].
      rewrite Hlv. unfold size at 1, tag at 1.
      rewrite Z2Nat.id by lia. rewrite !u16_to_from_le.
      rewrite (slice_split (pos w) (pos w + 4) end_), Hs4 by lia.
      rewrite (slice_split (pos w + 4) (pos w + 4 + size) end_) by lia. done.
    + apply u16_from_le_range.
    + rewrite Hlv. unfold is_u16. lia.
  - rewrite length_insert. lia.
  - rewrite take_insert_snoc by lia. apply NoDup_app. split_and!; [done| |apply NoDup_singleton].
    intros x Hx ->%list_elem_of_singleton. by apply not_true_iff_false in Hseen; rewrite seen_tag_spec in Hseen.
Qed.

(** What a finished walk has read. *)
Lemma walk_exact fuel i w w' :
  walk_tlvs r end_ fuel i w = Ok w' -> pos w' = end_ -> pos w <= end_ ->
  i + fuel <= length (tags w) -> NoDup (take i (tags w)) ->
  exists ts, slice (pos w) end_ bs = encode_tlvs ts /\ Forall tlv_wf ts /\
    length ts <= fuel /\ NoDup (take i (tags w) ++ map tlv_tag ts) /\ r0kh_registers ts w w'.
Proof.
  intros Hrun Hend Hpos Htags Hnd.
  destruct (walk_sound _ _ _ _ Hrun Hend Hpos Htags Hnd) as (ts & Hs & Hwf & Hlen & Hnd').
  destruct (walk_complete ts fuel i w) as (w2 & Hrun2 & _ & Hreg); try done.
  assert (w2 = w') as -> by congruence. by exists ts.
Qed.
End Walk.

(** ** The R0KH-ID comparison *)

Section R0kh.
Context {R : Type} `{ReadFrameOk R} (r : R).
Local Abbreviation bs := (rf_bytes r).
Hypothesis bs_small : (Z.of_nat (length bs) < 2 ^ 32)%Z.

Lemma same_r0kh_spec position size id fuel : forall j identical,
  position + size <= length bs -> size <= length id -> j <= size -> size <= j + fuel ->
  same_r0kh r position size id fuel j identical =
    Ok (identical && bool_decide (slice (position + j) (position + size) bs = slice j size id)).
Proof.
  induction fuel as [|fuel IH]; intros j identical Hbs Hid Hj Hfuel; simpl.
  { assert (j = size) as -> by lia. by rewrite !slice_nil, bool_decide_eq_true_2, andb_true_r. }
  destruct (Nat.eqb_spec j size) as [->|Hne].
  { by rewrite !slice_nil, bool_decide_eq_true_2, andb_true_r. }
  rewrite uadd_small by (unfold usize_modulus; lia).
  rewrite rf_read_ok, (proj2 (Nat.leb_le _ _)) by (unfold usize_modulus; lia). simpl.
  rewrite IH by lia. f_equal.
  pose proof (length_slice (position + j) (position + j + 1) bs ltac:(lia)) as Hl1.
  rewrite (slice_split (position + j) (position + j + 1) (position + size)) by lia.
  rewrite (slice_split j (S j) size) by lia.
  replace (position + S j) with (position + j + 1) by lia.
  pose proof (length_slice j (S j) id ltac:(lia)) as Hl2.
  rewrite (list_lookup_total_alt id).
  replace (id !! j) with (slice j (S j) id !! 0) by (rewrite lookup_slice by lia; f_equal; lia).
  destruct (slice (position + j) (position + j + 1) bs) as [|x [|]]; simpl in Hl1; try lia.
  destruct (slice j (S j) id) as [|y [|]]; simpl in Hl2; try lia. simpl.
  destruct (decide (x = y)) as [->|Hxy].
  - rewrite (bool_decide_eq_true_2 (y = y)) by done. f_equal.
    apply bool_decide_ext. split; [by intros ->|by intros [= ->]].
  - rewrite (bool_decide_eq_false_2 (x = y)) by done.
    rewrite (bool_decide_eq_false_2 (x :: _ = _)) by congruence. by rewrite andb_false_r.
Qed.

Lemma scan_r0kh_spec f position size :
  Filter_wf f -> position + size <= length bs -> 1 <= size <= MAX_R0KH ->
  exists found, scan_r0kh r f position size = Ok found /\
    (found = true <-> local_r0kh f (slice position (position + size) bs)).
Proof.
  intros Hf Hbs Hsize.
  pose proof (length_slice position (position + size) bs Hbs) as Hlen.
  replace (position + size - position) with size in Hlen by lia.
  set (hit i := (i <? Z.to_nat (local_count f)) && (Z.to_nat (r0kh_len (locals f !!! i)) =? size)
         && bool_decide (slice position (position + size) bs = slice 0 size (r0kh (locals f !!! i)))).
  exists (fold_left (fun found i => if hit i then true else found) (seq 0 MAX_LOCALS) false).
  split.
  - unfold scan_r0kh. apply try_fold_total. intros s i Hi.
    apply list_elem_of_In, in_seq in Hi.
    destruct (Filter_wf_local f i Hf ltac:(lia)) as (_ & _ & Hr0).
    unfold hit. rewrite Nat.leb_antisym.
    destruct (Nat.ltb_spec i (Z.to_nat (local_count f))); cbn [negb orb andb]; [|done].
    destruct (Nat.eqb_spec (Z.to_nat (r0kh_len (locals f !!! i))) size); cbn [negb orb andb]; [|done].
    rewrite same_r0kh_spec by lia. cbn [andb mbind result_bind]. by rewrite Nat.add_0_r.
  - rewrite fold_flag_seq. unfold local_r0kh, hit. rewrite Hlen. split; intros (i & Hi & Hh); exists i.
    + rewrite !andb_true_iff, Nat.ltb_lt, Nat.eqb_eq, bool_decide_eq_true in Hh.
      destruct Hh as [[Hc Hl] ->]. split_and!; try done. unfold slice.
      by rewrite drop_0, Nat.sub_0_r.
    + destruct Hh as (Hc & Hl & Ht). split; [done|].
      rewrite !andb_true_iff, Nat.ltb_lt, Nat.eqb_eq, bool_decide_eq_true. split_and!; try done.
      rewrite <- Ht at 1. unfold slice at 1. by rewrite drop_0, Nat.sub_0_r.
Qed.
End R0kh.

(** ** The RRB header as a record *)

Lemma length_6 {A} (l : list A) :
  length l = 6 -> exists a b c d e f, l = [a; b; c; d; e; f].
Proof. intros H. do 7 (destruct l as [|? l]; simplify_eq/=). by do 6 eexists. Qed.

Lemma header_fields p alen :
  (KIND_PULL <= rrb_kind p <= KIND_SEQ_RESPONSE)%Z ->
  length (rrb_source p) = 6 -> length (rrb_destination p) = 6 -> is_u16 (Z.of_nat alen) ->
  let h := encode_header p alen in
  slice 0 5 h = RRB_SELECTOR /\ b2z (h !!! 5) = rrb_kind p /\
  slice 6 12 h = rrb_source p /\ slice 12 18 h = rrb_destination p /\
  Z.to_nat (u16_from_le_bytes (h !!! 18) (h !!! 19)) = alen.
Proof.
  unfold KIND_PULL, KIND_SEQ_RESPONSE. intros Hk Hs Hd Ha. unfold encode_header.
  apply length_6 in Hs as (?&?&?&?&?&?&->). apply length_6 in Hd as (?&?&?&?&?&?&->).
  cbv zeta. split_and!; try reflexivity.
  - change (b2z (z2b (rrb_kind p)) = rrb_kind p). rewrite b2z_z2b, Z.mod_small; lia.
  - change (Z.to_nat (u16_from_le_bytes (z2b (Z.of_nat alen)) (z2b (Z.of_nat alen / 256))) = alen).
    erewrite u16_le_roundtrip; [|exact Ha|reflexivity]. lia.
Qed.

(** Any twenty bytes that pass the selector test are a header. *)
Lemma header_inv h :
  length h = RRB_HEADER_LEN -> slice 0 5 h = RRB_SELECTOR ->
  h = RRB_SELECTOR ++ [h !!! 5] ++ slice 6 12 h ++ slice 12 18 h ++
      u16_to_le_bytes (u16_from_le_bytes (h !!! 18) (h !!! 19)).
Proof.
  unfold RRB_HEADER_LEN. intros Hl Hs. rewrite u16_to_from_le, <- Hs.
  do 20 (destruct h as [|? h]; [discriminate Hl|]). destruct h; [reflexivity|discriminate Hl].
Qed.

Lemma source_bss_rejected_spec f src bss :
  Filter_wf f ->
  ((0 <? peer_count f)%Z && bool_decide (scan_peers f src = None) = false /\
   source_bss_rejected f (scan_peers f src) bss = false) <-> sender_ok f src bss.
Proof.
  intros Hf. assert (0 <= peer_count f)%Z as Hpc by apply Hf. unfold sender_ok.
  destruct (scan_peers f src) as [i|] eqn:Hscan.
  - rewrite bool_decide_eq_false_2, andb_false_r by done. simpl.
    apply scan_peers_Some in Hscan as [Hat Hlast].
    destruct Hat as (Hi & Hic & Hmac).
    destruct (Filter_wf_peer f i Hf Hi) as (_ & Hbc & _).
    assert (peer_count f <> 0%Z) by lia.
    destruct (Z.ltb_spec 0 (bssid_count (peers f !!! i))) as [Hb|Hb].
    + rewrite negb_false_iff, scan_bssids_spec. split.
      * intros [_ ?]. right. exists i. split_and!; try done. by right.
      * intros [?|(i' & Hat' & Hlast' & Hor)]; [done|]. split; [done|].
        assert (i' = i) as ->; [|destruct Hor; [lia|done]].
        destruct (Nat.lt_trichotomy i i') as [Hlt|[?|Hlt]]; [|done|].
        { by destruct (Hlast i' Hlt). } { by destruct (Hlast' i Hlt). }
    + split; [|done]. intros _. right. exists i. split_and!; try done. left. lia.
  - rewrite bool_decide_eq_true_2, andb_true_r by done. simpl.
    rewrite scan_peers_None in Hscan. split.
    + intros [Hz%Z.ltb_ge _]. left. lia.
    + intros [->|(i & Hat & _)]; [done|]. by destruct (Hscan i).
Qed.

(** ** The body parser *)

Section Body.
Context {R : Type} `{ReadFrameOk R} (r : R) (body : nat) (f : Filter).
Local Abbreviation bs := (rf_bytes r).
Hypothesis f_wf : Filter_wf f.
Hypothesis bs_small : (Z.of_nat (length bs) < 2 ^ 32)%Z.
Hypothesis body_range : 12 <= body <= length bs.

Lemma read_mac a : a + 6 <= 12 -> rf_read r 6 a = Some (slice a (a + 6) bs).
Proof.
  intros. rewrite rf_read_ok by (unfold usize_modulus; lia).
  by rewrite (proj2 (Nat.leb_le _ _)) by lia.
Qed.

Lemma drop_as_slice : drop body bs = slice body (length bs) bs.
Proof. unfold slice. rewrite take_ge; [done|]. rewrite length_drop. lia. Qed.

(** The gate opens for a broadcast in scope. *)
Lemma broadcast_gate_open p w e :
  e <= length bs -> r0kh_registers r e (rrb_tlvs p)
    {| pos := body + 20; tags := replicate MAX_TLVS 0%Z; r0kh_position := 0; r0kh_size := 0 |} w ->
  broadcast_ok f p ->
  (negb (rrb_kind p =? KIND_PULL)%Z && negb (rrb_kind p =? KIND_SEQ_REQUEST)%Z)
    || (r0kh_size w =? 0) || (MAX_R0KH <? r0kh_size w) = false /\
  scan_r0kh r f (r0kh_position w) (r0kh_size w) = Ok true.
Proof.
  intros He Hreg (Hbk & id & Hid & Hidl & Hloc). unfold r0kh_registers in Hreg. rewrite Hid in Hreg.
  destruct Hreg as (Hsz & Hin & Hsl). rewrite Hsz. split.
  - rewrite !orb_false_iff, andb_false_iff, !negb_false_iff, !Z.eqb_eq, Nat.eqb_neq, Nat.ltb_ge. lia.
  - edestruct (scan_r0kh_spec r bs_small f (r0kh_position w) (length id)) as (found & -> & Hfound); [done|lia|done|].
    rewrite Hsl in Hfound. by rewrite (proj2 Hfound).
Qed.

Lemma parse_rrb_complete p :
  rrb_wf p -> drop body bs = encode_rrb p ->
  rrb_authorized f (slice 0 6 bs) (slice 6 12 bs) p ->
  parse_rrb r body f = Ok {| kind := rrb_kind p; body_offset := body |}.
Proof.
  intros (Hkind & Hsrc & Hdst & Htlv & Hnd & Hcount & Halen & Hpay) Henc (Heth & Hsend & Hbss).
  set (al := length (encode_tlvs (rrb_tlvs p))) in *.
  destruct (header_fields p al Hkind Hsrc Hdst Halen) as (Hsel & Hk & Hs6 & Hs12 & Hal).
  pose proof (length_encode_header p al Hsrc Hdst) as Hhl.
  set (h := encode_header p al) in *. unfold RRB_HEADER_LEN in *.
  assert (length bs = body + 20 + al + length (rrb_payload p)) as Hlen.
  { apply (f_equal length) in Henc. unfold encode_rrb in Henc.
    rewrite length_drop, !length_app in Henc. fold al in Henc. fold h in Henc. lia. }
  unfold encode_rrb in Henc. fold al in Henc. fold h in Henc. rewrite drop_as_slice in Henc.
  unfold is_u16 in Halen. unfold parse_rrb, SIV_LEN, RRB_HEADER_LEN in *.
  rewrite !read_mac by lia. cbn [ok_or mbind result_bind Nat.add].
  replace (bool_decide _ && bool_decide _) with false
    by (symmetry; apply andb_false_iff; rewrite !bool_decide_eq_false; tauto).
  apply source_bss_rejected_spec in Hsend as [-> Hsb]; [|done].
  rewrite rf_read_ok, (proj2 (Nat.leb_le _ _)) by (unfold usize_modulus; lia).
  rewrite (slice_prefix _ (body + 20) _ _ _ _ Henc) by lia.
  cbn [ok_or mbind result_bind]. rewrite Hsel, Hk, Hs6, Hs12, Hal, Hsb.
  rewrite bool_decide_eq_false_2 by tauto.
  rewrite (proj2 (Z.ltb_ge _ _)), (proj2 (Z.ltb_ge _ _)) by tauto. cbn [orb].
  rewrite (uadd_small body 20), (uadd_small (body + 20) al), (uadd_small (body + 20 + al) 16), rf_len_ok
    by (unfold usize_modulus; lia).
  rewrite (proj2 (Nat.ltb_ge _ _)) by lia.
  apply (slice_suffix _ (body + 20)) in Henc; [|lia].
  edestruct (walk_complete r (body + 20 + al) ltac:(lia) bs_small (rrb_tlvs p) MAX_TLVS 0)
    as (w & -> & Hwend & Hreg); cycle -1.
  - cbn [mbind result_bind]. rewrite Hwend, Nat.eqb_refl. cbn [negb].
    destruct (decide (rrb_destination p = BROADCAST)) as [Hb|Hb].
    + rewrite (bool_decide_eq_true_2 _ Hb). cbn [negb andb].
      by destruct (broadcast_gate_open p w (body + 20 + al) ltac:(lia) Hreg Hbss) as [-> ->].
    + rewrite (bool_decide_eq_false_2 _ Hb). cbn [negb andb].
      apply scan_locals_spec in Hbss. by rewrite Hbss.
  - simpl. eapply slice_prefix; [exact Henc|done|lia].
  - simpl. lia.
  - done.
  - done.
  - done.
  - done.
Qed.

(** The part of the broadcast policy that the parser tests after the walk. *)
Lemma broadcast_gate_inv p w e :
  e <= length bs -> r0kh_registers r e (rrb_tlvs p)
    {| pos := body + 20; tags := replicate MAX_TLVS 0%Z; r0kh_position := 0; r0kh_size := 0 |} w ->
  (negb (rrb_kind p =? KIND_PULL)%Z && negb (rrb_kind p =? KIND_SEQ_REQUEST)%Z)
    || (r0kh_size w =? 0) || (MAX_R0KH <? r0kh_size w) = false ->
  scan_r0kh r f (r0kh_position w) (r0kh_size w) = Ok true ->
  broadcast_ok f p.
Proof.
  intros He Hreg Hgate Hscan.
  rewrite !orb_false_iff, andb_false_iff, !negb_false_iff, !Z.eqb_eq, Nat.eqb_neq, Nat.ltb_ge in Hgate.
  destruct Hgate as [[Hk Hz] Hmax]. split; [done|].
  unfold r0kh_registers in Hreg. destruct (r0kh_of (rrb_tlvs p)) as [id|]; [|simpl in Hreg; lia].
  destruct Hreg as (Hsz & Hin & Hsl). exists id. split; [done|]. split; [lia|].
  destruct (scan_r0kh_spec r bs_small f (r0kh_position w) (r0kh_size w)) as (found & Hf & Hiff);
    [done|lia|lia|].
  rewrite Hsz, Hsl in Hiff. apply Hiff. congruence.
Qed.

(** The decoded body, from the header and the walk's result. *)
Definition rebuild (h : list byte) (ts : list TlvElem) (e : nat) : Rrb :=
  {| rrb_kind := b2z (h !!! 5); rrb_source := slice 6 12 h; rrb_destination := slice 12 18 h;
     rrb_tlvs := ts; rrb_payload := drop e bs |}.

Lemma rebuild_ok h ts e :
  let al := Z.to_nat (u16_from_le_bytes (h !!! 18) (h !!! 19)) in
  h = slice body (body + 20) bs -> e = body + 20 + al -> e + SIV_LEN <= length bs ->
  slice 0 5 h = RRB_SELECTOR -> (KIND_PULL <= b2z (h !!! 5%nat) <= KIND_SEQ_RESPONSE)%Z ->
  slice (body + 20) e bs = encode_tlvs ts ->
  Forall tlv_wf ts -> length ts <= MAX_TLVS -> NoDup (map tlv_tag ts) ->
  rrb_wf (rebuild h ts e) /\ drop body bs = encode_rrb (rebuild h ts e).
Proof.
  intros al Hh He Hend Hsel Hk Hts Htwf Htn Hnd. unfold SIV_LEN in *.
  pose proof (u16_from_le_range (h !!! 18) (h !!! 19)) as Hal. unfold is_u16 in Hal.
  assert (length (encode_tlvs ts) = al) as Hets by (rewrite <- Hts, length_slice; lia).
  assert (length h = 20) as Hhl by (rewrite Hh, length_slice; lia).
  split.
  - unfold rrb_wf, is_u16, SIV_LEN. cbn [rrb_kind rrb_source rrb_destination rrb_tlvs rrb_payload rebuild].
    rewrite Hets, length_drop, !length_slice by lia. split_and!; try done; lia.
  - unfold encode_rrb, encode_header.
    cbn [rrb_kind rrb_source rrb_destination rrb_tlvs rrb_payload rebuild].
    rewrite z2b_b2z, Hets. unfold al. rewrite Z2Nat.id by lia.
    rewrite <- (header_inv h Hhl Hsel), Hh, <- Hts, drop_as_slice.
    rewrite (slice_split body (body + 20)), (slice_split (body + 20) e) by lia.
    do 2 f_equal. unfold slice. rewrite take_ge; [done|]. rewrite length_drop. lia.
Qed.

Lemma parse_rrb_sound m :
  parse_rrb r body f = Ok m ->
  exists p, rrb_wf p /\ drop body bs = encode_rrb p /\
    rrb_authorized f (slice 0 6 bs) (slice 6 12 bs) p /\
    m = {| kind := rrb_kind p; body_offset := body |}.
Proof.
  unfold parse_rrb. rewrite !read_mac by lia. cbn [ok_or mbind result_bind Nat.add]. intros Hrun.
  destruct (bool_decide _ && bool_decide _) eqn:Heth in Hrun; [done|].
  destruct ((0 <? peer_count f)%Z && _) eqn:Hpeer in Hrun; [done|].
  apply bind_Ok in Hrun as (h & Hread & Hrun). rewrite ok_or_Ok in Hread.
  unfold RRB_HEADER_LEN, SIV_LEN in *. rewrite rf_read_ok in Hread by (unfold usize_modulus; lia).
  destruct (Nat.leb_spec (body + 20) (length bs)) as [Hb20|]; [injection Hread as Hh|done].
  destruct (_ || _ || _) eqn:Hsel in Hrun; [done|].
  rewrite !orb_false_iff, bool_decide_eq_false, !Z.ltb_ge in Hsel. destruct Hsel as [[Hsel%dec_stable Hk1] Hk2].
  destruct (source_bss_rejected _ _ _) eqn:Hsb in Hrun; [done|].
  destruct (negb _ && negb _) eqn:Hdb in Hrun; [done|].
  pose proof (u16_from_le_range (h !!! 18) (h !!! 19)) as Hal. unfold is_u16 in Hal.
  set (al := Z.to_nat (u16_from_le_bytes (h !!! 18) (h !!! 19))) in *.
  rewrite (uadd_small body 20), (uadd_small (body + 20) al), (uadd_small (body + 20 + al) 16),
    rf_len_ok in Hrun by (unfold usize_modulus; lia).
  destruct (Nat.ltb_spec (length bs) (body + 20 + al + 16)) as [|Hend]; [done|].
  apply bind_Ok in Hrun as (w & Hwalk & Hrun).
  destruct (Nat.eqb_spec (pos w) (body + 20 + al)) as [Hpos|]; [|done]. cbn [negb] in Hrun.
  apply (walk_exact r (body + 20 + al) ltac:(lia) bs_small) in Hwalk as (ts & Hts & Htwf & Htn & Hnd & Hreg);
    [|done|simpl; lia|done|constructor].
  cbn [pos tags take app] in Hts, Hnd.
  exists (rebuild h ts (body + 20 + al)).
  destruct (rebuild_ok h ts (body + 20 + al)) as [Hwf Henc]; try done.
  split_and!; [done|done|split_and!|].
  - rewrite andb_false_iff, !bool_decide_eq_false in Heth.
    destruct Heth as [?%dec_stable|?%dec_stable]; auto.
  - by apply source_bss_rejected_spec.
  - match goal with |- if ?d then _ else _ => destruct d as [Hb|Hb] end;
      cbn [rrb_destination rebuild] in Hb |- *.
    + rewrite (bool_decide_eq_true_2 _ Hb) in Hrun.
      destruct (_ || _ || _) eqn:Hgate in Hrun; [done|].
      apply bind_Ok in Hrun as ([] & Hscan & Hrun); [|done].
      eapply (broadcast_gate_inv (rebuild h ts _)); [|exact Hreg|done|done]. lia.
    + rewrite (bool_decide_eq_false_2 _ Hb) in Hdb. cbn [negb andb] in Hdb.
      by apply scan_locals_spec, negb_false_iff.
  - cbn [rrb_kind rebuild]. destruct (bool_decide (slice 12 18 h = BROADCAST)); [|by injection Hrun as <-].
    destruct (_ || _ || _) in Hrun; [done|].
    by apply bind_Ok in Hrun as ([] & _ & [= <-]).
Qed.
End Body.

(** ** The VLAN gate *)

Lemma u16_be_eq a b z : is_u16 z -> u16_from_be_bytes a b = z <-> [a; b] = u16_to_be_bytes z.
Proof.
  intros Hz. split; [intros <-; by rewrite u16_to_from_be|].
  intros Heq. by eapply u16_be_roundtrip.
Qed.

Section Gate.
Context {R : Type} `{ReadFrameOk R} (r : R) (f : Filter) (v : Vlan).
Local Abbreviation bs := (rf_bytes r).

(** What the gate establishes about the bytes between the addresses and the body. *)
Definition gate_ok (tag : option Z) (body : nat) : Prop :=
  vlan_ok f v tag /\ (forall t, tag = Some t -> is_u16 t) /\
  body = 14 + length (encode_tag tag) /\ body <= length bs /\
  slice 12 body bs = encode_tag tag ++ u16_to_be_bytes ETH_P_RRB.

Lemma vlan_gate_sound a b body :
  slice 12 14 bs = [a; b] -> 14 <= length bs ->
  vlan_gate r v f (u16_from_be_bytes a b) = Ok body -> exists tag, gate_ok tag body.
Proof.
  intros Hab Hlen. unfold vlan_gate, gate_ok, vlan_ok. destruct (present v) eqn:Hp.
  - destruct (_ || _ || _) eqn:Hc; [done|]. intros [= <-].
    rewrite !orb_false_iff, !negb_false_iff, !Z.eqb_eq in Hc. destruct Hc as [[Hpr Ht] He].
    apply u16_be_eq in He; [|done]. exists None. split_and!; try done.
    unfold ETH_HEADER_LEN. by rewrite Hab, He.
  - unfold ETH_HEADER_LEN. rewrite rf_read_ok by (unfold usize_modulus; lia).
    destruct (Nat.leb_spec (14 + 4) (length bs)) as [Hl|]; [|done]. cbn [ok_or mbind result_bind].
    pose proof (length_slice 14 (14 + 4) bs Hl) as Hl4.
    destruct (slice 14 (14 + 4) bs) as [|c [|d [|x [|y [|]]]]] eqn:Hs4; simpl in Hl4; try lia.
    cbn [lookup_total list_lookup_total slice take drop Nat.sub].
    destruct (_ || _ || _) eqn:Hc; [done|]. intros [= <-].
    rewrite !orb_false_iff, !negb_false_iff, !Z.eqb_eq, bool_decide_eq_false in Hc.
    destruct Hc as [[Hpr Ht] He%dec_stable]. apply u16_be_eq in Hpr; [|done].
    exists (Some (u16_from_be_bytes c d)). split_and!; [by eexists| |done|unfold VLAN_TAG_LEN; lia|].
    + intros t [= <-]. auto with rrb.
    + rewrite (slice_split 12 14) by (unfold VLAN_TAG_LEN; lia). rewrite Hab.
      change (slice 14 _ bs) with (slice 14 (14 + 4) bs). rewrite Hs4. cbn [encode_tag].
      rewrite <- Hpr, u16_to_from_be, <- He. done.
Qed.

Lemma vlan_gate_complete a b body tag :
  slice 12 14 bs = [a; b] -> gate_ok tag body ->
  vlan_gate r v f (u16_from_be_bytes a b) = Ok body.
Proof.
  intros Hab (Hv & Hu & Hb & Hlen & Hs). unfold vlan_ok in Hv. unfold vlan_gate.
  destruct (present v) eqn:Hp.
  - destruct Hv as (-> & Hpr & Ht). simpl in Hb, Hs. subst body. rewrite Hab in Hs.
    apply u16_be_eq in Hs; [|done]. by rewrite Hpr, Ht, Hs, !Z.eqb_refl.
  - destruct Hv as (t & -> & Ht). change (body = 18) in Hb. subst body.
    unfold ETH_HEADER_LEN. rewrite rf_read_ok, (proj2 (Nat.leb_le _ _)) by (unfold usize_modulus; lia).
    cbn [encode_tag] in Hs. rewrite <- app_assoc in Hs.
    pose proof (slice_prefix _ 14 _ _ _ _ Hs ltac:(done) ltac:(lia)) as Hp2.
    apply (slice_suffix _ 14) in Hs; [|done]. rewrite Hab in Hp2. apply u16_be_eq in Hp2; [|done].
    change (14 + 4) with 18. rewrite Hs. cbn [ok_or mbind result_bind].
    cbn [u16_to_be_bytes app lookup_total list_lookup_total slice take drop Nat.sub].
    rewrite Hp2. erewrite (u16_be_roundtrip t); [|by apply Hu|done].
    rewrite Ht, !Z.eqb_refl. by rewrite bool_decide_eq_false_2 by tauto.
Qed.
End Gate.

(** ** [classify] on byte slices *)

Lemma encode_split w :
  wire_wf w ->
  slice 0 6 (encode w) = eth_dst w /\ slice 6 12 (encode w) = eth_src w /\
  slice 12 (wire_body_offset w) (encode w) = encode_tag (inline_tag w) ++ u16_to_be_bytes ETH_P_RRB /\
  drop (wire_body_offset w) (encode w) = encode_rrb (rrb w) /\
  wire_body_offset w = 14 + length (encode_tag (inline_tag w)) /\
  length (encode w) = wire_body_offset w + length (encode_rrb (rrb w)).
Proof.
  intros (Hd & Hs & _). unfold encode.
  assert (wire_body_offset w = 14 + length (encode_tag (inline_tag w))) as Ho
    by (unfold wire_body_offset; by destruct (inline_tag w)).
  rewrite Ho. split_and!; [| | | |done|].
  - by apply slice_app_l.
  - apply slice_app_mid; rewrite ?Hd, ?Hs; done.
  - rewrite (app_assoc (eth_dst w)), (app_assoc (encode_tag _)).
    apply slice_app_mid; rewrite !length_app, Hd, Hs; simpl; lia.
  - rewrite !app_assoc. apply drop_app_length'. rewrite !length_app, Hd, Hs. simpl. lia.
  - rewrite !length_app, Hd, Hs. simpl. lia.
Qed.

(** The frame a successful parse stands for. *)
Lemma classify_sound (frame : list byte) v f m :
  Filter_wf f -> classify frame v f = Ok m ->
  exists w, wire_wf w /\ frame = encode w /\ length frame <= MAX_FRAME /\ authorized f v w /\
    m = {| kind := rrb_kind (rrb w); body_offset := wire_body_offset w |}.
Proof.
  intros Hf. unfold classify. cbn [rf_len slice_ReadFrame].
  destruct (_ || _) eqn:Hlen; [done|]. rewrite orb_false_iff, !Nat.ltb_ge in Hlen.
  unfold ETH_HEADER_LEN, MAX_FRAME in Hlen. destruct Hlen as [Hl Hu].
  rewrite rf_read_ok, (proj2 (Nat.leb_le _ _)) by (cbn; unfold usize_modulus, ETH_TYPE_OFFSET; lia).
  cbn [ok_or mbind result_bind rf_bytes slice_ReadFrameOk].
  change (slice ETH_TYPE_OFFSET (ETH_TYPE_OFFSET + 2) frame) with (slice 12 14 frame).
  pose proof (length_slice 12 14 frame Hl) as Hl2.
  destruct (slice 12 14 frame) as [|a [|b [|]]] eqn:Hab; simpl in Hl2; try lia.
  intros (body & Hgate & Hrun)%bind_Ok.
  assert (Z.of_nat (length frame) < 2 ^ 32)%Z as Hsmall by lia.
  apply (vlan_gate_sound frame f v) in Hgate as (tag & Hv & Ht & Hb & Hbl & Hs); [|done|done].
  cbn [rf_bytes slice_ReadFrameOk] in *.
  apply (parse_rrb_sound frame body f Hf) in Hrun as (p & Hp & Hd & Ha & ->); [|done|cbn; lia].
  cbn [rf_bytes slice_ReadFrameOk] in *.
  exists {| eth_dst := slice 0 6 frame; eth_src := slice 6 12 frame; inline_tag := tag; rrb := p |}.
  split_and!; try done.
  - split_and!; cbn [eth_dst eth_src inline_tag rrb]; try done; rewrite length_slice; lia.
  - unfold encode; cbn [eth_dst eth_src inline_tag rrb]. rewrite <- Hd, (app_assoc (encode_tag tag)), <- Hs.
    rewrite app_assoc, app_assoc, <- !slice_split by lia.
    rewrite <- (take_drop body frame) at 1. f_equal. unfold slice. by rewrite drop_0, Nat.sub_0_r.
  - f_equal. rewrite Hb. unfold wire_body_offset; cbn. by destruct tag.
Qed.

Lemma classify_complete w v f :
  Filter_wf f -> wire_wf w -> length (encode w) <= MAX_FRAME -> authorized f v w ->
  classify (encode w) v f = Ok {| kind := rrb_kind (rrb w); body_offset := wire_body_offset w |}.
Proof.
  intros Hf Hw Hmax [Hv Ha].
  destruct (encode_split w Hw) as (H0 & H6 & H12 & Hd & Ho & Hlen).
  pose proof (conj Hw Hmax) as Hwm. destruct Hw as (Hed & Hes & Ht & Hp). unfold MAX_FRAME in *.
  assert (Z.of_nat (length (encode w)) < 2 ^ 32)%Z as Hsmall by lia.
  unfold classify. cbn [rf_len slice_ReadFrame]. unfold ETH_HEADER_LEN, MAX_FRAME.
  rewrite !(proj2 (Nat.ltb_ge _ _)) by lia. cbn [orb].
  rewrite rf_read_ok, (proj2 (Nat.leb_le _ _)) by (cbn; unfold usize_modulus, ETH_TYPE_OFFSET; lia).
  cbn [ok_or mbind result_bind rf_bytes slice_ReadFrameOk].
  change (slice ETH_TYPE_OFFSET (ETH_TYPE_OFFSET + 2) (encode w)) with (slice 12 14 (encode w)).
  pose proof (length_slice 12 14 (encode w) ltac:(lia)) as Hl2.
  destruct (slice 12 14 (encode w)) as [|a [|b [|]]] eqn:Hab; simpl in Hl2; try lia.
  cbn [lookup_total list_lookup_total].
  rewrite (vlan_gate_complete (encode w) f v a b (wire_body_offset w) (inline_tag w)); [|done|].
  - cbn [mbind result_bind]. apply (parse_rrb_complete (encode w) _ f Hf); [done|cbn; lia|done|done|].
    cbn [rf_bytes slice_ReadFrameOk]. by rewrite H0, H6.
  - split_and!; try done. cbn. lia.
Qed.

(** ** The grammar is unambiguous *)

Lemma u16_to_le_inj z1 z2 : is_u16 z1 -> is_u16 z2 -> u16_to_le_bytes z1 = u16_to_le_bytes z2 -> z1 = z2.
Proof.
  intros H1 H2 Heq. erewrite <- (u16_le_roundtrip z1), <- (u16_le_roundtrip z2); try done.
Qed.

Lemma u16_to_be_inj z1 z2 : is_u16 z1 -> is_u16 z2 -> u16_to_be_bytes z1 = u16_to_be_bytes z2 -> z1 = z2.
Proof.
  intros H1 H2 Heq. erewrite <- (u16_be_roundtrip z1), <- (u16_be_roundtrip z2); try done.
Qed.

Lemma encode_tlv_inj t1 t2 r1 r2 :
  tlv_wf t1 -> tlv_wf t2 -> encode_tlv t1 ++ r1 = encode_tlv t2 ++ r2 -> t1 = t2 /\ r1 = r2.
Proof.
  intros [Ht1 Hl1] [Ht2 Hl2]. unfold encode_tlv. rewrite <- !app_assoc. intros Heq.
  apply app_inj_1 in Heq as [Htag%u16_to_le_inj Heq]; [|done..].
  apply app_inj_1 in Heq as [Hlen%u16_to_le_inj Heq]; [|done..].
  apply app_inj_1 in Heq as [Hv Hr]; [|lia].
  split; [|done]. destruct t1, t2; simpl in *; congruence.
Qed.

Lemma encode_tlvs_inj ts1 : forall ts2,
  Forall tlv_wf ts1 -> Forall tlv_wf ts2 -> encode_tlvs ts1 = encode_tlvs ts2 -> ts1 = ts2.
Proof.
  induction ts1 as [|t1 ts1 IH]; intros [|t2 ts2] Hw1 Hw2 Heq; try done.
  rewrite !encode_tlvs_cons in Heq. inversion Hw1; inversion Hw2; subst.
  apply encode_tlv_inj in Heq as [-> Heq]; [|done..]. f_equal. by apply IH.
Qed.

Lemma encode_tag_inj tag1 tag2 r1 r2 :
  (forall t, tag1 = Some t -> is_u16 t) -> (forall t, tag2 = Some t -> is_u16 t) ->
  encode_tag tag1 ++ u16_to_be_bytes ETH_P_RRB ++ r1 =
    encode_tag tag2 ++ u16_to_be_bytes ETH_P_RRB ++ r2 ->
  tag1 = tag2 /\ r1 = r2.
Proof.
  intros H1 H2. destruct tag1 as [t1|], tag2 as [t2|]; cbn [encode_tag]; rewrite <- ?app_assoc.
  - intros Heq. apply app_inv_head in Heq.
    apply app_inj_1 in Heq as [Ht%u16_to_be_inj Heq]; [|auto..].
    apply app_inv_head in Heq. by subst.
  - discriminate.
  - discriminate.
  - cbn [app]. by intros [= ->].
Qed.

Lemma encode_rrb_inj p1 p2 : rrb_wf p1 -> rrb_wf p2 -> encode_rrb p1 = encode_rrb p2 -> p1 = p2.
Proof.
  intros (Hk1 & Hs1 & Hd1 & Ht1 & _ & _ & Ha1 & _) (Hk2 & Hs2 & Hd2 & Ht2 & _ & _ & Ha2 & _).
  unfold KIND_PULL, KIND_SEQ_RESPONSE in *.
  unfold encode_rrb, encode_header. rewrite <- !app_assoc. intros Heq%app_inv_head.
  apply app_inj_1 in Heq as [[= Hk%z2b_inj] Heq]; [|lia|lia|done].
  apply app_inj_1 in Heq as [Hs Heq]; [|congruence].
  apply app_inj_1 in Heq as [Hd Heq]; [|congruence].
  apply app_inj_1 in Heq as [Hl%u16_to_le_inj Heq]; [|done..].
  apply app_inj_1 in Heq as [Ht%encode_tlvs_inj Hp]; [|done|done|lia].
  destruct p1, p2; simpl in *; congruence.
Qed.

Lemma encode_inj w1 w2 : wire_wf w1 -> wire_wf w2 -> encode w1 = encode w2 -> w1 = w2.
Proof.
  intros (Hd1 & Hs1 & Ht1 & Hp1) (Hd2 & Hs2 & Ht2 & Hp2). unfold encode. intros Heq.
  apply app_inj_1 in Heq as [Hd Heq]; [|congruence].
  apply app_inj_1 in Heq as [Hs Heq]; [|congruence].
  apply encode_tag_inj in Heq as [Ht Hp%encode_rrb_inj]; [|done..].
  destruct w1, w2; simpl in *; congruence.
Qed.

(** ** Fixtures of [src/src/proto/tests.rs] *)

Definition test_filter : Filter :=
  {| management_vlan := 1; peer_count := 1; local_count := 1;
     target_mac := bytes_of [2; 0; 0; 0; 0; 1]%Z;
     locals := <[0 := {| local_bssid := bytes_of [2; 0; 0; 0; 0; 2]%Z; r0kh_len := 5;
                         r0kh := bytes_of [0x6c; 0x6f; 0x63; 0x61; 0x6c]%Z ++ replicate 43 Byte.x00 |}]>
                 (replicate MAX_LOCALS Local_default);
     peers := <[0 := {| peer_mac := bytes_of [2; 0; 0; 0; 1; 1]%Z; bssid_count := 1;
                        bssids := <[0 := bytes_of [2; 0; 0; 0; 1; 2]%Z]>
                                    (replicate MAX_PEER_BSSIDS (replicate 6 Byte.x00)) |}]>
                (replicate MAX_PEERS Peer_default) |}.

Definition test_tlv (tag : Z) (value : list byte) : list byte :=
  u16_to_le_bytes tag ++ u16_to_le_bytes (Z.of_nat (length value)) ++ value.

Definition test_frame (kind : Z) (broadcast : bool) (auth : list byte) : list byte :=
  target_mac test_filter ++ peer_mac (peers test_filter !!! 0) ++ bytes_of [0x81; 0; 0; 1]%Z
    ++ u16_to_be_bytes ETH_P_RRB ++ RRB_SELECTOR ++ [z2b kind]
    ++ bssids (peers test_filter !!! 0) !!! 0
    ++ (if broadcast then replicate 6 Byte.xff else local_bssid (locals test_filter !!! 0))
    ++ u16_to_le_bytes (Z.of_nat (length auth)) ++ auth ++ replicate SIV_LEN Byte.x00.

(** The same frames as data. *)
Definition test_wire (kind : Z) (broadcast : bool) (ts : list TlvElem) : Wire :=
  {| eth_dst := target_mac test_filter; eth_src := peer_mac (peers test_filter !!! 0);
     inline_tag := Some 1%Z;
     rrb := {| rrb_kind := kind; rrb_source := bssids (peers test_filter !!! 0) !!! 0;
               rrb_destination := if broadcast then BROADCAST else local_bssid (locals test_filter !!! 0);
               rrb_tlvs := ts; rrb_payload := replicate SIV_LEN Byte.x00 |} |}.

Definition test_local_tlv : TlvElem :=
  {| tlv_tag := TLV_R0KH; tlv_value := bytes_of [0x6c; 0x6f; 0x63; 0x61; 0x6c]%Z |}.

Lemma test_filter_wf : Filter_wf test_filter.
Proof.
  repeat split; try (cbn; lia); repeat (apply Forall_cons_2 || apply Forall_nil_2);
    repeat split; try (cbn; lia); repeat (apply Forall_cons_2 || apply Forall_nil_2); done.
Qed.

Lemma test_wire_encode k b : encode (test_wire k b [test_local_tlv]) = test_frame k b (encode_tlv test_local_tlv).
Proof. by destruct b. Qed.

Lemma test_wire_wf k b : (KIND_PULL <= k <= KIND_SEQ_RESPONSE)%Z -> wire_wf (test_wire k b [test_local_tlv]).
Proof.
  intros Hk. split_and!; [done|done|by intros t [= <-]|].
  unfold rrb_wf, test_wire; cbn [rrb rrb_kind rrb_source rrb_destination rrb_tlvs rrb_payload].
  split_and!; try done; try lia.
  - by destruct b.
  - constructor; [done|constructor].
  - apply NoDup_singleton.
  - cbn. unfold MAX_TLVS. lia.
Qed.

Lemma test_peer_ok : sender_ok test_filter (peer_mac (peers test_filter !!! 0)) (bssids (peers test_filter !!! 0) !!! 0).
Proof.
  right. exists 0. split_and!; [split_and!; [unfold MAX_PEERS; lia|cbn; lia|done]| |].
  - intros j Hj (_ & Hc & _). cbn in Hc. lia.
  - right. exists 0. split_and!; [unfold MAX_PEER_BSSIDS; lia|cbn; lia|done].
Qed.

Lemma test_authorized_unicast k : authorized test_filter Vlan_default (test_wire k false [test_local_tlv]).
Proof.
  split; [by exists 1%Z|]. split_and!; [by left|apply test_peer_ok|].
  cbn. exists 0. split_and!; [unfold MAX_LOCALS; lia|cbn; lia|done].
Qed.

(** ** Properties *)

(** C1. The parser refines the frame grammar and the acceptance policy:
    [classify] accepts a byte string exactly when it is the encoding, of at most
    [MAX_FRAME] bytes, of a well-formed frame that the filter authorizes, and it
    then reports that frame's message type and the offset of its RRB body. *)
Theorem classify_refines_grammar (frame : list byte) v f m :
  Filter_wf f ->
  classify frame v f = Ok m <->
  exists w, wire_wf w /\ frame = encode w /\ length frame <= MAX_FRAME /\ authorized f v w /\
    m = {| kind := rrb_kind (rrb w); body_offset := wire_body_offset w |}.
Proof.
  intros Hf. split; [by apply classify_sound|].
  intros (w & Hw & -> & Hl & Ha & ->). by apply classify_complete.
Qed.

Lemma classify_refines_grammar_witness :
  Filter_wf test_filter /\
  classify (test_frame 3 false (encode_tlv test_local_tlv)) Vlan_default test_filter = Ok (mkMatch 3 18).
Proof.
  split; [apply test_filter_wf|].
  apply (classify_refines_grammar _ _ _ _ test_filter_wf).
  exists (test_wire 3 false [test_local_tlv]).
  split; [apply test_wire_wf; done|]. split; [done|].
  split; [vm_compute; lia|]. split; [apply test_authorized_unicast|done].
Defined.

Definition with_payload (payload : list byte) (w : Wire) : Wire :=
  {| eth_dst := eth_dst w; eth_src := eth_src w; inline_tag := inline_tag w;
     rrb := {| rrb_kind := rrb_kind (rrb w); rrb_source := rrb_source (rrb w);
               rrb_destination := rrb_destination (rrb w); rrb_tlvs := rrb_tlvs (rrb w);
               rrb_payload := payload |} |}.

Definition with_dst (dst : Mac) (w : Wire) : Wire :=
  {| eth_dst := dst; eth_src := eth_src w; inline_tag := inline_tag w; rrb := rrb w |}.

Definition with_senders (src source : Mac) (w : Wire) : Wire :=
  {| eth_dst := eth_dst w; eth_src := src; inline_tag := inline_tag w;
     rrb := {| rrb_kind := rrb_kind (rrb w); rrb_source := source;
               rrb_destination := rrb_destination (rrb w); rrb_tlvs := rrb_tlvs (rrb w);
               rrb_payload := rrb_payload (rrb w) |} |}.

Lemma with_payload_wf w payload :
  wire_wf w -> SIV_LEN <= length payload -> wire_wf (with_payload payload w).
Proof. intros (? & ? & ? & ? & ? & ? & ? & ? & ? & ? & ?) Hp. by split_and!. Qed.

(** C26. The encrypted payload is opaque: replacing it by any other payload of
    at least [SIV_LEN] bytes does not change the verdict on an accepted frame. *)
Theorem payload_is_opaque w v f m payload :
  Filter_wf f -> wire_wf w -> SIV_LEN <= length payload ->
  length (encode (with_payload payload w)) <= MAX_FRAME ->
  classify (encode w) v f = Ok m -> classify (encode (with_payload payload w)) v f = Ok m.
Proof.
  intros Hf Hw Hp Hl (w' & Hw' & Henc & _ & Ha & ->)%classify_sound; [|done].
  apply encode_inj in Henc as <-; [|done|done].
  apply (classify_complete (with_payload payload w)); [done|by apply with_payload_wf|done|done].
Qed.

Lemma payload_is_opaque_witness :
  classify (encode (with_payload (replicate 40 Byte.xaa) (test_wire 2 false [test_local_tlv])))
    Vlan_default test_filter = Ok (mkMatch 2 18).
Proof.
  apply payload_is_opaque;
    [apply test_filter_wf|apply test_wire_wf; done|vm_compute; lia|vm_compute; lia|vm_compute; reflexivity].
Defined.

(** Fail-closed: a filter with no local BSS configured accepts no frame at
    all, broadcast ones included. *)
Theorem no_locals_rejects_everything (frame : list byte) v f m :
  Filter_wf f -> local_count f = 0%Z -> classify frame v f <> Ok m.
Proof.
  intros Hf Hz (w & _ & _ & _ & (_ & _ & _ & Hd) & _)%classify_sound; [|done].
  destruct (decide _) in Hd.
  - destruct Hd as (_ & id & _ & _ & i & _ & Hi & _). lia.
  - destruct Hd as (i & _ & Hi & _). lia.
Qed.

Lemma no_locals_rejects_everything_witness :
  classify (test_frame 3 false (encode_tlv test_local_tlv)) Vlan_default Filter_default <> Ok (mkMatch 3 18).
Proof. apply no_locals_rejects_everything; [apply Filter_default_wf|reflexivity]. Defined.

Lemma land_vid_range t : (0 <= Z.land t TCI_VID_MASK < 4096)%Z.
Proof.
  change TCI_VID_MASK with (Z.ones 12). rewrite Z.land_ones by lia. apply Z.mod_pos_bound. lia.
Qed.

(** A management VLAN above the 12-bit range (which configuration
    validation lets through) silences the relay: no frame is ever accepted. *)
Theorem vlan_out_of_range_rejects_everything (frame : list byte) v f m :
  Filter_wf f -> (4096 <= management_vlan f)%Z -> classify frame v f <> Ok m.
Proof.
  intros Hf Hz (w & _ & _ & _ & (Hv & _) & _)%classify_sound; [|done].
  unfold vlan_ok in Hv. destruct (present v).
  - destruct Hv as (_ & _ & Hv). pose proof (land_vid_range (tci v)). lia.
  - destruct Hv as (t & _ & Hv). pose proof (land_vid_range t). lia.
Qed.

Definition test_filter_vlan (vid : Z) : Filter :=
  {| management_vlan := vid; peer_count := peer_count test_filter; local_count := local_count test_filter;
     target_mac := target_mac test_filter; locals := locals test_filter; peers := peers test_filter |}.

Lemma vlan_out_of_range_rejects_everything_witness :
  classify (test_frame 3 false (encode_tlv test_local_tlv)) Vlan_default (test_filter_vlan 5000)
    <> Ok (mkMatch 3 18).
Proof.
  apply vlan_out_of_range_rejects_everything; [|cbn; lia].
  pose proof test_filter_wf as Hwf. destruct Hwf as [_ Hwf]. split; [cbn; unfold is_u16; lia|exact Hwf].
Defined.

(** An empty peer list is a wildcard: the verdict on an accepted frame does
    not depend on the Ethernet source or on the claimed source BSS. *)
Theorem no_peers_accepts_any_sender w v f m src source :
  Filter_wf f -> wire_wf w -> peer_count f = 0%Z -> length src = 6 -> length source = 6 ->
  classify (encode w) v f = Ok m -> classify (encode (with_senders src source w)) v f = Ok m.
Proof.
  intros Hf Hw Hz Hsrc Hsource (w' & Hw' & Henc & Hl & (Hv & Hd & _ & Hb) & ->)%classify_sound; [|done].
  apply encode_inj in Henc as <-; [|done|done].
  assert (wire_wf (with_senders src source w)) as Hws.
  { destruct Hw as (? & ? & ? & ? & ? & ? & ? & ? & ? & ? & ?). by split_and!. }
  apply (classify_complete (with_senders src source w)); [done|done| |].
  - revert Hl. unfold encode, encode_rrb, encode_header. cbn [with_senders eth_dst eth_src inline_tag rrb
      rrb_kind rrb_source rrb_destination rrb_tlvs rrb_payload]. rewrite !length_app, Hsrc, Hsource.
    destruct Hw as (? & Hs & _ & _ & Hss & _). rewrite Hs, Hss. done.
  - split; [exact Hv|split_and!; [exact Hd|by left|exact Hb]].
Qed.

Definition test_filter_no_peers : Filter :=
  {| management_vlan := 1; peer_count := 0; local_count := 1;
     target_mac := target_mac test_filter; locals := locals test_filter; peers := peers test_filter |}.

Lemma no_peers_accepts_any_sender_witness :
  classify (encode (with_senders (replicate 6 Byte.x08) (replicate 6 Byte.x09) (test_wire 5 false [test_local_tlv])))
    Vlan_default test_filter_no_peers = Ok (mkMatch 5 18).
Proof.
  apply no_peers_accepts_any_sender; [|apply test_wire_wf; done|reflexivity|reflexivity|reflexivity|vm_compute; reflexivity].
  pose proof test_filter_wf as (? & _ & Hwf). split; [done|]. split; [cbn; lia|exact Hwf].
Defined.

(** The broadcast restriction is tied to the RRB destination BSS, not to
    the Ethernet destination: an accepted frame of any type whose destination
    BSS is unicast stays accepted when it is sent to the Ethernet broadcast
    address, with no R0KH-ID required. *)
Theorem ethernet_broadcast_is_unrestricted w v f m :
  Filter_wf f -> wire_wf w -> rrb_destination (rrb w) <> BROADCAST ->
  classify (encode w) v f = Ok m -> classify (encode (with_dst BROADCAST w)) v f = Ok m.
Proof.
  intros Hf Hw Hnb (w' & Hw' & Henc & Hl & (Hv & Hd & Hs & Hb) & ->)%classify_sound; [|done].
  apply encode_inj in Henc as <-; [|done|done].
  apply (classify_complete (with_dst BROADCAST w)); [done| | |].
  - destruct Hw as (? & ? & ? & ?). by split_and!.
  - revert Hl. unfold encode. rewrite !length_app. cbn [with_dst eth_dst eth_src inline_tag rrb].
    destruct Hw as (-> & _). done.
  - split; [exact Hv|split_and!; [by right|exact Hs|exact Hb]].
Qed.

Lemma ethernet_broadcast_is_unrestricted_witness :
  classify (encode (with_dst BROADCAST (test_wire 3 false []))) Vlan_default test_filter = Ok (mkMatch 3 18).
Proof.
  apply ethernet_broadcast_is_unrestricted;
    [apply test_filter_wf| |discriminate|vm_compute; reflexivity].
  split_and!; [reflexivity|reflexivity|by intros t [= <-]|].
  split_and!; try done; try (cbn; unfold MAX_TLVS; lia); constructor.
Defined.
