(* ===== verification/Verdict.v ===== *)
(** * Why a frame is rejected: the order of the checks

    [classify] documents its checks as "geometry, VLAN scope, Ethernet addresses,
    RRB header, TLV stream, and broadcast restrictions, in that order" and its
    errors as mapping one to one to rejection counters.  [stages] is that list of
    checks as propositions about the bytes of the frame; the verdict is [Ok] when
    all hold and otherwise the counter of the first one that does not. *)

From Stdlib Require Import ZArith Lia Strings.Byte.
From stdpp Require Import base list numbers list_numbers sets.
From S2P Require Import Prelude Proto Parse Wire.
Local Open Scope nat_scope.
Local Open Scope rrb_scope.

Section Stages.
Variables (fr : list byte) (v : Vlan) (f : Filter).

(** Offset of the RRB body in the representation that [v] announces. *)
Definition body_of : nat :=
  if present v then ETH_HEADER_LEN else ETH_HEADER_LEN + VLAN_TAG_LEN.

Definition auth_len : nat :=
  Z.to_nat (u16_from_le_bytes (fr !!! (body_of + 18)) (fr !!! (body_of + 19))).

Definition auth_end : nat := body_of + RRB_HEADER_LEN + auth_len.

(** [ts] is the auth-data block of the frame. *)
Definition tlv_block (ts : list TlvElem) : Prop :=
  slice (body_of + RRB_HEADER_LEN) auth_end fr = encode_tlvs ts /\
  Forall tlv_wf ts /\ NoDup (map tlv_tag ts) /\ length ts <= MAX_TLVS.

Definition frame_kind : Z := b2z (fr !!! (body_of + 5)).
Definition frame_source : Mac := slice (body_of + 6) (body_of + 12) fr.
Definition frame_destination : Mac := slice (body_of + 12) (body_of + 18) fr.

(** Sender known, whatever BSS it claims; and the BSS it claims. *)
Definition peer_known : Prop :=
  peer_count f = 0%Z \/ exists i, peer_at f (slice 6 12 fr) i.

Definition stages : list (Counter * Prop) :=
  [ (Length, ETH_HEADER_LEN <= length fr <= MAX_FRAME);
    (Vlan_, exists tag, gate_ok fr f v tag body_of);
    (EtherAddress, (slice 0 6 fr = target_mac f \/ slice 0 6 fr = BROADCAST) /\ peer_known);
    (Length, body_of + RRB_HEADER_LEN <= length fr);
    (OuiType, slice body_of (body_of + 5) fr = RRB_SELECTOR /\
              (KIND_PULL <= frame_kind <= KIND_SEQ_RESPONSE)%Z);
    (SourceBss, sender_ok f (slice 6 12 fr) frame_source);
    (DestinationBss, frame_destination = BROADCAST \/ local_bss f frame_destination);
    (AuthLength, auth_end + SIV_LEN <= length fr);
    (Tlv, exists ts, tlv_block ts);
    (BroadcastScope,
       frame_destination = BROADCAST ->
       (frame_kind = KIND_PULL \/ frame_kind = KIND_SEQ_REQUEST) /\
       exists ts id, tlv_block ts /\ r0kh_of ts = Some id /\ 1 <= length id <= MAX_R0KH /\
         local_r0kh f id) ].
End Stages.

(** The outcome that a list of checks determines. *)
Inductive verdict (m : Match) : list (Counter * Prop) -> result Counter Match -> Prop :=
| verdict_accept : verdict m [] (Ok m)
| verdict_pass c (P : Prop) rest res : P -> verdict m rest res -> verdict m ((c, P) :: rest) res
| verdict_reject c (P : Prop) rest : ~ P -> verdict m ((c, P) :: rest) (Err c).

(** A check list determines at most one outcome. *)
Lemma verdict_functional m l r1 r2 : verdict m l r1 -> verdict m l r2 -> r1 = r2.
Proof.
  intros H1. revert r2. induction H1; intros r2 H2; inversion H2; subst; auto; contradiction.
Qed.

Lemma walk_err {R} `{ReadFrame R} (r : R) e fuel : forall i w c,
  walk_tlvs r e fuel i w = Err c -> c = Tlv.
Proof.
  induction fuel as [|fuel IH]; intros i w c; simpl; [done|].
  destruct (_ =? _); [done|]. destruct (_ <? _); [by intros [= <-]|].
  destruct (rf_read r 4 (pos w)); simpl; [|by intros [= <-]].
  destruct (seen_tag _ _ _); [by intros [= <-]|].
  destruct (_ <? _); [by intros [= <-]|]. apply IH.
Qed.

(** One check of the code against one stage of the specification. *)
Lemma verdict_step m c (P : Prop) rest (b : bool) res :
  (b = false <-> P) -> (P -> verdict m rest res) ->
  verdict m ((c, P) :: rest) (if b then Err c else res).
Proof.
  intros Hb Hrest. destruct b.
  - apply verdict_reject. intros HP%Hb. done.
  - assert P as HP by by apply Hb. apply verdict_pass; auto.
Qed.

Section Proof.
Variables (fr : list byte) (v : Vlan) (f : Filter).
Hypothesis f_wf : Filter_wf f.
Let m : Match := {| kind := frame_kind fr v; body_offset := body_of v |}.

(** The stages after the TLV walk. *)
Lemma broadcast_verdict w ts :
  length fr <= MAX_FRAME -> auth_end fr v + SIV_LEN <= length fr -> tlv_block fr v ts ->
  r0kh_registers fr (auth_end fr v) ts
    {| pos := body_of v + 20; tags := replicate MAX_TLVS 0%Z; r0kh_position := 0; r0kh_size := 0 |} w ->
  verdict m (drop 9 (stages fr v f))
    (let accept : result Counter Match := Ok m in
     if bool_decide (frame_destination fr v = BROADCAST) then
       if (negb (frame_kind fr v =? KIND_PULL)%Z && negb (frame_kind fr v =? KIND_SEQ_REQUEST)%Z)
          || (r0kh_size w =? 0) || (MAX_R0KH <? r0kh_size w) then Err BroadcastScope
       else
       r0kh_found ← scan_r0kh fr f (r0kh_position w) (r0kh_size w);
       if negb r0kh_found then Err BroadcastScope else accept
     else accept).
Proof.
  intros Hmax Hend Hts Hreg. cbn [drop stages]. cbv zeta. unfold MAX_FRAME, SIV_LEN in *.
  case_bool_decide as Hb; [|apply verdict_pass; [done|constructor]].
  assert (forall ts', tlv_block fr v ts' -> ts' = ts) as Huniq.
  { intros ts' Hts'. apply encode_tlvs_inj; [apply Hts'|apply Hts|].
    destruct Hts' as [<- _], Hts as [<- _]. done. }
  unfold r0kh_registers in Hreg.
  destruct (_ || _ || _) eqn:Hgate.
  { apply verdict_reject. intros (Hk & ts' & id & ->%Huniq & Hid & Hl & _)%(fun H => H Hb).
    apply not_false_iff_true in Hgate. apply Hgate.
    rewrite Hid in Hreg. destruct Hreg as [-> _].
    rewrite !orb_false_iff, andb_false_iff, !negb_false_iff, !Z.eqb_eq, Nat.eqb_neq, Nat.ltb_ge. lia. }
  rewrite !orb_false_iff, andb_false_iff, !negb_false_iff, !Z.eqb_eq, Nat.eqb_neq, Nat.ltb_ge in Hgate.
  destruct Hgate as [[Hk Hz] Hmx].
  destruct (r0kh_of ts) as [id|] eqn:Hid; [|simpl in Hreg; lia].
  destruct Hreg as (Hsz & Hin & Hsl).
  destruct (scan_r0kh_spec fr) with (f := f) (position := r0kh_position w) (size := r0kh_size w)
    as (found & -> & Hfound); [cbn; lia|done|cbn; lia|lia|].
  rewrite Hsz, Hsl in Hfound. cbn [mbind result_bind].
  destruct found; cbn [negb].
  - apply verdict_pass; [|constructor]. intros _. split; [done|]. exists ts, id.
    split_and!; try done; try lia. by apply Hfound.
  - apply verdict_reject. intros (_ & ts' & id' & ->%Huniq & Hid' & _ & Hloc)%(fun H => H Hb).
    assert (id' = id) as -> by congruence. apply Hfound in Hloc. done.
Qed.

Lemma tlv_verdict :
  length fr <= MAX_FRAME -> auth_end fr v + SIV_LEN <= length fr ->
  verdict m (drop 8 (stages fr v f))
    (w ← walk_tlvs fr (auth_end fr v) MAX_TLVS 0
           {| pos := body_of v + 20; tags := replicate MAX_TLVS 0%Z; r0kh_position := 0; r0kh_size := 0 |};
     if negb (pos w =? auth_end fr v) then Err Tlv
     else
     let accept : result Counter Match := Ok m in
     if bool_decide (frame_destination fr v = BROADCAST) then
       if (negb (frame_kind fr v =? KIND_PULL)%Z && negb (frame_kind fr v =? KIND_SEQ_REQUEST)%Z)
          || (r0kh_size w =? 0) || (MAX_R0KH <? r0kh_size w) then Err BroadcastScope
       else
       r0kh_found ← scan_r0kh fr f (r0kh_position w) (r0kh_size w);
       if negb r0kh_found then Err BroadcastScope else accept
     else accept).
Proof.
  intros Hmax Hend. set (w0 := {| pos := _ |}).
  assert (Z.of_nat (length fr) < 2 ^ 32)%Z as Hsmall by (unfold MAX_FRAME in *; lia).
  assert (auth_end fr v <= length fr) as Hin by lia.
  assert (pos w0 <= auth_end fr v) as Hpos by (unfold auth_end, RRB_HEADER_LEN; simpl; lia).
  assert (forall ts, tlv_block fr v ts -> exists w', walk_tlvs fr (auth_end fr v) MAX_TLVS 0 w0 = Ok w' /\
            pos w' = auth_end fr v /\ r0kh_registers fr (auth_end fr v) ts w0 w') as Hcomplete.
  { intros ts (Hs & Hwf & Hnd & Hl). by apply walk_complete. }
  destruct (walk_tlvs fr (auth_end fr v) MAX_TLVS 0 w0) as [w|c] eqn:Hwalk; cbn [mbind result_bind].
  - destruct (Nat.eqb_spec (pos w) (auth_end fr v)) as [Heq|Hne]; cbn [negb].
    + pose proof Hwalk as Hex.
      eapply walk_exact in Hex as (ts & Hs & Hwf & Hl & Hnd & Hreg); try done; [|constructor].
      assert (tlv_block fr v ts) as Hts by by split_and!.
      apply verdict_pass; [by exists ts|]. by apply (broadcast_verdict w ts).
    + apply verdict_reject. intros (ts & (w' & [= <-] & ? & _)%Hcomplete). done.
  - rewrite (walk_err _ _ _ _ _ _ Hwalk). apply verdict_reject.
    intros (ts & (w' & ? & _)%Hcomplete). done.
Qed.

Lemma sender_ok_known bss : sender_ok f (slice 6 12 fr) bss -> peer_known fr f.
Proof. intros [?|(i & Hi & _)]; [by left|right; by exists i]. Qed.

Lemma peer_known_spec :
  (0 <? peer_count f)%Z && bool_decide (scan_peers f (slice 6 12 fr) = None) = false <-> peer_known fr f.
Proof.
  assert (0 <= peer_count f)%Z by apply f_wf. unfold peer_known.
  rewrite andb_false_iff, Z.ltb_ge, bool_decide_eq_false.
  destruct (scan_peers f (slice 6 12 fr)) as [i|] eqn:Hs.
  - apply scan_peers_Some in Hs as [Hi _]. split; [intros _; right; by exists i|by right].
  - rewrite scan_peers_None in Hs. split; [intros [?|?]; [left; lia|done]|].
    intros [->|[i Hi]]; [by left|by destruct (Hs i)].
Qed.

Lemma body_verdict :
  length fr <= MAX_FRAME -> body_of v <= length fr ->
  verdict m (drop 2 (stages fr v f)) (parse_rrb fr (body_of v) f).
Proof.
  intros Hmax Hbody. unfold MAX_FRAME in Hmax.
  assert (12 <= body_of v <= 18) as Hb
    by (unfold body_of, ETH_HEADER_LEN, VLAN_TAG_LEN; destruct (present v); lia).
  unfold parse_rrb. rewrite !(read_mac fr (body_of v)) by (cbn; lia).
  cbn [ok_or mbind result_bind Nat.add rf_bytes slice_ReadFrameOk].
  cbn [drop stages].
  destruct (bool_decide _ && bool_decide _) eqn:Heth.
  { apply verdict_reject. rewrite andb_true_iff, !bool_decide_eq_true in Heth. tauto. }
  rewrite andb_false_iff, !bool_decide_eq_false in Heth.
  apply verdict_step.
  { rewrite peer_known_spec. split; [|tauto]. split; [|done].
    destruct Heth as [?%dec_stable|?%dec_stable]; auto. }
  intros [_ Hknown]. unfold RRB_HEADER_LEN.
  rewrite rf_read_ok by (unfold usize_modulus; lia). cbn [rf_bytes slice_ReadFrameOk].
  destruct (Nat.leb_spec (body_of v + 20) (length fr)) as [Hhdr|]; [|apply verdict_reject; lia].
  apply verdict_pass; [done|]. cbn [ok_or mbind result_bind].
  rewrite !lookup_total_slice, !slice_slice, Nat.add_0_r by lia.
  fold (frame_kind fr v) (frame_source fr v) (frame_destination fr v) (auth_len fr v).
  apply verdict_step.
  { rewrite !orb_false_iff, bool_decide_eq_false, !Z.ltb_ge. split; [|tauto].
    intros [[?%dec_stable ?] ?]. tauto. }
  intros _. apply verdict_step.
  { rewrite <- source_bss_rejected_spec, peer_known_spec by done. tauto. }
  intros _. apply verdict_step.
  { rewrite andb_false_iff, !negb_false_iff, bool_decide_eq_true, scan_locals_spec. done. }
  intros _.
  pose proof (u16_from_le_range (fr !!! (body_of v + 18)) (fr !!! (body_of v + 19))) as Hal.
  unfold is_u16 in Hal.
  assert (auth_len fr v < Z.to_nat 65536) by (unfold auth_len; lia).
  rewrite (uadd_small (body_of v) 20), (uadd_small (body_of v + 20)), uadd_small
    by (unfold usize_modulus, SIV_LEN; lia).
  change (body_of v + 20 + auth_len fr v) with (auth_end fr v).
  apply verdict_step; [by rewrite Nat.ltb_ge|]. intros Hend. by apply tlv_verdict.
Qed.
End Proof.

Lemma gate_body (fr : list byte) f v tag b : gate_ok fr f v tag b -> b = body_of v.
Proof.
  intros (Hv & _ & -> & _). unfold vlan_ok, body_of in *.
  destruct (present v); [by destruct Hv as [-> _]|by destruct Hv as (t & -> & _)].
Qed.

Lemma vlan_gate_err {R} `{ReadFrame R} (r : R) v f p c : vlan_gate r v f p = Err c -> c = Vlan_.
Proof.
  unfold vlan_gate. destruct (present v).
  - destruct (_ || _ || _); [by intros [= <-]|done].
  - destruct (rf_read r 4 ETH_HEADER_LEN); simpl; [|by intros [= <-]].
    destruct (_ || _ || _); [by intros [= <-]|done].
Qed.

Lemma classify_verdict_lemma (fr : list byte) v f :
  Filter_wf f ->
  verdict {| kind := frame_kind fr v; body_offset := body_of v |} (stages fr v f) (classify fr v f).
Proof.
  intros Hf. unfold classify. cbn [rf_len slice_ReadFrame]. unfold ETH_HEADER_LEN, MAX_FRAME.
  apply verdict_step; [rewrite orb_false_iff, !Nat.ltb_ge; done|]. intros [Hl Hu].
  unfold ETH_HEADER_LEN, MAX_FRAME in Hl, Hu.
  rewrite rf_read_ok, (proj2 (Nat.leb_le _ _)) by (cbn; unfold usize_modulus, ETH_TYPE_OFFSET; lia).
  cbn [ok_or mbind result_bind rf_bytes slice_ReadFrameOk].
  change (slice ETH_TYPE_OFFSET (ETH_TYPE_OFFSET + 2) fr) with (slice 12 14 fr).
  pose proof (length_slice 12 14 fr Hl) as Hl2.
  destruct (slice 12 14 fr) as [|a [|b [|]]] eqn:Hab; simpl in Hl2; try lia.
  cbn [lookup_total list_lookup_total].
  destruct (vlan_gate fr v f (u16_from_be_bytes a b)) as [body|c] eqn:Hgate; cbn [mbind result_bind].
  - apply vlan_gate_sound in Hgate as (tag & Htag); [|done|done].
    pose proof (gate_body _ _ _ _ _ Htag) as ->.
    apply verdict_pass; [by exists tag|]. apply body_verdict; [done|done|]. apply Htag.
  - rewrite (vlan_gate_err _ _ _ _ _ Hgate). apply verdict_reject. intros (tag & Htag).
    eapply vlan_gate_complete in Htag; [|exact Hab]. congruence.
Qed.

(** ** Properties *)

(** C3. The verdict of [classify] is fixed by the documented order of the
    checks: it is [Ok] with the frame's own type and body offset when every
    stage holds, and otherwise the counter of the first stage that fails, with
    all the earlier ones passed. *)
Theorem classify_first_failing_check (fr : list byte) v f res :
  Filter_wf f ->
  classify fr v f = res <->
  verdict {| kind := frame_kind fr v; body_offset := body_of v |} (stages fr v f) res.
Proof.
  intros Hf. pose proof (classify_verdict_lemma fr v f Hf) as Hv. split; [by intros <-|].
  apply (verdict_functional _ _ _ _ Hv).
Qed.

Lemma verdict_err_in m l c : verdict m l (Err c) -> c ∈ map fst l.
Proof.
  intros H. remember (Err c) as res. induction H; simplify_eq/=; set_solver.
Qed.

Lemma classify_reject_counter (fr : list byte) v f c :
  Filter_wf f -> classify fr v f = Err c -> c ∈ reject_counters.
Proof.
  intros Hf Hc. pose proof (classify_verdict_lemma fr v f Hf) as Hv. rewrite Hc in Hv.
  apply verdict_err_in in Hv. revert Hv. unfold stages, reject_counters. cbn [map fst].
  rewrite !elem_of_cons. tauto.
Qed.

(** A rejection is always counted on one of the nine [reject_*] slots: the
    parser never returns a counter that the daemon increments itself. *)
Theorem classify_rejects_with_reject_counter (fr : list byte) v f c :
  Filter_wf f -> classify fr v f = Err c -> c ∈ reject_counters.
Proof. apply classify_reject_counter. Qed.

Lemma verdict_ok_all m l m' : verdict m l (Ok m') -> m' = m /\ Forall snd l.
Proof.
  intros H. remember (Ok m') as res. induction H; simplify_eq/=; [done|].
  destruct IHverdict as [-> Hall]; [done|]. split; [done|]. by constructor.
Qed.

Lemma classify_ok_stages (fr : list byte) v f m :
  Filter_wf f -> classify fr v f = Ok m ->
  m = {| kind := frame_kind fr v; body_offset := body_of v |} /\ Forall snd (stages fr v f).
Proof.
  intros Hf Hok. pose proof (classify_verdict_lemma fr v f Hf) as Hv. rewrite Hok in Hv.
  by apply verdict_ok_all in Hv.
Qed.

(** What acceptance says about the geometry of the frame. *)
Lemma classify_ok_geometry (fr : list byte) v f m :
  Filter_wf f -> classify fr v f = Ok m ->
  body_of v + RRB_HEADER_LEN <= length fr /\ auth_end fr v + SIV_LEN <= length fr <= MAX_FRAME /\
  (KIND_PULL <= frame_kind fr v <= KIND_SEQ_RESPONSE)%Z /\ exists tag, gate_ok fr f v tag (body_of v).
Proof.
  intros Hf (_ & Hall)%classify_ok_stages; [|done]. unfold stages in Hall.
  repeat match goal with H : Forall _ (_ :: _) |- _ => apply Forall_cons in H as [? H] end.
  simpl in *. tauto.
Qed.

Lemma auth_end_take (fr : list byte) v n :
  body_of v + 20 <= n -> auth_end (take n fr) v = auth_end fr v.
Proof.
  intros Hn. unfold auth_end, auth_len.
  by rewrite !list_lookup_total_alt, !lookup_take_lt by lia.
Qed.

Lemma encode_auth_end w v :
  wire_wf w -> body_of v = wire_body_offset w ->
  auth_end (encode w) v = wire_body_offset w + RRB_HEADER_LEN + length (encode_tlvs (rrb_tlvs (rrb w))).
Proof.
  intros Hw Hb. destruct (encode_split w Hw) as (_ & _ & _ & Hd & _ & Hlen).
  destruct Hw as (_ & _ & _ & Hk & Hs & Hdst & _ & _ & _ & Ha & _).
  unfold auth_end, auth_len. rewrite Hb. f_equal.
  destruct (header_fields (rrb w) _ Hk Hs Hdst Ha) as (_ & _ & _ & _ & Hal).
  rewrite <- Hal at 1. pose proof (length_encode_header (rrb w) (length (encode_tlvs (rrb_tlvs (rrb w)))) Hs Hdst) as Hhl.
  unfold RRB_HEADER_LEN in Hhl.
  rewrite !list_lookup_total_alt, <- !lookup_drop, Hd. unfold encode_rrb.
  by rewrite !lookup_app_l by lia.
Qed.

Lemma take_encode w n :
  wire_wf w -> wire_body_offset w + RRB_HEADER_LEN + length (encode_tlvs (rrb_tlvs (rrb w))) <= n ->
  take n (encode w) =
  encode (with_payload (take (n - (wire_body_offset w + RRB_HEADER_LEN +
            length (encode_tlvs (rrb_tlvs (rrb w))))) (rrb_payload (rrb w))) w).
Proof.
  intros Hw Hn. destruct (encode_split w Hw) as (_ & _ & _ & _ & Ho & _).
  destruct Hw as (Hd & Hs & _ & _ & Hss & Hds & _).
  pose proof (length_encode_header (rrb w) (length (encode_tlvs (rrb_tlvs (rrb w)))) Hss Hds) as Hhl.
  unfold encode at 2. unfold encode_rrb. cbn [with_payload eth_dst eth_src inline_tag rrb rrb_tlvs rrb_payload].
  change (encode_header {| rrb_kind := _ |}) with (encode_header (rrb w)).
  unfold encode, encode_rrb. rewrite !app_assoc, take_app_ge; rewrite !length_app, Hd, Hs, Hhl; simpl; [|lia].
  do 3 f_equal. lia.
Qed.

(** C27. Truncation: a prefix of an accepted frame is accepted exactly when it
    still holds the whole auth-data block and the [SIV_LEN] bytes of the
    authentication tag after it; every shorter prefix is rejected. *)
Theorem truncation_verdict (fr : list byte) v f m n :
  Filter_wf f -> classify fr v f = Ok m ->
  classify (take n fr) v f = Ok m <-> auth_end fr v + SIV_LEN <= n.
Proof.
  intros Hf Hok. split.
  - intros (Hb & [He _] & _)%classify_ok_geometry; [|done].
    rewrite length_take in Hb, He. unfold RRB_HEADER_LEN in Hb.
    rewrite auth_end_take in He; lia.
  - intros Hn. pose proof (classify_ok_geometry _ _ _ _ Hf Hok) as (_ & _ & _ & tag & Hg).
    apply classify_sound in Hok as (w & Hw & -> & Hl & Ha & ->); [|done].
    assert (body_of v = wire_body_offset w) as Hb.
    { destruct Ha as [Hv _]. unfold vlan_ok, body_of, wire_body_offset in *.
      destruct (present v); [by destruct Hv as [-> _]|by destruct Hv as (t & -> & _)]. }
    rewrite encode_auth_end in Hn by done. unfold SIV_LEN in *.
    rewrite take_encode by (done || lia).
    apply (classify_complete (with_payload _ w)); [done| | |exact Ha].
    + apply with_payload_wf; [done|]. rewrite length_take. unfold SIV_LEN.
      destruct Hw as (_ & _ & _ & _ & _ & _ & _ & _ & _ & _ & Hp). unfold SIV_LEN in Hp. lia.
    + rewrite <- take_encode by (done || lia). rewrite length_take. lia.
Qed.

Lemma truncation_verdict_witness :
  classify (take 62 (test_frame 3 false (encode_tlv test_local_tlv))) Vlan_default test_filter = Ok (mkMatch 3 18)
  <-> auth_end (test_frame 3 false (encode_tlv test_local_tlv)) Vlan_default + SIV_LEN <= 62.
Proof.
  apply truncation_verdict; [apply test_filter_wf|vm_compute; reflexivity].
Defined.

Lemma classify_first_failing_check_witness :
  classify (test_frame 2 true (encode_tlv test_local_tlv)) Vlan_default test_filter = Err BroadcastScope <->
  verdict {| kind := frame_kind (test_frame 2 true (encode_tlv test_local_tlv)) Vlan_default;
             body_offset := body_of Vlan_default |}
    (stages (test_frame 2 true (encode_tlv test_local_tlv)) Vlan_default test_filter) (Err BroadcastScope).
Proof. apply classify_first_failing_check. apply test_filter_wf. Defined.

Lemma classify_rejects_with_reject_counter_witness : BroadcastScope ∈ reject_counters.
Proof.
  apply (classify_rejects_with_reject_counter (test_frame 2 true (encode_tlv test_local_tlv)) Vlan_default test_filter);
    [apply test_filter_wf|vm_compute; reflexivity].
Defined.
