(* ===== verification/Relay.v ===== *)
(** * The pure relay logic: [src/src/relay.rs]

    Untagging (with the panics of its slice expressions as [None]), the counter
    and name of a message type, MAC printing, and the fixed-window [Limiter]. *)

From Stdlib Require Import ZArith Lia Strings.Byte Strings.String Sorting.Sorted.
From stdpp Require Import base list numbers list_numbers sets.
From S2P Require Import Prelude Proto Parse Wire Verdict.
Local Open Scope nat_scope.
Local Open Scope rrb_scope.

(** [None] is a panic: [frame.len() - VLAN_TAG_LEN] wraps below zero and
    [Vec::with_capacity] refuses it, or a slice index is out of range. *)
Definition untag (frame : list byte) (vlan : Vlan) : option (list byte) :=
  if present vlan then Some frame
  else if length frame <? VLAN_TAG_LEN then None
  else
    head ← slice_get frame 0 ETH_TYPE_OFFSET;
    tail ← slice_get frame (ETH_TYPE_OFFSET + VLAN_TAG_LEN) (length frame);
    Some (head ++ tail).

Definition kind_counter (kind : Z) : Counter :=
  if (kind =? KIND_PULL)%Z then Pull
  else if (kind =? KIND_RESPONSE)%Z then Response
  else if (kind =? KIND_PUSH)%Z then Push
  else if (kind =? KIND_SEQ_REQUEST)%Z then SeqRequest
  else SeqResponse.

Definition kind_name (kind : Z) : string :=
  if (kind =? KIND_PULL)%Z then "pull"
  else if (kind =? KIND_RESPONSE)%Z then "response"
  else if (kind =? KIND_PUSH)%Z then "push"
  else if (kind =? KIND_SEQ_REQUEST)%Z then "seq_request"
  else if (kind =? KIND_SEQ_RESPONSE)%Z then "seq_response"
  else "unknown".

(** Lowercase hexadecimal digit of [0 <= n < 16]. *)
Definition hex_digit (n : Z) : byte := z2b (if (n <? 10)%Z then 48 + n else 87 + n).

(** [format!("{:02x}", b)]. *)
Definition hex_byte (b : byte) : list byte := [hex_digit (b2z b / 16); hex_digit (b2z b mod 16)].

Definition colon : byte := Byte.x3a.

Definition mac_string (mac : Mac) : list byte :=
  hex_byte (mac !!! 0) ++ [colon] ++ hex_byte (mac !!! 1) ++ [colon] ++ hex_byte (mac !!! 2) ++ [colon]
    ++ hex_byte (mac !!! 3) ++ [colon] ++ hex_byte (mac !!! 4) ++ [colon] ++ hex_byte (mac !!! 5).

Record Limiter := mkLimiter {
  window : Z;
  used : Z;
  per_second : Z;
}.

Definition Limiter_new (pps : Z) : Limiter :=
  {| window := u64_modulus - 1; used := 0; per_second := pps |}.

(** The new state is part of the result on the error path too. *)
Definition admit_ (l : Limiter) (now_secs : Z) : result Counter unit * Limiter :=
  let l := if negb (window l =? now_secs)%Z
           then {| window := now_secs; used := 0; per_second := per_second l |} else l in
  if (per_second l <=? used l)%Z then (Err RateLimited, l)
  else (Ok tt, {| window := window l; used := u64_incr (used l); per_second := per_second l |}).

(** A sequence of calls: whether each was admitted. *)
Fixpoint admit_all (l : Limiter) (times : list Z) : list (Z * bool) :=
  match times with
  | [] => []
  | t :: times' =>
      let '(r, l') := admit_ l t in (t, is_ok r) :: admit_all l' times'
  end.

Definition requests_at (t : Z) (times : list Z) : nat := length (List.filter (fun u => u =? t)%Z times).

Definition admitted_at (t : Z) (log : list (Z * bool)) : nat :=
  length (List.filter (fun '(u, ok) => (u =? t)%Z && ok) log).

(** The [u32] budget and the invariant of the [used] register. *)
Definition Limiter_ok (l : Limiter) : Prop :=
  (0 <= per_second l < 2 ^ 32)%Z /\ (0 <= used l <= per_second l)%Z.

(** The frame without its inline tag. *)
Definition untagged (w : Wire) : Wire :=
  {| eth_dst := eth_dst w; eth_src := eth_src w; inline_tag := None; rrb := rrb w |}.

Lemma slice_get_some {A} (l : list A) a b : a <= b -> b <= length l -> slice_get l a b = Some (slice a b l).
Proof. intros Ha Hb. unfold slice_get. by rewrite (proj2 (Nat.leb_le _ _) Ha), (proj2 (Nat.leb_le _ _) Hb). Qed.

Lemma untag_encode w t v :
  wire_wf w -> inline_tag w = Some t -> present v = false ->
  untag (encode w) v = Some (encode (untagged w)).
Proof.
  intros Hw Ht Hv. destruct (encode_split w Hw) as (H0 & H6 & H12 & Hd & Ho & Hlen).
  assert (18 <= length (encode w)) as Hl by (rewrite Ht in Ho; simpl in Ho; lia).
  unfold untag. rewrite Hv. unfold VLAN_TAG_LEN, ETH_TYPE_OFFSET.
  rewrite (proj2 (Nat.ltb_ge _ _)) by lia. rewrite !slice_get_some by lia. cbn [mbind option_bind].
  rewrite (slice_split 0 6 12), H0, H6 by lia. destruct Hw as (Hdst & Hsrc & _ & _).
  assert (slice (12 + 4) (length (encode w)) (encode w) = u16_to_be_bytes ETH_P_RRB ++ encode_rrb (rrb w)) as ->.
  { unfold encode. rewrite Ht. cbn [encode_tag].
    rewrite (app_assoc (eth_dst w)), (app_assoc (eth_dst w ++ eth_src w)).
    unfold slice. rewrite drop_app_length' by (rewrite !length_app, Hdst, Hsrc; done).
    apply take_ge. rewrite !length_app, Hdst, Hsrc. simpl. lia. }
  by rewrite <- app_assoc.
Qed.

Lemma untagged_wf w : wire_wf w -> wire_wf (untagged w).
Proof. intros (? & ? & ? & ?). by split_and!. Qed.

Lemma length_untagged w t : inline_tag w = Some t -> length (encode w) = 4 + length (encode (untagged w)).
Proof. intros Ht. unfold encode. rewrite Ht, !length_app. simpl. lia. Qed.

(** Untagging an accepted frame yields the untagged encoding of the same frame. *)
Lemma untag_accepted (fr : list byte) v f m :
  Filter_wf f -> classify fr v f = Ok m ->
  exists w, wire_wf w /\ fr = encode w /\ authorized f v w /\ length fr <= MAX_FRAME /\
    kind m = rrb_kind (rrb w) /\ untag fr v = Some (encode (untagged w)).
Proof.
  intros Hf (w & Hw & -> & Hl & Ha & ->)%classify_sound; [|done].
  exists w. split_and!; try done. destruct Ha as [Hv _]. unfold vlan_ok in Hv.
  destruct (present v) eqn:Hp.
  - destruct Hv as (Ht & _). unfold untag. rewrite Hp. f_equal. unfold encode, untagged. by rewrite Ht.
  - destruct Hv as (t & Ht & _). by eapply untag_encode.
Qed.

(** C12. Injection is well defined and well typed: untagging an accepted frame
    does not panic, and yields an untagged frame whose EtherType is the one the
    TAP's tc rule lets through, with the addresses and the whole RRB body of the
    received frame unchanged. *)
Theorem untag_accepted_frame (fr : list byte) v f m :
  Filter_wf f -> classify fr v f = Ok m ->
  exists out, untag fr v = Some out /\ slice 12 14 out = u16_to_be_bytes ETH_P_RRB /\
    slice 0 12 out = slice 0 12 fr /\ drop 14 out = drop (body_offset m) fr /\ length out <= MAX_FRAME.
Proof.
  intros Hf Hok. pose proof (untag_accepted _ _ _ _ Hf Hok) as (w & Hw & -> & _ & Hl & _ & Hu).
  apply classify_sound in Hok as (w' & Hw' & Henc & _ & _ & ->); [|done].
  apply encode_inj in Henc as <-; [|done|done].
  exists (encode (untagged w)). cbn [body_offset].
  destruct (encode_split w Hw) as (H0 & H6 & H12 & Hd & Ho & Hlen).
  destruct (encode_split _ (untagged_wf w Hw)) as (G0 & G6 & G12 & Gd & Go & Glen).
  change (wire_body_offset (untagged w)) with 14 in *.
  split_and!; [done|done| |by rewrite Gd, Hd|].
  - by rewrite !(slice_split 0 6 12), G0, G6, H0, H6 by lia.
  - cbn [rrb untagged] in Glen. unfold wire_body_offset, ETH_HEADER_LEN in Hlen. destruct (inline_tag w); lia.
Qed.

Lemma untag_accepted_frame_witness :
  exists out, untag (test_frame 3 false (encode_tlv test_local_tlv)) Vlan_default = Some out /\
    slice 12 14 out = u16_to_be_bytes ETH_P_RRB /\
    slice 0 12 out = slice 0 12 (test_frame 3 false (encode_tlv test_local_tlv)) /\
    drop 14 out = drop 18 (test_frame 3 false (encode_tlv test_local_tlv)) /\ length out <= MAX_FRAME.
Proof.
  apply (untag_accepted_frame _ _ test_filter (mkMatch 3 18)); [apply test_filter_wf|vm_compute; reflexivity].
Defined.

(** C14. The relay cannot feed itself: a frame that it injects, seen again on
    a port without tag metadata, is rejected as untagged. *)
Theorem injected_frame_is_not_relayed_again (fr out : list byte) v v' f m :
  Filter_wf f -> classify fr v f = Ok m -> untag fr v = Some out -> present v' = false ->
  classify out v' f = Err Vlan_.
Proof.
  intros Hf Hok Hu Hv'. destruct (untag_accepted _ _ _ _ Hf Hok) as (w & Hw & -> & _ & Hl & _ & Hu').
  rewrite Hu in Hu'. injection Hu' as ->.
  pose proof (untagged_wf w Hw) as Hw'.
  destruct (encode_split _ Hw') as (_ & _ & G12 & _ & _ & Glen).
  destruct (encode_split _ Hw) as (_ & _ & _ & _ & Ho & Hlen).
  change (wire_body_offset (untagged w)) with 14 in *. cbn [rrb untagged] in Glen.
  unfold MAX_FRAME in Hl.
  eapply verdict_functional; [by apply classify_verdict_lemma|].
  apply verdict_pass; [unfold ETH_HEADER_LEN, MAX_FRAME; lia|].
  apply verdict_reject. intros (tag & Hvl & _ & _ & _ & Hs).
  unfold vlan_ok in Hvl. rewrite Hv' in Hvl. destruct Hvl as (t & -> & _).
  unfold body_of in Hs. rewrite Hv' in Hs. cbn [encode_tag] in Hs. rewrite <- app_assoc in Hs.
  eapply (slice_prefix 12 14) in Hs; [|done|unfold ETH_HEADER_LEN; lia].
  cbn [rf_bytes slice_ReadFrameOk] in Hs. rewrite G12 in Hs. discriminate Hs.
Qed.

Lemma injected_frame_is_not_relayed_again_witness :
  classify (encode (untagged (test_wire 3 false [test_local_tlv]))) Vlan_default test_filter = Err Vlan_.
Proof.
  apply (injected_frame_is_not_relayed_again (encode (test_wire 3 false [test_local_tlv])) _ Vlan_default
           Vlan_default test_filter (mkMatch 3 18));
    [apply test_filter_wf|vm_compute; reflexivity|vm_compute; reflexivity|reflexivity].
Defined.

(** [kind_counter] is a bijection between the message types [classify]
    can report and the per-type counters, and it agrees with [kind_name]: the
    name logged for a type is the name of the slot that is counted. *)
Theorem kind_counter_spec (fr : list byte) v f m :
  Filter_wf f -> classify fr v f = Ok m ->
  kind_counters !! Z.to_nat (kind m - 1) = Some (kind_counter (kind m)) /\
  COUNTER_NAMES !! counter_index (kind_counter (kind m)) = Some (kind_name (kind m)).
Proof.
  intros Hf Hok. pose proof (classify_ok_geometry _ _ _ _ Hf Hok) as (_ & _ & Hk & _).
  apply classify_ok_stages in Hok as [-> _]; [|done]. cbn [kind].
  generalize dependent (frame_kind fr v). unfold KIND_PULL, KIND_SEQ_RESPONSE. intros k Hk.
  assert (k = 1 \/ k = 2 \/ k = 3 \/ k = 4 \/ k = 5)%Z as [-> | [-> | [-> | [-> | ->]]]] by lia; done.
Qed.

Lemma kind_counter_spec_witness :
  kind_counters !! 3 = Some SeqRequest /\ COUNTER_NAMES !! 18 = Some "seq_request"%string.
Proof.
  apply (kind_counter_spec (test_frame 4 false (encode_tlv test_local_tlv)) Vlan_default test_filter (mkMatch 4 18));
    [apply test_filter_wf|vm_compute; reflexivity].
Defined.

(** ** The rate limiter *)

Lemma Limiter_new_ok pps : (0 <= pps < 2 ^ 32)%Z -> Limiter_ok (Limiter_new pps).
Proof. intros. split; simpl; lia. Qed.

(** The register stays within the budget, so [used += 1] never wraps. *)
Lemma admit_ok l t r l' :
  Limiter_ok l -> admit_ l t = (r, l') ->
  Limiter_ok l' /\ window l' = t /\ per_second l' = per_second l /\
  let base := if (window l =? t)%Z then used l else 0%Z in
  if is_ok r then (base < per_second l /\ used l' = base + 1)%Z
  else (base = per_second l /\ used l' = base)%Z.
Proof.
  intros [Hp Hu]. unfold admit_. destruct (Z.eqb_spec (window l) t) as [<-|Hne]; cbn [negb];
    cbn [window used per_second]; destruct (Z.leb_spec (per_second l) (used l)) as [Hle|Hlt];
    try (destruct (Z.leb_spec (per_second l) 0) as [Hle0|Hlt0]);
    intros [= <- <-]; unfold Limiter_ok; cbn [window used per_second is_ok];
    unfold u64_incr, u64_modulus; rewrite ?Z.mod_small by lia; repeat split; lia.
Qed.

Lemma requests_later t times : Forall (Z.lt t) times -> requests_at t times = 0.
Proof.
  unfold requests_at. induction 1 as [|u times Hu _ IH]; simpl; [done|].
  by rewrite (proj2 (Z.eqb_neq _ _)) by lia.
Qed.

Lemma admit_all_exact times : forall l t,
  Limiter_ok l -> StronglySorted Z.le times -> (used l = 0%Z \/ Forall (Z.le (window l)) times) ->
  admitted_at t (admit_all l times) =
    Nat.min (Z.to_nat (per_second l - if (window l =? t)%Z then used l else 0)) (requests_at t times).
Proof.
  induction times as [|u times IH]; intros l t Hl Hs Hw.
  { unfold admitted_at, requests_at. simpl. lia. }
  cbn [admit_all]. destruct (admit_ l u) as [r l'] eqn:Ha.
  destruct (admit_ok _ _ _ _ Hl Ha) as (Hl' & Hwin & Hps & Hcase). cbv zeta in Hcase.
  inversion Hs as [|? ? Hs' Hall]; subst.
  assert (admitted_at t ((window l', is_ok r) :: admit_all l' times) =
          (if (window l' =? t)%Z && is_ok r then 1 else 0) + admitted_at t (admit_all l' times)) as ->.
  { unfold admitted_at. cbn [List.filter]. by destruct ((window l' =? t)%Z && is_ok r). }
  assert (requests_at t (window l' :: times) =
          (if (window l' =? t)%Z then 1 else 0) + requests_at t times) as ->.
  { unfold requests_at. cbn [List.filter]. by destruct (window l' =? t)%Z. }
  rewrite IH by (auto; by right). rewrite Hps. destruct Hl as [Hpl Hul].
  destruct (Z.eqb_spec (window l') t) as [Heq|Hne]; cbn [andb].
  - subst t. destruct (window l =? window l')%Z; destruct (is_ok r); lia.
  - destruct (Z.eqb_spec (window l) t) as [Heq|]; [|lia]. subst t.
    destruct Hw as [->|Hw]; [lia|].
    assert (requests_at (window l) times = 0) as ->; [|lia].
    apply Forall_cons in Hw as [Hw _]. apply requests_later. eapply Forall_impl; [exact Hall|]. simpl. lia.
Qed.

(** C15. The budget is exact: over any sequence of calls at non-decreasing
    times, every one-second window admits its requests up to the budget and no
    more, from the first call on. *)
Theorem limiter_is_exact pps times t :
  (0 <= pps < 2 ^ 32)%Z -> StronglySorted Z.le times ->
  admitted_at t (admit_all (Limiter_new pps) times) = Nat.min (Z.to_nat pps) (requests_at t times).
Proof.
  intros Hp Hs. rewrite admit_all_exact; [|by apply Limiter_new_ok|done|by left].
  cbn [Limiter_new per_second used window]. f_equal. destruct (_ =? _)%Z; lia.
Qed.

Lemma limiter_is_exact_witness :
  admitted_at 1 (admit_all (Limiter_new 2) [1; 1; 1; 2; 2; 2; 3]%Z) = 2.
Proof.
  transitivity (Nat.min (Z.to_nat 2) (requests_at 1 [1; 1; 1; 2; 2; 2; 3]%Z)); [|reflexivity].
  apply limiter_is_exact; [lia|]. repeat constructor; lia.
Defined.

(** Every call leaves the limiter in the current window with its register
    within the budget: the 64-bit increment never wraps, and a call is refused
    only when the window's budget is used up. *)
Theorem admit_keeps_budget l t r l' :
  Limiter_ok l -> admit_ l t = (r, l') ->
  Limiter_ok l' /\ window l' = t /\ per_second l' = per_second l /\
  (r = Err RateLimited -> window l = t /\ used l = per_second l \/ per_second l = 0%Z) /\
  (r = Ok tt -> used l' = (if (window l =? t)%Z then used l else 0%Z) + 1)%Z.
Proof.
  intros Hl Ha. destruct (admit_ok _ _ _ _ Hl Ha) as (Hl' & Hw & Hp & Hcase). cbv zeta in Hcase.
  split_and!; try done; intros ->; cbn [is_ok] in Hcase; [|by destruct Hcase].
  destruct (Z.eqb_spec (window l) t); [left|right]; split_and?; lia.
Qed.

Lemma admit_keeps_budget_witness :
  Limiter_ok (snd (admit_ (Limiter_new 20) 7)) /\ window (snd (admit_ (Limiter_new 20) 7)) = 7%Z.
Proof.
  pose proof (admit_keeps_budget (Limiter_new 20) 7 (Ok tt) (mkLimiter 7 1 20)) as H.
  destruct H as (Hok & Hw & _); [split; cbn; lia|vm_compute; reflexivity|].
  split; [exact Hok|exact Hw].
Defined.
