(* ===== verification/Lift.v ===== *)
(** * The tag in the frame and the tag in the metadata

    A driver may leave the 802.1Q tag in the frame or lift it out and report it beside
    the frame.  The stages of [Verdict] for a frame with an inline tag are, one by one,
    those of the same bytes with the tag lifted out, so [classify] and [untag] treat
    both alike, rejections included. *)

From Stdlib Require Import ZArith Lia Strings.Byte.
From stdpp Require Import base list numbers list_numbers sets.
From S2P Require Import Prelude Proto Parse Wire Verdict Relay.
Local Open Scope nat_scope.
Local Open Scope rrb_scope.

(** The receive metadata of a frame whose tag [t] the driver lifted out. *)
Definition lifted_tag (t : Z) : Vlan := {| present := true; proto := TPID_8021Q; tci := t |}.

Definition same_stage (p q : Counter * Prop) : Prop := p.1 = q.1 /\ (p.2 <-> q.2).

(** The same verdict for a body at another offset. *)
Definition at_offset (body : nat) (r : result Counter Match) : result Counter Match :=
  match r with Ok m => Ok (mkMatch (kind m) body) | Err c => Err c end.

Lemma verdict_same_stages m body l l' r :
  Forall2 same_stage l l' -> verdict m l r -> verdict (mkMatch (kind m) body) l' (at_offset body r).
Proof.
  intros Hl Hv. revert l' Hl. induction Hv as [|c P rest res HP _ IH|c P rest HP]; intros l' Hl.
  - inversion Hl; subst. constructor.
  - inversion Hl as [|? [c' P'] ? rest' [Hc HPP] Hrest]; subst. cbn in Hc, HPP. subst c'.
    apply verdict_pass; [by apply HPP|by apply IH].
  - inversion Hl as [|? [c' P'] ? rest' [Hc HPP] _]; subst. cbn in Hc, HPP. subst c'.
    apply verdict_reject. by rewrite <- HPP.
Qed.

Section Lifted.
Variables (addrs rest : list byte) (hi lo : byte) (f : Filter) (v : Vlan).
Hypothesis Haddrs : length addrs = 12.
Hypothesis Hrest : 2 <= length rest.
Hypothesis Hv : present v = false.

Definition tagged_frame : list byte := addrs ++ u16_to_be_bytes TPID_8021Q ++ [hi; lo] ++ rest.

Local Abbreviation fr := tagged_frame.
Local Abbreviation out := (addrs ++ rest).
Local Abbreviation v' := (lifted_tag (u16_from_be_bytes hi lo)).

Lemma length_tagged : length fr = 4 + length out.
Proof. unfold tagged_frame. rewrite !length_app. simpl. lia. Qed.

Lemma lifted_drop : drop 18 fr = drop 14 out.
Proof.
  unfold tagged_frame. rewrite (drop_app_ge addrs) by lia. rewrite (drop_app_ge addrs) by lia.
  by rewrite Haddrs.
Qed.

(** Offsets from the body on differ by the tag. *)
Lemma lifted_slice a c : slice (18 + a) (18 + c) fr = slice (14 + a) (14 + c) out.
Proof.
  unfold slice. rewrite <- (drop_drop fr a 18), <- (drop_drop out a 14), lifted_drop.
  by replace (18 + c - (18 + a)) with (14 + c - (14 + a)) by lia.
Qed.

Lemma lifted_lookup i : fr !!! (18 + i) = out !!! (14 + i).
Proof. by rewrite !list_lookup_total_alt, <- !lookup_drop, lifted_drop. Qed.

(** Offsets before the tag agree. *)
Lemma lifted_addrs a c : c <= 12 -> slice a c fr = slice a c out.
Proof.
  intros Hc. unfold slice, tagged_frame. destruct (decide (a <= 12)).
  - rewrite !drop_app_le by lia. rewrite !take_app_le by (rewrite length_drop; lia). done.
  - replace (c - a) with 0 by lia. done.
Qed.

Lemma lifted_body : body_of v = 18 /\ body_of v' = 14.
Proof. unfold body_of. by rewrite Hv. Qed.

Lemma lifted_auth_end : auth_end fr v = 4 + auth_end out v'.
Proof.
  unfold auth_end, auth_len. rewrite (proj1 lifted_body), (proj2 lifted_body), (lifted_lookup 18), (lifted_lookup 19). lia.
Qed.

Lemma lifted_tlv_block ts : tlv_block fr v ts <-> tlv_block out v' ts.
Proof.
  unfold tlv_block. rewrite lifted_auth_end. destruct lifted_body as [-> ->]. unfold RRB_HEADER_LEN.
  pose proof (lifted_slice 20) as Hs. unfold auth_end, RRB_HEADER_LEN. rewrite (proj2 lifted_body).
  replace (4 + (14 + 20 + auth_len out v')) with (18 + (20 + auth_len out v')) by lia.
  rewrite (Hs (20 + auth_len out v')). done.
Qed.

Lemma lifted_gate : (exists tag, gate_ok fr f v tag 18) <-> (exists tag, gate_ok out f v' tag 14).
Proof.
  assert (length (addrs ++ rest) = 12 + length rest) as Hlen by (by rewrite length_app, Haddrs).
  assert (slice 12 18 fr = u16_to_be_bytes TPID_8021Q ++ [hi; lo] ++ take 2 rest) as Hin.
  { unfold slice, tagged_frame. rewrite drop_app_length' by done. done. }
  assert (slice 12 14 out = take 2 rest) as Hout by (unfold slice; by rewrite drop_app_length').
  unfold gate_ok, vlan_ok. cbn [rf_bytes slice_ReadFrameOk]. rewrite Hv, Hin, Hout, length_tagged, Hlen.
  cbn [present lifted_tag proto tci]. split.
  - intros (tag & (t & -> & Hm) & Ht & _ & _ & He). specialize (Ht t eq_refl). exists None.
    cbn [encode_tag] in He. rewrite <- app_assoc in He. apply app_inv_head in He.
    injection He as Hhi Hlo Hb.
    assert (u16_from_be_bytes hi lo = t) as -> by (apply u16_be_eq; [done|]; by rewrite Hhi, Hlo).
    split_and!; try done; simpl; lia.
  - intros (tag & (-> & _ & Hm) & _ & _ & _ & He). exists (Some (u16_from_be_bytes hi lo)).
    split_and!; [by eexists|intros t [= <-]; apply u16_from_be_range|done|lia|].
    cbn [encode_tag] in He |- *. by rewrite <- app_assoc, u16_to_from_be, He.
Qed.

Lemma lifted_kind : frame_kind fr v = frame_kind out v'.
Proof. unfold frame_kind. rewrite (proj1 lifted_body), (proj2 lifted_body). by rewrite (lifted_lookup 5). Qed.

(** Every stage of the one frame is a stage of the other. *)
Lemma lifted_stages : 18 <= length fr -> length fr <= MAX_FRAME -> Forall2 same_stage (stages fr v f) (stages out v' f).
Proof.
  intros Hmin Hmax. rewrite length_tagged in Hmin, Hmax.
  unfold stages, frame_kind, frame_source, frame_destination, peer_known.
  rewrite (proj1 lifted_body), (proj2 lifted_body), lifted_auth_end, length_tagged.
  rewrite (lifted_addrs 0 6), (lifted_addrs 6 12) by lia.
  rewrite (lifted_slice 6 12), (lifted_slice 12 18), (lifted_lookup 5).
  pose proof (lifted_slice 0 5) as Hsel. cbn [Nat.add] in Hsel |- *. rewrite Hsel.
  unfold ETH_HEADER_LEN, RRB_HEADER_LEN, SIV_LEN, MAX_FRAME in *.
  repeat (apply Forall2_cons; split; [split; [done|cbn [snd]]|]); try (done || lia); [apply lifted_gate|..].
  - setoid_rewrite lifted_tlv_block. done.
  - setoid_rewrite lifted_tlv_block. done.
Qed.

Lemma lifted_classify :
  Filter_wf f -> 18 <= length fr -> length fr <= MAX_FRAME -> classify out v' f = at_offset 14 (classify fr v f).
Proof.
  intros Hf Hmin Hmax. pose proof (classify_verdict_lemma fr v f Hf) as Hfr.
  eapply verdict_functional; [by apply classify_verdict_lemma|]. rewrite <- lifted_kind, (proj2 lifted_body).
  eapply (verdict_same_stages _ 14) in Hfr; [exact Hfr|by apply lifted_stages].
Qed.
End Lifted.

(** Any frame with the tag's TPID in place has this form. *)
Lemma tagged_split (fr : list byte) :
  18 <= length fr -> slice 12 14 fr = u16_to_be_bytes TPID_8021Q ->
  fr = tagged_frame (slice 0 12 fr) (drop 16 fr) (fr !!! 14) (fr !!! 15).
Proof.
  intros Hl Ht. unfold tagged_frame. rewrite <- Ht. unfold slice. rewrite drop_0.
  rewrite <- (take_drop 12 fr) at 1. f_equal. rewrite <- (take_drop 2 (drop 12 fr)) at 1. f_equal.
  rewrite drop_drop. cbn [Nat.add].
  rewrite (drop_S fr (fr !!! 14) 14), (drop_S fr (fr !!! 15) 15) by (apply list_lookup_lookup_total_lt; lia). done.
Qed.


