(* ===== verification/MacText.v ===== *)
(** * MAC addresses as text: [mac] of [src/src/config.rs]

    The parser of configured, sysfs and hostapd addresses, with the octet parser
    of the standard library ([u8::from_str_radix]) written out, and its round
    trip with [mac_string] of [src/src/relay.rs].  Strings are the lists of their
    UTF-8 bytes. *)

From Stdlib Require Import ZArith Lia Strings.Byte Strings.String.
From stdpp Require Import base list numbers list_numbers sets.
From S2P Require Import Prelude Proto Parse Wire Relay.
Local Open Scope nat_scope.
Local Open Scope rrb_scope.

Definition str : Type := list byte.

(** Byte-string literals. *)
Definition b (s : string) : str := list_byte_of_string s.

(** [s.split(c)]: one piece more than there are separators. *)
Fixpoint split_on (c : byte) (s : str) : list str :=
  match s with
  | [] => [[]]
  | x :: s' =>
      if bool_decide (x = c) then [] :: split_on c s'
      else match split_on c s' with
           | [] => [[x]]
           | p :: ps => (x :: p) :: ps
           end
  end.

Fixpoint join (c : byte) (ps : list str) : str :=
  match ps with
  | [] => []
  | [p] => p
  | p :: ps' => p ++ c :: join c ps'
  end.

(** [char::to_digit(16)] on a byte. *)
Definition hex_value (x : byte) : option Z :=
  let n := b2z x in
  if (48 <=? n)%Z && (n <=? 57)%Z then Some (n - 48)%Z
  else if (97 <=? n)%Z && (n <=? 102)%Z then Some (n - 87)%Z
  else if (65 <=? n)%Z && (n <=? 70)%Z then Some (n - 55)%Z
  else None.

(** The digit loop of [u8::from_str_radix(_, 16)], with its overflow check. *)
Fixpoint hex_digits (acc : Z) (s : str) : option Z :=
  match s with
  | [] => Some acc
  | x :: s' =>
      d ← hex_value x;
      if (acc * 16 + d <? 256)%Z then hex_digits (acc * 16 + d)%Z s' else None
  end.

(** [u8::from_str_radix(s, 16)]: an empty string and a lone sign are errors, one
    leading [+] is skipped, a [-] is an invalid digit of an unsigned type. *)
Definition u8_from_str_radix_16 (s : str) : option Z :=
  match s with
  | [] => None
  | [Byte.x2b] | [Byte.x2d] => None
  | Byte.x2b :: s' => hex_digits 0 s'
  | _ => hex_digits 0 s
  end.

(** The error messages of [mac], with what they quote. *)
Inductive MacError :=
| MacWantsSixOctets (s : str)
| MacOctetTwoDigits (s p : str)
| MacInvalidDigits (s : str).

Definition mac_octet (s p : str) : result MacError byte :=
  _ ← ensure (length p =? 2) (MacOctetTwoDigits s p);
  v ← ok_or (u8_from_str_radix_16 p) (MacInvalidDigits s);
  Ok (z2b v).

Definition mac (s : str) : result MacError Mac :=
  let out := replicate 6 Byte.x00 in
  let parts := split_on colon s in
  _ ← ensure (length parts =? 6) (MacWantsSixOctets s);
  try_fold (fun out '(i, p) => v ← mac_octet s p; Ok (<[i := v]> out)) out (enumerate parts).

(** What an octet may look like. *)
Definition octet (p : str) (v : byte) : Prop :=
  (exists h l a c, p = [h; l] /\ hex_value h = Some a /\ hex_value l = Some c /\ b2z v = a * 16 + c)%Z \/
  (exists l c, p = [Byte.x2b; l] /\ hex_value l = Some c /\ b2z v = c)%Z.

Lemma hex_value_range x d : hex_value x = Some d -> (0 <= d < 16)%Z.
Proof. unfold hex_value. pose proof (b2z_range x) as Hx. intros Hv. invert_ok Hv; injection Hv as <-; to_prop; lia. Qed.

Lemma split_join c ps : ps <> [] -> Forall (fun p => c ∉ p) ps -> split_on c (join c ps) = ps.
Proof.
  intros Hne Hall. induction ps as [|p ps IH]; [done|].
  inversion Hall as [|? ? Hp Hps]; subst.
  assert (forall s, split_on c s <> []) as Hsn.
  { intros s. destruct s as [|x s]; simpl; [done|]. case_bool_decide; [done|]. by destruct (split_on c s). }
  destruct ps as [|q ps].
  - clear IH Hps Hall Hne. simpl. induction p as [|x p IHp]; simpl; [done|].
    rewrite bool_decide_eq_false_2 by set_solver. by rewrite IHp by set_solver.
  - change (join c (p :: q :: ps)) with (p ++ c :: join c (q :: ps)).
    assert (split_on c (join c (q :: ps)) = q :: ps) as IH' by by apply IH.
    generalize dependent (join c (q :: ps)). intros rest _ IH'. clear Hall Hne. induction p as [|x p IHp].
    + simpl. rewrite bool_decide_eq_true_2 by done. by rewrite IH'.
    + simpl. rewrite bool_decide_eq_false_2 by set_solver. by rewrite IHp by set_solver.
Qed.

Lemma join_split c s : join c (split_on c s) = s.
Proof.
  induction s as [|x s IH]; [done|]. simpl. case_bool_decide as Hx.
  - subst. destruct (split_on c s) as [|p ps] eqn:Hs; simpl in *; [|by rewrite IH].
    exfalso. destruct s as [|y s]; simpl in Hs; [done|]. destruct (bool_decide _); [done|].
    by destruct (split_on c s).
  - destruct (split_on c s) as [|p ps]; simpl in *; [by rewrite <- IH|].
    destruct ps; rewrite <- IH; done.
Qed.

Lemma split_pieces c s : Forall (fun p => c ∉ p) (split_on c s).
Proof.
  induction s as [|x s IH]; simpl; [constructor; [apply not_elem_of_nil|done]|].
  case_bool_decide; [constructor; [apply not_elem_of_nil|done]|].
  destruct (split_on c s) as [|p ps].
  { constructor; [|done]. rewrite elem_of_cons, elem_of_nil. by intros [->|[]]. }
  apply Forall_cons in IH as [Hp Hps]. constructor; [|done]. by apply not_elem_of_cons.
Qed.

(** Two-byte strings: a sign and a digit, or two digits. *)
Lemma radix_two h l :
  u8_from_str_radix_16 [h; l] = if bool_decide (h = Byte.x2b) then hex_digits 0 [l] else hex_digits 0 [h; l].
Proof. destruct h; reflexivity. Qed.

Lemma hex_digits_one l : hex_digits 0 [l] = hex_value l.
Proof.
  cbn [hex_digits]. destruct (hex_value l) as [d|] eqn:Hl; [|done]. cbn [mbind option_bind].
  rewrite Z.mul_0_l, Z.add_0_l. by rewrite (proj2 (Z.ltb_lt d 256)) by (apply hex_value_range in Hl; lia).
Qed.

Lemma hex_digits_two h l :
  hex_digits 0 [h; l] = (a ← hex_value h; c ← hex_value l; Some (a * 16 + c)%Z).
Proof.
  cbn [hex_digits]. destruct (hex_value h) as [a|] eqn:Hh; [|done]. apply hex_value_range in Hh.
  cbn [mbind option_bind]. rewrite Z.mul_0_l, Z.add_0_l, (proj2 (Z.ltb_lt a 256)) by lia.
  destruct (hex_value l) as [c|] eqn:Hl; [|done]. apply hex_value_range in Hl. cbn [mbind option_bind].
  by rewrite (proj2 (Z.ltb_lt (a * 16 + c) 256)) by lia.
Qed.

Lemma mac_octet_Ok s p v : mac_octet s p = Ok v <-> octet p v.
Proof.
  unfold mac_octet, octet. split.
  - intros (_ & Hlen%ensure_Ok & (z & Hz%ok_or_Ok & [= <-])%bind_Ok)%bind_Ok. to_prop.
    destruct p as [|h [|l [|]]]; simpl in Hlen; try lia.
    rewrite radix_two in Hz. case_bool_decide as Hh.
    + subst h. rewrite hex_digits_one in Hz. right. exists l, z. split_and!; [done|done|].
      apply hex_value_range in Hz. rewrite b2z_z2b, Z.mod_small; lia.
    + rewrite hex_digits_two in Hz.
      destruct (hex_value h) as [a|] eqn:Ha; [|done]. destruct (hex_value l) as [c|] eqn:Hc; [|done].
      injection Hz as <-. left. exists h, l, a, c. split_and!; try done.
      apply hex_value_range in Ha, Hc. rewrite b2z_z2b, Z.mod_small; lia.
  - intros [(h & l & a & c & -> & Ha & Hc & Hv)|(l & c & -> & Hc & Hv)]; cbn [length Nat.eqb ensure mbind result_bind].
    + rewrite radix_two, bool_decide_eq_false_2 by (intros ->; discriminate Ha).
      rewrite hex_digits_two, Ha, Hc. simpl. by rewrite <- Hv, z2b_b2z.
    + rewrite radix_two, bool_decide_eq_true_2, hex_digits_one, Hc by done. simpl. by rewrite <- Hv, z2b_b2z.
Qed.

Lemma mac_unfold s :
  length (split_on colon s) = 6 -> mac s = try_map (mac_octet s) (split_on colon s).
Proof.
  intros Hl. unfold mac. rewrite Hl, Nat.eqb_refl. cbn [ensure mbind result_bind]. unfold enumerate.
  etransitivity; [apply (fill_array (mac_octet s) (split_on colon s) 0 [] (replicate 6 Byte.x00))|].
  - done.
  - by rewrite length_replicate.
  - by destruct (try_map _ _).
Qed.

Lemma octet_no_colon p v : octet p v -> colon ∉ p.
Proof.
  intros [(h & l & a & c & -> & Ha & Hc & _)|(l & c & -> & Hc & _)]; rewrite !not_elem_of_cons;
    split_and!; try apply not_elem_of_nil; intros Heq;
    first [discriminate Heq | rewrite <- Heq in *; discriminate].
Qed.

Lemma mac_Ok s m :
  mac s = Ok m <-> exists ps, length ps = 6 /\ s = join colon ps /\ Forall2 octet ps m.
Proof.
  split.
  - intros Hm. assert (length (split_on colon s) = 6) as Hl.
    { unfold mac in Hm. destruct (Nat.eqb_spec (length (split_on colon s)) 6); [done|discriminate Hm]. }
    rewrite mac_unfold in Hm by done. apply try_map_Ok in Hm.
    exists (split_on colon s). split_and!; [done|by rewrite join_split|].
    eapply Forall2_impl; [exact Hm|]. intros p v. by apply mac_octet_Ok.
  - intros (ps & Hl & -> & Hall).
    assert (split_on colon (join colon ps) = ps) as Hsplit.
    { apply split_join; [by intros ->|]. apply Forall_lookup_2. intros i p Hi.
      destruct (Forall2_lookup_l _ _ _ _ _ Hall Hi) as (v & _ & Hv). by eapply octet_no_colon. }
    rewrite mac_unfold by by rewrite Hsplit. rewrite Hsplit. apply try_map_Ok.
    eapply Forall2_impl; [exact Hall|]. intros p v. by apply mac_octet_Ok.
Qed.

Lemma mac_length s m : mac s = Ok m -> length m = 6.
Proof. intros (ps & Hl & _ & Hall)%mac_Ok. apply Forall2_length in Hall. lia. Qed.

Lemma hex_digit_value n : (0 <= n < 16)%Z -> hex_value (hex_digit n) = Some n.
Proof.
  intros Hn. unfold hex_digit, hex_value. rewrite b2z_z2b.
  destruct (Z.ltb_spec n 10); rewrite Z.mod_small by lia.
  - by rewrite !(proj2 (Z.leb_le _ _)) by lia; cbn [andb]; f_equal; lia.
  - rewrite (proj2 (Z.leb_le _ _)), (proj2 (Z.leb_gt _ _)) by lia. cbn [andb].
    rewrite !(proj2 (Z.leb_le _ _)) by lia. cbn [andb]. f_equal. lia.
Qed.

Lemma hex_byte_octet x : octet (hex_byte x) x.
Proof.
  left. pose proof (b2z_range x). exists (hex_digit (b2z x / 16)), (hex_digit (b2z x mod 16)), (b2z x / 16)%Z, (b2z x mod 16)%Z.
  split_and!; [done|apply hex_digit_value|apply hex_digit_value|]; Z.div_mod_to_equations; lia.
Qed.

Lemma mac_print m : length m = 6 -> mac (mac_string m) = Ok m.
Proof.
  intros (a0 & a1 & a2 & a3 & a4 & a5 & ->)%length_6. apply mac_Ok.
  exists (map hex_byte [a0; a1; a2; a3; a4; a5]). split_and!; [done|done|].
  repeat (constructor; [apply hex_byte_octet|]). constructor.
Qed.

(** ** Properties *)

(** [mac] accepts exactly six colon-separated octets of two bytes each, in
    either case; an octet is two hexadecimal digits or, because the standard
    library's parser skips a leading sign, a [+] and one digit. *)
Theorem mac_accepts s m :
  mac s = Ok m <-> exists ps, length ps = 6 /\ s = join colon ps /\ Forall2 octet ps m.
Proof. apply mac_Ok. Qed.

(** Round trip: parsing the printed form of an address gives it back. *)
Theorem mac_roundtrip m : length m = 6 -> mac (mac_string m) = Ok m.
Proof. apply mac_print. Qed.

Lemma mac_roundtrip_witness :
  mac (b "22:0b:8b:ea:60:c9") = Ok (bytes_of [0x22; 0x0b; 0x8b; 0xea; 0x60; 0xc9]%Z).
Proof. apply (mac_roundtrip (bytes_of [0x22; 0x0b; 0x8b; 0xea; 0x60; 0xc9]%Z)). reflexivity. Defined.

(** A signed octet is accepted although it is not two hexadecimal digits. *)
Theorem mac_accepts_signed_octets :
  mac (b "+1:+2:+3:+4:+5:+f") = Ok (bytes_of [1; 2; 3; 4; 5; 15]%Z).
Proof. vm_compute. reflexivity. Qed.
