(* ===== verification/Decimal.v ===== *)
(** * Unsigned integers as decimal text

    [to_string] and [format!] of unsigned integers, as the daemon prints counters and
    priorities, with a reader that takes the text back. *)

From Stdlib Require Import ZArith Lia Strings.Byte Strings.String.
From stdpp Require Import base list numbers list_numbers.
From S2P Require Import Prelude MacText.
Local Open Scope nat_scope.

Definition digit (d : Z) : byte := z2b (48 + d).

Definition is_digit (x : byte) : bool := (48 <=? b2z x)%Z && (b2z x <=? 57)%Z.

(** The digits of [n] in front of [acc], most significant first. *)
Fixpoint digits (fuel : nat) (n : Z) (acc : str) : str :=
  match fuel with
  | 0 => acc
  | S fuel' =>
      let acc' := digit (n mod 10) :: acc in
      if (n <? 10)%Z then acc' else digits fuel' (n / 10) acc'
  end.

(** Twenty digits are enough for 64 bits. *)
Definition decimal (n : Z) : str := digits 20 n [].

(** The value of a string of digits. *)
Definition from_decimal (s : str) : Z := fold_left (fun v x => v * 10 + (b2z x - 48))%Z s 0%Z.

Lemma b2z_digit d : (0 <= d < 10)%Z -> b2z (digit d) = (48 + d)%Z.
Proof. intros. unfold digit. rewrite b2z_z2b, Z.mod_small; lia. Qed.

Lemma is_digit_digit n : is_digit (digit (n mod 10)) = true.
Proof.
  pose proof (Z.mod_pos_bound n 10 eq_refl). unfold is_digit. rewrite b2z_digit by lia.
  rewrite !(proj2 (Z.leb_le _ _)) by lia. done.
Qed.

Lemma digits_all fuel : forall n acc,
  Forall (fun x => is_digit x = true) acc -> Forall (fun x => is_digit x = true) (digits fuel n acc).
Proof.
  induction fuel as [|fuel IH]; intros n acc Hacc; cbn [digits]; [done|].
  assert (Forall (fun x => is_digit x = true) (digit (n mod 10) :: acc)) by (constructor; [apply is_digit_digit|done]).
  destruct (n <? 10)%Z; [done|]. by apply IH.
Qed.

Lemma decimal_digits n : Forall (fun x => is_digit x = true) (decimal n).
Proof. apply digits_all. constructor. Qed.

(** The digits before an accumulator contribute the number itself. *)
Lemma digits_read fuel : forall n acc,
  (0 <= n < 10 ^ Z.of_nat fuel)%Z ->
  from_decimal (digits fuel n acc) = fold_left (fun v x => v * 10 + (b2z x - 48))%Z acc n.
Proof.
  induction fuel as [|fuel IH]; intros n acc Hn; cbn [digits].
  { unfold from_decimal. f_equal. change (10 ^ Z.of_nat 0)%Z with 1%Z in Hn. lia. }
  pose proof (Z.mod_pos_bound n 10 eq_refl) as Hm. pose proof (Z.div_mod n 10 ltac:(lia)) as Hd.
  rewrite Nat2Z.inj_succ, Z.pow_succ_r in Hn by lia.
  destruct (Z.ltb_spec n 10) as [Hlt|Hge].
  - unfold from_decimal. cbn [fold_left]. rewrite b2z_digit by lia. f_equal. rewrite Z.mod_small; lia.
  - rewrite IH by (split; [apply Z.div_pos; lia|apply Z.div_lt_upper_bound; lia]).
    cbn [fold_left]. rewrite b2z_digit by lia. f_equal. lia.
Qed.

Lemma decimal_read n : (0 <= n < u64_modulus)%Z -> from_decimal (decimal n) = n.
Proof. intros Hn. unfold decimal. rewrite digits_read; [done|]. unfold u64_modulus in Hn. simpl Z.of_nat. lia. Qed.

Lemma decimal_inj n m : (0 <= n < u64_modulus)%Z -> (0 <= m < u64_modulus)%Z -> decimal n = decimal m -> n = m.
Proof. intros Hn Hm H. rewrite <- (decimal_read n Hn), <- (decimal_read m Hm). by rewrite H. Qed.

(** A digit is neither a separator nor a space. *)
Lemma digit_not_in x s : Forall (fun y => is_digit y = true) s -> is_digit x = false -> x ∉ s.
Proof. intros Hs Hx Hin. eapply Forall_forall in Hs; [|exact Hin]. congruence. Qed.
