(* ===== verification/Hostapd.v ===== *)
(** * The hostapd control client: [src/src/hostapd.rs]

    The directory listing and the datagram sockets are the operating system's and
    hostapd's: they are the fields of [HostapdEnv].  What the client asks of them and
    does with their answers (paths, request, prefix filter, UTF-8 check, reply
    parsing, sorting and deduplication) is modelled. *)

From Stdlib Require Import ZArith Lia Strings.Byte Strings.String Sorting.Sorted.
From stdpp Require Import base list numbers list_numbers sets gmap sorting.
From S2P Require Import Prelude Proto Parse Wire Relay MacText.
Local Open Scope nat_scope.
Local Open Scope rrb_scope.

Definition SOCKET_DIR : str := b "/run/hostapd".
Definition SOCKET_PREFIX : str := b "wifi".
(** [Duration::from_secs(1)]. *)
Definition REPLY_TIMEOUT : nat := 1.
Definition REPLY_BUF : nat := Z.to_nat 8192.

Definition LF : byte := Byte.x0a.
Definition CR : byte := Byte.x0d.
Definition EQUALS : byte := Byte.x3d.

(** ** What the standard library does with text *)

(** [std::str::from_utf8]: the well-formed byte sequences of UTF-8. *)
Definition in_range (lo hi : Z) (x : byte) : bool := (lo <=? b2z x)%Z && (b2z x <=? hi)%Z.
Definition is_cont : byte -> bool := in_range 0x80 0xbf.

Fixpoint utf8_valid (s : str) : bool :=
  match s with
  | [] => true
  | x :: s1 =>
      if in_range 0 0x7f x then utf8_valid s1
      else if in_range 0xc2 0xdf x then
        match s1 with y :: s2 => is_cont y && utf8_valid s2 | _ => false end
      else if in_range 0xe0 0xef x then
        match s1 with
        | y :: z :: s3 =>
            (if in_range 0xe0 0xe0 x then in_range 0xa0 0xbf y
             else if in_range 0xed 0xed x then in_range 0x80 0x9f y
             else is_cont y) && is_cont z && utf8_valid s3
        | _ => false
        end
      else if in_range 0xf0 0xf4 x then
        match s1 with
        | y :: z :: u :: s4 =>
            (if in_range 0xf0 0xf0 x then in_range 0x90 0xbf y
             else if in_range 0xf4 0xf4 x then in_range 0x80 0x8f y
             else is_cont y) && is_cont z && is_cont u && utf8_valid s4
        | _ => false
        end
      else false
  end.

(** The line terminator of a terminated line is [\n] or [\r\n]. *)
Definition strip_cr (l : str) : str :=
  match last l with
  | Some x => if bool_decide (x = CR) then take (length l - 1) l else l
  | None => l
  end.

Fixpoint terminated_lines (pieces : list str) : list str :=
  match pieces with
  | [] => []
  | [final] => if bool_decide (final = []) then [] else [final]
  | l :: pieces' => strip_cr l :: terminated_lines pieces'
  end.

(** [str::lines]. *)
Definition lines (text : str) : list str := terminated_lines (split_on LF text).

(** [str::split_once]: around the first occurrence. *)
Fixpoint split_once (c : byte) (s : str) : option (str * str) :=
  match s with
  | [] => None
  | x :: s' =>
      if bool_decide (x = c) then Some ([], s')
      else '(k, v) ← split_once c s'; Some (x :: k, v)
  end.

(** [str::starts_with]. *)
Definition starts_with (prefix s : str) : bool := bool_decide (take (length prefix) s = prefix).

(** ** The client *)

Definition Config : Type := gmap str str.

Definition parse_config (text : str) : gmap str str :=
  fold_left (fun m '(k, v) => <[k := v]> m) (omap (split_once EQUALS) (lines text)) ∅.

(** Lexicographic order of [[u8; 6]]. *)
Fixpoint mac_leb (x y : Mac) : bool :=
  match x, y with
  | [], _ => true
  | _ :: _, [] => false
  | a :: x', c :: y' => (b2z a <? b2z c)%Z || ((b2z a =? b2z c)%Z && mac_leb x' y')
  end.

Definition mac_le (x y : Mac) : Prop := mac_leb x y = true.

#[export] Instance mac_le_dec : RelDecision mac_le.
Proof. intros x y. unfold mac_le. apply _. Defined.

(** [Vec::dedup]: drop consecutive repetitions. *)
Fixpoint dedup (l : list Mac) : list Mac :=
  match l with
  | x :: ((y :: _) as l') => if bool_decide (x = y) then dedup l' else x :: dedup l'
  | _ => l
  end.

Section Client.
(** The errors of the operating system, opaque to the client. *)
Context {IoError : Type}.

Inductive HostapdError :=
| ReadDir (e : IoError)
| DirEntry (e : IoError)
| NonUtf8Name
| CreateSocket (e : IoError)
| ReadTimeout (e : IoError)
| Connect (ifname : str) (e : IoError)
| SendRequest (e : IoError)
| Reply (ifname : str) (e : IoError)
| ReplyNotUtf8 (ifname : str)
| NoBssid (ifname : str)
| BadBssid (ifname : str) (e : MacError)
| NoSockets.

(** The directory and the datagram sockets: [connect], [sock_send] and [sock_recv] are those of
    a fresh socket connected to a path. *)
Record HostapdEnv := {
  (** The entries of a directory, each with its file name's bytes. *)
  read_dir : str -> result IoError (list (result IoError str));
  unbound : result IoError unit;
  set_read_timeout : nat -> result IoError unit;
  connect : str -> result IoError unit;
  sock_send : str -> list byte -> result IoError unit;
  (** The datagram that answers a request. *)
  sock_recv : str -> list byte -> result IoError (list byte);
}.

Variable env : HostapdEnv.

(** [Result::context]. *)
Definition or_else {A} (wrap : IoError -> HostapdError) (r : result IoError A) : result HostapdError A :=
  match r with Ok a => Ok a | Err e => Err (wrap e) end.

Definition get_config (ifname : str) : result HostapdError (gmap str str) :=
  let path := SOCKET_DIR ++ b "/" ++ ifname in
  _ ← or_else CreateSocket (unbound env);
  _ ← or_else ReadTimeout (set_read_timeout env REPLY_TIMEOUT);
  _ ← or_else (Connect ifname) (connect env path);
  _ ← or_else SendRequest (sock_send env path (b "GET_CONFIG"));
  reply ← or_else (Reply ifname) (sock_recv env path (b "GET_CONFIG"));
  let received := take REPLY_BUF reply in
  if utf8_valid received then Ok (parse_config received) else Err (ReplyNotUtf8 ifname).

Definition bssid (ifname : str) : result HostapdError Mac :=
  cfg ← get_config ifname;
  text ← ok_or (cfg !! b "bssid") (NoBssid ifname);
  match mac text with
  | Ok m => Ok m
  | Err e => Err (BadBssid ifname e)
  end.

(** One turn of the directory loop. *)
Definition bssids_step (out : list Mac) (entry : result IoError str) : result HostapdError (list Mac) :=
  match entry with
  | Err e => Err (DirEntry e)
  | Ok name =>
      if negb (utf8_valid name) then Err NonUtf8Name
      else if negb (starts_with SOCKET_PREFIX name) then Ok out
      else m ← bssid name; Ok (out ++ [m])
  end.

Definition bssids_ : result HostapdError (list Mac) :=
  match read_dir env SOCKET_DIR with
  | Err e => Err (ReadDir e)
  | Ok entries =>
      out ← try_fold bssids_step [] entries;
      _ ← ensure (negb (bool_decide (out = []))) NoSockets;
      Ok (dedup (merge_sort mac_le out))
  end.

End Client.
Arguments HostapdEnv : clear implicits.
Arguments HostapdError : clear implicits.

(** A configuration as hostapd prints it. *)
Definition render (kvs : list (str * str)) : str :=
  concat (map (fun '(k, v) => k ++ [EQUALS] ++ v ++ [LF]) kvs).

Definition printable_entry (kv : str * str) : Prop :=
  (EQUALS ∉ kv.1) /\ (LF ∉ kv.1) /\ (LF ∉ kv.2) /\ last (kv.1 ++ [EQUALS] ++ kv.2) <> Some CR.

(** ** Lemmas: reply parsing *)

Lemma split_once_app c k v : c ∉ k -> split_once c (k ++ [c] ++ v) = Some (k, v).
Proof.
  induction k as [|x k IH]; intros Hk; simpl.
  - by rewrite bool_decide_eq_true_2.
  - apply not_elem_of_cons in Hk as [Hx Hk]. rewrite bool_decide_eq_false_2 by done.
    change (k ++ c :: v) with (k ++ [c] ++ v). by rewrite IH.
Qed.

Lemma split_on_line c l rest : c ∉ l -> split_on c (l ++ [c] ++ rest) = l :: split_on c rest.
Proof.
  induction l as [|x l IH]; intros Hl; simpl.
  - by rewrite bool_decide_eq_true_2.
  - apply not_elem_of_cons in Hl as [Hx Hl]. rewrite bool_decide_eq_false_2 by done.
    change (l ++ c :: rest) with (l ++ [c] ++ rest). by rewrite IH.
Qed.

Lemma strip_cr_id l : last l <> Some CR -> strip_cr l = l.
Proof.
  intros Hl. unfold strip_cr. destruct (last l) as [x|]; [|done].
  rewrite bool_decide_eq_false_2; [done|]. congruence.
Qed.

Lemma lines_cons l rest : LF ∉ l -> last l <> Some CR -> lines (l ++ [LF] ++ rest) = l :: lines rest.
Proof.
  intros Hl Hcr. unfold lines. rewrite split_on_line by done.
  destruct (split_on LF rest) as [|p ps] eqn:Hs.
  - exfalso. destruct rest as [|x rest]; simpl in Hs; [done|]. destruct (bool_decide _); [done|].
    by destruct (split_on LF rest).
  - cbn [terminated_lines]. by rewrite strip_cr_id.
Qed.

Lemma lines_render kvs :
  Forall printable_entry kvs -> lines (render kvs) = map (fun '(k, v) => k ++ [EQUALS] ++ v) kvs.
Proof.
  induction 1 as [|[k v] kvs (Hk & Hlk & Hlv & Hcr) _ IH]; [done|].
  change (render ((k, v) :: kvs)) with ((k ++ [EQUALS] ++ v ++ [LF]) ++ render kvs).
  replace ((k ++ [EQUALS] ++ v ++ [LF]) ++ render kvs)
    with ((k ++ [EQUALS] ++ v) ++ [LF] ++ render kvs) by by rewrite <- !app_assoc.
  cbn [fst snd] in *. rewrite lines_cons, IH; [done| |done].
  rewrite !elem_of_app, list_elem_of_singleton. intros [?|[[=]|?]]; done.
Qed.

Lemma parse_render_list kvs :
  Forall printable_entry kvs -> omap (split_once EQUALS) (lines (render kvs)) = kvs.
Proof.
  intros Hall. rewrite lines_render by done.
  induction Hall as [|[k v] kvs (Hk & _) _ IH]; [done|].
  cbn [map]. cbn [omap list_omap]. rewrite split_once_app by done. f_equal. apply IH.
Qed.

Lemma fold_insert_lookup (kvs : list (str * str)) (m : gmap str str) k :
  fold_left (fun m '(k, v) => <[k := v]> m) kvs m !! k =
  match last (filter (fun kv => kv.1 = k) kvs) with Some kv => Some kv.2 | None => m !! k end.
Proof.
  induction kvs as [|[k' v'] kvs IH] using rev_ind; [done|].
  rewrite fold_left_app, filter_app. cbn [fold_left]. rewrite filter_cons, filter_nil. cbn [fst].
  destruct (decide (k' = k)) as [->|Hne].
  - rewrite last_app. cbn [last snd]. by rewrite lookup_insert_eq.
  - rewrite app_nil_r, lookup_insert_ne by done. apply IH.
Qed.

(** ** Lemmas: the order of addresses *)

#[export] Instance mac_le_trans : Transitive mac_le.
Proof.
  unfold mac_le. intros x. induction x as [|a x IH]; intros [|c y] [|d z] H1 H2; simpl in *; try done.
  rewrite !orb_true_iff, !andb_true_iff, !Z.ltb_lt, !Z.eqb_eq in *.
  destruct H1 as [H1|[H1 H1']], H2 as [H2|[H2 H2']]; [left; lia..|right]. split; [lia|by eapply IH].
Qed.

#[export] Instance mac_le_total : Total mac_le.
Proof.
  unfold mac_le. intros x. induction x as [|a x IH]; intros [|c y]; simpl; auto.
  rewrite !orb_true_iff, !andb_true_iff, !Z.ltb_lt, !Z.eqb_eq.
  destruct (Z.lt_trichotomy (b2z a) (b2z c)) as [?|[?|?]]; [auto| |auto].
  destruct (IH y); [left|right]; right; split; auto; lia.
Qed.

#[export] Instance mac_le_antisymm : AntiSymm (=) mac_le.
Proof.
  unfold mac_le. intros x. induction x as [|a x IH]; intros [|c y] H1 H2; simpl in *; try done.
  rewrite !orb_true_iff, !andb_true_iff, !Z.ltb_lt, !Z.eqb_eq in *.
  destruct H1 as [H1|[H1 H1']], H2 as [H2|[H2 H2']]; try lia. f_equal; [by apply b2z_inj|by apply IH].
Qed.

Definition mac_lt (x y : Mac) : Prop := mac_le x y /\ x <> y.

Lemma dedup_elem x l : x ∈ dedup l <-> x ∈ l.
Proof.
  induction l as [|y l IH]; [done|]. destruct l as [|z l]; [done|].
  cbn [dedup]. case_bool_decide as Hyz.
  - subst. rewrite IH, !elem_of_cons. tauto.
  - by rewrite elem_of_cons, IH, <- elem_of_cons.
Qed.

Lemma dedup_sorted l : StronglySorted mac_le l -> StronglySorted mac_lt (dedup l).
Proof.
  induction 1 as [|x l Hs IH Hall]; [constructor|]. destruct l as [|y l].
  { constructor; [constructor|done]. }
  cbn [dedup]. case_bool_decide as Hxy; [done|]. constructor; [done|].
  apply Forall_forall. intros z Hz. change (z ∈ dedup (y :: l)) in Hz.
  rewrite dedup_elem in Hz. rewrite Forall_forall in Hall.
  split; [by apply Hall|]. intros ->. apply Hxy. apply (anti_symm mac_le).
  - apply Hall. apply list_elem_of_here.
  - apply elem_of_cons in Hz as [->|Hz]; [by apply Hall, list_elem_of_here|].
    inversion Hs as [|? ? _ Hy]; subst. rewrite Forall_forall in Hy. by apply Hy.
Qed.

(** A hostapd with two BSSes and an unrelated socket. *)
Definition test_reply (bss : string) : list byte :=
  b "bssid=" ++ b bss ++ [LF] ++ b "ssid=Home" ++ [LF] ++ b "key_mgmt=FT-PSK" ++ [LF; LF] ++ b "junkline" ++ [LF].

(** A directory and control sockets that answer, or cannot be connected to. *)
Definition serving {IoError : Type} (dir : result IoError (list (result IoError str)))
    (answer : str -> result IoError (list byte)) : HostapdEnv IoError :=
  {| read_dir _ := dir; unbound := Ok tt; set_read_timeout _ := Ok tt;
     connect path := match answer path with Ok _ => Ok tt | Err e => Err e end;
     sock_send _ _ := Ok tt; sock_recv path _ := answer path |}.

Definition test_env : HostapdEnv unit :=
  serving (Ok (map (fun n => Ok (b n)) ["wifi1ap4"; "global"; "wifi0ap3"]%string))
    (fun path =>
       if bool_decide (path = b "/run/hostapd/wifi1ap4") then Ok (test_reply "22:0b:8b:ea:60:c9")
       else if bool_decide (path = b "/run/hostapd/wifi0ap3") then Ok (test_reply "1c:0b:8b:ea:60:c9")
       else Err tt).

Section ClientProofs.
Context {IoError : Type} (env : HostapdEnv IoError).

(** [m] is the address of a hostapd interface listed in the directory. *)
Definition listed (entries : list (result IoError str)) (m : Mac) : Prop :=
  exists name, Ok name ∈ entries /\ starts_with SOCKET_PREFIX name = true /\ bssid env name = Ok m.

Lemma bssids_fold entries : forall out out',
  try_fold (bssids_step env) out entries = Ok out' ->
  forall m, m ∈ out' <-> m ∈ out \/ listed entries m.
Proof.
  induction entries as [|e entries IH]; intros out out' Hrun m; simpl in Hrun.
  { injection Hrun as <-. split; [by left|]. intros [?|(n & Hn & _)]; [done|]. by apply not_elem_of_nil in Hn. }
  apply bind_Ok in Hrun as (out1 & Hstep & Hrun). rewrite (IH _ _ Hrun).
  unfold bssids_step in Hstep. destruct e as [name|]; [|done].
  destruct (utf8_valid name); [|done]. cbn [negb] in Hstep.
  destruct (starts_with SOCKET_PREFIX name) eqn:Hp; cbn [negb] in Hstep.
  - apply bind_Ok in Hstep as (m1 & Hm1 & [= <-]).
    rewrite elem_of_app, list_elem_of_singleton. unfold listed. setoid_rewrite elem_of_cons. split.
    + intros [[?| ->]|(n & ? & ?)]; [by left|right; exists name; auto|right; exists n; tauto].
    + intros [?|(n & [[= ->]|?] & ? & Hb)]; [by left; left|left; right; congruence|right; by exists n].
  - injection Hstep as <-. unfold listed. setoid_rewrite elem_of_cons. split.
    + intros [?|(n & ? & ?)]; [by left|right; exists n; tauto].
    + intros [?|(n & [[= ->]|?] & ? & ?)]; [by left|congruence|right; by exists n].
Qed.

Lemma bssids_Ok out :
  bssids_ env = Ok out ->
  exists entries, read_dir env SOCKET_DIR = Ok entries /\ out <> [] /\
    StronglySorted mac_lt out /\ forall m, m ∈ out <-> listed entries m.
Proof.
  unfold bssids_. destruct (read_dir env SOCKET_DIR) as [entries|]; [|done].
  intros (out0 & Hrun & (_ & Hne%ensure_Ok & [= <-])%bind_Ok)%bind_Ok. to_prop.
  exists entries.
  assert (forall m, m ∈ dedup (merge_sort mac_le out0) <-> listed entries m) as Hel.
  { intros m. rewrite dedup_elem, merge_sort_Permutation, (bssids_fold _ _ _ Hrun m).
    split; [intros [Hin|?]; [by apply not_elem_of_nil in Hin|done]|by right]. }
  split_and!; [done| |apply dedup_sorted, StronglySorted_merge_sort; apply _|done].
  destruct out0 as [|m out0]; [done|]. intros Hnil.
  assert (m ∈ dedup (merge_sort mac_le (m :: out0))) as Hin
    by (rewrite dedup_elem, merge_sort_Permutation; apply list_elem_of_here).
  rewrite Hnil in Hin. by apply not_elem_of_nil in Hin.
Qed.

Lemma bssids_fold_err entries name e : forall out,
  Ok name ∈ entries -> starts_with SOCKET_PREFIX name = true -> bssid env name = Err e ->
  exists e', try_fold (bssids_step env) out entries = Err e'.
Proof.
  induction entries as [|x entries IH]; intros out Hin Hp Hb; [by apply not_elem_of_nil in Hin|].
  simpl. destruct (bssids_step env out x) as [out1|e1] eqn:Hstep; cbn [mbind result_bind]; [|eauto].
  apply elem_of_cons in Hin as [<-|Hin]; [|by apply IH].
  unfold bssids_step in Hstep. rewrite Hp, Hb in Hstep. by destruct (utf8_valid name).
Qed.

Lemma mac_lt_sorted_NoDup l : StronglySorted mac_lt l -> NoDup l.
Proof.
  induction 1 as [|x l Hs IH Hall]; constructor; [|done]. intros Hin.
  rewrite Forall_forall in Hall. by apply Hall in Hin as [_ ?].
Qed.

End ClientProofs.

(** ** Properties *)

(** C38. Round trip with the reply format: parsing the [key=value] lines that
    hostapd prints gives back the map, the last line of a repeated key winning. *)
Theorem parse_config_roundtrip kvs k :
  Forall printable_entry kvs ->
  parse_config (render kvs) !! k = snd <$> last (filter (fun kv => kv.1 = k) kvs).
Proof.
  intros Hall. unfold parse_config. rewrite parse_render_list, fold_insert_lookup by done.
  by destruct (last _).
Qed.

Lemma parse_config_roundtrip_witness :
  parse_config (render [(b "bssid", b "22:0b:8b:ea:60:c9"); (b "ssid", b "Home")]) !! b "ssid" = Some (b "Home").
Proof.
  transitivity (snd <$> last (filter (fun kv => kv.1 = b "ssid")
                  [(b "bssid", b "22:0b:8b:ea:60:c9"); (b "ssid", b "Home")])); [|vm_compute; reflexivity].
  apply parse_config_roundtrip.
  constructor; [|constructor; [|constructor]]; split_and!; vm_compute; try congruence;
    intros Hin; repeat (apply elem_of_cons in Hin as [Hin|Hin]; [discriminate Hin|]); by apply not_elem_of_nil in Hin.
Defined.

(** C39. Discovery returns exactly the addresses of the listed [wifi*]
    interfaces, strictly increasing (so without repetitions), and never an empty
    list. *)
Theorem bssids_discovers_all {IoError} (env : HostapdEnv IoError) out :
  bssids_ env = Ok out ->
  out <> [] /\ StronglySorted mac_lt out /\ NoDup out /\
  exists entries, read_dir env SOCKET_DIR = Ok entries /\ forall m, m ∈ out <-> listed env entries m.
Proof.
  intros (entries & He & Hne & Hs & Hel)%bssids_Ok. split_and!; [done|done|by apply mac_lt_sorted_NoDup|].
  by exists entries.
Qed.

Lemma bssids_discovers_all_witness :
  StronglySorted mac_lt (map (fun l => bytes_of l) [[0x1c; 0x0b; 0x8b; 0xea; 0x60; 0xc9]; [0x22; 0x0b; 0x8b; 0xea; 0x60; 0xc9]]%Z).
Proof. apply (bssids_discovers_all test_env). vm_compute. reflexivity. Defined.

(** Fail-closed discovery: one listed [wifi*] interface whose address
    cannot be obtained fails the whole discovery, whatever the others answer. *)
Theorem bssids_fails_on_any_interface {IoError} (env : HostapdEnv IoError) entries name e :
  read_dir env SOCKET_DIR = Ok entries -> Ok name ∈ entries -> starts_with SOCKET_PREFIX name = true ->
  bssid env name = Err e -> exists e', bssids_ env = Err e'.
Proof.
  intros Hd Hin Hp Hb. unfold bssids_. rewrite Hd.
  destruct (bssids_fold_err env entries name e [] Hin Hp Hb) as [e' ->]. by exists e'.
Qed.

Lemma bssids_fails_on_any_interface_witness :
  exists e, bssids_ (serving (Ok [Ok (b "wifi0ap3")]) (fun _ => Err tt)) = Err e.
Proof.
  apply (bssids_fails_on_any_interface _ [Ok (b "wifi0ap3")] (b "wifi0ap3") (Connect (b "wifi0ap3") tt));
    [reflexivity|left|vm_compute; reflexivity|reflexivity].
Defined.
