(* ===== verification/Config.v ===== *)
(** * Configuration: [src/src/config.rs]

    The settings with the defaults of their [serde] attributes, structural
    validation, the discovery retry, and the assembly of the parser's [Filter].
    The file system, the YAML deserializer and hostapd are parameters. *)

From Stdlib Require Import ZArith Lia Strings.Byte Strings.String.
From stdpp Require Import base list numbers list_numbers sets gmap.
From S2P Require Import Prelude Proto Parse Wire Verdict Relay MacText Hostapd.
Local Open Scope nat_scope.
Local Open Scope rrb_scope.

Definition DEFAULT_PREF : Z := 49152.

Inductive Mode : Set := Observe | Forward.
#[export] Instance Mode_eq_dec : EqDecision Mode.
Proof. solve_decision. Defined.

Definition default_target : str := b "br0".
Definition default_vlan : Z := 1.
Definition default_mode : Mode := Forward.
Definition default_pps : Z := 20.
Definition default_tap : str := b "rrb0".
Definition default_pref : Z := DEFAULT_PREF.

Record ApEntry := mkAp {
  interface : str;
  r0kh_id : option str;
}.

Record PeerEntry := mkPeerEntry {
  pe_mac : str;
  pe_bssids : list str;
}.

Record Limits := mkLimits { packets_per_second : Z }.

Definition Limits_default : Limits := {| packets_per_second := default_pps |}.

Record Settings := mkSettings {
  s_sources : list str;
  s_aps : list ApEntry;
  s_peers : list PeerEntry;
  s_target : str;
  s_management_vlan : Z;
  s_mode : Mode;
  s_limits : Limits;
  s_tap : str;
  s_pref : Z;
}.

(** The document as written: [None] is a field that is absent.  Every field but
    [sources] and [aps] has a [serde] default. *)
Record RawSettings := mkRaw {
  raw_sources : list str;
  raw_aps : list ApEntry;
  raw_peers : option (list (str * option (list str)));
  raw_target : option str;
  raw_management_vlan : option Z;
  raw_mode : option Mode;
  raw_limits : option (option Z);
  raw_tap : option str;
  raw_pref : option Z;
}.

Definition settings_of_raw (raw : RawSettings) : Settings :=
  {| s_sources := raw_sources raw;
     s_aps := raw_aps raw;
     s_peers := map (fun '(m, bs) => {| pe_mac := m; pe_bssids := default [] bs |}) (default [] (raw_peers raw));
     s_target := default default_target (raw_target raw);
     s_management_vlan := default default_vlan (raw_management_vlan raw);
     s_mode := default default_mode (raw_mode raw);
     s_limits := match raw_limits raw with
                 | None => Limits_default
                 | Some pps => {| packets_per_second := default default_pps pps |}
                 end;
     s_tap := default default_tap (raw_tap raw);
     s_pref := default default_pref (raw_pref raw) |}.

(** What the Rust types guarantee. *)
Definition Settings_typed (s : Settings) : Prop :=
  is_u16 (s_management_vlan s) /\ (0 <= packets_per_second (s_limits s) < 2 ^ 32)%Z /\ is_u16 (s_pref s).

(** The failures of this module, with what their messages quote; [Panic] is an
    out-of-bounds array index. *)
Inductive ConfigError {IoError : Type} :=
| ReadConfig (e : IoError)
| ParseConfig
| NoSource
| ApCount
| TooManyPeers
| InvalidInterfaceName (name : str)
| ListedTwice (name : str)
| VlanRange
| PpsZero
| ReadMacOf (name : str) (e : IoError)
| BadMac (e : MacError)
| LocalAp (name : str) (e : ConfigError)
| R0khLength (name : str)
| BssidBroadcast (name : str)
| DuplicateBssid (name : str)
| PeerMacBroadcast
| DuplicatePeerMac (m : Mac)
| Discover (e : HostapdError IoError)
| PeerContext (m : Mac) (e : ConfigError)
| NoBssids (m : Mac)
| TooManyBssids (m : Mac)
| PeerBssidBroadcast
| DuplicatePeerBssid (m : Mac)
| Panic.
Arguments ConfigError : clear implicits.

(** ** Structural validation *)

Definition is_alphanumeric (x : byte) : bool :=
  in_range 48 57 x || in_range 65 90 x || in_range 97 122 x.

Definition name_byte (x : byte) : bool :=
  is_alphanumeric x || bool_decide (x ∈ b ".-_").

Definition name_ok (name : str) : bool :=
  negb (bool_decide (name = [])) && (length name <? 16) && forallb name_byte name.

(** The interface names in the order of the loop. *)
Definition interface_names (s : Settings) : list str :=
  s_sources s ++ map interface (s_aps s) ++ [s_target s; s_tap s].

(** One turn of the loop over the names, with the [HashSet] of those seen. *)
Definition check_name {IoError : Type} (names : gset str) (name : str) : result (ConfigError IoError) (gset str) :=
  _ ← ensure (name_ok name) (InvalidInterfaceName name);
  _ ← ensure (negb (bool_decide (name ∈ names))) (ListedTwice name);
  Ok ({[ name ]} ∪ names).

Definition validate {IoError : Type} (s : Settings) : result (ConfigError IoError) unit :=
  _ ← ensure (negb (bool_decide (s_sources s = []))) NoSource;
  _ ← ensure ((1 <=? length (s_aps s)) && (length (s_aps s) <=? MAX_LOCALS)) ApCount;
  _ ← ensure (length (s_peers s) <=? MAX_PEERS) TooManyPeers;
  _ ← try_fold check_name ∅ (interface_names s);
  _ ← ensure (0 <? s_management_vlan s)%Z VlanRange;
  ensure (0 <? packets_per_second (s_limits s))%Z PpsZero.

(** ** [str::trim]: Unicode [White_Space], as UTF-8 *)

Definition whitespace : list str :=
  map (fun l => bytes_of l)
    [[0x09]; [0x0a]; [0x0b]; [0x0c]; [0x0d]; [0x20]; [0xc2; 0x85]; [0xc2; 0xa0]; [0xe1; 0x9a; 0x80];
     [0xe2; 0x80; 0x80]; [0xe2; 0x80; 0x81]; [0xe2; 0x80; 0x82]; [0xe2; 0x80; 0x83]; [0xe2; 0x80; 0x84];
     [0xe2; 0x80; 0x85]; [0xe2; 0x80; 0x86]; [0xe2; 0x80; 0x87]; [0xe2; 0x80; 0x88]; [0xe2; 0x80; 0x89];
     [0xe2; 0x80; 0x8a]; [0xe2; 0x80; 0xa8]; [0xe2; 0x80; 0xa9]; [0xe2; 0x80; 0xaf]; [0xe2; 0x81; 0x9f];
     [0xe3; 0x80; 0x80]]%Z.

(** Remove characters of [set] from the front; [fuel] bounds their number. *)
Fixpoint strip_front (set : list str) (fuel : nat) (s : str) : str :=
  match fuel with
  | 0 => s
  | S fuel' =>
      match find (fun w => starts_with w s) set with
      | Some w => strip_front set fuel' (drop (length w) s)
      | None => s
      end
  end.

Definition trim_start (s : str) : str := strip_front whitespace (length s) s.
Definition trim_end (s : str) : str := rev (strip_front (map (@rev byte) whitespace) (length s) (rev s)).
Definition trim (s : str) : str := trim_end (trim_start s).

(** ** The environment and the filter assembly *)

Section Assembly.
Context {IoError : Type}.

Record Env := {
  (** [std::fs::read_to_string]. *)
  read_to_string : str -> result IoError str;
  (** [serde_yaml::from_str::<Settings>], up to the defaults. *)
  from_yaml : str -> option RawSettings;
  (** hostapd at the time of each discovery attempt. *)
  hostapd_at : nat -> HostapdEnv IoError;
}.

Variable env : Env.

Definition load (path : str) : result (ConfigError IoError) Settings :=
  match read_to_string env path with
  | Err e => Err (ReadConfig e)
  | Ok text =>
      raw ← ok_or (from_yaml env text) ParseConfig;
      let settings := settings_of_raw raw in
      _ ← validate settings;
      Ok settings
  end.

(** [mac] with its error in this module's type. *)
Definition config_mac (s : str) : result (ConfigError IoError) Mac :=
  match mac s with Ok m => Ok m | Err e => Err (BadMac e) end.

(** [format!("/sys/class/net/{name}/address")]. *)
Definition address_path (name : str) : str := b "/sys/class/net/" ++ name ++ b "/address".

Definition sysfs_mac (name : str) : result (ConfigError IoError) Mac :=
  match read_to_string env (address_path name) with
  | Err e => Err (ReadMacOf name e)
  | Ok text => config_mac (trim text)
  end.

(** [with_context]. *)
Definition context {A} (wrap : ConfigError IoError -> ConfigError IoError)
    (r : result (ConfigError IoError) A) : result (ConfigError IoError) A :=
  match r with Ok a => Ok a | Err e => Err (wrap e) end.

Definition RETRIES : nat := 30.

(** The polling loop: [k] is the attempt, [last_err] the last failure. *)
Fixpoint retry (fuel k : nat) (last_err : option (HostapdError IoError)) : result (ConfigError IoError) (list Mac) :=
  match fuel with
  | 0 => match last_err with Some e => Err (Discover e) | None => Err Panic end
  | S fuel' =>
      match bssids_ (hostapd_at env k) with
      | Ok v => Ok v
      | Err e => retry fuel' (S k) (Some e)
      end
  end.

Definition bssids_with_retry : result (ConfigError IoError) (list Mac) := retry RETRIES 0 None.

(** The default R0KH-ID: the BSSID in lowercase hex without colons. *)
Definition r0kh_text (ap : ApEntry) (bss : Mac) : str :=
  match r0kh_id ap with
  | Some id => id
  | None => concat (map hex_byte bss)
  end.

Definition is_ascii (s : str) : bool := forallb (in_range 0 127) s.

Definition set_local (f : Filter) (i : nat) (l : Local_) : Filter :=
  {| management_vlan := management_vlan f; peer_count := peer_count f; local_count := local_count f;
     target_mac := target_mac f; locals := <[i := l]> (locals f); peers := peers f |}.

Definition set_peer (f : Filter) (i : nat) (p : Peer) : Filter :=
  {| management_vlan := management_vlan f; peer_count := peer_count f; local_count := local_count f;
     target_mac := target_mac f; locals := locals f; peers := <[i := p]> (peers f) |}.

(** One turn of the loop over [self.aps]. *)
Definition local_step (f : Filter) (iap : nat * ApEntry) : result (ConfigError IoError) Filter :=
  let '(i, ap) := iap in
  bss ← context (LocalAp (interface ap)) (sysfs_mac (interface ap));
  let id := r0kh_text ap bss in
  _ ← ensure (negb (bool_decide (id = [])) && (length id <=? MAX_R0KH) && is_ascii id) (R0khLength (interface ap));
  _ ← ensure (negb (bool_decide (bss = BROADCAST))) (BssidBroadcast (interface ap));
  before ← ok_or (slice_get (locals f) 0 i) Panic;
  _ ← ensure (negb (existsb (fun l => bool_decide (local_bssid l = bss)) before)) (DuplicateBssid (interface ap));
  let local := {| local_bssid := bss; r0kh_len := Z.of_nat (length id) mod 256;
                  r0kh := id ++ drop (length id) (r0kh Local_default) |} in
  _ ← ensure (i <? MAX_LOCALS) Panic;
  Ok (set_local f i local).

(** The inner loop over a peer's BSSIDs. *)
Definition peer_bssid_step (bs : list Mac) (peer : Peer) (jb : nat * Mac) : result (ConfigError IoError) Peer :=
  let '(j, bss) := jb in
  _ ← ensure (negb (bool_decide (bss = BROADCAST))) PeerBssidBroadcast;
  _ ← ensure (negb (bool_decide (bss ∈ take j bs))) (DuplicatePeerBssid (peer_mac peer));
  Ok {| peer_mac := peer_mac peer; bssid_count := bssid_count peer; bssids := <[j := bss]> (bssids peer) |}.

(** The BSSIDs of a peer entry, with the lazily filled cache [all_bssids]. *)
Definition entry_bssids (p : PeerEntry) (m : Mac) (all_bssids : option (list Mac))
    : result (ConfigError IoError) (list Mac * option (list Mac)) :=
  if bool_decide (pe_bssids p = []) then
    match all_bssids with
    | Some v => Ok (v, all_bssids)
    | None => v ← bssids_with_retry; Ok (v, Some v)
    end
  else
    v ← context (PeerContext m) (try_map config_mac (pe_bssids p));
    Ok (v, all_bssids).

(** One turn of the loop over [self.peers]. *)
Definition peer_step (st : Filter * option (list Mac)) (ip : nat * PeerEntry)
    : result (ConfigError IoError) (Filter * option (list Mac)) :=
  let '(f, all_bssids) := st in
  let '(i, p) := ip in
  m ← config_mac (pe_mac p);
  _ ← ensure (negb (bool_decide (m = BROADCAST))) PeerMacBroadcast;
  before ← ok_or (slice_get (peers f) 0 i) Panic;
  _ ← ensure (negb (existsb (fun q => bool_decide (peer_mac q = m)) before)) (DuplicatePeerMac m);
  '(bs, all_bssids') ← entry_bssids p m all_bssids;
  _ ← ensure (negb (bool_decide (bs = []))) (NoBssids m);
  _ ← ensure (length bs <=? MAX_PEER_BSSIDS) (TooManyBssids m);
  peer ← try_fold (peer_bssid_step bs)
           {| peer_mac := m; bssid_count := Z.of_nat (length bs) mod 256; bssids := bssids Peer_default |}
           (enumerate bs);
  _ ← ensure (i <? MAX_PEERS) Panic;
  Ok (set_peer f i peer, all_bssids').

Definition settings_filter (s : Settings) : result (ConfigError IoError) Filter :=
  target ← sysfs_mac (s_target s);
  let f := {| management_vlan := s_management_vlan s;
              peer_count := Z.of_nat (length (s_peers s)) mod 256;
              local_count := Z.of_nat (length (s_aps s)) mod 256;
              target_mac := target;
              locals := locals Filter_default;
              peers := peers Filter_default |} in
  f ← try_fold local_step f (enumerate (s_aps s));
  st ← try_fold peer_step (f, None) (enumerate (s_peers s));
  Ok (fst st).

End Assembly.
Arguments Env : clear implicits.

(** ** Lemmas: validation *)

Lemma check_names_Ok {IoError : Type} (l : list str) : forall (names : gset str),
  (exists names', try_fold (check_name (IoError := IoError)) names l = Ok names') <->
  Forall (fun n => name_ok n = true) l /\ NoDup l /\ forall n, n ∈ l -> n ∉ names.
Proof.
  induction l as [|n l IH]; intros names; simpl.
  { split; [intros _; split_and!; [constructor|constructor|]|eauto]. intros n Hn. by apply not_elem_of_nil in Hn. }
  unfold check_name at 2. destruct (name_ok n) eqn:Hok; cbn [ensure mbind result_bind].
  2: {  split; [by intros [? ?]|]. intros (Hall & _). apply Forall_cons in Hall as [? _]. congruence. }
  case_bool_decide as Hin; cbn [negb ensure mbind result_bind].
  { split; [by intros [? ?]|]. intros (_ & _ & Hd). by destruct (Hd n (list_elem_of_here _ _)). }
  rewrite IH, Forall_cons, NoDup_cons. setoid_rewrite elem_of_cons. setoid_rewrite not_elem_of_union.
  setoid_rewrite not_elem_of_singleton. split.
  - intros (Hall & Hnd & Hd). split_and!; try done.
    + intros Hn. by destruct (Hd n Hn).
    + intros m [->|Hm]; [done|by apply Hd].
  - intros ((_ & Hall) & (Hn & Hnd) & Hd). split_and!; try done. intros m Hm.
    split; [intros ->; done|apply Hd; by right].
Qed.

(** What [validate] promises. *)
Definition settings_valid (s : Settings) : Prop :=
  s_sources s <> [] /\ 1 <= length (s_aps s) <= MAX_LOCALS /\ length (s_peers s) <= MAX_PEERS /\
  Forall (fun n => name_ok n = true) (interface_names s) /\ NoDup (interface_names s) /\
  (0 < s_management_vlan s)%Z /\ (0 < packets_per_second (s_limits s))%Z.

Lemma validate_Ok {IoError : Type} s : validate (IoError := IoError) s = Ok tt <-> settings_valid s.
Proof.
  unfold validate, settings_valid. split.
  - intros (_ & H1%ensure_Ok & (_ & H2%ensure_Ok & (_ & H3%ensure_Ok & (names & H4 & (_ & H5%ensure_Ok & H6%ensure_Ok)%bind_Ok)%bind_Ok)%bind_Ok)%bind_Ok)%bind_Ok.
    assert (exists names', try_fold (check_name (IoError := IoError)) ∅ (interface_names s) = Ok names') as Hn by eauto.
    apply check_names_Ok in Hn as (Hok & Hnd & _). to_prop. split_and!; done.
  - intros (H1 & [H2 H2'] & H3 & Hok & Hnd & H5 & H6).
    rewrite (bool_decide_eq_false_2 _ H1). cbn [negb ensure mbind result_bind].
    rewrite (proj2 (Nat.leb_le _ _) H2), (proj2 (Nat.leb_le _ _) H2'), (proj2 (Nat.leb_le _ _) H3).
    cbn [andb ensure mbind result_bind].
    destruct (proj2 (check_names_Ok (IoError := IoError) (interface_names s) ∅)) as [names Hn].
    { by split_and!. }
    rewrite Hn. cbn [mbind result_bind].
    by rewrite (proj2 (Z.ltb_lt _ _) H5), (proj2 (Z.ltb_lt _ _) H6).
Qed.

(** ** Lemmas: discovery *)

Section Discovery.
Context {IoError : Type} (env : Env IoError).

Lemma retry_Ok fuel : forall k last_err v,
  retry env fuel k last_err = Ok v <->
  exists j, k <= j < k + fuel /\ bssids_ (hostapd_at env j) = Ok v /\
    forall i, k <= i < j -> exists e, bssids_ (hostapd_at env i) = Err e.
Proof.
  induction fuel as [|fuel IH]; intros k last_err v; simpl.
  { split; [by destruct last_err|]. intros (j & ? & _). lia. }
  destruct (bssids_ (hostapd_at env k)) as [w|e] eqn:Hk.
  - split.
    + intros [= ->]. exists k. split_and!; [lia|lia|done|intros; lia].
    + intros (j & Hj & Hv & Hbefore). destruct (decide (j = k)) as [->|]; [congruence|].
      destruct (Hbefore k) as [e He]; [lia|congruence].
  - rewrite IH. split; intros (j & Hj & Hv & Hbefore).
    + exists j. split_and!; [lia|lia|done|]. intros i Hi.
      destruct (decide (i = k)) as [->|]; [by exists e|]. apply Hbefore. lia.
    + destruct (decide (j = k)) as [->|]; [congruence|].
      exists j. split_and!; [lia|lia|done|]. intros i Hi. apply Hbefore. lia.
Qed.

Lemma retry_Err fuel : forall k last_err err,
  0 < fuel -> retry env fuel k last_err = Err err ->
  exists e, err = Discover e /\ bssids_ (hostapd_at env (k + fuel - 1)) = Err e /\
    forall i, k <= i < k + fuel -> exists e', bssids_ (hostapd_at env i) = Err e'.
Proof.
  induction fuel as [|fuel IH]; intros k last_err err Hf; [lia|]. simpl.
  destruct (bssids_ (hostapd_at env k)) as [w|e] eqn:Hk; [done|].
  destruct fuel as [|fuel].
  - simpl. intros [= <-]. exists e. replace (k + 1 - 1) with k by lia. split_and!; [done|done|].
    intros i Hi. replace i with k by lia. eauto.
  - intros (e' & -> & Hlast & Hall)%IH; [|lia]. exists e'. split_and!; [done| |].
    + by replace (k + S (S fuel) - 1) with (S k + S fuel - 1) by lia.
    + intros i Hi. destruct (decide (i = k)) as [->|]; [eauto|]. apply Hall. lia.
Qed.

Lemma bssid_length (henv : HostapdEnv IoError) name m : bssid henv name = Ok m -> length m = 6.
Proof.
  unfold bssid. intros (cfg & _ & (text & _ & Hm)%bind_Ok)%bind_Ok.
  destruct (mac text) eqn:Hmac; [|done]. injection Hm as <-. by eapply mac_length.
Qed.

Lemma discovered_macs v : bssids_with_retry env = Ok v -> Forall (fun m => length m = 6) v.
Proof.
  intros (j & _ & Hv & _)%retry_Ok. apply bssids_Ok in Hv as (entries & _ & _ & _ & Hel).
  apply Forall_forall. intros m (name & _ & _ & Hb)%Hel. by eapply bssid_length.
Qed.

Lemma config_mac_Ok s m : config_mac (IoError := IoError) s = Ok m <-> mac s = Ok m.
Proof. unfold config_mac. destruct (mac s); split; congruence. Qed.

Lemma context_Ok {A} wrap (r : result (ConfigError IoError) A) a : context wrap r = Ok a <-> r = Ok a.
Proof. destruct r; simpl; split; congruence. Qed.

Lemma sysfs_mac_length name m : sysfs_mac env name = Ok m -> length m = 6.
Proof.
  unfold sysfs_mac. destruct (read_to_string env (address_path name)); [|done].
  intros Hm%config_mac_Ok. by eapply mac_length.
Qed.
End Discovery.

(** ** The assembled filter *)

Section Assembled.
Context {IoError : Type} (env : Env IoError).

(** Entry [l] of the filter is the one of AP [ap]. *)
Definition local_for (ap : ApEntry) (l : Local_) : Prop :=
  sysfs_mac env (interface ap) = Ok (local_bssid l) /\ local_bssid l <> BROADCAST /\
  let id := r0kh_text ap (local_bssid l) in
  1 <= length id <= MAX_R0KH /\ r0kh_len l = Z.of_nat (length id) /\ take (length id) (r0kh l) = id.

(** The BSSIDs that a peer entry stands for. *)
Definition claims (p : PeerEntry) (bs : list Mac) : Prop :=
  if decide (pe_bssids p = []) then bssids_with_retry env = Ok bs
  else Forall2 (fun s m => mac s = Ok m) (pe_bssids p) bs.

(** Entry [q] of the filter is the one of peer [p]. *)
Definition peer_for (p : PeerEntry) (q : Peer) : Prop :=
  mac (pe_mac p) = Ok (peer_mac q) /\ peer_mac q <> BROADCAST /\
  exists bs, claims p bs /\ 1 <= length bs <= MAX_PEER_BSSIDS /\ bssid_count q = Z.of_nat (length bs) /\
    take (length bs) (bssids q) = bs /\ NoDup bs /\ BROADCAST ∉ bs.

(** The fields that both loops leave alone. *)
Definition same_scope (f g : Filter) : Prop :=
  management_vlan f = management_vlan g /\ peer_count f = peer_count g /\
  local_count f = local_count g /\ target_mac f = target_mac g.

Definition locals_built (aps : list ApEntry) (n : nat) (f : Filter) : Prop :=
  length (locals f) = MAX_LOCALS /\ Forall Local_wf (locals f) /\ n <= MAX_LOCALS /\
  (forall i ap, i < n -> aps !! i = Some ap -> local_for ap (locals f !!! i)) /\
  (forall i j, i < n -> j < n -> local_bssid (locals f !!! i) = local_bssid (locals f !!! j) -> i = j).

Definition peers_built (ps : list PeerEntry) (n : nat) (f : Filter) : Prop :=
  length (peers f) = MAX_PEERS /\ Forall Peer_wf (peers f) /\ n <= MAX_PEERS /\
  (forall i p, i < n -> ps !! i = Some p -> peer_for p (peers f !!! i)) /\
  (forall i j, i < n -> j < n -> peer_mac (peers f !!! i) = peer_mac (peers f !!! j) -> i = j).

Lemma lookup_total_insert_case {A} `{Inhabited A} (l : list A) i j x :
  i < length l -> <[i := x]> l !!! j = if decide (i = j) then x else l !!! j.
Proof.
  intros Hi. rewrite !list_lookup_total_alt. case_decide as Hij.
  - subst. by rewrite list_lookup_insert_eq.
  - by rewrite list_lookup_insert_ne.
Qed.

(** Adding an element whose key is new keeps keys distinct. *)
Lemma distinct_snoc {A} `{Inhabited A} {K} (key : A -> K) (l : list A) n x :
  n < length l ->
  (forall i j, i < n -> j < n -> key (l !!! i) = key (l !!! j) -> i = j) ->
  (forall y, y ∈ take n l -> key y <> key x) ->
  forall i j, i < n + 1 -> j < n + 1 -> key (<[n := x]> l !!! i) = key (<[n := x]> l !!! j) -> i = j.
Proof.
  intros Hn Hold Hnew i j Hi Hj. rewrite !lookup_total_insert_case by done.
  assert (forall k, k < n -> key (l !!! k) <> key x) as Hfresh.
  { intros k Hk. apply Hnew. apply list_elem_of_lookup. exists k.
    rewrite lookup_take_lt by done. by apply list_lookup_lookup_total_lt; lia. }
  destruct (decide (n = i)) as [<-|], (decide (n = j)) as [<-|]; intros Heq.
  - done.
  - destruct (Hfresh j); [lia|done].
  - destruct (Hfresh i); [lia|done].
  - apply Hold; [lia|lia|done].
Qed.

Lemma existsb_false {A} (P : A -> bool) l : existsb P l = false <-> forall x, x ∈ l -> P x = false.
Proof.
  induction l as [|y l IH]; simpl; [split; [intros _ x Hx; by apply not_elem_of_nil in Hx|done]|].
  rewrite orb_false_iff, IH. setoid_rewrite elem_of_cons. split.
  - intros [Hy Hl] x [->|Hx]; auto.
  - intros Hall. split; [|intros x Hx]; apply Hall; auto.
Qed.

Lemma slice_get_prefix {A} (l : list A) n s : slice_get l 0 n = Some s -> s = take n l /\ n <= length l.
Proof.
  unfold slice_get. destruct (Nat.leb_spec n (length l)); simpl; [|done].
  intros [= <-]. split; [|done]. unfold slice. by rewrite drop_0, Nat.sub_0_r.
Qed.

Lemma local_step_built aps n f f' ap :
  locals_built aps n f -> aps !! n = Some ap -> local_step env f (n, ap) = Ok f' ->
  locals_built aps (n + 1) f' /\ same_scope f f' /\ peers f' = peers f.
Proof.
  intros (Hlen & Hwf & Hn & Hfor & Hdist) Hap. unfold local_step.
  intros (bss & Hbss%context_Ok & (_ & Hid%ensure_Ok & (_ & Hnb%ensure_Ok & (before & Hbef%ok_or_Ok &
    (_ & Hdup%ensure_Ok & (_ & Hlt%ensure_Ok & [= <-])%bind_Ok)%bind_Ok)%bind_Ok)%bind_Ok)%bind_Ok)%bind_Ok.
  apply slice_get_prefix in Hbef as [-> _]. to_prop. rewrite existsb_false in Hdup.
  set (id := r0kh_text ap bss) in *.
  assert (1 <= length id) as Hid1 by (destruct id; [done|simpl; lia]).
  set (l := {| local_bssid := bss |}). unfold MAX_R0KH in *.
  assert (r0kh_len l = Z.of_nat (length id)) as Hrl by (cbn; rewrite Z.mod_small; lia).
  assert (Local_wf l) as Hlwf.
  { split_and!; [by eapply sysfs_mac_length|rewrite Hrl; lia..|].
    cbn. rewrite length_app, length_drop. unfold MAX_R0KH. simpl. lia. }
  unfold locals_built; cbn [set_local locals]. rewrite length_insert.
  split_and!; try done; [by apply Forall_insert|lia| |].
  - intros i ap' Hi Hap'. rewrite lookup_total_insert_case by lia. case_decide as Hni.
    + subst i. assert (ap' = ap) as -> by congruence.
      split; [done|]. split; [done|]. change (r0kh_text ap (local_bssid l)) with id.
      split_and!; [lia|unfold MAX_R0KH; lia|done|apply take_app_length].
    + apply Hfor; [lia|done].
  - apply (distinct_snoc local_bssid); [lia|done|]. intros y Hy%Hdup. by to_prop.
Qed.

Lemma locals_loop aps f f' :
  locals_built aps 0 f -> try_fold (local_step env) f (enumerate aps) = Ok f' ->
  locals_built aps (length aps) f' /\ same_scope f f' /\ peers f' = peers f.
Proof.
  intros H0 Hrun. rewrite <- (length_enumerate aps) at 1.
  eapply (try_fold_inv (local_step env)
    (fun n g => locals_built aps n g /\ same_scope f g /\ peers g = peers f)); [|clear f' Hrun|exact Hrun].
  - done.
  - intros i [j ap] g g' [-> Hap]%lookup_enumerate (Hb & Hs & Hp) Hstep.
    destruct (local_step_built _ _ _ _ _ Hb Hap Hstep) as (Hb' & Hs' & Hp').
    split_and!; [done| |congruence]. unfold same_scope in *. intuition congruence.
Qed.

(** The inner loop copies the list after checking it. *)
Lemma peer_bssids_loop bs p p' :
  try_fold (peer_bssid_step (IoError := IoError) bs) p (enumerate bs) = Ok p' ->
  length bs <= length (bssids p) ->
  peer_mac p' = peer_mac p /\ bssid_count p' = bssid_count p /\
  bssids p' = bs ++ drop (length bs) (bssids p) /\ NoDup bs /\ BROADCAST ∉ bs.
Proof.
  intros Hrun Hlen.
  assert (peer_mac p' = peer_mac p /\ bssid_count p' = bssid_count p /\
          bssids p' = take (length (enumerate bs)) bs ++ drop (length (enumerate bs)) (bssids p) /\
          NoDup (take (length (enumerate bs)) bs) /\ BROADCAST ∉ take (length (enumerate bs)) bs) as Hinv.
  { eapply (try_fold_inv (peer_bssid_step bs) (fun n q => peer_mac q = peer_mac p /\
      bssid_count q = bssid_count p /\ bssids q = take n bs ++ drop n (bssids p) /\
      NoDup (take n bs) /\ BROADCAST ∉ take n bs)); [|clear p' Hrun|exact Hrun].
    - split_and!; try done; [constructor|apply not_elem_of_nil].
    - intros i [j x] q q' [-> Hx]%lookup_enumerate (Hm & Hc & Hb & Hnd & Hnb). unfold peer_bssid_step.
      intros (_ & Hxb%ensure_Ok & (_ & Hdup%ensure_Ok & [= <-])%bind_Ok)%bind_Ok. to_prop.
      rewrite Nat.add_1_r, (take_S_r _ _ _ Hx). cbn [peer_mac bssid_count bssids].
      apply lookup_lt_Some in Hx. rewrite Hb, elem_of_app, list_elem_of_singleton.
      split_and!; try done; [|apply NoDup_app; split_and!; [done| |apply NoDup_singleton]|by intros [?|<-]].
      + rewrite insert_app_r_alt by (rewrite length_take; lia).
        rewrite length_take, Nat.min_l, Nat.sub_diag, <- app_assoc by lia. f_equal.
        destruct (drop i (bssids p)) as [|y rest] eqn:Hd.
        { apply (f_equal length) in Hd. rewrite length_drop in Hd. simpl in Hd. lia. }
        simpl. f_equal. apply (f_equal (drop 1)) in Hd. rewrite drop_drop in Hd.
        replace (S i) with (i + 1) by lia. by rewrite Hd.
      + by intros y Hy ->%list_elem_of_singleton. }
  rewrite length_enumerate, take_ge in Hinv by done. exact Hinv.
Qed.

Lemma entry_bssids_Ok p m cache bs cache' :
  (forall v, cache = Some v -> bssids_with_retry env = Ok v) ->
  entry_bssids env p m cache = Ok (bs, cache') ->
  claims p bs /\ Forall (fun x => length x = 6) bs /\
  (forall v, cache' = Some v -> bssids_with_retry env = Ok v).
Proof.
  intros Hc. unfold entry_bssids, claims. case_bool_decide as Hp; destruct (decide (pe_bssids p = [])); try done.
  - destruct cache as [v|].
    + intros [= <- <-]. pose proof (Hc v eq_refl). split_and!; [done|by eapply discovered_macs|done].
    + intros (v & Hv & [= <- <-])%bind_Ok. split_and!; [done|by eapply discovered_macs|congruence].
  - intros (v & Hv%context_Ok%try_map_Ok & [= <- <-])%bind_Ok.
    assert (Forall2 (fun s m => mac s = Ok m) (pe_bssids p) v) as Hv'.
    { eapply Forall2_impl; [exact Hv|]. intros s x. by rewrite config_mac_Ok. }
    split_and!; [done| |done]. apply Forall_lookup_2. intros i x Hx.
    destruct (Forall2_lookup_r _ _ _ _ _ Hv' Hx) as (s & _ & Hs). by eapply mac_length.
Qed.

Lemma peer_step_built ps n f cache f' cache' p :
  peers_built ps n f -> (forall v, cache = Some v -> bssids_with_retry env = Ok v) ->
  ps !! n = Some p -> peer_step env (f, cache) (n, p) = Ok (f', cache') ->
  peers_built ps (n + 1) f' /\ same_scope f f' /\ locals f' = locals f /\
  (forall v, cache' = Some v -> bssids_with_retry env = Ok v).
Proof.
  intros (Hlen & Hwf & Hn & Hfor & Hdist) Hcache Hp. unfold peer_step.
  intros (m & Hm%config_mac_Ok & (_ & Hnb%ensure_Ok & (before & Hbef%ok_or_Ok & (_ & Hdup%ensure_Ok &
    ([bs c] & Hbs & (_ & Hne%ensure_Ok & (_ & Hmax%ensure_Ok & (q & Hq & (_ & Hlt%ensure_Ok & [= <- <-])%bind_Ok)%bind_Ok)%bind_Ok)%bind_Ok)%bind_Ok)%bind_Ok)%bind_Ok)%bind_Ok)%bind_Ok.
  apply slice_get_prefix in Hbef as [-> _]. to_prop. rewrite existsb_false in Hdup.
  apply entry_bssids_Ok in Hbs as (Hclaims & Hsix & Hcache'); [|done]. unfold MAX_PEER_BSSIDS in *.
  apply peer_bssids_loop in Hq as (Hqm & Hqc & Hqb & Hnd & Hnbs); [|simpl; unfold MAX_PEER_BSSIDS; lia].
  cbn [peer_mac bssid_count bssids] in Hqm, Hqc, Hqb. subst m.
  rewrite Z.mod_small in Hqc by lia.
  assert (1 <= length bs) as Hb1 by (destruct bs; [done|simpl; lia]).
  assert (Peer_wf q) as Hqwf.
  { split_and!; [by eapply mac_length|lia|lia| |].
    - rewrite Hqb, length_app, length_drop. unfold MAX_PEER_BSSIDS. simpl. unfold MAX_PEER_BSSIDS. lia.
    - rewrite Hqb. apply Forall_app. split; [done|]. apply Forall_drop. by repeat constructor. }
  unfold peers_built; cbn [set_peer peers locals]. rewrite length_insert.
  split_and!; try done; [by apply Forall_insert|lia| |].
  - intros i p' Hi Hp'. rewrite lookup_total_insert_case by lia. case_decide as Hni.
    + subst i. assert (p' = p) as -> by congruence. split_and!; try done.
      exists bs. split_and!; try done. rewrite Hqb. apply take_app_length.
    + apply Hfor; [lia|done].
  - apply (distinct_snoc peer_mac); [lia|done|]. intros y Hy%Hdup. by to_prop.
Qed.

Lemma peers_loop ps f st :
  peers_built ps 0 f -> try_fold (peer_step env) (f, None) (enumerate ps) = Ok st ->
  peers_built ps (length ps) (fst st) /\ same_scope f (fst st) /\ locals (fst st) = locals f.
Proof.
  intros H0 Hrun. rewrite <- (length_enumerate ps) at 1.
  eapply (try_fold_inv (peer_step env)
    (fun n s => (peers_built ps n (fst s) /\ same_scope f (fst s) /\ locals (fst s) = locals f) /\
                forall v, snd s = Some v -> bssids_with_retry env = Ok v)) in Hrun; [apply Hrun|done|].
  intros i [j p] [g c] [g' c'] [-> Hp]%lookup_enumerate ((Hb & Hs & Hl) & Hc) Hstep.
  destruct (peer_step_built _ _ _ _ _ _ _ Hb Hc Hp Hstep) as (Hb' & Hs' & Hl' & Hc').
  split; [|done]. cbn [fst] in *. split_and!; [done| |congruence]. unfold same_scope in *. intuition congruence.
Qed.

(** A filter assembled from settings. *)
Definition assembled (s : Settings) (f : Filter) : Prop :=
  Filter_wf f /\ management_vlan f = s_management_vlan s /\
  sysfs_mac env (s_target s) = Ok (target_mac f) /\
  local_count f = Z.of_nat (length (s_aps s)) /\ peer_count f = Z.of_nat (length (s_peers s)) /\
  locals_built (s_aps s) (length (s_aps s)) f /\ peers_built (s_peers s) (length (s_peers s)) f.

Definition initial_filter (s : Settings) (target : Mac) : Filter :=
  {| management_vlan := s_management_vlan s; peer_count := Z.of_nat (length (s_peers s)) mod 256;
     local_count := Z.of_nat (length (s_aps s)) mod 256; target_mac := target;
     locals := locals Filter_default; peers := peers Filter_default |}.

Lemma initial_locals s target : locals_built (s_aps s) 0 (initial_filter s target).
Proof.
  destruct Filter_default_wf as (_ & _ & _ & _ & Hl & Hlw & _). split_and!; try done; [unfold MAX_LOCALS|..]; lia.
Qed.

Lemma initial_peers s f : peers f = peers Filter_default -> peers_built (s_peers s) 0 f.
Proof.
  intros Heq. unfold peers_built. rewrite Heq.
  destruct Filter_default_wf as (_ & _ & _ & _ & _ & _ & Hp & Hpw).
  split_and!; try done; [unfold MAX_PEERS|..]; lia.
Qed.

Lemma settings_filter_assembled s f :
  Settings_typed s -> settings_valid s -> settings_filter env s = Ok f -> assembled s f.
Proof.
  intros (Hvlan & _) (_ & [Hap1 Hap2] & Hpe & _). unfold settings_filter, MAX_LOCALS, MAX_PEERS in *.
  intros (target & Ht & (f1 & Hf1 & (st & Hst & [= <-])%bind_Ok)%bind_Ok)%bind_Ok.
  change ({| management_vlan := _ |}) with (initial_filter s target) in Hf1.
  apply locals_loop in Hf1 as (Hl1 & (Hv1 & Hpc1 & Hlc1 & Ht1) & Hp1); [|apply initial_locals].
  apply peers_loop in Hst as (Hp2 & (Hv2 & Hpc2 & Hlc2 & Ht2) & Hl2); [|by apply (initial_peers s)].
  cbn [initial_filter management_vlan peer_count local_count target_mac] in *.
  rewrite Z.mod_small in Hpc1, Hlc1 by lia.
  assert (locals_built (s_aps s) (length (s_aps s)) (fst st)) as Hl.
  { unfold locals_built in *. by rewrite Hl2. }
  unfold assembled. rewrite <- Hv2, <- Hv1, <- Ht2, <- Ht1, <- Hlc2, <- Hlc1, <- Hpc2, <- Hpc1.
  split_and!; try done. unfold Filter_wf. rewrite <- Hv2, <- Hv1, <- Ht2, <- Ht1, <- Hlc2, <- Hlc1, <- Hpc2, <- Hpc1.
  destruct Hl as (Hll & Hlw & _). destruct Hp2 as (Hpl & Hpw & _).
  pose proof (sysfs_mac_length _ _ _ Ht) as H6. unfold is_u16 in Hvlan. split_and!; try done; lia.
Qed.

(** ** No panic on valid settings *)

Lemma sysfs_mac_no_panic name e : sysfs_mac env name = Err e -> e <> Panic.
Proof.
  unfold sysfs_mac, config_mac. destruct (read_to_string env (address_path name)) as [text|]; [|by intros [= <-]].
  by destruct (mac (trim text)); intros [= <-].
Qed.

Lemma slice_get_le {A} (l : list A) n : n <= length l -> exists s, slice_get l 0 n = Some s.
Proof. intros Hn. exists (slice 0 n l). by apply slice_get_some; [lia|]. Qed.

Lemma local_step_no_panic aps n f ap e :
  locals_built aps n f -> n < MAX_LOCALS -> local_step env f (n, ap) = Err e -> e <> Panic.
Proof.
  intros (Hlen & _) Hn. unfold local_step.
  destruct (sysfs_mac env (interface ap)) as [bss|e1] eqn:Hs; cbn [context mbind result_bind]; [|by intros [= <-]].
  destruct (_ && _ && _); cbn [ensure mbind result_bind]; [|by intros [= <-]].
  destruct (negb _); cbn [ensure mbind result_bind]; [|by intros [= <-]].
  destruct (slice_get_le (locals f) n) as [s ->]; [lia|]. cbn [ok_or mbind result_bind].
  destruct (negb _); cbn [ensure mbind result_bind]; [|by intros [= <-]].
  by rewrite (proj2 (Nat.ltb_lt _ _) Hn).
Qed.

Lemma entry_bssids_no_panic p m cache e : entry_bssids env p m cache = Err e -> e <> Panic.
Proof.
  unfold entry_bssids. case_bool_decide; [destruct cache as [v|]; [done|]|].
  - intros [Hr|(v & _ & ?)]%bind_Err; [|done]. apply retry_Err in Hr as (e' & -> & _); [done|unfold RETRIES; lia].
  - destruct (try_map config_mac (pe_bssids p)); cbn [context mbind result_bind]; [done|by intros [= <-]].
Qed.

Lemma peer_bssids_no_panic bs p e :
  try_fold (peer_bssid_step (IoError := IoError) bs) p (enumerate bs) = Err e -> e <> Panic.
Proof.
  intros (i & [j x] & q & _ & _ & Hstep)%(try_fold_err _ (fun _ _ => True)); [|done|done].
  revert Hstep. unfold peer_bssid_step.
  destruct (bool_decide (x = BROADCAST)); cbn [negb ensure mbind result_bind]; [by intros [= <-]|].
  by destruct (bool_decide _); cbn [negb ensure mbind result_bind]; intros [= <-].
Qed.

Lemma peer_step_no_panic ps n f cache p e :
  peers_built ps n f -> n < MAX_PEERS -> peer_step env (f, cache) (n, p) = Err e -> e <> Panic.
Proof.
  intros (Hlen & _) Hn. unfold peer_step, config_mac.
  destruct (mac (pe_mac p)) as [m|e1]; cbn [mbind result_bind]; [|by intros [= <-]].
  destruct (negb _); cbn [ensure mbind result_bind]; [|by intros [= <-]].
  destruct (slice_get_le (peers f) n) as [s ->]; [lia|]. cbn [ok_or mbind result_bind].
  destruct (negb _); cbn [ensure mbind result_bind]; [|by intros [= <-]].
  destruct (entry_bssids env p m cache) as [[bs c]|e1] eqn:He; cbn [mbind result_bind];
    [|intros [= <-]; by eapply entry_bssids_no_panic].
  destruct (negb _); cbn [ensure mbind result_bind]; [|by intros [= <-]].
  destruct (_ <=? _); cbn [ensure mbind result_bind]; [|by intros [= <-]].
  destruct (try_fold _ _ _) as [q|e1] eqn:Hq; cbn [mbind result_bind];
    [|intros [= <-]; by eapply peer_bssids_no_panic].
  by rewrite (proj2 (Nat.ltb_lt _ _) Hn).
Qed.

Lemma settings_filter_no_panic s e :
  settings_valid s -> settings_filter env s = Err e -> e <> Panic.
Proof.
  intros (_ & [_ Hap2] & Hpe & _). unfold settings_filter.
  intros [Ht|(target & _ & Hrest)]%bind_Err; [by eapply sysfs_mac_no_panic|].
  change ({| management_vlan := _ |}) with (initial_filter s target) in Hrest.
  apply bind_Err in Hrest as [Hl|(f1 & Hf1 & Hrest)].
  - apply (try_fold_err _ (locals_built (s_aps s))) in Hl as (i & [j ap] & f1 & [-> Hap]%lookup_enumerate & Hb & Hstep).
    + eapply local_step_no_panic; [exact Hb| |exact Hstep]. apply lookup_lt_Some in Hap. lia.
    + apply initial_locals.
    + intros i [j ap] g g' [-> Hap]%lookup_enumerate Hb Hstep. by eapply local_step_built.
  - apply locals_loop in Hf1 as (_ & _ & Hp1); [|apply initial_locals].
    apply bind_Err in Hrest as [Hl|(st & _ & ?)]; [|done].
    apply (try_fold_err _ (fun n s0 => peers_built (s_peers s) n (fst s0) /\
             forall v, snd s0 = Some v -> bssids_with_retry env = Ok v))
      in Hl as (i & [j p] & [g c] & [-> Hp]%lookup_enumerate & [Hb _] & Hstep).
    + eapply peer_step_no_panic; [exact Hb| |exact Hstep]. apply lookup_lt_Some in Hp. lia.
    + split; [by apply (initial_peers s)|done].
    + intros i [j p] [g c] [g' c'] [-> Hp]%lookup_enumerate [Hb Hc] Hstep.
      destruct (peer_step_built _ _ _ _ _ _ _ Hb Hc Hp Hstep) as (Hb' & _ & _ & Hc'). by split.
Qed.
End Assembled.

(** ** sysfs addresses *)

Lemma strip_front_none set fuel s : find (fun w => starts_with w s) set = None -> strip_front set fuel s = s.
Proof. intros Hf. destruct fuel; simpl; [done|]. by rewrite Hf. Qed.

(** No white space character starts, or ends, with a hexadecimal digit. *)
Lemma no_whitespace_at n s :
  (0 <= n < 16)%Z ->
  find (fun w => starts_with w (hex_digit n :: s)) whitespace = None /\
  find (fun w => starts_with w (hex_digit n :: s)) (map (@rev byte) whitespace) = None.
Proof.
  intros Hn. assert (forall set, forallb (fun w => match w with x :: _ => negb (bool_decide (x = hex_digit n)) | [] => false end) set = true ->
    find (fun w => starts_with w (hex_digit n :: s)) set = None) as Hset.
  { induction set as [|w set IH]; simpl; [done|]. intros [Hw Hs]%andb_true_iff.
    destruct w as [|x w]; [done|]. to_prop. unfold starts_with at 1. cbn [length take].
    rewrite bool_decide_eq_false_2 by congruence. by apply IH. }
  assert (n ∈ seqZ 0 16) as Hin by (apply elem_of_seqZ; lia).
  split; apply Hset; revert n Hn Hin Hset; intros n _ Hin _; repeat (apply elem_of_cons in Hin as [->|Hin]; [vm_compute; reflexivity|]); by apply not_elem_of_nil in Hin.
Qed.

Lemma mac_string_ends m : length m = 6 ->
  exists n s n' s', (0 <= n < 16)%Z /\ (0 <= n' < 16)%Z /\
    mac_string m = hex_digit n :: s /\ rev (mac_string m) = hex_digit n' :: s'.
Proof.
  intros (a0 & a1 & a2 & a3 & a4 & a5 & ->)%length_6.
  pose proof (b2z_range a0). pose proof (b2z_range a5).
  eexists (b2z a0 / 16)%Z, _, (b2z a5 mod 16)%Z, _. split_and!; try reflexivity; Z.div_mod_to_equations; lia.
Qed.

Lemma trim_mac_line m : length m = 6 -> trim (mac_string m ++ [LF]) = mac_string m.
Proof.
  intros (n & s & n' & s' & Hn & Hn' & Hs & Hr)%mac_string_ends. unfold trim.
  assert (trim_start (mac_string m ++ [LF]) = mac_string m ++ [LF]) as ->.
  { unfold trim_start. apply strip_front_none. rewrite Hs.
    destruct (no_whitespace_at n (s ++ [LF]) Hn) as [Hf _]. exact Hf. }
  unfold trim_end. rewrite rev_app_distr, length_app, Nat.add_1_r. cbn [rev app strip_front].
  assert (find (fun w => starts_with w (LF :: rev (mac_string m))) (map (@rev byte) whitespace) = Some [LF]) as ->.
  { generalize (rev (mac_string m)). intros t. vm_compute. reflexivity. }
  cbn [length drop]. rewrite drop_0, strip_front_none; [apply rev_involutive|].
  rewrite Hr. destruct (no_whitespace_at n' s' Hn') as [_ Hf]. exact Hf.
Qed.

(** ** A concrete environment *)

Definition test_cenv : Env unit :=
  {| from_yaml := fun _ =>
       Some {| raw_sources := [b "eth1"; b "eth2"];
               raw_aps := [{| interface := b "wifi1ap4"; r0kh_id := None |}];
               raw_peers := Some [(b "1c:0b:8b:ea:60:c9", Some [b "1c:0b:8b:ea:60:c9"; b "22:0b:8b:ea:60:c9"]);
                                  (b "1c:0b:8b:ea:60:c8", None)];
               raw_target := None; raw_management_vlan := None; raw_mode := None;
               raw_limits := None; raw_tap := None; raw_pref := None |};
     read_to_string := fun path =>
       if bool_decide (path = b "/sys/class/net/br0/address") then Ok (b "02:00:00:00:00:01" ++ [LF])
       else if bool_decide (path = b "/sys/class/net/wifi1ap4/address") then Ok (b "22:0b:8b:ea:60:c9" ++ [LF])
       else if bool_decide (path = b "config.yaml") then Ok []
       else Err tt;
     hostapd_at := fun k => if k <? 3 then serving (Err tt) (fun _ => Err tt) else test_env |}.

Definition test_settings : Settings :=
  {| s_sources := [b "eth1"; b "eth2"]; s_aps := [{| interface := b "wifi1ap4"; r0kh_id := None |}];
     s_peers := [{| pe_mac := b "1c:0b:8b:ea:60:c9"; pe_bssids := [b "1c:0b:8b:ea:60:c9"; b "22:0b:8b:ea:60:c9"] |};
                 {| pe_mac := b "1c:0b:8b:ea:60:c8"; pe_bssids := [] |}];
     s_target := b "br0"; s_management_vlan := 1; s_mode := Forward; s_limits := {| packets_per_second := 20 |};
     s_tap := b "rrb0"; s_pref := 49152 |}.

Definition test_built : Filter :=
  match settings_filter test_cenv test_settings with Ok f => f | Err _ => Filter_default end.

Example test_load : load test_cenv (b "config.yaml") = Ok test_settings.
Proof. vm_compute. reflexivity. Qed.

Example test_settings_filter : settings_filter test_cenv test_settings = Ok test_built.
Proof. vm_compute. reflexivity. Qed.

Example test_rejects_bad_shape :
  (is_ok (validate (IoError := unit) {| s_sources := []; s_aps := s_aps test_settings; s_peers := []; s_target := b "br0";
     s_management_vlan := 1; s_mode := Forward; s_limits := Limits_default; s_tap := b "rrb0"; s_pref := 1 |}),
   is_ok (validate (IoError := unit) {| s_sources := [b "eth1"; b "eth1"]; s_aps := s_aps test_settings; s_peers := []; s_target := b "br0";
     s_management_vlan := 1; s_mode := Forward; s_limits := Limits_default; s_tap := b "rrb0"; s_pref := 1 |}))
  = (false, false).
Proof. vm_compute. reflexivity. Qed.

Lemma test_typed : Settings_typed test_settings.
Proof. unfold Settings_typed, is_u16. cbn. lia. Qed.

Lemma test_valid : settings_valid test_settings.
Proof. apply (validate_Ok (IoError := unit)). vm_compute. reflexivity. Qed.

Lemma test_built_wf : Filter_wf test_built.
Proof.
  apply (settings_filter_assembled test_cenv test_settings test_built test_typed test_valid).
  apply test_settings_filter.
Qed.

(** ** Properties *)

(** The VLAN check is weaker than its message ("must be 1..4094"): settings
    that differ from valid ones only in a VLAN above the 12-bit range are valid. *)
Theorem validate_accepts_large_vlan s vid :
  settings_valid s -> (4094 < vid < 65536)%Z ->
  validate (IoError := unit)
    {| s_sources := s_sources s; s_aps := s_aps s; s_peers := s_peers s; s_target := s_target s;
       s_management_vlan := vid; s_mode := s_mode s; s_limits := s_limits s; s_tap := s_tap s;
       s_pref := s_pref s |} = Ok tt.
Proof.
  intros (H1 & H2 & H3 & H4 & H5 & H6 & H7) Hvid. apply validate_Ok. split_and!; cbn; try done; try lia; apply H2.
Qed.

Lemma validate_accepts_large_vlan_witness :
  validate (IoError := unit)
    {| s_sources := s_sources test_settings; s_aps := s_aps test_settings; s_peers := s_peers test_settings;
       s_target := s_target test_settings; s_management_vlan := 5000; s_mode := s_mode test_settings;
       s_limits := s_limits test_settings; s_tap := s_tap test_settings; s_pref := s_pref test_settings |} = Ok tt.
Proof. apply (validate_accepts_large_vlan test_settings); [apply test_valid|lia]. Defined.

(** C36. The discovery retry returns the answer of the first successful attempt
    among thirty, and otherwise the error of the last one; it never reaches its
    [expect]. *)
Theorem retry_returns_first_success {IoError : Type} (env : Env IoError) res :
  bssids_with_retry env = res ->
  match res with
  | Ok v => exists k, k < RETRIES /\ bssids_ (hostapd_at env k) = Ok v /\
              forall j, j < k -> exists e, bssids_ (hostapd_at env j) = Err e
  | Err err => (exists e, err = Discover e /\ bssids_ (hostapd_at env (RETRIES - 1)) = Err e) /\
              forall j, j < RETRIES -> exists e, bssids_ (hostapd_at env j) = Err e
  end.
Proof.
  unfold bssids_with_retry. intros Hr. destruct res as [v|err].
  - apply retry_Ok in Hr as (k & Hk & Hv & Hbefore). exists k. split_and!; [lia|done|].
    intros j Hj. apply Hbefore. lia.
  - apply retry_Err in Hr as (e & -> & Hlast & Hall); [|unfold RETRIES; lia]. split; [by exists e|].
    intros j Hj. apply Hall. lia.
Qed.

Lemma retry_returns_first_success_witness :
  exists k, k < RETRIES /\ bssids_ (hostapd_at test_cenv k) =
    Ok (map (fun l => bytes_of l) [[0x1c; 0x0b; 0x8b; 0xea; 0x60; 0xc9]; [0x22; 0x0b; 0x8b; 0xea; 0x60; 0xc9]]%Z) /\
    forall j, j < k -> exists e, bssids_ (hostapd_at test_cenv j) = Err e.
Proof.
  apply (retry_returns_first_success test_cenv
    (Ok (map (fun l => bytes_of l) [[0x1c; 0x0b; 0x8b; 0xea; 0x60; 0xc9]; [0x22; 0x0b; 0x8b; 0xea; 0x60; 0xc9]]%Z))).
  vm_compute. reflexivity.
Defined.

(** C11. The assembled filter is the configuration: well formed, with one entry
    per AP (its sysfs BSSID and R0KH-ID) and per peer (its address and the one to
    eight distinct BSSIDs it may claim), no broadcast address anywhere and no two
    entries with the same address. *)
Theorem filter_is_assembled {IoError : Type} (env : Env IoError) s f :
  Settings_typed s -> validate (IoError := IoError) s = Ok tt -> settings_filter env s = Ok f -> assembled env s f.
Proof. intros Ht Hv%validate_Ok. by apply settings_filter_assembled. Qed.

Lemma filter_is_assembled_witness : assembled test_cenv test_settings test_built.
Proof. apply filter_is_assembled; [apply test_typed|vm_compute; reflexivity|vm_compute; reflexivity]. Defined.

(** Filter assembly indexes its fixed arrays safely: on validated settings
    it returns a filter or a reported error, never an out-of-bounds panic. *)
Theorem filter_never_panics {IoError : Type} (env : Env IoError) s :
  validate (IoError := IoError) s = Ok tt -> settings_filter env s <> Err Panic.
Proof. intros Hv%validate_Ok Hp. by apply (settings_filter_no_panic env s Panic Hv Hp). Qed.

Lemma filter_never_panics_witness : settings_filter test_cenv test_settings <> Err Panic.
Proof. apply filter_never_panics. vm_compute. reflexivity. Defined.

(** C37. Round trip with sysfs: an address printed by the kernel (lowercase,
    newline-terminated) is read back exactly. *)
Theorem sysfs_mac_roundtrip {IoError : Type} (env : Env IoError) name m :
  length m = 6 -> read_to_string env (address_path name) = Ok (mac_string m ++ [LF]) -> sysfs_mac env name = Ok m.
Proof.
  intros Hl Ha. unfold sysfs_mac, config_mac. rewrite Ha, trim_mac_line by done.
  by rewrite mac_print.
Qed.

Lemma sysfs_mac_roundtrip_witness : sysfs_mac test_cenv (b "br0") = Ok (bytes_of [2; 0; 0; 0; 0; 1]%Z).
Proof. apply sysfs_mac_roundtrip; [reflexivity|vm_compute; reflexivity]. Defined.

Lemma accepted_from_peer {IoError : Type} (env : Env IoError) s f (fr : list byte) v m :
  Settings_typed s -> validate (IoError := IoError) s = Ok tt -> settings_filter env s = Ok f ->
  s_peers s <> [] -> classify fr v f = Ok m ->
  exists i p bs, s_peers s !! i = Some p /\ mac (pe_mac p) = Ok (slice 6 12 fr) /\
    claims env p bs /\ frame_source fr v ∈ bs.
Proof.
  intros Ht Hv%validate_Ok Hf Hne Hok.
  destruct (settings_filter_assembled env s f Ht Hv Hf) as (Hwf & _ & _ & _ & Hpc & _ & Hpl & _ & Hpn & Hfor & _).
  apply classify_ok_stages in Hok as [_ Hall]; [|done]. unfold stages in Hall.
  do 5 apply Forall_cons in Hall as [_ Hall]. apply Forall_cons in Hall as [Hsend _]. cbn [snd] in Hsend.
  assert (length (s_peers s) <> 0) by (by destruct (s_peers s)).
  destruct Hsend as [Hz|(i & (Hi & Hic & Hmac) & _ & Hbss)]; [lia|].
  rewrite Hpc, Nat2Z.id in Hic. destruct (lookup_lt_is_Some_2 _ _ Hic) as [p Hp].
  destruct (Hfor i p Hic Hp) as (Hpm & _ & bs & Hcl & Hlen & Hcount & Htake & _ & _).
  exists i, p, bs. split_and!; [done|by rewrite Hpm, Hmac|done|].
  destruct Hbss as [Hz|(j & _ & Hj & Hb)]; [lia|]. rewrite Hcount, Nat2Z.id in Hj.
  rewrite <- Htake, <- Hb. apply list_elem_of_lookup. exists j.
  rewrite lookup_take_lt by lia. apply list_lookup_lookup_total_lt.
  destruct (Filter_wf_peer f i Hwf Hi) as (_ & _ & Hbl & _). unfold MAX_PEER_BSSIDS in *. lia.
Qed.

(** End to end, who may be relayed: when peers are configured, an accepted
    frame has the Ethernet source of a configured peer and claims one of the
    BSSIDs that this peer's entry stands for. *)
Theorem only_configured_peers_accepted {IoError : Type} (env : Env IoError) s f (fr : list byte) v m :
  Settings_typed s -> validate (IoError := IoError) s = Ok tt -> settings_filter env s = Ok f ->
  s_peers s <> [] -> classify fr v f = Ok m ->
  exists i p bs, s_peers s !! i = Some p /\ mac (pe_mac p) = Ok (slice 6 12 fr) /\
    claims env p bs /\ frame_source fr v ∈ bs.
Proof. apply accepted_from_peer. Qed.

(** A frame from the first configured peer to the local AP. *)
Definition test_peer_frame : list byte :=
  bytes_of [2; 0; 0; 0; 0; 1; 0x1c; 0x0b; 0x8b; 0xea; 0x60; 0xc9; 0x81; 0; 0; 1; 0x88; 0xb7; 0; 0x13; 0x74; 0; 1; 3;
            0x22; 0x0b; 0x8b; 0xea; 0x60; 0xc9; 0x22; 0x0b; 0x8b; 0xea; 0x60; 0xc9; 0; 0]%Z ++ replicate 16 Byte.x00.

Lemma only_configured_peers_accepted_witness :
  exists i p bs, s_peers test_settings !! i = Some p /\ mac (pe_mac p) = Ok (slice 6 12 test_peer_frame) /\
    claims test_cenv p bs /\ frame_source test_peer_frame Vlan_default ∈ bs.
Proof.
  apply (only_configured_peers_accepted test_cenv test_settings test_built _ _ (mkMatch 3 18));
    [apply test_typed|vm_compute; reflexivity|vm_compute; reflexivity|discriminate|vm_compute; reflexivity].
Defined.

Lemma accepted_for_local {IoError : Type} (env : Env IoError) s f (fr : list byte) v m :
  Settings_typed s -> validate (IoError := IoError) s = Ok tt -> settings_filter env s = Ok f ->
  classify fr v f = Ok m ->
  (sysfs_mac env (s_target s) = Ok (slice 0 6 fr) \/ slice 0 6 fr = BROADCAST) /\
  exists i ap bss, s_aps s !! i = Some ap /\ sysfs_mac env (interface ap) = Ok bss /\
    (frame_destination fr v = bss \/
     frame_destination fr v = BROADCAST /\ (kind m = KIND_PULL \/ kind m = KIND_SEQ_REQUEST) /\
     exists ts, tlv_block fr v ts /\ r0kh_of ts = Some (r0kh_text ap bss)).
Proof.
  intros Ht Hv%validate_Ok Hf Hok.
  destruct (settings_filter_assembled env s f Ht Hv Hf) as (Hwf & _ & Htm & Hlc & _ & (Hll & _ & _ & Hfor & _) & _).
  apply classify_ok_stages in Hok as [-> Hall]; [|done]. unfold stages in Hall.
  do 2 apply Forall_cons in Hall as [_ Hall]. apply Forall_cons in Hall as [[Heth _] Hall].
  do 3 apply Forall_cons in Hall as [_ Hall]. apply Forall_cons in Hall as [Hdst Hall].
  do 2 apply Forall_cons in Hall as [_ Hall]. apply Forall_cons in Hall as [Hbc _]. cbn [snd kind] in *.
  split; [destruct Heth as [->|?]; auto|].
  assert (forall i, i < Z.to_nat (local_count f) -> exists ap, s_aps s !! i = Some ap /\ local_for env ap (locals f !!! i)) as Hap.
  { intros i Hi. rewrite Hlc, Nat2Z.id in Hi. destruct (lookup_lt_is_Some_2 _ _ Hi) as [ap Hap]. exists ap. auto. }
  destruct (decide (frame_destination fr v = BROADCAST)) as [Hb|Hb].
  - destruct (Hbc Hb) as (Hk & ts & id & Hts & Hid & _ & i & _ & Hi & Hlen & Htake).
    destruct (Hap i Hi) as (ap & Hap' & Hs & _ & _ & Hrl & Hrt).
    exists i, ap, (local_bssid (locals f !!! i)). split_and!; [done|done|]. right. split_and!; [done|done|].
    exists ts. split; [done|]. rewrite Hid. f_equal. rewrite <- Htake, <- Hrt at 1. f_equal. lia.
  - destruct Hdst as [?|(i & _ & Hi & Hbss)]; [done|]. destruct (Hap i Hi) as (ap & Hap' & Hs & _).
    exists i, ap, (local_bssid (locals f !!! i)). split_and!; [done|done|by left].
Qed.

(** End to end, for whom: an accepted frame is addressed to the target
    bridge (or Ethernet broadcast), and is either for the BSSID of a configured AP
    or a PULL or SEQ_REQUEST that names a configured AP's R0KH-ID. *)
Theorem only_local_destinations_accepted {IoError : Type} (env : Env IoError) s f (fr : list byte) v m :
  Settings_typed s -> validate (IoError := IoError) s = Ok tt -> settings_filter env s = Ok f ->
  classify fr v f = Ok m ->
  (sysfs_mac env (s_target s) = Ok (slice 0 6 fr) \/ slice 0 6 fr = BROADCAST) /\
  exists i ap bss, s_aps s !! i = Some ap /\ sysfs_mac env (interface ap) = Ok bss /\
    (frame_destination fr v = bss \/
     frame_destination fr v = BROADCAST /\ (kind m = KIND_PULL \/ kind m = KIND_SEQ_REQUEST) /\
     exists ts, tlv_block fr v ts /\ r0kh_of ts = Some (r0kh_text ap bss)).
Proof. apply accepted_for_local. Qed.

Lemma only_local_destinations_accepted_witness :
  sysfs_mac test_cenv (s_target test_settings) = Ok (slice 0 6 test_peer_frame) \/ slice 0 6 test_peer_frame = BROADCAST.
Proof.
  apply (only_local_destinations_accepted test_cenv test_settings test_built test_peer_frame Vlan_default (mkMatch 3 18));
    [apply test_typed|vm_compute; reflexivity|vm_compute; reflexivity|vm_compute; reflexivity].
Defined.
