(* ===== verification/Validation.v ===== *)
(** * Which settings are valid

    A specification of [Settings::validate] in [src/src/config.rs] that shares nothing
    with it: how often a name is used, what a name may look like, and which complaint
    a refusal carries. *)

From Stdlib Require Import ZArith Lia Strings.Byte Strings.String.
From stdpp Require Import base list numbers list_numbers sets gmap.
From S2P Require Import Prelude Proto Parse MacText Hostapd Config.
Local Open Scope nat_scope.
Local Open Scope rrb_scope.

(** ASCII letters and digits, and [-], [.], [_]. *)
Definition name_char (x : byte) : Prop :=
  let c := b2z x in
  (48 <= c <= 57 \/ 65 <= c <= 90 \/ 97 <= c <= 122)%Z \/ c = 45%Z \/ c = 46%Z \/ c = 95%Z.

(** A Linux interface name: it fits 16 bytes with its terminator. *)
Definition proper_name (n : str) : Prop := 1 <= length n <= 15 /\ Forall name_char n.

(** How many of the sources, the APs' interfaces, the target and the TAP are called [n]. *)
Definition uses (s : Settings) (n : str) : nat :=
  count_if (fun x => bool_decide (x = n)) (s_sources s) +
  count_if (fun ap => bool_decide (interface ap = n)) (s_aps s) +
  (if decide (s_target s = n) then 1 else 0) + (if decide (s_tap s = n) then 1 else 0).

Record acceptable (s : Settings) : Prop := {
  acc_source : s_sources s <> [];
  acc_aps : 1 <= length (s_aps s) <= 8;
  acc_peers : length (s_peers s) <= 8;
  acc_names : forall n, 0 < uses s n -> proper_name n;
  acc_distinct : forall n, uses s n <= 1;
  acc_vlan : (0 < s_management_vlan s)%Z;
  acc_budget : (0 < packets_per_second (s_limits s))%Z;
}.

(** What a refusal says is wrong, is wrong. *)
Definition justified {IoError : Type} (s : Settings) (e : ConfigError IoError) : Prop :=
  match e with
  | NoSource => s_sources s = []
  | ApCount => s_aps s = [] \/ 8 < length (s_aps s)
  | TooManyPeers => 8 < length (s_peers s)
  | InvalidInterfaceName n => 0 < uses s n /\ ~ proper_name n
  | ListedTwice n => 2 <= uses s n
  | VlanRange => (s_management_vlan s <= 0)%Z
  | PpsZero => (packets_per_second (s_limits s) <= 0)%Z
  | _ => False
  end.

(** ** Lemmas *)

Lemma in_range_spec lo hi x : in_range lo hi x = true <-> (lo <= b2z x <= hi)%Z.
Proof. unfold in_range. rewrite andb_true_iff, !Z.leb_le. done. Qed.

Lemma name_byte_spec x : name_byte x = true <-> name_char x.
Proof.
  unfold name_byte, is_alphanumeric, name_char. rewrite !orb_true_iff, !in_range_spec, bool_decide_eq_true.
  assert (x ∈ b ".-_" <-> b2z x = 45 \/ b2z x = 46 \/ b2z x = 95)%Z as ->; [|tauto].
  change (b ".-_") with [Byte.x2e; Byte.x2d; Byte.x5f]. rewrite !elem_of_cons, elem_of_nil.
  change 45%Z with (b2z Byte.x2d). change 46%Z with (b2z Byte.x2e). change 95%Z with (b2z Byte.x5f).
  split; [intros [->|[->|[->|[]]]]; auto|intros [H|[H|H]]; apply b2z_inj in H; auto].
Qed.

Lemma name_ok_spec n : name_ok n = true <-> proper_name n.
Proof.
  unfold name_ok, proper_name. rewrite !andb_true_iff, negb_true_iff, bool_decide_eq_false, Nat.ltb_lt.
  rewrite forallb_forall, List.Forall_forall. setoid_rewrite <- name_byte_spec.
  assert (n <> [] <-> 1 <= length n) as -> by (destruct n; cbn; split; (done || lia || congruence)).
  intuition lia.
Qed.

Lemma uses_names s n : uses s n = count_if (fun x => bool_decide (x = n)) (interface_names s).
Proof.
  unfold uses, interface_names. rewrite !count_if_app, Nat.add_assoc.
  assert (count_if (fun x => bool_decide (x = n)) (map interface (s_aps s)) =
    count_if (fun ap => bool_decide (interface ap = n)) (s_aps s)) as ->.
  { induction (s_aps s) as [|ap aps IH]; [done|]. cbn [map]. by rewrite !count_if_cons, IH. }
  rewrite !count_if_cons. repeat case_bool_decide; repeat case_decide; try done; change (count_if _ []) with 0; lia.
Qed.

Lemma count_elem n l : 0 < count_if (fun x => bool_decide (x = n)) l <-> n ∈ (l : list str).
Proof.
  induction l as [|x l IH]; [split; [cbn; lia|by intros ?%not_elem_of_nil]|].
  rewrite count_if_cons, elem_of_cons, <- IH. case_bool_decide as Hx.
  - split; [by left|intros _; lia].
  - split; [intros ?; right; lia|intros [?|?]; [congruence|lia]].
Qed.

Lemma count_distinct l : NoDup (l : list str) <-> forall n, count_if (fun x => bool_decide (x = n)) l <= 1.
Proof.
  induction l as [|x l IH]; [split; [cbn; lia|constructor]|]. rewrite NoDup_cons, IH.
  setoid_rewrite count_if_cons. split.
  - intros [Hx Hl] n. case_bool_decide as Hn; [|apply Hl]. subst n. rewrite <- count_elem in Hx. lia.
  - intros Hl. split; [|intros n; specialize (Hl n); lia]. rewrite <- count_elem. specialize (Hl x).
    rewrite bool_decide_true in Hl by done. lia.
Qed.

Lemma acceptable_valid s : settings_valid s <-> acceptable s.
Proof.
  unfold settings_valid. rewrite count_distinct. setoid_rewrite <- uses_names. rewrite Forall_forall.
  setoid_rewrite name_ok_spec. setoid_rewrite <- count_elem. setoid_rewrite <- uses_names. split.
  - by intros (? & ? & ? & ? & ? & ? & ?).
  - by intros [].
Qed.

(** The loop over the names complains about a name it has met. *)
Lemma check_names_Err {IoError : Type} (l : list str) : forall (names : gset str) e,
  try_fold (check_name (IoError := IoError)) names l = Err e ->
  exists n, n ∈ l /\
    ((e = InvalidInterfaceName n /\ ~ proper_name n) \/
     (e = ListedTwice n /\ (n ∈ names \/ 2 <= count_if (fun x => bool_decide (x = n)) l))).
Proof.
  induction l as [|x l IH]; intros names e; cbn [try_fold]; [done|].
  intros [Hx|(names' & Hx & (n & Hn & He)%IH)]%bind_Err; unfold check_name in Hx.
  - exists x. split; [left|]. destruct (name_ok x) eqn:Hok; cbn [ensure mbind result_bind] in Hx.
    + case_bool_decide; cbn in Hx; [|done]. injection Hx as <-. right. split; [done|by left].
    + injection Hx as <-. left. split; [done|]. rewrite <- name_ok_spec. congruence.
  - exists n. split; [by right|]. destruct He as [?|[-> Hd]]; [by left|]. right. split; [done|].
    destruct (name_ok x); [|done]. case_bool_decide as Hin; [done|]. cbn in Hx. injection Hx as <-.
    rewrite count_if_cons. rewrite <- count_elem in Hn. destruct Hd as [[->%elem_of_singleton|?]%elem_of_union|?].
    + right. rewrite bool_decide_true by done. lia.
    + by left.
    + right. lia.
Qed.

Lemma validate_Err {IoError : Type} s e : validate (IoError := IoError) s = Err e -> justified s e.
Proof.
  unfold validate.
  intros [[<- H]%ensure_Err|(_ & _ & H)]%bind_Err; [by apply negb_false_iff, bool_decide_eq_true in H|].
  apply bind_Err in H as [[<- H]%ensure_Err|(_ & _ & H)].
  { rewrite andb_false_iff, !Nat.leb_gt in H. cbn. unfold MAX_LOCALS in H.
    destruct H; [left; by apply nil_length_inv; lia|by right]. }
  apply bind_Err in H as [[<- H]%ensure_Err|(_ & _ & H)]; [by apply Nat.leb_gt in H|].
  apply bind_Err in H as [(n & Hn & He)%check_names_Err|(_ & _ & H)].
  { rewrite <- count_elem, <- uses_names in Hn. rewrite <- uses_names in He.
    destruct He as [[-> Hp]|[-> [?|?]]]; cbn; [done|set_solver|done]. }
  apply bind_Err in H as [[<- H]%ensure_Err|(_ & _ & [<- H]%ensure_Err)]; by apply Z.ltb_ge in H.
Qed.

(** C35. Validation is total and exact: it accepts a settings file exactly when it names a
    source, one to eight APs and at most eight peers, when every name of a source, an
    AP, the target and the TAP is a proper interface name and none is used twice, and
    when the VLAN and the budget are positive (no upper bound of the VLAN is checked);
    and when it refuses, the complaint it returns is true of the file. *)
Theorem validate_spec {IoError : Type} s :
  match validate (IoError := IoError) s with
  | Ok _ => acceptable s
  | Err e => ~ acceptable s /\ justified s e
  end.
Proof.
  destruct (validate s) as [[]|e] eqn:Hv.
  - by apply acceptable_valid, (validate_Ok (IoError := IoError)).
  - split; [|by apply validate_Err]. rewrite <- acceptable_valid, <- (validate_Ok (IoError := IoError)). congruence.
Qed.

(** The settings of [Config], and the same with the TAP named like a source. *)
Lemma validate_spec_witness :
  acceptable test_settings /\
  2 <= uses {| s_sources := [b "eth1"; b "eth2"]; s_aps := s_aps test_settings; s_peers := []; s_target := b "br0";
               s_management_vlan := 1; s_mode := Forward; s_limits := Limits_default; s_tap := b "eth1"; s_pref := 1 |}
    (b "eth1").
Proof.
  split; [exact (validate_spec (IoError := unit) test_settings)|].
  exact (proj2 (validate_spec (IoError := unit)
    {| s_sources := [b "eth1"; b "eth2"]; s_aps := s_aps test_settings; s_peers := []; s_target := b "br0";
       s_management_vlan := 1; s_mode := Forward; s_limits := Limits_default; s_tap := b "eth1"; s_pref := 1 |})).
Defined.
