(* ===== verification/Packet.v ===== *)
(** * Passive capture: [src/src/packet.rs]

    The classic BPF program, the VLAN metadata of a received frame, the receive
    loop that skips this host's own transmissions, and the configuration of the
    packet socket.  The kernel is a parameter: the BPF machine through the class
    [Cbpf] and its laws, received messages and system-call results as inputs. *)

From Stdlib Require Import ZArith Lia Strings.Byte Strings.String.
From stdpp Require Import base list numbers list_numbers sets.
From S2P Require Import Prelude Proto Parse Wire Verdict Relay MacText.
Local Open Scope nat_scope.
Local Open Scope rrb_scope.

Definition BPF_LD_H_ABS : Z := 0x28.
Definition BPF_JEQ_K : Z := 0x15.
Definition BPF_RET_K : Z := 0x06.

Record SockFilter := mkSF {
  code : Z;
  jt : nat;
  jf : nat;
  k : Z;
}.

Definition SOCKET_FILTER : list SockFilter :=
  [ {| code := BPF_LD_H_ABS; jt := 0; jf := 0; k := 12 |};
    {| code := BPF_JEQ_K; jt := 0; jf := 2; k := 0x8100 |};
    {| code := BPF_LD_H_ABS; jt := 0; jf := 0; k := 16 |};
    {| code := BPF_JEQ_K; jt := 1; jf := 2; k := 0x88b7 |};
    {| code := BPF_JEQ_K; jt := 0; jf := 1; k := 0x88b7 |};
    {| code := BPF_RET_K; jt := 0; jf := 0; k := 0xffff |};
    {| code := BPF_RET_K; jt := 0; jf := 0; k := 0 |} ].

(** [struct sock_fprog]: the length and the instructions it points to. *)
Record SockFprog := mkFprog {
  fprog_len : Z;
  fprog_filter : list SockFilter;
}.

(** [SOCKET_FILTER.len() as u16]. *)
Definition socket_fprog : SockFprog :=
  {| fprog_len := Z.of_nat (List.length SOCKET_FILTER) mod 65536; fprog_filter := SOCKET_FILTER |}.

(** ** The kernel's filter machine *)

(** [bpf_run prog pkt pc a] is the number of bytes kept when [prog] runs on [pkt]
    from instruction [pc] with accumulator [a]; 0 drops the packet. *)
Class Cbpf := bpf_run : list SockFilter -> list byte -> nat -> Z -> Z.

(** The documented meaning of the three instructions that the program uses. *)
Class CbpfOk `{Cbpf} : Prop := {
  bpf_load prog pkt pc a jt jf k :
    prog !! pc = Some (mkSF BPF_LD_H_ABS jt jf k) -> Z.to_nat k + 2 <= length pkt ->
    bpf_run prog pkt pc a =
      bpf_run prog pkt (pc + 1) (u16_from_be_bytes (pkt !!! Z.to_nat k) (pkt !!! (Z.to_nat k + 1)));
  bpf_load_outside prog pkt pc a jt jf k :
    prog !! pc = Some (mkSF BPF_LD_H_ABS jt jf k) -> length pkt < Z.to_nat k + 2 ->
    bpf_run prog pkt pc a = 0%Z;
  bpf_jump prog pkt pc a jt jf k :
    prog !! pc = Some (mkSF BPF_JEQ_K jt jf k) ->
    bpf_run prog pkt pc a = bpf_run prog pkt (pc + 1 + if (a =? k)%Z then jt else jf) a;
  bpf_ret prog pkt pc a jt jf k :
    prog !! pc = Some (mkSF BPF_RET_K jt jf k) -> bpf_run prog pkt pc a = k;
}.

(** A machine with these laws.  Jumps go forward, so the distance to the end of
    the program bounds the run; an unknown instruction or a jump outside drops. *)
Fixpoint interp (prog : list SockFilter) (pkt : list byte) (fuel pc : nat) (a : Z) : Z :=
  match fuel with
  | 0 => 0
  | S fuel' =>
      match prog !! pc with
      | None => 0
      | Some i =>
          if (code i =? BPF_LD_H_ABS)%Z then
            if Z.to_nat (k i) + 2 <=? length pkt
            then interp prog pkt fuel' (pc + 1)
                   (u16_from_be_bytes (pkt !!! Z.to_nat (k i)) (pkt !!! (Z.to_nat (k i) + 1)))
            else 0
          else if (code i =? BPF_JEQ_K)%Z then
            interp prog pkt fuel' (pc + 1 + if (a =? k i)%Z then jt i else jf i) a
          else if (code i =? BPF_RET_K)%Z then k i
          else 0
      end
  end.

Definition interp_machine : Cbpf := fun prog pkt pc a => interp prog pkt (length prog - pc) pc a.

(** ** Receive metadata *)

Definition TP_STATUS_VLAN_VALID : Z := Z.shiftl 1 4.
Definition TP_STATUS_VLAN_TPID_VALID : Z := Z.shiftl 1 6.
Definition PACKET_OUTGOING : Z := 4.
Definition SOL_PACKET : Z := 263.
Definition PACKET_AUXDATA : Z := 8.

Record TpacketAuxdata := mkAux {
  status : Z;
  aux_len : Z;
  snaplen : Z;
  aux_mac : Z;
  net : Z;
  vlan_tci : Z;
  vlan_tpid : Z;
}.

Record Cmsg := mkCmsg {
  cmsg_level : Z;
  cmsg_type : Z;
  cmsg_data : TpacketAuxdata;
}.

(** What the kernel holds for one [recvmsg]: the packet as the filter kept it, the
    packet type of the sender address, and the control messages. *)
Record KernelMsg := mkMsg {
  packet : list byte;
  sll_pkttype : Z;
  control : list Cmsg;
}.

(** One turn of the control-message loop. *)
Definition vlan_step (vlan : Vlan) (c : Cmsg) : Vlan :=
  if (cmsg_level c =? SOL_PACKET)%Z && (cmsg_type c =? PACKET_AUXDATA)%Z then
    let aux := cmsg_data c in
    if negb (Z.land (status aux) TP_STATUS_VLAN_VALID =? 0)%Z then
      {| present := true;
         tci := vlan_tci aux;
         proto := if negb (Z.land (status aux) TP_STATUS_VLAN_TPID_VALID =? 0)%Z
                  then vlan_tpid aux else TPID_8021Q |}
    else vlan
  else vlan.

(** The bytes of the packet that fit the buffer; the rest is discarded. *)
Definition stored_in (buf : list byte) (msg : KernelMsg) : list byte := take (length buf) (packet msg).

(** [recvmsg]: [None] is a frame to skip.  The buffer is overwritten either way. *)
Definition recvmsg {IoError : Type} (buf : list byte) (outcome : result IoError KernelMsg)
    : result IoError (option (nat * Vlan)) * list byte :=
  match outcome with
  | Err e => (Err e, buf)
  | Ok msg =>
      let data := stored_in buf msg in
      let buf' := data ++ drop (length data) buf in
      if (sll_pkttype msg =? PACKET_OUTGOING)%Z then (Ok None, buf')
      else (Ok (Some (length data, fold_left vlan_step (control msg) Vlan_default)), buf')
  end.

(** What one turn of the readiness loop can see. *)
Inductive Poll (IoError : Type) : Type :=
| NotReadable (e : IoError)
| WouldBlock
| Ready (outcome : result IoError KernelMsg).
Arguments NotReadable {IoError} e.
Arguments WouldBlock {IoError}.
Arguments Ready {IoError} outcome.

(** [PacketSocket::recv]: consumes polls until a frame or an error; [None] when it
    is still waiting at the end of the given events. *)
Fixpoint recv {IoError : Type} (buf : list byte) (polls : list (Poll IoError))
    : option (result IoError (nat * Vlan)) * list byte * list (Poll IoError) :=
  match polls with
  | [] => (None, buf, [])
  | NotReadable e :: rest => (Some (Err e), buf, rest)
  | WouldBlock :: rest => recv buf rest
  | Ready outcome :: rest =>
      match recvmsg buf outcome with
      | (Ok (Some v), buf') => (Some (Ok v), buf', rest)
      | (Ok None, buf') => recv buf' rest
      | (Err e, buf') => (Some (Err e), buf', rest)
      end
  end.

(** ** Socket configuration *)

Definition ETH_P_ALL : Z := 3.

(** [u16::to_be] on a little-endian host. *)
Definition u16_to_be (v : Z) : Z := Z.lor (Z.land (Z.shiftl v 8) 0xffff) (Z.shiftr v 8).

(** [as i32] of a 32-bit value. *)
Definition as_i32 (v : Z) : Z := if (v <? 2 ^ 31)%Z then v else (v - 2 ^ 32)%Z.

Inductive Syscall :=
| IfNameToIndex (name : str)
| Socket (protocol : Z)
| AttachFilter (prog : SockFprog)
| SetPacketAuxdata (value : Z)
| SetPacketIgnoreOutgoing (value : Z)
| Bind (sll_protocol sll_ifindex : Z)
| RegisterFd
| CloseFd.

Inductive OpenError :=
| InteriorNul (name : str)
| InterfaceNotFound (name : str)
| SyscallFailed (call : Syscall).

Record PacketSocket := mkSocket { sock_name : str }.

Section Open.
(** The kernel's answer to a call, given the calls before it. *)
Variable kernel : list Syscall -> Syscall -> Z.

Definition ifindex (name : str) : Sys Syscall OpenError Z :=
  _ ← from_result (ensure (negb (bool_decide (Byte.x00 ∈ name))) (InteriorNul name));
  n ← request kernel (IfNameToIndex name);
  if (n =? 0)%Z then from_result (Err (InterfaceNotFound name)) else mret n.

(** A call that fails on a negative result. *)
Definition checked (call : Syscall) : Sys Syscall OpenError unit :=
  rc ← request kernel call;
  if (rc <? 0)%Z then from_result (Err (SyscallFailed call)) else mret tt.

(** The calls made while the descriptor is owned by [open]. *)
Definition configure (idx : Z) (name : str) : Sys Syscall OpenError PacketSocket :=
  let one := 1%Z in
  _ ← checked (AttachFilter socket_fprog);
  _ ← checked (SetPacketAuxdata one);
  _ ← checked (SetPacketIgnoreOutgoing one);
  _ ← checked (Bind (u16_to_be ETH_P_ALL) (as_i32 idx));
  _ ← checked RegisterFd;
  mret (mkSocket name).

(** [PacketSocket::open]; the descriptor is closed when it is dropped early. *)
Definition open (name : str) : Sys Syscall OpenError PacketSocket :=
  idx ← ifindex name;
  _ ← checked (Socket 0);
  on_error (configure idx name) CloseFd.
End Open.

(** ** The concrete machine satisfies the laws *)

Lemma interp_fuel prog pkt n : forall m pc a,
  n <= m -> length prog - pc <= n -> interp prog pkt m pc a = interp prog pkt n pc a.
Proof.
  induction n as [|n IH]; intros m pc a Hnm Hpc.
  - destruct m as [|m]; [done|]. cbn [interp]. by rewrite lookup_ge_None_2 by lia.
  - destruct m as [|m]; [lia|]. cbn [interp]. destruct (prog !! pc) as [i|]; [|done].
    destruct (code i =? BPF_LD_H_ABS)%Z; [destruct (_ <=? _); [apply IH; lia|done]|].
    destruct (code i =? BPF_JEQ_K)%Z; [apply IH; lia|done].
Qed.

(** One step of the machine at an instruction of the program. *)
Lemma interp_unfold prog pkt pc a i :
  prog !! pc = Some i ->
  bpf_run (Cbpf := interp_machine) prog pkt pc a =
  interp prog pkt (S (length prog - (pc + 1))) pc a.
Proof.
  intros Hi. apply lookup_lt_Some in Hi. unfold bpf_run, interp_machine. f_equal. lia.
Qed.

#[export] Instance interp_machine_ok : CbpfOk (H := interp_machine).
Proof.
  split; intros prog pkt pc a jt jf k Hi.
  - intros Hl. rewrite (interp_unfold _ _ _ _ _ Hi). cbn [interp]. rewrite Hi. cbn [Packet.code Packet.k].
    by rewrite (proj2 (Nat.leb_le _ _) Hl).
  - intros Hl. rewrite (interp_unfold _ _ _ _ _ Hi). cbn [interp]. rewrite Hi. cbn [Packet.code Packet.k].
    by rewrite (proj2 (Nat.leb_gt _ _) Hl).
  - rewrite (interp_unfold _ _ _ _ _ Hi). cbn [interp]. rewrite Hi. cbn [Packet.code Packet.k Packet.jt Packet.jf].
    change (BPF_JEQ_K =? BPF_LD_H_ABS)%Z with false. cbn [Z.eqb]. rewrite Z.eqb_refl.
    unfold bpf_run, interp_machine. apply interp_fuel; lia.
  - rewrite (interp_unfold _ _ _ _ _ Hi). cbn [interp]. by rewrite Hi.
Qed.

(** ** What the program keeps *)

Definition be16 (pkt : list byte) (i : nat) : Z := u16_from_be_bytes (pkt !!! i) (pkt !!! (i + 1)).

(** An RRB EtherType, bare or behind one 802.1Q tag. *)
Definition rrb_candidate (pkt : list byte) : bool :=
  (14 <=? length pkt) &&
  (if (be16 pkt 12 =? TPID_8021Q)%Z
   then (18 <=? length pkt) && (be16 pkt 16 =? ETH_P_RRB)%Z
   else (be16 pkt 12 =? ETH_P_RRB)%Z).

Lemma socket_filter_run `{CbpfOk} pkt a :
  bpf_run SOCKET_FILTER pkt 0 a = if rrb_candidate pkt then 0xffff%Z else 0%Z.
Proof.
  unfold rrb_candidate. destruct (Nat.leb_spec 14 (length pkt)) as [H14|H14]; cbn [andb].
  2: { eapply bpf_load_outside; [reflexivity|simpl; lia]. }
  rewrite (bpf_load SOCKET_FILTER pkt 0 a 0 0 12) by (done || (simpl; lia)).
  change (u16_from_be_bytes _ _) with (be16 pkt 12). cbn [Nat.add].
  rewrite (bpf_jump SOCKET_FILTER pkt 1 _ 0 2 0x8100) by done.
  change 0x8100%Z with TPID_8021Q. destruct (Z.eqb_spec (be16 pkt 12) TPID_8021Q) as [_|_]; cbn [Nat.add].
  - destruct (Nat.leb_spec 18 (length pkt)) as [H18|H18]; cbn [andb].
    2: { eapply bpf_load_outside; [reflexivity|simpl; lia]. }
    rewrite (bpf_load SOCKET_FILTER pkt 2 _ 0 0 16) by (done || (simpl; lia)).
    change (u16_from_be_bytes _ _) with (be16 pkt 16). cbn [Nat.add].
    rewrite (bpf_jump SOCKET_FILTER pkt 3 _ 1 2 0x88b7) by done.
    change 0x88b7%Z with ETH_P_RRB. destruct (be16 pkt 16 =? ETH_P_RRB)%Z; cbn [Nat.add].
    + by eapply bpf_ret.
    + by eapply bpf_ret.
  - rewrite (bpf_jump SOCKET_FILTER pkt 4 _ 0 1 0x88b7) by done.
    change 0x88b7%Z with ETH_P_RRB. destruct (be16 pkt 12 =? ETH_P_RRB)%Z; cbn [Nat.add].
    + by eapply bpf_ret.
    + by eapply bpf_ret.
Qed.

Lemma be16_slice (pkt : list byte) i j z :
  is_u16 z -> j = i + 2 -> j <= length pkt -> slice i j pkt = u16_to_be_bytes z -> be16 pkt i = z.
Proof.
  intros Hz -> Hl Hs. unfold be16. eapply u16_be_roundtrip; [done|]. rewrite <- Hs.
  apply (list_eq_same_length _ _ 2); [done|rewrite length_slice; lia|].
  intros [|[|n]] x y Hn; [| |lia]; rewrite lookup_slice by lia; cbn [lookup list_lookup]; intros Hx [= <-];
    rewrite list_lookup_total_alt; replace (i + 0) with i in Hx by lia; by rewrite Hx.
Qed.

Lemma classify_candidate (fr : list byte) v f m :
  Filter_wf f -> classify fr v f = Ok m -> rrb_candidate fr = true.
Proof.
  intros Hf (Hb & _ & _ & tag & Hv & Hu & Hbody & Hlen & Hs)%classify_ok_geometry; [|done].
  unfold rrb_candidate. cbn [rf_bytes slice_ReadFrameOk] in *. unfold RRB_HEADER_LEN in Hb.
  destruct tag as [t|]; cbn [encode_tag] in Hs, Hbody.
  - change (body_of v = 18) in Hbody. rewrite Hbody in *. rewrite <- app_assoc in Hs.
    pose proof (slice_prefix _ 14 _ _ _ _ Hs eq_refl ltac:(lia)) as H12.
    apply (slice_suffix _ 14) in Hs; [|done]. apply (slice_suffix _ 16) in Hs; [|done].
    rewrite (be16_slice fr 12 14 TPID_8021Q), (be16_slice fr 16 18 ETH_P_RRB) by (done || lia).
    rewrite !(proj2 (Nat.leb_le _ _)) by lia. reflexivity.
  - change (body_of v = 14) in Hbody. rewrite Hbody in *.
    rewrite (be16_slice fr 12 14 ETH_P_RRB) by (done || lia).
    rewrite !(proj2 (Nat.leb_le _ _)) by lia. reflexivity.
Qed.

(** ** Metadata and the receive loop *)

Definition vlan_valid (c : Cmsg) : bool :=
  (cmsg_level c =? SOL_PACKET)%Z && (cmsg_type c =? PACKET_AUXDATA)%Z &&
  negb (Z.land (status (cmsg_data c)) TP_STATUS_VLAN_VALID =? 0)%Z.

Definition vlan_of (c : Cmsg) : Vlan :=
  {| present := true; tci := vlan_tci (cmsg_data c);
     proto := if negb (Z.land (status (cmsg_data c)) TP_STATUS_VLAN_TPID_VALID =? 0)%Z
              then vlan_tpid (cmsg_data c) else TPID_8021Q |}.

Lemma vlan_step_case vlan c : vlan_step vlan c = if vlan_valid c then vlan_of c else vlan.
Proof.
  unfold vlan_step, vlan_valid, vlan_of. destruct (_ && _); cbn [andb]; [|done]. by destruct (negb _).
Qed.

Lemma vlan_fold cs : fold_left vlan_step cs Vlan_default =
  match last (List.filter vlan_valid cs) with Some c => vlan_of c | None => Vlan_default end.
Proof.
  induction cs as [|c cs IH] using rev_ind; [done|].
  rewrite fold_left_app, List.filter_app. cbn [fold_left List.filter]. rewrite vlan_step_case.
  destruct (vlan_valid c); [by rewrite last_snoc|]. by rewrite app_nil_r.
Qed.

(** Polls that [recv] passes over. *)
Definition skipped {IoError : Type} (p : Poll IoError) : Prop :=
  match p with
  | WouldBlock => True
  | Ready (Ok msg) => sll_pkttype msg = PACKET_OUTGOING
  | _ => False
  end.

Lemma take_overwrite (data buf : list byte) : take (length data) (data ++ drop (length data) buf) = data.
Proof. apply take_app_length. Qed.

Lemma length_overwrite (data buf : list byte) :
  length data <= length buf -> length (data ++ drop (length data) buf) = length buf.
Proof. intros. rewrite length_app, length_drop. lia. Qed.

(** The buffer keeps its length through every call. *)
Lemma length_stored buf msg : length (stored_in buf msg) <= length buf.
Proof. unfold stored_in. rewrite length_take. lia. Qed.

Lemma stored_in_length buf buf' msg : length buf = length buf' -> stored_in buf msg = stored_in buf' msg.
Proof. unfold stored_in. by intros ->. Qed.

Lemma recv_length {IoError : Type} (polls : list (Poll IoError)) : forall buf r buf' rest,
  recv buf polls = (r, buf', rest) -> length buf' = length buf.
Proof.
  induction polls as [|p polls IH]; intros buf r buf' rest; cbn [recv]; [by intros [= _ <- _]|].
  destruct p as [e| |[msg|e]]; cbn [recvmsg].
  - by intros [= _ <- _].
  - apply IH.
  - pose proof (length_overwrite _ _ (length_stored buf msg)) as Hl. destruct (_ =? _)%Z.
    + by intros ->%IH.
    + by intros [= _ <- _].
  - by intros [= _ <- _].
Qed.

Lemma recv_Ok {IoError : Type} (polls : list (Poll IoError)) : forall buf n vlan buf' rest,
  recv buf polls = (Some (Ok (n, vlan)), buf', rest) ->
  exists pre msg, polls = pre ++ Ready (Ok msg) :: rest /\ Forall skipped pre /\
    sll_pkttype msg <> PACKET_OUTGOING /\ n = length (stored_in buf msg) /\
    take n buf' = stored_in buf msg /\
    vlan = fold_left vlan_step (control msg) Vlan_default.
Proof.
  induction polls as [|p polls IH]; intros buf n vlan buf' rest; cbn [recv]; [done|].
  destruct p as [e| |[msg|e]]; cbn [recvmsg].
  - done.
  - intros (pre & msg & -> & Hpre & Hrest)%IH. exists (WouldBlock :: pre), msg. split; [done|].
    split; [by constructor|done].
  - pose proof (length_overwrite _ _ (length_stored buf msg)) as Hl.
    destruct (Z.eqb_spec (sll_pkttype msg) PACKET_OUTGOING) as [Hout|Hin].
    + intros (pre & msg' & -> & Hpre & Hrest)%IH. exists (Ready (Ok msg) :: pre), msg'. split; [done|].
      rewrite (stored_in_length _ _ _ Hl) in Hrest. split; [by constructor|done].
    + intros [= <- <- <- <-]. exists [], msg. split_and!; try done. apply take_overwrite.
  - done.
Qed.

(** Conversely, the first frame that is not outgoing is returned. *)
Lemma recv_first {IoError : Type} (pre : list (Poll IoError)) msg rest : forall buf,
  Forall skipped pre -> sll_pkttype msg <> PACKET_OUTGOING ->
  exists buf', recv buf (pre ++ Ready (Ok msg) :: rest) =
    (Some (Ok (length (stored_in buf msg), fold_left vlan_step (control msg) Vlan_default)), buf', rest) /\
    take (length (stored_in buf msg)) buf' = stored_in buf msg.
Proof.
  induction pre as [|p pre IH]; intros buf Hpre Hin; cbn [app recv].
  - cbn [recvmsg]. rewrite (proj2 (Z.eqb_neq _ _) Hin). eexists. split; [reflexivity|]. apply take_overwrite.
  - inversion Hpre as [|? ? Hp Hpre']; subst. destruct p as [e| |[msg'|e]]; cbn [skipped] in Hp; try done.
    + by apply IH.
    + cbn [recvmsg]. rewrite (proj2 (Z.eqb_eq _ _) Hp).
      pose proof (length_overwrite _ _ (length_stored buf msg')) as Hl.
      rewrite <- (stored_in_length _ _ msg Hl). by apply IH.
Qed.

(** ** Opening the socket *)

(** Checked calls in sequence. *)
Fixpoint checked_seq {A : Type} (kernel : list Syscall -> Syscall -> Z) (calls : list Syscall) (a : A)
    : Sys Syscall OpenError A :=
  match calls with
  | [] => mret a
  | c :: cs => _ ← checked kernel c; checked_seq kernel cs a
  end.

(** [calls] were made after [tr] and none of them failed. *)
Definition all_succeed (kernel : list Syscall -> Syscall -> Z) (tr calls : list Syscall) : Prop :=
  forall i c, calls !! i = Some c -> (0 <= kernel (tr ++ take i calls) c)%Z.

Lemma all_succeed_nil kernel tr : all_succeed kernel tr [].
Proof. by intros i c. Qed.

Lemma all_succeed_cons kernel tr c cs :
  (0 <= kernel tr c)%Z -> all_succeed kernel (tr ++ [c]) cs -> all_succeed kernel tr (c :: cs).
Proof.
  intros Hc Hcs [|i] c' Hi; cbn [lookup list_lookup take] in *.
  - rewrite app_nil_r. by injection Hi as <-.
  - specialize (Hcs i c' Hi). by rewrite <- app_assoc in Hcs.
Qed.

(** A sequence of checked calls makes all of them, or stops at the first failure. *)
Lemma checked_seq_spec {A : Type} kernel calls (a : A) : forall tr r tr',
  checked_seq kernel calls a tr = (r, tr') ->
  (r = Ok a /\ tr' = tr ++ calls /\ all_succeed kernel tr calls) \/
  (exists pre c post, calls = pre ++ c :: post /\ r = Err (SyscallFailed c) /\ tr' = tr ++ pre ++ [c] /\
     all_succeed kernel tr pre /\ (kernel (tr ++ pre) c < 0)%Z).
Proof.
  induction calls as [|c cs IH]; intros tr r tr'; cbn [checked_seq].
  - intros [= <- <-]. left. rewrite app_nil_r. split_and!; [done..|apply all_succeed_nil].
  - unfold mbind, Sys_bind, checked, mbind, Sys_bind, request. destruct (Z.ltb_spec (kernel tr c) 0) as [Hc|Hc].
    + intros [= <- <-]. right. exists [], c, cs. rewrite app_nil_r. split_and!; [done..|apply all_succeed_nil|done].
    + cbn [mret Sys_ret]. intros [(-> & -> & Hs)|(pre & c' & post & -> & -> & -> & Hs & Hneg)]%IH; [left|right].
      * rewrite <- app_assoc. split_and!; [done..|by apply all_succeed_cons].
      * exists (c :: pre), c', post. rewrite <- !app_assoc in *. split_and!; [done..|by apply all_succeed_cons|done].
Qed.

Definition setup_calls (idx : Z) : list Syscall :=
  [AttachFilter socket_fprog; SetPacketAuxdata 1; SetPacketIgnoreOutgoing 1; Bind 0x0300 (as_i32 idx); RegisterFd].

Lemma configure_seq kernel idx name : configure kernel idx name = checked_seq kernel (setup_calls idx) (mkSocket name).
Proof. reflexivity. Qed.

(** How a run of [open] ends: everything done in order; or the first failing call
    is the last one, followed by the close of the descriptor if there was one. *)
Inductive open_outcome (kernel : list Syscall -> Syscall -> Z) (name : str)
    : result OpenError PacketSocket -> list Syscall -> Prop :=
| open_nul :
    Byte.x00 ∈ name -> open_outcome kernel name (Err (InteriorNul name)) []
| open_no_interface :
    Byte.x00 ∉ name -> kernel [] (IfNameToIndex name) = 0%Z ->
    open_outcome kernel name (Err (InterfaceNotFound name)) [IfNameToIndex name]
| open_no_socket :
    Byte.x00 ∉ name -> kernel [] (IfNameToIndex name) <> 0%Z ->
    (kernel [IfNameToIndex name] (Socket 0) < 0)%Z ->
    open_outcome kernel name (Err (SyscallFailed (Socket 0))) [IfNameToIndex name; Socket 0]
| open_setup_failed idx pre c post :
    Byte.x00 ∉ name -> idx = kernel [] (IfNameToIndex name) -> idx <> 0%Z ->
    setup_calls idx = pre ++ c :: post ->
    all_succeed kernel [IfNameToIndex name] (Socket 0 :: pre) ->
    (kernel ([IfNameToIndex name; Socket 0] ++ pre) c < 0)%Z ->
    open_outcome kernel name (Err (SyscallFailed c)) ([IfNameToIndex name; Socket 0] ++ pre ++ [c; CloseFd])
| open_ready idx :
    Byte.x00 ∉ name -> idx = kernel [] (IfNameToIndex name) -> idx <> 0%Z ->
    all_succeed kernel [IfNameToIndex name] (Socket 0 :: setup_calls idx) ->
    open_outcome kernel name (Ok (mkSocket name)) ([IfNameToIndex name; Socket 0] ++ setup_calls idx).

Lemma open_ends kernel name r tr : open kernel name [] = (r, tr) -> open_outcome kernel name r tr.
Proof.
  unfold open, ifindex, mbind, Sys_bind, from_result, request. case_bool_decide as Hnul; cbn [negb ensure].
  { intros [= <- <-]. by apply open_nul. }
  destruct (Z.eqb_spec (kernel [] (IfNameToIndex name)) 0) as [Hz|Hz].
  { intros [= <- <-]. by apply open_no_interface. }
  unfold mret, Sys_ret, checked, mbind, Sys_bind, request. cbn [app].
  destruct (Z.ltb_spec (kernel [IfNameToIndex name] (Socket 0)) 0) as [Hs|Hs].
  { intros [= <- <-]. by apply open_no_socket. }
  unfold mret, Sys_ret, on_error. rewrite configure_seq. cbn [app].
  destruct (checked_seq _ _ _ _) as [r' tr'] eqn:Hc.
  apply checked_seq_spec in Hc as [(-> & -> & Ha)|(pre & c & post & Hsplit & -> & -> & Ha & Hneg)].
  - intros [= <- <-]. apply open_ready; try done. by apply all_succeed_cons.
  - intros [= <- <-]. rewrite <- !app_assoc. eapply open_setup_failed; try done. by apply all_succeed_cons.
Qed.

(** ** Claims *)

(** C21. The socket filter keeps exactly the packets whose EtherType is RRB, bare or
    behind one 802.1Q tag, on every machine with the documented instruction
    semantics; everything else, short packets included, is dropped. *)
Theorem socket_filter_keeps_candidates `{CbpfOk} (pkt : list byte) (a : Z) :
  bpf_run SOCKET_FILTER pkt 0 a = if rrb_candidate pkt then 0xffff%Z else 0%Z.
Proof. apply socket_filter_run. Qed.

Lemma socket_filter_keeps_candidates_witness :
  bpf_run (Cbpf := interp_machine) SOCKET_FILTER (test_frame 3 false (encode_tlv test_local_tlv)) 0 0 = 0xffff%Z /\
  bpf_run (Cbpf := interp_machine) SOCKET_FILTER (bytes_of [0; 1; 2; 3; 4; 5; 6; 7; 8; 9; 10; 11; 0x08; 0x00; 0; 0]%Z) 0 0 = 0%Z.
Proof.
  split.
  - rewrite (socket_filter_keeps_candidates (H := interp_machine)). reflexivity.
  - rewrite (socket_filter_keeps_candidates (H := interp_machine)). reflexivity.
Defined.

Lemma rrb_candidate_take n pkt : 18 <= n -> rrb_candidate (take n pkt) = true -> rrb_candidate pkt = true.
Proof.
  intros Hn. unfold rrb_candidate, be16. rewrite length_take, !lookup_total_take_lt by lia.
  intros [H14 Hty]%andb_true_iff. apply Nat.leb_le in H14.
  rewrite (proj2 (Nat.leb_le 14 (length pkt))) by lia. cbn [andb].
  revert Hty. destruct (_ =? TPID_8021Q)%Z; [intros Hty|done]. apply andb_true_iff in Hty as [H18 ->]. apply Nat.leb_le in H18.
  rewrite (proj2 (Nat.leb_le 18 (length pkt))) by lia. reflexivity.
Qed.

(** C22. The kernel filter never costs a frame: when the classifier would accept what
    the capture buffer holds of a packet, the filter keeps the packet and the buffer
    receives the same bytes with the filter in place as without it. *)
Theorem socket_filter_loses_nothing `{CbpfOk} (pkt buf : list byte) (vlan : Vlan) (f : Filter) (m : Match) ty cs :
  Filter_wf f -> length buf = MAX_FRAME -> classify (take MAX_FRAME pkt) vlan f = Ok m ->
  let kept := take (Z.to_nat (bpf_run SOCKET_FILTER pkt 0 0)) pkt in
  stored_in buf (mkMsg kept ty cs) = take MAX_FRAME pkt.
Proof.
  intros Hf Hbuf Hc%classify_candidate%rrb_candidate_take; [|unfold MAX_FRAME; lia|done].
  cbn zeta. rewrite socket_filter_run, Hc. unfold stored_in. rewrite Hbuf. cbn [packet].
  rewrite take_take. f_equal.
Qed.

Lemma socket_filter_loses_nothing_witness :
  let pkt := test_frame 3 false (encode_tlv test_local_tlv) in
  stored_in (replicate MAX_FRAME Byte.x00)
    (mkMsg (take (Z.to_nat (bpf_run (Cbpf := interp_machine) SOCKET_FILTER pkt 0 0)) pkt) 0 []) = take MAX_FRAME pkt.
Proof.
  apply (socket_filter_loses_nothing (H := interp_machine) _ _ Vlan_default test_filter (mkMatch 3 18)).
  - apply test_filter_wf.
  - apply length_replicate.
  - vm_compute. reflexivity.
Defined.

(** C23. [recv] returns the first packet that this host did not send itself, and
    nothing else: the polls before it were spurious wake-ups or outgoing packets,
    the first [n] bytes of the buffer are the packet cut to the buffer (no byte of
    an earlier frame remains among them), and the VLAN view is that of the last
    control message with a valid tag, whose TPID defaults to 802.1Q. *)
Theorem recv_returns_first_incoming {IoError : Type} (polls rest : list (Poll IoError)) buf buf' n vlan :
  recv buf polls = (Some (Ok (n, vlan)), buf', rest) ->
  exists pre msg, polls = pre ++ Ready (Ok msg) :: rest /\ Forall skipped pre /\
    sll_pkttype msg <> PACKET_OUTGOING /\
    length buf' = length buf /\ n = Nat.min (length buf) (length (packet msg)) /\
    take n buf' = take (length buf) (packet msg) /\
    vlan = match last (List.filter vlan_valid (control msg)) with
           | Some c => vlan_of c
           | None => Vlan_default
           end.
Proof.
  intros Hr. pose proof (recv_length _ _ _ _ _ Hr) as Hl.
  apply recv_Ok in Hr as (pre & msg & -> & Hpre & Hin & -> & Ht & ->). exists pre, msg.
  rewrite vlan_fold. split_and!; try done. unfold stored_in. apply length_take.
Qed.

Definition test_cmsg (st tpid : Z) : Cmsg :=
  mkCmsg SOL_PACKET PACKET_AUXDATA (mkAux st 60 60 0 14 1 tpid).

Definition test_polls : list (Poll unit) :=
  [WouldBlock; Ready (Ok (mkMsg [Byte.x01] PACKET_OUTGOING [])); WouldBlock;
   Ready (Ok (mkMsg (bytes_of [7; 8; 9]%Z) 0 [test_cmsg 0x10 0; test_cmsg 0x01 0x88a8])); WouldBlock].

Lemma recv_returns_first_incoming_witness :
  exists pre msg, test_polls = pre ++ Ready (Ok msg) :: [WouldBlock] /\ Forall skipped pre /\
    sll_pkttype msg <> PACKET_OUTGOING /\
    length (bytes_of [7; 8]%Z) = length (replicate 2 Byte.x00) /\
    2 = Nat.min (length (replicate 2 Byte.x00)) (length (packet msg)) /\
    take 2 (bytes_of [7; 8]%Z) = take (length (replicate 2 Byte.x00)) (packet msg) /\
    mkVlan true TPID_8021Q 1 = match last (List.filter vlan_valid (control msg)) with
                               | Some c => vlan_of c
                               | None => Vlan_default
                               end.
Proof. apply recv_returns_first_incoming. vm_compute. reflexivity. Defined.


(** Where the calls of the full sequence can occur. *)
Lemma bind_position idx name k tail pre p i post :
  take k (IfNameToIndex name :: Socket 0 :: setup_calls idx) ++ tail = pre ++ Bind p i :: post ->
  Bind p i ∉ tail ->
  pre = [IfNameToIndex name; Socket 0; AttachFilter socket_fprog; SetPacketAuxdata 1; SetPacketIgnoreOutgoing 1].
Proof.
  set (calls := IfNameToIndex name :: _). intros H Ht.
  assert (Hpre : pre = take (length pre) (take k calls ++ tail)) by (rewrite H; symmetry; apply take_app_length).
  assert (Hj : (take k calls ++ tail) !! length pre = Some (Bind p i)) by (rewrite H; by apply list_lookup_middle).
  apply lookup_app_Some in Hj as [Hj|[_ Hj]]; [|by apply list_elem_of_lookup_2 in Hj].
  pose proof (lookup_lt_Some _ _ _ Hj) as Hlt. rewrite length_take in Hlt.
  apply lookup_take_Some in Hj as [Hj Hk].
  assert (length pre = 5) as H5.
  { clear -Hj. unfold calls, setup_calls in Hj. revert Hj. generalize (length pre). intros m.
    do 7 (destruct m as [|m]; [done|]). done. }
  rewrite H5 in *. rewrite take_app_le in Hpre by (rewrite length_take; lia).
  rewrite take_take, Nat.min_l in Hpre by lia. exact Hpre.
Qed.

Lemma open_outcome_prefix kernel name r tr :
  open_outcome kernel name r tr ->
  exists idx k tail, tr = take k (IfNameToIndex name :: Socket 0 :: setup_calls idx) ++ tail /\ (tail = [] \/ tail = [CloseFd]).
Proof.
  intros [Hn|Hn Hz|Hn Hz Hs|idx pre c post Hn Hi Hz Hsplit Ha Hc|idx Hn Hi Hz Ha].
  - exists 0%Z, 0, []; auto.
  - exists 0%Z, 1, []; auto.
  - exists 0%Z, 2, []; auto.
  - exists idx, (3 + length pre), [CloseFd]. split; [|auto]. rewrite Hsplit. cbn [Nat.add take app].
    rewrite (cons_middle c pre post), (app_assoc pre [c]), take_app_length' by (rewrite length_app; simpl; lia).
    by rewrite <- (app_assoc pre [c]).
  - exists idx, 7, []. auto.
Qed.

(** C24. [open] installs the filter, the VLAN metadata and the egress guard, each
    successfully, before it binds the socket and capture starts; on a failure no
    later call is made; the descriptor is closed exactly when it was opened and
    [open] fails. *)
Theorem open_configures_then_binds kernel (name : str) r tr :
  open kernel name [] = (r, tr) ->
  open_outcome kernel name r tr /\
  (forall pre p i post, tr = pre ++ Bind p i :: post ->
     pre = [IfNameToIndex name; Socket 0; AttachFilter socket_fprog; SetPacketAuxdata 1; SetPacketIgnoreOutgoing 1]) /\
  (CloseFd ∈ tr <-> is_ok r = false /\ Socket 0 ∈ tr /\ (0 <= kernel [IfNameToIndex name] (Socket 0%Z))%Z).
Proof.
  intros Ho%open_ends. split_and!; [done| |].
  - intros pre p i post Htr. destruct (open_outcome_prefix _ _ _ _ Ho) as (idx & k & tail & -> & Htail).
    apply (bind_position _ _ _ _ _ _ _ _ Htr). destruct Htail as [-> | ->]; [apply not_elem_of_nil|].
    by intros ?%list_elem_of_singleton.
  - destruct Ho as [Hn|Hn Hz|Hn Hz Hs|idx pre c post Hn Hi Hz Hsplit Ha Hc|idx Hn Hi Hz Ha]; cbn [is_ok].
    + split; [by intros ?%elem_of_nil|by intros (_ & ?%elem_of_nil & _)].
    + split; [by intros ?%list_elem_of_singleton|by intros (_ & ?%list_elem_of_singleton & _)].
    + rewrite !elem_of_cons, elem_of_nil. split; [by intros [?|[?|?]]|lia].
    + pose proof (Ha 0 _ eq_refl). rewrite !elem_of_app, !elem_of_cons. split; [auto 6|auto 7].
    + unfold setup_calls. cbn [app]. rewrite !elem_of_cons, elem_of_nil. split; [intros ?; by destruct_or?|by intros [? _]].
Qed.

(** An interface with index 3 whose bind is refused. *)
Definition test_kernel : list Syscall -> Syscall -> Z := fun _ c =>
  match c with IfNameToIndex _ => 3 | Bind _ _ => -1 | _ => 0 end%Z.

Lemma open_configures_then_binds_witness :
  CloseFd ∈ (open test_kernel (b "eth0") []).2 <->
  is_ok (open test_kernel (b "eth0") []).1 = false /\ Socket 0 ∈ (open test_kernel (b "eth0") []).2 /\
  (0 <= test_kernel [IfNameToIndex (b "eth0")] (Socket 0%Z))%Z.
Proof. apply (open_configures_then_binds test_kernel (b "eth0")). apply surjective_pairing. Defined.
