(* ===== verification/Tap.v ===== *)
(** * The relay TAP and its redirect rule: [src/src/tap.rs]

    The commands and system calls that create the device, install the rule that
    moves its frames to the target's receive path, and remove leftovers.  The
    operating system and the [tun-rs] device are parameters: each answer may depend
    on everything requested before. *)

From Stdlib Require Import ZArith Lia Strings.Byte Strings.String.
From stdpp Require Import base list numbers list_numbers sets.
From S2P Require Import Prelude Proto Parse Relay MacText Decimal Hostapd.
Local Open Scope nat_scope.
Local Open Scope rrb_scope.

Definition INGRESS_HANDLE : str := b "ffff:".

Definition SIOCGIFFLAGS : Z := 0x8913.
Definition SIOCSIFFLAGS : Z := 0x8914.
Definition IFF_UP : Z := 1.

Inductive TapCall :=
| BuildTap (name : str)
| DeviceName
| WriteFile (path text : str)
| OpenInetSocket
| Ioctl (code : Z) (req : list byte)
| CloseInetSocket
| Spawn (program : str) (args : list str)
| PathExists (path : str)
| DeviceIndex
| DropDevice.

Inductive TapError :=
| CreateTap
| ReadTapName
| IfflagsSocket
| NameTooLong
| IoctlFailed (code : Z)
| ExecuteFailed (program : str)
| CommandFailed (program : str) (args : list str) (stderr : list byte)
| NotUtf8
| IngressQdisc (cause : TapError)
| RedirectRule (cause : TapError)
| TapIfindex
| DeleteLeftover (cause : TapError).

(** [std::process::Output]. *)
Record Output := mkOutput {
  success : bool;
  stdout : list byte;
  stderr : list byte;
}.

(** The outside world; [None] is an error. *)
Record TapEnv := mkTapEnv {
  build_tap : list TapCall -> TapCall -> bool;
  device_name : list TapCall -> TapCall -> option str;
  write_file : list TapCall -> TapCall -> bool;
  inet_socket : list TapCall -> TapCall -> Z;
  ioctl : list TapCall -> TapCall -> Z * list byte;
  spawn : list TapCall -> TapCall -> option Output;
  path_exists : list TapCall -> TapCall -> bool;
  device_index : list TapCall -> TapCall -> option Z;
}.

Record RelayTap := mkRelayTap {
  tap_name : str;
  tap_ifindex : Z;
}.

(** [RelayTap::inject], given how the device's [send] ended: the number of bytes it
    reports is not looked at. *)
Definition inject {IoError : Type} (sent : result IoError nat) : result IoError unit :=
  _ ← sent;
  Ok tt.

(** [Result::context] on a computation. *)
Definition with_context {Ev E A} (f : E -> E) (m : Sys Ev E A) : Sys Ev E A := fun tr =>
  match m tr with (Err e, tr') => (Err (f e), tr') | r => r end.

(** [let _ = m;]. *)
Definition ignore {Ev E A} (m : Sys Ev E A) : Sys Ev E unit := fun tr => (Ok tt, (m tr).2).

(** [u16::to_string]. *)
Definition u16_to_string (v : Z) : str := decimal v.

Section Tap.
Variable env : TapEnv.

(** [run]: arguments never pass through a shell. *)
Definition run (program : str) (args : list str) : Sys TapCall TapError str :=
  o ← request (spawn env) (Spawn program args);
  out ← from_result (ok_or o (ExecuteFailed program));
  _ ← from_result (ensure (success out) (CommandFailed program args (stderr out)));
  from_result (if utf8_valid (stdout out) then Ok (stdout out) else Err NotUtf8).

Definition qdisc_args (tap : str) : list str :=
  [b "qdisc"; b "add"; b "dev"; tap; b "handle"; INGRESS_HANDLE; b "ingress"].

Definition rule_args (tap target : str) (pref : Z) : list str :=
  [b "filter"; b "add"; b "dev"; tap; b "parent"; INGRESS_HANDLE; b "protocol"; b "0x88b7"; b "pref"; u16_to_string pref;
   b "u32"; b "match"; b "u32"; b "0"; b "0"; b "action"; b "mirred"; b "ingress"; b "redirect"; b "dev"; target].

Definition tc_attach (tap target : str) (pref : Z) : Sys TapCall TapError unit :=
  _ ← with_context IngressQdisc (run (b "tc") (qdisc_args tap));
  _ ← with_context RedirectRule (run (b "tc") (rule_args tap target pref));
  mret tt.

(** [dest[at..at + src.len()].copy_from_slice(src)]. *)
Definition copy_at (at_ : nat) (src dest : list byte) : list byte :=
  take at_ dest ++ src ++ drop (at_ + List.length src) dest.

(** An ioctl that fails on a negative result and rewrites the request. *)
Definition checked_ioctl (code : Z) (req : list byte) : Sys TapCall TapError (list byte) :=
  r ← request (ioctl env) (Ioctl code req);
  if (r.1 <? 0)%Z then from_result (Err (IoctlFailed code)) else mret r.2.

(** The part of [set_up] that owns the socket. *)
Definition set_up_owned (name : str) : Sys TapCall TapError unit :=
  let req := replicate 40 Byte.x00 in
  _ ← from_result (ensure (List.length name <? 16) NameTooLong);
  let req := copy_at 0 name req in
  req ← checked_ioctl SIOCGIFFLAGS req;
  let flags := Z.lor (u16_from_le_bytes (req !!! 16) (req !!! 17)) IFF_UP in
  let req := copy_at 16 (u16_to_le_bytes flags) req in
  _ ← checked_ioctl SIOCSIFFLAGS req;
  mret tt.

(** Run [m], then drop the owned resource whatever the outcome. *)
Definition finally {A} (m : Sys TapCall TapError A) (cleanup : TapCall) : Sys TapCall TapError A := fun tr =>
  let '(r, tr') := m tr in (r, tr' ++ [cleanup]).

Definition set_up (name : str) : Sys TapCall TapError unit :=
  fd ← request (inet_socket env) OpenInetSocket;
  if (fd <? 0)%Z then from_result (Err IfflagsSocket) else finally (set_up_owned name) CloseInetSocket.

(** The part of [create_relay] that owns the device. *)
Definition create_owned (target : str) (pref : Z) : Sys TapCall TapError RelayTap :=
  n ← request (device_name env) DeviceName;
  actual ← from_result (ok_or n ReadTapName);
  _ ← request (write_file env) (WriteFile (b "/proc/sys/net/ipv6/conf/" ++ actual ++ b "/disable_ipv6") (b "1"));
  _ ← set_up actual;
  _ ← tc_attach actual target pref;
  i ← request (device_index env) DeviceIndex;
  ifindex ← from_result (ok_or i TapIfindex);
  mret (mkRelayTap actual ifindex).

Definition create_relay (name target : str) (pref : Z) : Sys TapCall TapError RelayTap :=
  built ← request (build_tap env) (BuildTap name);
  _ ← from_result (ensure built CreateTap);
  on_error (create_owned target pref) DropDevice.

Definition filter_del_args (name : str) (pref : Z) : list str :=
  [b "filter"; b "del"; b "dev"; name; b "parent"; INGRESS_HANDLE; b "pref"; u16_to_string pref].

Definition qdisc_del_args (name : str) : list str := [b "qdisc"; b "del"; b "dev"; name; b "ingress"].

Definition link_del_args (name : str) : list str := [b "link"; b "del"; b "dev"; name].

Definition destroy (name : str) (pref : Z) : Sys TapCall TapError unit :=
  _ ← ignore (run (b "tc") (filter_del_args name pref));
  _ ← ignore (run (b "tc") (qdisc_del_args name));
  found ← request (path_exists env) (PathExists (b "/sys/class/net/" ++ name));
  if (found : bool) then
    _ ← with_context DeleteLeftover (run (b "ip") (link_del_args name));
    mret tt
  else mret tt.

Definition action_stats (name : str) : Sys TapCall TapError str :=
  run (b "tc") [b "-s"; b "filter"; b "show"; b "dev"; name; b "parent"; INGRESS_HANDLE].
End Tap.

(** ** Lemmas *)

Lemma emits_with_context {Ev E A} (P : Ev -> Prop) (f : E -> E) (m : Sys Ev E A) : emits P m -> emits P (with_context f m).
Proof. intros Hm tr. destruct (Hm tr) as (ext & He & HP). unfold with_context. destruct (m tr) as [[x|e] tr']; eauto. Qed.

Lemma emits_finally {A} (P : TapCall -> Prop) (m : Sys TapCall TapError A) c : P c -> emits P m -> emits P (finally m c).
Proof.
  intros Hc Hm tr. destruct (Hm tr) as (ext & He & HP). unfold finally. destruct (m tr) as [r tr']. cbn in *. subst tr'.
  exists (ext ++ [c]). split; [by rewrite app_assoc|apply Forall_app_2; [done|by constructor]].
Qed.

#[export] Hint Resolve emits_with_context emits_finally : rrb.

Section TapLemmas.
Variable env : TapEnv.

Lemma emits_run (P : TapCall -> Prop) program args : P (Spawn program args) -> emits P (run env program args).
Proof. intros H. unfold run. eauto 8 with rrb. Qed.

Lemma run_trace program args tr : (run env program args tr).2 = tr ++ [Spawn program args].
Proof.
  unfold run, mbind, Sys_bind, request, from_result. destruct (spawn _ _ _) as [out|]; cbn; [|done].
  destruct (success out); cbn; [|done]. by destruct (utf8_valid (stdout out)).
Qed.

Lemma run_Ok program args tr r tr' : run env program args tr = (r, tr') -> tr' = tr ++ [Spawn program args].
Proof. intros H. by rewrite <- (run_trace program args), H. Qed.

(** While the device is owned it is neither dropped nor built again. *)
Definition keeps_device (c : TapCall) : Prop := match c with DropDevice | BuildTap _ => False | _ => True end.

Lemma create_owned_emits target pref : emits keeps_device (create_owned env target pref).
Proof.
  unfold create_owned, set_up, set_up_owned, tc_attach, checked_ioctl.
  repeat first [apply emits_bind; [|intros ?] | apply emits_finally; [exact I|] | apply emits_with_context
               | apply emits_run; exact I | apply emits_request; exact I | apply emits_from_result | apply emits_mret
               | case_match].
Qed.

Lemma create_owned_keeps_device target pref :
  emits (fun c => c <> DropDevice) (create_owned env target pref).
Proof.
  intros tr. destruct (create_owned_emits target pref tr) as (ext & He & Hall). exists ext. split; [done|].
  eapply Forall_impl; [exact Hall|]. by intros [].
Qed.

Lemma with_context_Ok {Ev E A} (f : E -> E) (m : Sys Ev E A) tr x tr' :
  with_context f m tr = (Ok x, tr') <-> m tr = (Ok x, tr').
Proof. unfold with_context. destruct (m tr) as [[y|e] tr1]; by split. Qed.

Lemma tc_attach_Ok tap target pref tr u tr' :
  tc_attach env tap target pref tr = (Ok u, tr') ->
  tr' = tr ++ [Spawn (b "tc") (qdisc_args tap); Spawn (b "tc") (rule_args tap target pref)].
Proof.
  unfold tc_attach. intros (x & tr1 & H1 & (y & tr2 & H2 & H3)%Sys_bind_Ok)%Sys_bind_Ok.
  apply with_context_Ok, run_Ok in H1. apply with_context_Ok, run_Ok in H2. apply mret_Ok in H3 as [_ ->].
  subst. by rewrite <- app_assoc.
Qed.

Lemma checked_ioctl_Ok code req tr ans tr' :
  checked_ioctl env code req tr = (Ok ans, tr') ->
  (0 <= (ioctl env tr (Ioctl code req)).1)%Z /\ ans = (ioctl env tr (Ioctl code req)).2 /\ tr' = tr ++ [Ioctl code req].
Proof.
  unfold checked_ioctl. intros (r & tr1 & [[= ->] ->]%request_Ok & H)%Sys_bind_Ok.
  destruct (Z.ltb_spec (ioctl env tr (Ioctl code req)).1 0); [done|]. by apply mret_Ok in H as [-> ->].
Qed.
(** The request with the interface marked up. *)
Definition marked_up (ans : list byte) : list byte :=
  copy_at 16 (u16_to_le_bytes (Z.lor (u16_from_le_bytes (ans !!! 16) (ans !!! 17)) IFF_UP)) ans.

Definition name_request (name : str) : list byte := copy_at 0 name (replicate 40 Byte.x00).

Lemma set_up_Ok name tr u tr' :
  set_up env name tr = (Ok u, tr') ->
  List.length name < 16 /\
  exists ans, ans = (ioctl env (tr ++ [OpenInetSocket]) (Ioctl SIOCGIFFLAGS (name_request name))).2 /\
    tr' = tr ++ [OpenInetSocket; Ioctl SIOCGIFFLAGS (name_request name); Ioctl SIOCSIFFLAGS (marked_up ans); CloseInetSocket].
Proof.
  unfold set_up. intros (fd & tr1 & [_ ->]%request_Ok & H)%Sys_bind_Ok. destruct (_ <? _)%Z; [done|].
  unfold finally in H. destruct (set_up_owned env name _) as [r tr2] eqn:Ho. injection H as -> <-.
  unfold set_up_owned in Ho.
  apply Sys_bind_Ok in Ho as (x & tr3 & [Hx ->]%from_result_Ok & Ho). symmetry in Hx. apply ensure_Ok, Nat.ltb_lt in Hx.
  apply Sys_bind_Ok in Ho as (ans & tr3 & (_ & Hans & ->)%checked_ioctl_Ok & Ho).
  apply Sys_bind_Ok in Ho as (y & tr3 & (_ & _ & ->)%checked_ioctl_Ok & [_ ->]%mret_Ok).
  split; [done|]. exists ans. split; [done|]. by rewrite <- !app_assoc.
Qed.

Lemma create_owned_Ok target pref tr t tr' :
  create_owned env target pref tr = (Ok t, tr') ->
  exists ans, List.length (tap_name t) < 16 /\
    tr' = tr ++ [DeviceName; WriteFile (b "/proc/sys/net/ipv6/conf/" ++ tap_name t ++ b "/disable_ipv6") (b "1");
                 OpenInetSocket; Ioctl SIOCGIFFLAGS (name_request (tap_name t)); Ioctl SIOCSIFFLAGS (marked_up ans);
                 CloseInetSocket; Spawn (b "tc") (qdisc_args (tap_name t));
                 Spawn (b "tc") (rule_args (tap_name t) target pref); DeviceIndex].
Proof.
  unfold create_owned. intros (n & tr1 & [_ ->]%request_Ok & H)%Sys_bind_Ok.
  apply Sys_bind_Ok in H as (actual & tr1 & [_ ->]%from_result_Ok & H).
  apply Sys_bind_Ok in H as (x & tr1 & [_ ->]%request_Ok & H).
  apply Sys_bind_Ok in H as (u & tr1 & (Hlen & ans & _ & ->)%set_up_Ok & H).
  apply Sys_bind_Ok in H as (v & tr1 & ->%tc_attach_Ok & H).
  apply Sys_bind_Ok in H as (i & tr1 & [_ ->]%request_Ok & H).
  apply Sys_bind_Ok in H as (idx & tr1 & [_ ->]%from_result_Ok & [-> ->]%mret_Ok).
  exists ans. split; [done|]. cbn [tap_name]. by rewrite <- !app_assoc.
Qed.

(** The commands of the set-up: all of them are for the name that the device reports. *)
Definition set_up_call (target : str) (pref : Z) (named : option str) (c : TapCall) : Prop :=
  match c with
  | Spawn program args => program = b "tc" /\ exists dev, named = Some dev /\ (args = qdisc_args dev \/ args = rule_args dev target pref)
  | _ => True
  end.

Lemma create_owned_calls target pref tr :
  exists ext, (create_owned env target pref tr).2 = tr ++ ext /\ Forall (set_up_call target pref (device_name env tr DeviceName)) ext.
Proof.
  unfold create_owned. unfold mbind at 1, Sys_bind at 1, request at 1. set (named := device_name env tr DeviceName).
  cut (emits (set_up_call target pref named)
    (actual ← from_result (ok_or named ReadTapName);
     _ ← request (write_file env) (WriteFile (b "/proc/sys/net/ipv6/conf/" ++ actual ++ b "/disable_ipv6") (b "1"));
     _ ← set_up env actual;
     _ ← tc_attach env actual target pref;
     i ← request (device_index env) DeviceIndex;
     ifindex ← from_result (ok_or i TapIfindex);
     mret (mkRelayTap actual ifindex))).
  { intros H. destruct (H (tr ++ [DeviceName])) as (ext & -> & Hall). exists (DeviceName :: ext).
    split; [by rewrite <- app_assoc|by constructor]. }
  destruct named as [dev|]; cbn [ok_or]; [|intros tr0; exists []; by rewrite app_nil_r].
  unfold mbind at 1, Sys_bind at 1, from_result at 1. lazy beta iota. apply emits_bind; [by apply emits_request|intros _].
  unfold set_up, set_up_owned, tc_attach, checked_ioctl.
  assert (forall args, args = qdisc_args dev \/ args = rule_args dev target pref -> set_up_call target pref (Some dev) (Spawn (b "tc") args))
    as Htc by (intros args Ha; split; [done|by exists dev]).
  repeat first [apply emits_run, Htc; by auto | apply emits_bind; [|intros ?] | apply emits_finally; [exact I|] | apply emits_with_context
               | apply emits_request; exact I | apply emits_from_result | apply emits_mret
               | case_match].
Qed.

Lemma create_relay_calls name target pref r calls :
  create_relay env name target pref [] = (r, calls) ->
  Forall (set_up_call target pref (device_name env [BuildTap name] DeviceName)) calls.
Proof.
  unfold create_relay, mbind, Sys_bind, request, from_result. cbn [app].
  destruct (build_tap env [] (BuildTap name)); cbn [ensure]; [|intros [= _ <-]; by repeat constructor].
  destruct (create_owned_calls target pref [BuildTap name]) as (ext & He & Hall). unfold on_error.
  destruct (create_owned env target pref [BuildTap name]) as [[t|e] tr']; cbn in He; subst tr'; intros [= _ <-];
    constructor; try done. apply Forall_app_2; [done|by repeat constructor].
Qed.

Lemma create_relay_rule name target pref t calls :
  create_relay env name target pref [] = (Ok t, calls) -> Spawn (b "tc") (rule_args (tap_name t) target pref) ∈ calls.
Proof.
  unfold create_relay, mbind, Sys_bind, request, from_result. cbn [app].
  destruct (build_tap env [] (BuildTap name)); cbn [ensure]; [|done].
  unfold on_error. destruct (create_owned env target pref [BuildTap name]) as [[t'|e] tr'] eqn:Hc; [|done].
  intros [= <- <-]. apply create_owned_Ok in Hc as (ans & _ & ->). do 8 right. left.
Qed.

(** [| IFF_UP] adds the bit when it is missing. *)
Lemma lor_1 x : Z.lor x 1 = (x + if Z.even x then 1 else 0)%Z.
Proof.
  assert (forall y, Z.even y = true -> Z.lor y 1 = y + 1)%Z as Heven.
  { intros y Hy. symmetry. apply Z.add_nocarry_lor. change 1%Z with (Z.ones 1). rewrite Z.land_ones by lia.
    change (2 ^ 1)%Z with 2%Z. rewrite Zmod_even. by rewrite Hy. }
  destruct (Z.even x) eqn:Hx; [by apply Heven|].
  assert (Z.even (x - 1) = true) as Hx' by (rewrite Z.even_sub, Hx; done).
  assert (x = Z.lor (x - 1) 1) as -> by (rewrite (Heven _ Hx'); lia).
  rewrite <- Z.lor_assoc. change (Z.lor 1 1) with 1%Z. rewrite (Heven _ Hx'). lia.
Qed.

Lemma u16_or_up lo hi :
  u16_to_le_bytes (Z.lor (u16_from_le_bytes lo hi) IFF_UP) = [z2b (Z.lor (b2z lo) 1); hi].
Proof.
  pose proof (b2z_range lo). pose proof (b2z_range hi). unfold u16_to_le_bytes, u16_from_le_bytes, IFF_UP.
  assert (Z.even (b2z lo + b2z hi * 256) = Z.even (b2z lo)) as Hev.
  { rewrite Z.even_add, Z.even_mul, orb_true_r. by destruct (Z.even (b2z lo)). }
  rewrite !lor_1, Hev.
  assert (b2z lo + (if Z.even (b2z lo) then 1 else 0) < 256)%Z as Hlo.
  { destruct (Z.even (b2z lo)) eqn:He; [|lia]. destruct (decide (b2z lo = 255)%Z) as [Heq|]; [by rewrite Heq in He|lia]. }
  f_equal; [|f_equal]; apply b2z_inj; rewrite ?b2z_z2b.
  - rewrite <- (Z.mod_add (b2z lo + if Z.even (b2z lo) then 1 else 0) (b2z hi) 256) by lia. f_equal. lia.
  - replace (_ + _)%Z with (b2z hi * 256 + (b2z lo + if Z.even (b2z lo) then 1 else 0))%Z by lia.
    rewrite Z.div_add_l, Z.div_small, Z.add_0_r, Z.mod_small by (destruct (Z.even (b2z lo)); lia). done.
Qed.

Lemma marked_up_insert ans :
  18 <= List.length ans -> marked_up ans = <[16 := z2b (Z.lor (b2z (ans !!! 16)) 1)]> ans.
Proof.
  intros Hl. unfold marked_up, copy_at. rewrite u16_or_up. cbn [List.length Nat.add app].
  rewrite insert_take_drop by lia. f_equal. f_equal.
  rewrite (drop_S ans (ans !!! 17) 17); [done|]. apply list_lookup_lookup_total_lt. lia.
Qed.
Lemma destroy_run name pref :
  let calls := [Spawn (b "tc") (filter_del_args name pref); Spawn (b "tc") (qdisc_del_args name);
                PathExists (b "/sys/class/net/" ++ name)] in
  destroy env name pref [] =
    if path_exists env (take 2 calls) (PathExists (b "/sys/class/net/" ++ name))
    then (fmap (fun _ => tt) (with_context DeleteLeftover (run env (b "ip") (link_del_args name)) calls).1,
          calls ++ [Spawn (b "ip") (link_del_args name)])
    else (Ok tt, calls).
Proof.
  cbn zeta. unfold destroy, ignore. unfold mbind at 1 2 3, Sys_bind. rewrite !run_trace. cbn [app take request].
  destruct (path_exists _ _ _); [|done]. unfold mbind, Sys_bind. set (tr := [_; _; _]).
  pose proof (run_trace (b "ip") (link_del_args name) tr) as Ht. unfold with_context.
  by destruct (run env (b "ip") (link_del_args name) tr) as [[x|e] tr']; cbn in *; subst tr'.
Qed.
End TapLemmas.

(** ** Claims *)

(** C31. [create_relay] leaves behind either a finished relay or nothing: on success the
    device was created, silenced, brought up, given its ingress qdisc and then the
    redirect rule to the target, in this order and once each; on a failure after its
    creation the device is dropped, last, and with it every rule on it.  The rule's
    protocol gate is the EtherType that the classifier requires. *)
Theorem create_relay_installs_or_cleans_up env (name target : str) (pref : Z) r tr :
  create_relay env name target pref [] = (r, tr) ->
  match r with
  | Ok t => exists ans, List.length (tap_name t) < 16 /\
      tr = [BuildTap name; DeviceName;
            WriteFile (b "/proc/sys/net/ipv6/conf/" ++ tap_name t ++ b "/disable_ipv6") (b "1");
            OpenInetSocket; Ioctl SIOCGIFFLAGS (name_request (tap_name t)); Ioctl SIOCSIFFLAGS (marked_up ans);
            CloseInetSocket; Spawn (b "tc") (qdisc_args (tap_name t));
            Spawn (b "tc") (rule_args (tap_name t) target pref); DeviceIndex] /\
      rule_args (tap_name t) target pref !! 7 = Some (b "0x" ++ concat (hex_byte <$> u16_to_be_bytes ETH_P_RRB))
  | Err e => (e = CreateTap /\ tr = [BuildTap name]) \/
      exists mid, tr = BuildTap name :: mid ++ [DropDevice] /\ Forall (fun c => c <> DropDevice) mid
  end.
Proof.
  unfold create_relay, mbind, Sys_bind, request, from_result. cbn [app].
  destruct (build_tap env [] (BuildTap name)); cbn [ensure]; [|by intros [= <- <-]; left].
  unfold on_error. destruct (create_owned env target pref [BuildTap name]) as [[t|e] tr'] eqn:Hc; intros [= <- <-].
  - apply create_owned_Ok in Hc as (ans & Hlen & ->). exists ans. by split_and!.
  - right. destruct (create_owned_keeps_device env target pref [BuildTap name]) as (mid & Hmid & Hall).
    rewrite Hc in Hmid. cbn in Hmid. subst tr'. by exists mid.
Qed.

(** C32. [set_up] marks the interface up and changes nothing else: the flags it writes
    are those the kernel reported with the up bit added, the rest of the request is
    returned as it came, and the name fits the 16-byte field with its terminator. *)
Theorem set_up_only_adds_the_up_flag env (name : str) (tr tr' : list TapCall) u :
  let ans := (ioctl env (tr ++ [OpenInetSocket]) (Ioctl SIOCGIFFLAGS (name_request name))).2 in
  List.length ans = 40 -> set_up env name tr = (Ok u, tr') ->
  List.length name < 16 /\ List.length (name_request name) = 40 /\
  tr' = tr ++ [OpenInetSocket; Ioctl SIOCGIFFLAGS (name_request name);
               Ioctl SIOCSIFFLAGS (<[16 := z2b (Z.lor (b2z (ans !!! 16)) IFF_UP)]> ans); CloseInetSocket].
Proof.
  intros ans Hans (Hlen & ans' & -> & ->)%set_up_Ok. fold ans. rewrite marked_up_insert by lia. split; [done|]. split; [|done].
  unfold name_request, copy_at. rewrite !length_app, length_take, length_drop, length_replicate. lia.
Qed.

(** C33. [destroy] attempts every step of the clean-up: a failure to delete the rule or
    the qdisc does not stop it, the device is deleted exactly when it exists, and only
    that deletion can make it fail.  The rule it deletes is named by the handle and
    priority that the rule was installed with. *)
Theorem destroy_attempts_everything env (name target : str) (pref : Z) r tr :
  destroy env name pref [] = (r, tr) ->
  let calls := [Spawn (b "tc") (filter_del_args name pref); Spawn (b "tc") (qdisc_del_args name);
                PathExists (b "/sys/class/net/" ++ name)] in
  let found := path_exists env (take 2 calls) (PathExists (b "/sys/class/net/" ++ name)) in
  tr = calls ++ (if found then [Spawn (b "ip") (link_del_args name)] else []) /\
  (is_ok r = false <-> found = true /\ is_ok (run env (b "ip") (link_del_args name) calls).1 = false) /\
  filter_del_args name pref !! 5 = rule_args name target pref !! 5 /\
  filter_del_args name pref !! 7 = rule_args name target pref !! 9.
Proof.
  rewrite destroy_run. intros Hd calls found. fold calls found in Hd. unfold with_context in Hd.
  destruct found.
  - destruct (run env (b "ip") (link_del_args name) calls) as [[x|e] tr1] eqn:Hr; injection Hd as <- <-;
      (split; [done|]; split; [|done]; split; [done|by intros [_ ?]]).
  - injection Hd as <- <-. split; [done|]. split; [|done]. split; [done|by intros [? _]].
Qed.

(** A system on which everything works and the device already exists. *)
Definition test_tap_env : TapEnv := {|
  build_tap _ _ := true;
  device_name _ _ := Some (b "rrb0");
  write_file _ _ := true;
  inet_socket _ _ := 3%Z;
  ioctl _ c := (0%Z, match c with Ioctl _ req => copy_at 16 (bytes_of [0x02; 0x10]%Z) req | _ => [] end);
  spawn _ _ := Some (mkOutput true [] []);
  path_exists _ _ := true;
  device_index _ _ := Some 7%Z;
|}.

Lemma create_relay_installs_or_cleans_up_witness :
  exists ans tr, create_relay test_tap_env (b "rrb0") (b "br0") 100 [] = (Ok (mkRelayTap (b "rrb0") 7), tr) /\
    tr !! 5 = Some (Ioctl SIOCSIFFLAGS (marked_up ans)) /\
    tr !! 8 = Some (Spawn (b "tc") (rule_args (b "rrb0") (b "br0") 100)).
Proof.
  destruct (create_relay test_tap_env (b "rrb0") (b "br0") 100 []) as [r tr] eqn:Hc.
  pose proof (create_relay_installs_or_cleans_up test_tap_env (b "rrb0") (b "br0") 100 r tr Hc) as H.
  assert (r = Ok (mkRelayTap (b "rrb0") 7)) as -> by (revert Hc; vm_compute; congruence).
  destruct H as (ans & _ & Htr & _). exists ans, tr. split; [reflexivity|]. rewrite Htr. split; reflexivity.
Defined.

Lemma set_up_only_adds_the_up_flag_witness :
  exists tr', set_up test_tap_env (b "rrb0") [] = (Ok tt, tr') /\
    tr' !! 2 = Some (Ioctl SIOCSIFFLAGS (copy_at 16 (bytes_of [0x03; 0x10]%Z) (name_request (b "rrb0")))).
Proof.
  destruct (set_up test_tap_env (b "rrb0") []) as [r tr'] eqn:Hs.
  assert (r = Ok tt) as -> by (revert Hs; vm_compute; congruence).
  destruct (set_up_only_adds_the_up_flag test_tap_env (b "rrb0") [] tr' tt) as (_ & _ & ->); [reflexivity|exact Hs|].
  eexists. split; [reflexivity|]. vm_compute. reflexivity.
Defined.

Lemma destroy_attempts_everything_witness :
  is_ok (destroy test_tap_env (b "rrb0") 100 []).1 = false <->
  true = true /\ is_ok (run test_tap_env (b "ip") (link_del_args (b "rrb0"))
    [Spawn (b "tc") (filter_del_args (b "rrb0") 100); Spawn (b "tc") (qdisc_del_args (b "rrb0"));
     PathExists (b "/sys/class/net/rrb0")]).1 = false.
Proof.
  apply (destroy_attempts_everything test_tap_env (b "rrb0") (b "br0") 100 _ (destroy test_tap_env (b "rrb0") 100 []).2).
  apply surjective_pairing.
Defined.
