(* ===== verification/App.v ===== *)
(** * The daemon's tasks: [src/src/app.rs]

    The statistics, the body of the capture loop, the steps of the inject loop and
    the bounded channel between them.  The tasks run on one thread
    ([main.rs], [flavor = "current_thread"]): what a task does between two awaits
    is one step.  [System] interleaves the steps. *)

From Stdlib Require Import ZArith Lia Strings.Byte Strings.String.
From stdpp Require Import base list numbers list_numbers sets.
From S2P Require Import Prelude Proto Parse Wire Verdict Relay MacText Decimal.
Local Open Scope nat_scope.
Local Open Scope rrb_scope.

Definition QUEUE_DEPTH : nat := 64.

(** ** Statistics *)

(** [[u64; COUNTER_NAMES.len()]]. *)
Abbreviation Counters := (list Z).

Definition Counters_new : Counters := replicate (List.length COUNTER_NAMES) 0%Z.

Definition bump (counters : Counters) (c : Counter) : Counters :=
  <[counter_index c := u64_incr (counters !!! counter_index c)]> counters.

(** [format!("{name}={v}")]. *)
Definition counter_text (name : string) (v : Z) : str := b name ++ b "=" ++ decimal v.

(** The line that [log_counters] writes. *)
Definition log_counters (counters : Counters) : str :=
  join Byte.x20
    (map (fun '(name, v) => counter_text name v)
       (List.filter (fun '(_, v) => (0 <? v)%Z) (zip COUNTER_NAMES counters))).

(** [start.elapsed().as_secs()], on a clock of nanoseconds. *)
Definition monotonic_secs (start now : Z) : Z := ((now - start) / 1000000000)%Z.

(** ** Capture *)

(** The fields of the per-frame log entries. *)
Inductive LogEntry :=
| RrbMatched (kind : string) (from to : str) (len : nat)
| RrbRejected (reason : string) (len : nat).

Record Captured := mkCaptured {
  cap_counters : Counters;
  cap_log : LogEntry;
  cap_forward : option (list byte);
}.

(** One received frame, up to the send: [None] is a panic.  [forward] says whether
    the task has a sender. *)
Definition capture_frame (filter : Filter) (forward : bool) (counters : Counters) (frame : list byte) (vlan : Vlan)
    : option Captured :=
  let counters := bump counters Seen in
  match classify frame vlan filter with
  | Ok m =>
      let counters := bump counters Matched in
      let counters := bump counters (kind_counter (kind m)) in
      from ← slice_get frame 6 12;
      to ← slice_get frame 0 6;
      let entry := RrbMatched (kind_name (kind m)) (mac_string from) (mac_string to) (List.length frame) in
      if forward then
        out ← untag frame vlan;
        Some (mkCaptured counters entry (Some out))
      else Some (mkCaptured (bump counters Observed) entry None)
  | Err reason =>
      name ← COUNTER_NAMES !! counter_index reason;
      Some (mkCaptured (bump counters reason) (RrbRejected name (List.length frame)) None)
  end.

(** ** Inject *)

(** A frame taken from the channel: whether it goes on to the TAP. *)
Definition inject_admit (counters : Counters) (limiter : Limiter) (secs : Z) : bool * Counters * Limiter :=
  match admit_ limiter secs with
  | (Ok _, limiter') => (true, counters, limiter')
  | (Err reason, limiter') => (false, bump counters reason, limiter')
  end.

(** The outcome of the TAP write. *)
Definition inject_written {IoError : Type} (counters : Counters) (outcome : result IoError unit) : Counters :=
  match outcome with
  | Ok _ => bump counters Injected
  | Err _ => bump counters InjectError
  end.

(** ** The channel

    A bounded multi-producer single-consumer queue as [tokio::sync::mpsc] documents
    it.  [contents] is what was sent and not yet received. *)
Class Channel := {
  chan : Type;
  chan_new : nat -> chan;
  chan_send : chan -> list byte -> option chan;
  chan_recv : chan -> option (list byte * chan);
  contents : chan -> list (list byte);
  capacity : chan -> nat;
}.

(** A send waits while the queue is full; order is first in, first out. *)
Class ChannelOk `{Channel} : Prop := {
  contents_new n : contents (chan_new n) = [];
  capacity_new n : capacity (chan_new n) = n;
  send_full q x : chan_send q x = None <-> capacity q <= List.length (contents q);
  send_some q x q' : chan_send q x = Some q' -> contents q' = contents q ++ [x] /\ capacity q' = capacity q;
  recv_none q : chan_recv q = None <-> contents q = [];
  recv_some q x q' : chan_recv q = Some (x, q') -> contents q = x :: contents q' /\ capacity q' = capacity q;
}.

(** A channel with these laws. *)
#[export] Instance list_channel : Channel := {
  chan := nat * list (list byte);
  chan_new n := (n, []);
  chan_send q x := if List.length q.2 <? q.1 then Some (q.1, q.2 ++ [x]) else None;
  chan_recv q := match q.2 with [] => None | x :: l => Some (x, (q.1, l)) end;
  contents q := q.2;
  capacity q := q.1;
}.

#[export] Instance list_channel_ok : ChannelOk.
Proof.
  split; cbn [chan_new chan_send chan_recv contents capacity list_channel].
  - done.
  - done.
  - intros [n l] x. cbn [fst snd]. destruct (Nat.ltb_spec (List.length l) n); split; intros; (done || lia || (exfalso; lia)).
  - intros [n l] x q'. cbn [fst snd]. destruct (_ <? _); [|done]. by intros [= <-].
  - intros [n [|x l]]; cbn; by split.
  - intros [n [|y l]] x q'; cbn; [done|]. by intros [= <- <-].
Qed.

(** ** Statistics: lemmas *)

Definition count_of (counters : Counters) (c : Counter) : Z := counters !!! counter_index c.

(** A counter array as the type guarantees it. *)
Definition Counters_wf (counters : Counters) : Prop := List.length counters = List.length COUNTER_NAMES.

Definition bump_all (counters : Counters) (cs : list Counter) : Counters := fold_left bump cs counters.

Lemma Counters_new_wf : Counters_wf Counters_new.
Proof. reflexivity. Qed.

Lemma count_of_new c : count_of Counters_new c = 0%Z.
Proof. by destruct c. Qed.

Lemma bump_wf counters c : Counters_wf counters -> Counters_wf (bump counters c).
Proof. unfold Counters_wf, bump. by rewrite length_insert. Qed.

Lemma count_of_bump counters c c' :
  Counters_wf counters ->
  count_of (bump counters c) c' = if decide (c = c') then u64_incr (count_of counters c') else count_of counters c'.
Proof.
  intros Hwf. unfold count_of, bump. destruct (decide (c = c')) as [->|Hne].
  - apply list_lookup_total_insert_eq. rewrite Hwf. apply counter_index_lt.
  - apply list_lookup_total_insert_ne. by intros ?%counter_index_inj.
Qed.

Lemma bump_all_wf cs : forall counters, Counters_wf counters -> Counters_wf (bump_all counters cs).
Proof. induction cs as [|c cs IH]; intros counters Hwf; [done|]. by apply IH, bump_wf. Qed.

(** After a sequence of increments a counter has grown by its occurrences. *)
Lemma count_of_bump_all cs c : forall counters,
  Counters_wf counters -> (0 <= count_of counters c < u64_modulus)%Z ->
  count_of (bump_all counters cs) c =
    ((count_of counters c + Z.of_nat (count_if (fun c' => bool_decide (c' = c)) cs)) mod u64_modulus)%Z.
Proof.
  induction cs as [|c' cs IH]; intros counters Hwf Hr; cbn [bump_all fold_left].
  - rewrite Z.add_0_r, Z.mod_small; done.
  - fold (bump_all (bump counters c') cs). rewrite count_if_cons. rewrite IH; [|by apply bump_wf|].
    + rewrite count_of_bump by done. case_bool_decide as Heq; rewrite ?decide_True, ?decide_False by done; [|done].
      unfold u64_incr. rewrite Zplus_mod_idemp_l. f_equal. lia.
    + rewrite count_of_bump by done. destruct (decide _); [apply Z.mod_pos_bound|]; done.
Qed.

(** ** Capture: lemmas *)

(** The increments made for a frame with verdict [r]. *)
Definition frame_bumps (forward : bool) (r : result Counter Match) : list Counter :=
  Seen :: match r with
          | Ok m => [Matched; kind_counter (kind m)] ++ (if forward then [] else [Observed])
          | Err e => [e]
          end.

(** The frame handed to the inject task. *)
Definition relayed (filter : Filter) (forward : bool) (frame : list byte) (vlan : Vlan) : option (list byte) :=
  if forward && is_ok (classify frame vlan filter) then untag frame vlan else None.

(** Whether a frame with verdict [r] is counted under [c]. *)
Definition counted (forward : bool) (c : Counter) (r : result Counter Match) : bool :=
  match c with
  | Seen => true
  | Matched => is_ok r
  | Observed => negb forward && is_ok r
  | RateLimited | Injected | InjectError => false
  | Pull | Response | Push | SeqRequest | SeqResponse =>
      match r with Ok m => bool_decide (kind_counter (kind m) = c) | Err _ => false end
  | Length | Vlan_ | EtherAddress | OuiType | SourceBss | DestinationBss | AuthLength | Tlv | BroadcastScope =>
      bool_decide (r = Err c)
  end.

Lemma kind_counter_in k : kind_counter k ∈ kind_counters.
Proof. unfold kind_counter, kind_counters. repeat (destruct (_ =? _)%Z; [repeat constructor|]). repeat constructor. Qed.

Lemma frame_bumps_counted forward c r :
  (forall e, r = Err e -> e ∈ reject_counters) ->
  count_if (fun c' => bool_decide (c' = c)) (frame_bumps forward r) = if counted forward c r then 1 else 0.
Proof.
  intros He. destruct r as [m|e]; unfold frame_bumps.
  - pose proof (kind_counter_in (kind m)) as Hk. unfold counted. revert Hk. generalize (kind_counter (kind m)).
    intros k Hk. unfold kind_counters in Hk. rewrite !elem_of_cons, elem_of_nil in Hk.
    destruct forward, c; destruct_or? Hk; subst; try done.
  - specialize (He e eq_refl). unfold reject_counters in He. rewrite !elem_of_cons, elem_of_nil in He.
    destruct c; destruct_or? He; subst; by destruct forward.
Qed.

(** A frame is counted, logged and handed over without a panic. *)
Lemma capture_frame_total filter forward counters (frame : list byte) vlan :
  Filter_wf filter ->
  exists entry, capture_frame filter forward counters frame vlan =
    Some (mkCaptured (bump_all counters (frame_bumps forward (classify frame vlan filter))) entry
            (relayed filter forward frame vlan)).
Proof.
  intros Hf. unfold capture_frame, relayed. destruct (classify frame vlan filter) as [m|e] eqn:Hc; cbn [is_ok].
  - destruct (untag_accepted _ _ _ _ Hf Hc) as (w & _ & _ & _ & _ & _ & Hu).
    pose proof (classify_ok_geometry _ _ _ _ Hf Hc) as (Hb & _ & _). unfold RRB_HEADER_LEN in Hb.
    rewrite !slice_get_some by lia. cbn [mbind option_bind]. rewrite Hu.
    destruct forward; cbn [andb mbind option_bind]; eexists; reflexivity.
  - destruct (lookup_lt_is_Some_2 _ _ (counter_index_lt e)) as [name ->]. cbn [mbind option_bind].
    rewrite andb_false_r. eexists. reflexivity.
Qed.

Lemma capture_frame_counts filter forward counters (frame : list byte) vlan cap c :
  Filter_wf filter -> Counters_wf counters -> (0 <= count_of counters c < u64_modulus)%Z ->
  capture_frame filter forward counters frame vlan = Some cap ->
  count_of (cap_counters cap) c =
    ((count_of counters c + if counted forward c (classify frame vlan filter) then 1 else 0) mod u64_modulus)%Z.
Proof.
  intros Hf Hwf Hr Hcap. destruct (capture_frame_total filter forward counters frame vlan Hf) as [entry He].
  rewrite He in Hcap. apply Some_inj in Hcap as <-. cbn [cap_counters]. rewrite count_of_bump_all by assumption.
  rewrite frame_bumps_counted; [by destruct (counted _ _ _)|]. intros e Hce. by eapply classify_reject_counter.
Qed.
