(* ===== verification/Log.v ===== *)
(** * The counter line: [log_counters] of [src/src/app.rs]

    The daemon's last log line lists the counters that are not zero.  A reader takes
    the line back: no counter is lost or confused with another. *)

From Stdlib Require Import ZArith Lia Strings.Byte Strings.String.
From stdpp Require Import base list numbers list_numbers sets gmap.
From S2P Require Import Prelude Proto MacText Decimal Hostapd Parse Tap App.
Local Open Scope nat_scope.

Definition SPACE : byte := Byte.x20.

(** One [name=value] entry. *)
Definition read_entry (p : str) : option (str * Z) :=
  match split_once EQUALS p with Some (k, v) => Some (k, from_decimal v) | None => None end.

Definition read_log (line : str) : list (str * Z) := omap read_entry (split_on SPACE line).

(** The counters that the line shows. *)
Definition shown (names : list string) (cs : list Z) : list (string * Z) :=
  List.filter (fun '(_, v) => (0 <? v)%Z) (zip names cs).

Definition plain_name (n : string) : Prop := (EQUALS ∉ b n) /\ (SPACE ∉ b n).

Lemma counter_names_plain : Forall plain_name COUNTER_NAMES.
Proof.
  apply List.Forall_forall. intros n Hn. unfold plain_name. repeat (destruct Hn as [<-|Hn]; [split;
    [apply (bool_decide_eq_false_1 (EQUALS ∈ _))|apply (bool_decide_eq_false_1 (SPACE ∈ _))]; vm_compute; reflexivity|]).
  destruct Hn.
Qed.

Lemma counter_names_distinct : NoDup (b <$> COUNTER_NAMES).
Proof. apply (bool_decide_eq_true_1 _). vm_compute. reflexivity. Qed.

Lemma counter_text_eq n v : counter_text n v = b n ++ [EQUALS] ++ decimal v.
Proof. reflexivity. Qed.

Lemma read_counter_text n v : plain_name n -> is_u64 v -> read_entry (counter_text n v) = Some (b n, v).
Proof.
  intros [Hn _] Hv. unfold read_entry. rewrite counter_text_eq, split_once_app by done. by rewrite decimal_read.
Qed.

Lemma counter_text_no_space n v : plain_name n -> SPACE ∉ counter_text n v.
Proof.
  intros [_ Hn]. rewrite counter_text_eq, !not_elem_of_app. split_and!; [done|by intros ?%list_elem_of_singleton|].
  apply digit_not_in; [apply decimal_digits|reflexivity].
Qed.

Lemma shown_forall names cs :
  Forall plain_name names -> Forall is_u64 cs -> Forall (fun '(n, v) => plain_name n /\ is_u64 v) (shown names cs).
Proof.
  intros Hn Hc. unfold shown. revert cs Hc. induction Hn as [|n names Hp _ IH]; intros [|v cs] Hc; cbn; try constructor.
  apply Forall_cons in Hc as [Hv Hc]. destruct (0 <? v)%Z; [constructor; [done|]|]; by apply IH.
Qed.

(** Reading the printed entries back. *)
Lemma read_entries l :
  Forall (fun '(n, v) => plain_name n /\ is_u64 v) l ->
  omap read_entry (map (fun '(n, v) => counter_text n v) l) = map (fun '(n, v) => (b n, v)) l.
Proof.
  induction 1 as [|[n v] l [Hn Hv] _ IH]; [done|]. cbn [map omap list_omap]. rewrite read_counter_text by done. by rewrite IH.
Qed.

Lemma read_log_counters cs :
  Forall is_u64 cs -> read_log (log_counters cs) = map (fun '(n, v) => (b n, v)) (shown COUNTER_NAMES cs).
Proof.
  intros Hc. pose proof (shown_forall _ _ counter_names_plain Hc) as Hall. unfold read_log, log_counters.
  fold (shown COUNTER_NAMES cs). destruct (shown COUNTER_NAMES cs) as [|e l] eqn:Hs; [done|]. rewrite <- Hs in *.
  rewrite split_join; [by apply read_entries|by rewrite Hs; destruct e|].
  apply Forall_fmap. eapply Forall_impl; [exact Hall|]. intros [n v] [Hn _]. by apply counter_text_no_space.
Qed.

(** A counter's value by its name, zero when it is not shown. *)
Definition value_of (entries : list (str * Z)) (name : str) : Z :=
  default 0%Z ((list_to_map entries : gmap str Z) !! name).

Lemma value_of_absent names cs name :
  name ∉ (b <$> names) -> (list_to_map (map (fun '(n, v) => (b n, v)) (shown names cs)) : gmap str Z) !! name = None.
Proof.
  intros Hn. apply not_elem_of_list_to_map_1. intros (p & -> & Hp)%list_elem_of_fmap.
  apply list_elem_of_In, in_map_iff in Hp as ([n v] & <- & Hin). apply filter_In in Hin as [Hin _].
  apply in_combine_l, list_elem_of_In in Hin. apply Hn. cbn. apply list_elem_of_fmap. by exists n.
Qed.

Lemma value_of_shown names : forall cs i n v,
  NoDup (b <$> names) -> Forall (fun v => 0 <= v)%Z cs -> names !! i = Some n -> cs !! i = Some v ->
  value_of (map (fun '(n, v) => (b n, v)) (shown names cs)) (b n) = v.
Proof.
  unfold value_of. induction names as [|m names IH]; intros cs i n v Hnd Hc Hi Hv; [done|].
  destruct cs as [|w cs]; [done|]. cbn in Hnd. apply NoDup_cons in Hnd as [Hm Hnd]. apply Forall_cons in Hc as [Hw Hc].
  unfold shown. cbn [zip zip_with List.filter]. fold (shown names cs). destruct i as [|i]; cbn in Hi, Hv.
  - simplify_eq. destruct (Z.ltb_spec 0 v); cbn [map list_to_map foldr fst snd].
    + by rewrite lookup_insert_eq.
    + rewrite value_of_absent by done. cbn. lia.
  - assert (b n <> b m) as Hne.
    { intros He. apply Hm. rewrite <- He. apply list_elem_of_fmap. exists n. split; [done|]. by eapply list_elem_of_lookup_2. }
    destruct (0 <? w)%Z; cbn [map list_to_map foldr fst snd]; [rewrite lookup_insert_ne by done|]; by eapply IH.
Qed.

(** The final log line determines every counter: reading the printed
    [name=value] entries back gives each counter its value, and the counters that the
    line leaves out are exactly zero. *)
Lemma log_line_reads_back cs c name :
  Counters_wf cs -> Forall is_u64 cs -> COUNTER_NAMES !! counter_index c = Some name ->
  value_of (read_log (log_counters cs)) (b name) = count_of cs c.
Proof.
  intros Hwf Hc Hname. rewrite read_log_counters by done.
  apply (value_of_shown _ _ (counter_index c)); [apply counter_names_distinct| |done|].
  - eapply Forall_impl; [exact Hc|]. intros v [? _]. done.
  - apply list_lookup_lookup_total_lt. rewrite Hwf. apply counter_index_lt.
Qed.

Lemma log_line_reads_back_witness :
  let cs := bump (bump (bump Counters_new Seen) Seen) Tlv in
  log_counters cs = b "seen=2 reject_tlv=1" /\ value_of (read_log (log_counters cs)) (b "seen") = count_of cs Seen.
Proof.
  split; [vm_compute; reflexivity|].
  apply log_line_reads_back; [reflexivity| |reflexivity]. repeat (apply Forall_cons; split; [vm_compute; split; congruence|]). apply Forall_nil. exact I.
Defined.
