(* ===== verification/System.v ===== *)
(** * The running daemon: the tasks of [src/src/app.rs] interleaved

    One state for the capture tasks, the inject task, the channel between them and
    the statistics.  An event is what one task does between two awaits, or what the
    outside does to it; [exec] is the step, [reachable] its closure from the state
    in which [run] starts the tasks.  The state also records what happened (the
    messages heard, the frames sent, taken and written): these records are never
    read by a step, and the theorems relate the counters and the TAP to them. *)

From Stdlib Require Import ZArith Lia Strings.Byte Strings.String Sorting.Sorted.
From stdpp Require Import base list numbers list_numbers sets.
From S2P Require Import Prelude Proto Parse Wire Verdict Relay MacText Config Packet Tap App.
Local Open Scope nat_scope.
Local Open Scope rrb_scope.

(** ** State *)

Inductive CapturePhase :=
| Receiving
| Sending (frame : list byte)
| Stopped.

Record Capture := mkCapture {
  cap_phase : CapturePhase;
  cap_buf : list byte;
  (* records *)
  heard : list KernelMsg;
  sent_by : list (list byte);
  unsent : list (list byte);
}.

Inductive InjectPhase :=
| Waiting
| Writing (frame : list byte)
| Ended.

(** A frame taken from the channel: when, and whether it was admitted. *)
Record Taken := mkTaken {
  taken_at : Z;
  taken_frame : list byte;
  taken_admitted : bool;
}.

Record Injector := mkInjector {
  inj_phase : InjectPhase;
  inj_limiter : Limiter;
  (* records *)
  taken : list Taken;
  writes : list (list byte * bool);
  unwritten : list (list byte);
}.

Inductive Event (IoError : Type) : Type :=
| Recv (i : nat) (polls : list (Poll IoError))
| Send (i : nat)
| AbortCapture (i : nat)
| Take (now : Z)
| Written (sent : result IoError nat)
| HungUp
| AbortInject.
Arguments Recv {IoError} i polls.
Arguments Send {IoError} i.
Arguments AbortCapture {IoError} i.
Arguments Take {IoError} now.
Arguments Written {IoError} sent.
Arguments HungUp {IoError}.
Arguments AbortInject {IoError}.

(** The limiter after a sequence of calls. *)
Definition limiter_after (l : Limiter) (times : list Z) : Limiter := fold_left (fun l t => (admit_ l t).2) times l.

Lemma limiter_after_snoc l times t : limiter_after l (times ++ [t]) = (admit_ (limiter_after l times) t).2.
Proof. unfold limiter_after. by rewrite fold_left_app. Qed.

Lemma admit_all_snoc times t : forall l,
  admit_all l (times ++ [t]) = admit_all l times ++ [(t, is_ok (admit_ (limiter_after l times) t).1)].
Proof.
  induction times as [|u times IH]; intros l; cbn [admit_all app].
  - cbn. by destruct (admit_ l t).
  - destruct (admit_ l u) as [r l'] eqn:Ha. rewrite IH. unfold limiter_after. cbn [fold_left]. by rewrite Ha.
Qed.

Lemma StronglySorted_snoc {A} (R : A -> A -> Prop) l x :
  StronglySorted R l -> Forall (fun y => R y x) l -> StronglySorted R (l ++ [x]).
Proof.
  induction 1 as [|y l Hs IH Hy]; intros Hall; cbn; [by repeat constructor|].
  inversion Hall; subst. constructor; [by apply IH|]. apply Forall_app_2; [done|by constructor].
Qed.

(** What an outside observer can tell: a message came in, a frame was let through to the
    TAP or dropped by the limiter, a write returned, a frame was given up. *)
Inductive Label :=
| Heard (msg : KernelMsg)
| Passed (secs : Z) (frame : list byte)
| Limited (secs : Z) (frame : list byte)
| Put (frame : list byte) (ok : bool)
| Lost (frame : list byte).

Section System.
Context `{CH : Channel} {IoError : Type}.
(** What [run] read from the settings, and the instant it started. *)
Variables (filter : Filter) (mode : Mode) (sources : nat) (pps start : Z).

Record System := mkSystem {
  sys_counters : list Z;
  captures : list Capture;
  queue : chan;
  injector : Injector;
  clock : Z;
  sent : list (nat * list byte);
  panicked : bool;
}.

Definition forward : bool := bool_decide (mode = Forward).

(** [vec![0u8; MAX_FRAME]] and the loop entered for the first time. *)
Definition Capture_new : Capture := mkCapture Receiving (replicate MAX_FRAME Byte.x00) [] [] [].

(** In observe mode there is no inject task and the receiver is dropped. *)
Definition Injector_new : Injector :=
  mkInjector (if forward then Waiting else Ended) (Limiter_new pps) [] [] [].

(** The tasks as [run] spawns them. *)
Definition init : System :=
  mkSystem Counters_new (replicate sources Capture_new) (chan_new QUEUE_DEPTH) Injector_new start [] false.

Definition set_capture (s : System) (i : nat) (c : Capture) : System :=
  mkSystem (sys_counters s) (<[i := c]> (captures s)) (queue s) (injector s) (clock s) (sent s) (panicked s).

Definition set_counters (s : System) (cs : list Z) : System :=
  mkSystem cs (captures s) (queue s) (injector s) (clock s) (sent s) (panicked s).

Definition set_injector (s : System) (j : Injector) : System :=
  mkSystem (sys_counters s) (captures s) (queue s) j (clock s) (sent s) (panicked s).

Definition set_queue (s : System) (q : chan) : System :=
  mkSystem (sys_counters s) (captures s) q (injector s) (clock s) (sent s) (panicked s).

(** ** Steps *)

(** The message that ends a run of polls. *)
Definition delivered (polls : list (Poll IoError)) : list KernelMsg :=
  match last polls with Some (Ready (Ok msg)) => [msg] | _ => [] end.

(** A receive, the increments, and the frame to send. *)
Definition exec_recv (i : nat) (polls : list (Poll IoError)) (s : System) : option System :=
  c ← captures s !! i;
  match cap_phase c with
  | Receiving =>
      match recv (cap_buf c) polls with
      | (None, buf', _) => Some (set_capture s i (mkCapture Receiving buf' (heard c) (sent_by c) (unsent c)))
      | (Some (Ok (n, vlan)), buf', []) =>
          match capture_frame filter forward (sys_counters s) (take n buf') vlan with
          | Some cap =>
              let phase := match cap_forward cap with Some out => Sending out | None => Receiving end in
              let c' := mkCapture phase buf' (heard c ++ delivered polls) (sent_by c) (unsent c) in
              Some (set_counters (set_capture s i c') (cap_counters cap))
          | None =>
              Some (mkSystem (sys_counters s) (captures s) (queue s) (injector s) (clock s) (sent s) true)
          end
      | (Some (Err _), buf', []) =>
          Some (set_capture s i (mkCapture Stopped buf' (heard c) (sent_by c) (unsent c)))
      | _ => None
      end
  | _ => None
  end.

Definition inject_alive (s : System) : bool :=
  match inj_phase (injector s) with Ended => false | _ => true end.

(** The send completes, waits for room, or finds the receiver gone. *)
Definition exec_send (i : nat) (s : System) : option System :=
  c ← captures s !! i;
  match cap_phase c with
  | Sending out =>
      if inject_alive s then
        q ← chan_send (queue s) out;
        let c' := mkCapture Receiving (cap_buf c) (heard c) (sent_by c ++ [out]) (unsent c) in
        let s' := set_queue (set_capture s i c') q in
        Some (mkSystem (sys_counters s') (captures s') (queue s') (injector s') (clock s') (sent s ++ [(i, out)]) (panicked s'))
      else Some (set_capture s i (mkCapture Stopped (cap_buf c) (heard c) (sent_by c) (unsent c ++ [out])))
  | _ => None
  end.

(** [tasks.shutdown()] drops a capture task at its await. *)
Definition exec_abort_capture (i : nat) (s : System) : option System :=
  c ← captures s !! i;
  match cap_phase c with
  | Receiving => Some (set_capture s i (mkCapture Stopped (cap_buf c) (heard c) (sent_by c) (unsent c)))
  | Sending out => Some (set_capture s i (mkCapture Stopped (cap_buf c) (heard c) (sent_by c) (unsent c ++ [out])))
  | Stopped => None
  end.

(** A frame comes off the channel and meets the limiter. *)
Definition exec_take (now : Z) (s : System) : option System :=
  let j := injector s in
  match inj_phase j with
  | Waiting =>
      if (clock s <=? now)%Z then
        '(frame, q) ← chan_recv (queue s);
        let secs := monotonic_secs start now in
        let '(ok, counters', limiter') := inject_admit (sys_counters s) (inj_limiter j) secs in
        let j' := mkInjector (if ok then Writing frame else Waiting) limiter'
                    (taken j ++ [mkTaken secs frame ok]) (writes j) (unwritten j) in
        Some (mkSystem counters' (captures s) q j' now (sent s) (panicked s))
      else None
  | _ => None
  end.

(** The TAP write returns. *)
Definition exec_written (sent : result IoError nat) (s : System) : option System :=
  let j := injector s in
  match inj_phase j with
  | Writing frame =>
      let outcome := inject sent in
      let j' := mkInjector Waiting (inj_limiter j) (taken j) (writes j ++ [(frame, is_ok outcome)]) (unwritten j) in
      Some (set_counters (set_injector s j') (inject_written (sys_counters s) outcome))
  | _ => None
  end.

Definition capture_stopped (c : Capture) : bool :=
  match cap_phase c with Stopped => true | _ => false end.

(** [rx.recv()] returns [None]: nothing queued and no sender left. *)
Definition exec_hung_up (s : System) : option System :=
  let j := injector s in
  match inj_phase j, chan_recv (queue s) with
  | Waiting, None =>
      if forallb capture_stopped (captures s)
      then Some (set_injector s (mkInjector Ended (inj_limiter j) (taken j) (writes j) (unwritten j)))
      else None
  | _, _ => None
  end.

(** [tasks.shutdown()] drops the inject task at its await. *)
Definition exec_abort_inject (s : System) : option System :=
  let j := injector s in
  match inj_phase j with
  | Waiting => Some (set_injector s (mkInjector Ended (inj_limiter j) (taken j) (writes j) (unwritten j)))
  | Writing frame =>
      Some (set_injector s (mkInjector Ended (inj_limiter j) (taken j) (writes j) (unwritten j ++ [frame])))
  | Ended => None
  end.

Definition exec (ev : Event IoError) (s : System) : option System :=
  if panicked s then None
  else match ev with
       | Recv i polls => exec_recv i polls s
       | Send i => exec_send i s
       | AbortCapture i => exec_abort_capture i s
       | Take now => exec_take now s
       | Written sent => exec_written sent s
       | HungUp => exec_hung_up s
       | AbortInject => exec_abort_inject s
       end.

Inductive reachable : System -> Prop :=
| reachable_init : reachable init
| reachable_step s ev s' : reachable s -> exec ev s = Some s' -> reachable s'.

(** A sequence of events. *)
Fixpoint execs (evs : list (Event IoError)) (s : System) : option System :=
  match evs with
  | [] => Some s
  | ev :: evs' => s' ← exec ev s; execs evs' s'
  end.

Lemma reachable_execs evs : forall s s', reachable s -> execs evs s = Some s' -> reachable s'.
Proof.
  induction evs as [|ev evs IH]; intros s s' Hs; cbn [execs].
  - by intros [= <-].
  - destruct (exec ev s) as [s1|] eqn:He; cbn [mbind option_bind]; [|done]. apply IH. by eapply reachable_step.
Qed.
(** ** What an outside observer sees of a step *)

Definition pending (p : CapturePhase) : list (list byte) :=
  match p with Sending out => [out] | _ => [] end.

Definition in_write (p : InjectPhase) : list (list byte) :=
  match p with Writing frame => [frame] | _ => [] end.

Definition capture_pending (s : System) (i : nat) : list (list byte) :=
  match captures s !! i with Some c => pending (cap_phase c) | None => [] end.

Definition taken_label (secs : Z) (frame : list byte) (ok : bool) : Label :=
  if ok then Passed secs frame else Limited secs frame.

Definition observe (ev : Event IoError) (s : System) : list Label :=
  match ev with
  | Recv i polls =>
      match captures s !! i with
      | Some c => match recv (cap_buf c) polls with (Some (Ok _), _, _) => Heard <$> delivered polls | _ => [] end
      | None => []
      end
  | Send i => if inject_alive s then [] else Lost <$> capture_pending s i
  | AbortCapture i => Lost <$> capture_pending s i
  | Take now =>
      let secs := monotonic_secs start now in
      match chan_recv (queue s) with
      | Some (frame, _) => [taken_label secs frame (inject_admit (sys_counters s) (inj_limiter (injector s)) secs).1.1]
      | None => []
      end
  | Written sent => (fun frame => Put frame (is_ok (inject sent))) <$> in_write (inj_phase (injector s))
  | HungUp => []
  | AbortInject => Lost <$> in_write (inj_phase (injector s))
  end.

(** ** What a step does

    The steps again with the receive loop resolved: the cases of every invariant. *)

Definition msg_vlan (msg : KernelMsg) : Vlan := fold_left vlan_step (control msg) Vlan_default.

Inductive view (s : System) : list Label -> System -> Prop :=
| view_wait i c buf' :
    captures s !! i = Some c -> cap_phase c = Receiving -> length buf' = length (cap_buf c) ->
    view s [] (set_capture s i (mkCapture Receiving buf' (heard c) (sent_by c) (unsent c)))
| view_heard i c buf' msg cap :
    captures s !! i = Some c -> cap_phase c = Receiving -> length buf' = length (cap_buf c) ->
    sll_pkttype msg <> PACKET_OUTGOING ->
    capture_frame filter forward (sys_counters s) (stored_in (cap_buf c) msg) (msg_vlan msg) = Some cap ->
    view s [Heard msg] (set_counters (set_capture s i
      (mkCapture (match cap_forward cap with Some out => Sending out | None => Receiving end)
         buf' (heard c ++ [msg]) (sent_by c) (unsent c))) (cap_counters cap))
| view_stop i c buf' :
    captures s !! i = Some c -> cap_phase c <> Stopped -> length buf' = length (cap_buf c) ->
    view s (Lost <$> pending (cap_phase c)) (set_capture s i (mkCapture Stopped buf' (heard c) (sent_by c) (unsent c ++ pending (cap_phase c))))
| view_sent i c out q :
    captures s !! i = Some c -> cap_phase c = Sending out -> inj_phase (injector s) <> Ended ->
    chan_send (queue s) out = Some q ->
    view s [] (mkSystem (sys_counters s)
      (<[i := mkCapture Receiving (cap_buf c) (heard c) (sent_by c ++ [out]) (unsent c)]> (captures s))
      q (injector s) (clock s) (sent s ++ [(i, out)]) (panicked s))
| view_taken now frame q ok cs' l' :
    inj_phase (injector s) = Waiting -> (clock s <= now)%Z -> chan_recv (queue s) = Some (frame, q) ->
    inject_admit (sys_counters s) (inj_limiter (injector s)) (monotonic_secs start now) = (ok, cs', l') ->
    view s [taken_label (monotonic_secs start now) frame ok] (mkSystem cs' (captures s) q
      (mkInjector (if ok then Writing frame else Waiting) l'
         (taken (injector s) ++ [mkTaken (monotonic_secs start now) frame ok])
         (writes (injector s)) (unwritten (injector s))) now (sent s) (panicked s))
| view_written (outcome : result IoError unit) frame :
    inj_phase (injector s) = Writing frame ->
    view s [Put frame (is_ok outcome)] (set_counters (set_injector s
      (mkInjector Waiting (inj_limiter (injector s)) (taken (injector s))
         (writes (injector s) ++ [(frame, is_ok outcome)]) (unwritten (injector s))))
      (inject_written (sys_counters s) outcome))
| view_ended :
    inj_phase (injector s) <> Ended ->
    view s (Lost <$> in_write (inj_phase (injector s))) (set_injector s
      (mkInjector Ended (inj_limiter (injector s)) (taken (injector s)) (writes (injector s))
         (unwritten (injector s) ++ in_write (inj_phase (injector s))))).

Hypothesis Hfilter : Filter_wf filter.

Lemma exec_recv_view i polls s s' : exec_recv i polls s = Some s' -> view s (observe (Recv i polls) s) s'.
Proof.
  unfold exec_recv, observe. destruct (captures s !! i) as [c|] eqn:Hc; cbn [mbind option_bind]; [|done].
  destruct (cap_phase c) eqn:Hp; [|done..]. destruct (recv (cap_buf c) polls) as [[r buf'] rest] eqn:Hr.
  pose proof (recv_length _ _ _ _ _ Hr) as Hl.
  destruct r as [[[n vlan]|e]|]; [destruct rest; [|done]..|].
  - destruct (recv_Ok _ _ _ _ _ _ Hr) as (pre & msg & -> & _ & Hin & _ & -> & ->).
    unfold delivered. rewrite last_snoc. fold (msg_vlan msg).
    destruct (capture_frame_total filter forward (sys_counters s) (stored_in (cap_buf c) msg) (msg_vlan msg) Hfilter)
      as [entry He].
    rewrite He. intros <-%Some_inj. exact (view_heard s i c buf' msg _ Hc Hp Hl Hin He).
  - intros [= <-]. pose proof (view_stop s i c buf' Hc) as Hv. rewrite Hp in Hv. cbn in Hv. rewrite app_nil_r in Hv. by apply Hv.
  - intros [= <-]. by apply view_wait.
Qed.

Lemma exec_view ev s s' : exec ev s = Some s' -> view s (observe ev s) s'.
Proof.
  unfold exec. destruct (panicked s); [done|]. destruct ev as [i polls|i|i|now|sent| |].
  - apply exec_recv_view.
  - unfold exec_send, observe, capture_pending, inject_alive.
    destruct (captures s !! i) as [c|] eqn:Hc; cbn [mbind option_bind]; [|done].
    pose proof (view_stop s i c (cap_buf c) Hc) as Hv.
    destruct (cap_phase c) as [|out|] eqn:Hp; [done| |done].
    destruct (inj_phase (injector s)) eqn:Hj.
    1, 2: destruct (chan_send (queue s) out) as [q|] eqn:Hq; [|done]; intros [= <-];
      eapply view_sent; [done..|by rewrite Hj|done].
    intros [= <-]. by apply Hv.
  - unfold exec_abort_capture, observe, capture_pending.
    destruct (captures s !! i) as [c|] eqn:Hc; cbn [mbind option_bind]; [|done].
    pose proof (view_stop s i c (cap_buf c) Hc) as Hv.
    destruct (cap_phase c) as [|out|] eqn:Hp; [| |done]; intros [= <-]; cbn [pending] in Hv.
    + rewrite app_nil_r in Hv. by apply Hv.
    + by apply Hv.
  - unfold exec_take, observe. destruct (inj_phase (injector s)) eqn:Hj; [|done..].
    destruct (Z.leb_spec (clock s) now); [|done].
    destruct (chan_recv (queue s)) as [[frame q]|] eqn:Hq; cbn [mbind option_bind]; [|done].
    destruct (inject_admit _ _ _) as [[ok cs'] l'] eqn:Ha. intros [= <-]. by eapply view_taken.
  - unfold exec_written, observe. destruct (inj_phase (injector s)) eqn:Hj; [done| |done].
    intros [= <-]. by apply view_written.
  - unfold exec_hung_up, observe. pose proof (view_ended s) as Hv. destruct (inj_phase (injector s)) eqn:Hj; [|done..].
    destruct (chan_recv (queue s)); [done|]. destruct (forallb _ _); [|done]. intros [= <-].
    cbn in Hv. rewrite app_nil_r in Hv. by apply Hv.
  - unfold exec_abort_inject, observe. pose proof (view_ended s) as Hv. destruct (inj_phase (injector s)) eqn:Hj; [| |done];
      intros [= <-]; cbn [in_write] in Hv; rewrite ?app_nil_r in Hv; by apply Hv.
Qed.

(** Rule induction over reachable states through the cases of [view]. *)
Lemma reachable_invariant (I : System -> Prop) :
  I init -> (forall s ls s', I s -> view s ls s' -> I s') -> forall s, reachable s -> I s.
Proof.
  intros Hi Hstep s. induction 1 as [|s ev s' _ IH He]; [done|]. eapply Hstep; [done|]. by eapply exec_view.
Qed.
(** ** The capture tasks *)

Definition msg_frame (msg : KernelMsg) : list byte := take MAX_FRAME (packet msg).

Definition msg_verdict (msg : KernelMsg) : result Counter Match := classify (msg_frame msg) (msg_vlan msg) filter.

Definition msg_out (msg : KernelMsg) : option (list byte) := relayed filter forward (msg_frame msg) (msg_vlan msg).

(** What a task has heard accounts, in order, for what it sent, is sending or could
    not send. *)
Record capture_ok (c : Capture) : Prop := {
  cap_buf_len : length (cap_buf c) = MAX_FRAME;
  cap_flow : sent_by c ++ pending (cap_phase c) ++ unsent c = omap msg_out (heard c);
  cap_lost : (cap_phase c = Stopped /\ length (unsent c) <= 1) \/ unsent c = [];
  cap_incoming : Forall (fun msg => sll_pkttype msg <> PACKET_OUTGOING) (heard c);
}.

Lemma stored_msg_frame c msg : capture_ok c -> stored_in (cap_buf c) msg = msg_frame msg.
Proof. intros [Hl _ _ _]. unfold stored_in. by rewrite Hl. Qed.

Lemma capture_ok_running c : capture_ok c -> cap_phase c <> Stopped -> unsent c = [].
Proof. intros Hc Hp. by destruct (cap_lost _ Hc) as [[? _]|]. Qed.

Lemma capture_ok_heard c buf' msg cap counters :
  capture_ok c -> cap_phase c = Receiving -> length buf' = length (cap_buf c) -> sll_pkttype msg <> PACKET_OUTGOING ->
  capture_frame filter forward counters (stored_in (cap_buf c) msg) (msg_vlan msg) = Some cap ->
  capture_ok (mkCapture (match cap_forward cap with Some out => Sending out | None => Receiving end)
                buf' (heard c ++ [msg]) (sent_by c) (unsent c)).
Proof.
  intros Hok Hp Hl Hin. rewrite stored_msg_frame by done.
  destruct (capture_frame_total filter forward counters (msg_frame msg) (msg_vlan msg) Hfilter) as [entry ->].
  intros <-%Some_inj. cbn [cap_forward]. fold (msg_out msg).
  assert (unsent c = []) as Hu by (apply capture_ok_running; [done|by rewrite Hp]).
  destruct Hok as [Hbuf Hflow _ Hall]. split; cbn.
  - by rewrite Hl.
  - rewrite omap_app, <- Hflow, Hp, Hu. cbn. rewrite !app_nil_r. by destruct (msg_out msg).
  - by right.
  - by apply Forall_app_2; [|constructor].
Qed.

Definition captures_ok (s : System) : Prop := panicked s = false /\ Forall capture_ok (captures s).

Lemma captures_ok_reachable s : reachable s -> captures_ok s.
Proof.
  apply reachable_invariant; clear s.
  { split; [done|]. apply Forall_replicate. split; [apply length_replicate|done|by right|constructor]. }
  intros s ls s' [Hpan Hall] [i c buf' Hc Hp Hl|i c buf' msg cap Hc Hp Hl Hin Hcap|i c buf' Hc Hp Hl|i c out q Hc Hp Hj Hq| | |];
    split; cbn; try done; apply Forall_insert; try done;
    pose proof (Forall_lookup_1 _ _ _ _ Hall Hc) as Hok.
  - destruct Hok as [Hbuf Hflow Hlost Hin]. rewrite Hp in Hflow, Hlost.
    split; cbn; [by rewrite Hl|done|right; by destruct Hlost as [[? _]|]|done].
  - by eapply capture_ok_heard.
  - pose proof (capture_ok_running _ Hok Hp) as Hu. destruct Hok as [Hbuf Hflow Hlost Hin]. rewrite Hu, app_nil_r in Hflow.
    split; cbn; [by rewrite Hl|by rewrite Hu|left|done].
    split; [done|]. rewrite Hu. destruct (cap_phase c); cbn; lia.
  - assert (unsent c = []) as Hu by (apply capture_ok_running; [done|by rewrite Hp]).
    destruct Hok as [Hbuf Hflow Hlost Hin]. rewrite Hp in Hflow.
    split; cbn; [done|by rewrite <- app_assoc|by right|done].
Qed.

(** ** The statistics *)

Definition heard_all (s : System) : list KernelMsg := concat (heard <$> captures s).

(** What a counter should show, from the records alone. *)
Definition expected (s : System) (c : Counter) : nat :=
  match c with
  | RateLimited => count_if (fun t => negb (taken_admitted t)) (taken (injector s))
  | Injected => count_if snd (writes (injector s))
  | InjectError => count_if (fun w => negb (snd w)) (writes (injector s))
  | _ => count_if (fun msg => counted forward c (msg_verdict msg)) (heard_all s)
  end.

Definition counters_ok (s : System) : Prop :=
  Counters_wf (sys_counters s) /\
  forall c, count_of (sys_counters s) c = (Z.of_nat (expected s c) mod u64_modulus)%Z.

Lemma counters_ok_range s c : counters_ok s -> (0 <= count_of (sys_counters s) c < u64_modulus)%Z.
Proof. intros [_ ->]. by apply Z.mod_pos_bound. Qed.

(** Heard messages, not positions, determine the expectation. *)
Lemma expected_same s s' :
  heard_all s' = heard_all s -> taken (injector s') = taken (injector s) -> writes (injector s') = writes (injector s) ->
  forall c, expected s' c = expected s c.
Proof. intros Hh Ht Hw c. unfold expected. by rewrite Hh, Ht, Hw. Qed.

Lemma counters_ok_same s s' :
  sys_counters s' = sys_counters s -> (forall c, expected s' c = expected s c) -> counters_ok s -> counters_ok s'.
Proof. intros Hc He [Hwf Hok]. split; [by rewrite Hc|]. intros c. by rewrite Hc, He. Qed.

(** One more increment, one more record. *)
Lemma counters_ok_bump s s' c0 :
  sys_counters s' = bump (sys_counters s) c0 ->
  (forall c, expected s' c = expected s c + if decide (c0 = c) then 1 else 0) ->
  counters_ok s -> counters_ok s'.
Proof.
  intros Hc He [Hwf Hok]. split; [rewrite Hc; by apply bump_wf|]. intros c.
  rewrite Hc, count_of_bump, He by done. destruct (decide (c0 = c)) as [->|].
  - rewrite Hok. unfold u64_incr. rewrite Zplus_mod_idemp_l. f_equal. lia.
  - by rewrite Nat.add_0_r.
Qed.

Lemma expected_heard s s' msg c :
  heard_all s' ≡ₚ heard_all s ++ [msg] -> injector s' = injector s ->
  expected s' c = expected s c + if counted forward c (msg_verdict msg) then 1 else 0.
Proof.
  intros Hh Hj. unfold expected. rewrite Hj. destruct c; rewrite ?Hh, ?count_if_snoc; try reflexivity; symmetry; apply Nat.add_0_r.
Qed.
Lemma counters_ok_heard s s' msg cap :
  Counters_wf (sys_counters s) ->
  capture_frame filter forward (sys_counters s) (msg_frame msg) (msg_vlan msg) = Some cap ->
  sys_counters s' = cap_counters cap -> heard_all s' ≡ₚ heard_all s ++ [msg] -> injector s' = injector s ->
  counters_ok s -> counters_ok s'.
Proof.
  intros Hwf Hcap Hcs Hh Hj Hok. split.
  - rewrite Hcs. destruct (capture_frame_total filter forward (sys_counters s) (msg_frame msg) (msg_vlan msg) Hfilter)
      as [entry He]. rewrite Hcap in He. apply Some_inj in He as ->. by apply bump_all_wf.
  - intros c. rewrite Hcs. rewrite (capture_frame_counts filter forward _ _ _ _ c Hfilter Hwf (counters_ok_range _ c Hok) Hcap).
    rewrite (expected_heard s s' msg c Hh Hj). fold (msg_verdict msg). destruct Hok as [_ ->].
    rewrite Zplus_mod_idemp_l. f_equal. destruct (counted _ _ _); lia.
Qed.

Lemma inject_admit_cases cs l t ok cs' l' :
  inject_admit cs l t = (ok, cs', l') ->
  admit_ l t = (if ok then Ok tt else Err RateLimited, l') /\ cs' = (if ok then cs else bump cs RateLimited).
Proof.
  unfold inject_admit, admit_. destruct (_ <=? _)%Z; by intros [= <- <- <-].
Qed.

Lemma counters_ok_reachable s : reachable s -> counters_ok s.
Proof.
  induction 1 as [|s ev s' Hr IH He].
  { split; [apply Counters_new_wf|]. intros c. cbn [sys_counters init]. rewrite count_of_new.
    unfold expected, heard_all. cbn [captures init injector]. replace (concat (heard <$> replicate sources Capture_new)) with (@nil KernelMsg).
    - by destruct c.
    - symmetry. induction sources as [|n IHn]; [done|]. exact IHn. }
  destruct (captures_ok_reachable _ Hr) as [_ Hall]. apply exec_view in He.
  destruct He as [i c buf' Hc Hp Hl|i c buf' msg cap Hc Hp Hl Hin Hcap|i c buf' Hc Hp Hl|i c out q Hc Hp Hj Hq
    |now frame q ok cs' l' Hj Hclk Hq Ha|outcome frame Hj|Hj].
  - apply (counters_ok_same s); [done| |done]. apply expected_same; [|done..]. by eapply concat_insert_same.
  - rewrite (stored_msg_frame c) in Hcap by exact (Forall_lookup_1 _ _ _ _ Hall Hc).
    eapply (counters_ok_heard s); [by destruct IH|exact Hcap|done| |done|done].
    by apply concat_insert_app with (x := c).
  - apply (counters_ok_same s); [done| |done]. apply expected_same; [|done..]. by eapply concat_insert_same.
  - apply (counters_ok_same s); [done| |done]. apply expected_same; [|done..]. by eapply concat_insert_same.
  - apply inject_admit_cases in Ha as [_ ->]. destruct ok.
    + apply (counters_ok_same s); [done| |done]. intros c. unfold expected, heard_all.
      cbn [injector taken writes captures]. rewrite count_if_snoc. cbn [taken_admitted negb]. by rewrite Nat.add_0_r.
    + apply (counters_ok_bump s _ RateLimited); [done| |done]. intros c. unfold expected, heard_all.
      cbn [injector taken writes captures]. rewrite count_if_snoc. by destruct c; try apply plus_n_O.
  - apply (counters_ok_bump s _ (if is_ok outcome then Injected else InjectError)); [by destruct outcome| |done]. intros c.
    unfold expected, heard_all. cbn [injector taken writes captures set_counters set_injector].
    rewrite !count_if_snoc. by destruct outcome, c; try apply plus_n_O.
  - apply (counters_ok_same s); [done| |done]. by apply expected_same.
Qed.
(** ** The flow of frames *)

Definition admitted (ts : list Taken) : list (list byte) := taken_frame <$> List.filter taken_admitted ts.

(** The frames that a source sent. *)
Definition from_source (i : nat) (l : list (nat * list byte)) : list (list byte) :=
  (List.filter (fun p => p.1 =? i) l).*2.

(** Nothing is reordered, duplicated or invented between the send and the TAP. *)
Record flow_ok (s : System) : Prop := {
  flow_fifo : (sent s).*2 = (taken_frame <$> taken (injector s)) ++ contents (queue s);
  flow_sent : (sent s).*2 ≡ₚ concat (sent_by <$> captures s);
  flow_order : forall i c, captures s !! i = Some c -> sent_by c = from_source i (sent s);
  flow_writes : admitted (taken (injector s)) =
    (writes (injector s)).*1 ++ in_write (inj_phase (injector s)) ++ unwritten (injector s);
  flow_lost : (inj_phase (injector s) = Ended /\ length (unwritten (injector s)) <= 1) \/ unwritten (injector s) = [];
  flow_capacity : capacity (queue s) = QUEUE_DEPTH;
  flow_bound : length (contents (queue s)) <= QUEUE_DEPTH;
}.

Context `{!ChannelOk}.

Lemma admitted_snoc ts t : admitted (ts ++ [t]) = admitted ts ++ (if taken_admitted t then [taken_frame t] else []).
Proof. unfold admitted. rewrite List.filter_app, fmap_app. cbn. by destruct (taken_admitted t). Qed.

(** The capture side moved and nothing was sent. *)
Lemma flow_ok_capture s i c c' :
  captures s !! i = Some c -> sent_by c' = sent_by c -> flow_ok s -> flow_ok (set_capture s i c').
Proof.
  intros Hc Hs [Hf Hp Ho Hw Hl Hcap Hb]. split; try done; cbn [sent captures set_capture].
  - by rewrite (concat_insert_same _ _ _ _ _ Hc Hs).
  - intros j cj [(<- & <- & _)|[_ Hj]]%list_lookup_insert_Some; [rewrite Hs; by apply Ho|by apply Ho].
Qed.

Lemma flow_ok_sent s i c c' out q :
  captures s !! i = Some c -> sent_by c' = sent_by c ++ [out] -> chan_send (queue s) out = Some q -> flow_ok s ->
  flow_ok (mkSystem (sys_counters s) (<[i := c']> (captures s)) q (injector s) (clock s) (sent s ++ [(i, out)]) (panicked s)).
Proof.
  intros Hc Hs Hq [Hf Hp Ho Hw Hl Hcap Hb].
  assert (chan_send (queue s) out <> None) as Hroom by (by rewrite Hq). rewrite send_full in Hroom.
  destruct (send_some _ _ _ Hq) as [Hqc Hqk].
  split; cbn [sent captures injector queue]; try done.
  - by rewrite fmap_app, Hqc, Hf, app_assoc.
  - rewrite fmap_app, (concat_insert_app _ _ _ _ _ _ Hc Hs). by apply Permutation_app_tail.
  - intros j cj Hj. unfold from_source. rewrite List.filter_app, fmap_app. cbn [List.filter fst].
    apply list_lookup_insert_Some in Hj as [(<- & <- & _)|[Hne Hj]].
    + rewrite Nat.eqb_refl, Hs. by rewrite (Ho _ _ Hc).
    + rewrite (proj2 (Nat.eqb_neq _ _) Hne), app_nil_r. by apply Ho.
  - by rewrite Hqk.
  - rewrite Hqc, length_app. cbn. lia.
Qed.

Lemma flow_ok_taken s cs' frame q (ok : bool) l' t now :
  inj_phase (injector s) = Waiting -> chan_recv (queue s) = Some (frame, q) -> flow_ok s ->
  flow_ok (mkSystem cs' (captures s) q
    (mkInjector (if ok then Writing frame else Waiting) l' (taken (injector s) ++ [mkTaken t frame ok])
       (writes (injector s)) (unwritten (injector s))) now (sent s) (panicked s)).
Proof.
  intros Hj Hq [Hf Hp Ho Hw Hl Hcap Hb]. destruct (recv_some _ _ _ Hq) as [Hqc Hqk].
  assert (unwritten (injector s) = []) as Hu by (destruct Hl as [[Hl _]|]; [by rewrite Hj in Hl|done]).
  rewrite Hqc in Hb. cbn in Hb.
  split; cbn [sent captures injector queue taken writes unwritten inj_phase]; try done.
  - rewrite fmap_app, <- app_assoc. by rewrite Hf, Hqc.
  - rewrite admitted_snoc, Hw, Hj, Hu. cbn. rewrite !app_nil_r. by destruct ok.
  - by right.
  - by rewrite Hqk.
  - lia.
Qed.

Lemma flow_ok_reachable s : reachable s -> flow_ok s.
Proof.
  apply reachable_invariant; clear s.
  { split; cbn [sent captures injector queue init taken writes unwritten inj_phase Injector_new].
    - by rewrite contents_new.
    - by induction sources.
    - by intros i c [-> _]%lookup_replicate.
    - by destruct forward.
    - by right.
    - apply capacity_new.
    - rewrite contents_new. cbn. lia. }
  intros s ls s' Hok [i c buf' Hc Hp Hl|i c buf' msg cap Hc Hp Hl Hin Hcap|i c buf' Hc Hp Hl|i c out q Hc Hp Hj Hq
    |now frame q ok cs' l' Hj Hclk Hq Ha|outcome frame Hj|Hj].
  - by apply (flow_ok_capture s i c).
  - destruct (flow_ok_capture s i c (mkCapture
      (match cap_forward cap with Some out => Sending out | None => Receiving end)
      buf' (heard c ++ [msg]) (sent_by c) (unsent c)) Hc eq_refl Hok). by split.
  - by apply (flow_ok_capture s i c).
  - by apply (flow_ok_sent s i c).
  - by apply flow_ok_taken.
  - destruct Hok as [Hf Hp Ho Hw Hlost Hcap Hb]. rewrite Hj in Hw, Hlost. split; try done.
    + cbn. rewrite fmap_app, <- app_assoc. exact Hw.
    + right. by destruct Hlost as [[? _]|].
  - destruct Hok as [Hf Hp Ho Hw Hlost Hcap Hb]. destruct Hlost as [[? _]|Hlost]; [done|]. rewrite Hlost, app_nil_r in Hw.
    split; try done.
    + cbn. by rewrite Hlost.
    + left. split; [done|]. cbn. rewrite Hlost. destruct (inj_phase (injector s)); cbn; lia.
Qed.
(** ** The rate *)

Hypothesis Hpps : (0 <= pps < 2 ^ 32)%Z.

Definition take_log (ts : list Taken) : list (Z * bool) := (fun t => (taken_at t, taken_admitted t)) <$> ts.

(** The limiter has seen exactly the taken frames, at non-decreasing times. *)
Record rate_ok (s : System) : Prop := {
  rate_log : take_log (taken (injector s)) = admit_all (Limiter_new pps) (taken_at <$> taken (injector s));
  rate_limiter : inj_limiter (injector s) = limiter_after (Limiter_new pps) (taken_at <$> taken (injector s));
  rate_sorted : StronglySorted Z.le (taken_at <$> taken (injector s));
  rate_clock : Forall (fun t => t <= monotonic_secs start (clock s))%Z (taken_at <$> taken (injector s));
}.

Lemma monotonic_secs_mono a c : (a <= c)%Z -> (monotonic_secs start a <= monotonic_secs start c)%Z.
Proof. intros. unfold monotonic_secs. apply Z.div_le_mono; lia. Qed.

Lemma rate_ok_reachable s : reachable s -> rate_ok s.
Proof.
  apply reachable_invariant; clear s.
  { split; cbn; constructor. }
  intros s ls s' [Hlog Hlim Hs Hclk] Hv. destruct Hv as [| | | |now frame q ok cs' l' Hj Hnow Hq Ha| |]; try by split.
  apply inject_admit_cases in Ha as [Ha _]. set (t := monotonic_secs start now) in *.
  assert (Forall (fun u => u <= t)%Z (taken_at <$> taken (injector s))) as Ht.
  { eapply Forall_impl; [exact Hclk|]. intros u Hu. pose proof (monotonic_secs_mono _ _ Hnow). cbn in *. lia. }
  split; cbn [injector taken inj_limiter clock]; unfold take_log in *.
  - rewrite !fmap_app, Hlog. change (taken_at <$> [mkTaken t frame ok]) with [t].
    rewrite admit_all_snoc, <- Hlim, Ha. by destruct ok.
  - rewrite fmap_app. change (taken_at <$> [mkTaken t frame ok]) with [t]. by rewrite limiter_after_snoc, <- Hlim, Ha.
  - rewrite fmap_app. by apply StronglySorted_snoc.
  - rewrite fmap_app. apply Forall_app_2; [done|]. constructor; [|done]. cbn. lia.
Qed.
End System.
