(* ===== verification/Types.v ===== *)
(** * The types of the daemon's state, preserved by every step

    The model keeps integers as [Z] and frames as lists of bytes.  [typed] says what
    the source's types and buffer sizes promise of a state, and more: every frame
    between a capture task and the TAP is an untagged RRB frame of the grammar.  It
    holds where [run] starts the tasks and after every step, from any typed state. *)

From Stdlib Require Import ZArith Lia Strings.Byte Strings.String Sorting.Sorted.
From stdpp Require Import base list numbers list_numbers sets.
From S2P Require Import Prelude Proto Parse Wire Verdict Relay MacText Config Packet Tap App System.
Local Open Scope nat_scope.
Local Open Scope rrb_scope.

Lemma u64_incr_typed z : is_u64 (u64_incr z).
Proof. by apply Z.mod_pos_bound. Qed.

(** [[AtomicU64; N]]: the number of slots and the range of each. *)
Definition counters_typed (cs : Counters) : Prop := Counters_wf cs /\ Forall is_u64 cs.

Lemma bump_typed cs c : counters_typed cs -> counters_typed (bump cs c).
Proof. intros [Hwf Hall]. split; [by apply bump_wf|]. apply Forall_insert; [done|apply u64_incr_typed]. Qed.

Lemma bump_all_typed l : forall cs, counters_typed cs -> counters_typed (bump_all cs l).
Proof. induction l as [|c l IH]; intros cs Hcs; [done|]. by apply IH, bump_typed. Qed.

(** A frame on its way to the TAP. *)
Definition relay_frame (frame : list byte) : Prop :=
  exists w, wire_wf w /\ inline_tag w = None /\ frame = encode w /\ length frame <= MAX_FRAME.

Lemma untag_relay_frame (fr out : list byte) v f m :
  Filter_wf f -> classify fr v f = Ok m -> untag fr v = Some out -> relay_frame out.
Proof.
  intros Hf Hc Hu. destruct (untag_accepted _ _ _ _ Hf Hc) as (w & Hw & -> & _ & Hl & _ & Hu').
  rewrite Hu in Hu'. injection Hu' as ->. exists (untagged w). split_and!; [by apply untagged_wf|done|done|].
  destruct (inline_tag w) as [t|] eqn:Ht; [pose proof (length_untagged w t Ht); lia|].
  replace (encode (untagged w)) with (encode w); [done|]. unfold encode, untagged. by rewrite Ht.
Qed.

Lemma relayed_frame filter forward (frame out : list byte) vlan :
  Filter_wf filter -> relayed filter forward frame vlan = Some out -> relay_frame out.
Proof.
  intros Hf. unfold relayed. destruct (classify frame vlan filter) as [m|e] eqn:Hc; [|by rewrite andb_false_r].
  destruct forward; cbn [andb is_ok]; [|done]. by eapply untag_relay_frame.
Qed.

Section Typing.
Context `{CH : Channel} `{!ChannelOk} {IoError : Type}.
Variables (filter : Filter) (mode : Mode) (sources : nat) (pps start : Z).
Hypothesis Hfilter : Filter_wf filter.
Hypothesis Hpps : (0 <= pps < 2 ^ 32)%Z.

Definition capture_typed (c : Capture) : Prop :=
  length (cap_buf c) = MAX_FRAME /\ Forall relay_frame (pending (cap_phase c)).

Definition queue_typed (q : chan) : Prop :=
  capacity q = QUEUE_DEPTH /\ length (contents q) <= QUEUE_DEPTH /\ Forall relay_frame (contents q).

Definition limiter_typed (l : Limiter) : Prop := per_second l = pps /\ (0 <= used l <= pps)%Z /\ is_u64 (window l).

Record typed (s : System) : Prop := {
  typed_running : panicked s = false;
  typed_counters : counters_typed (sys_counters s);
  typed_sources : length (captures s) = sources;
  typed_captures : Forall capture_typed (captures s);
  typed_queue : queue_typed (queue s);
  typed_writing : Forall relay_frame (in_write (inj_phase (injector s)));
  typed_limiter : limiter_typed (inj_limiter (injector s));
  typed_clock : (start <= clock s)%Z;
}.

(** Seconds since the start that a [u64] can hold. *)
Definition uptime_fits (s : System) : Prop := (monotonic_secs start (clock s) < u64_modulus)%Z.

Lemma typed_init : typed (init mode sources pps start).
Proof.
  split; cbn [panicked sys_counters captures queue injector inj_phase inj_limiter clock init Injector_new].
  - done.
  - split; [apply Counters_new_wf|]. apply Forall_replicate. split; [lia|reflexivity].
  - apply length_replicate.
  - apply Forall_replicate. split; [apply length_replicate|constructor].
  - split_and!; [apply capacity_new|rewrite contents_new; cbn; lia|rewrite contents_new; constructor].
  - destruct (forward mode); constructor.
  - unfold limiter_typed, is_u64, u64_modulus. cbn [per_second used window Limiter_new]. unfold u64_modulus. lia.
  - lia.
Qed.

(** Only a task changed. *)
Lemma typed_set_capture s i c : typed s -> capture_typed c -> typed (set_capture s i c).
Proof.
  intros [Hr Hc Hs Hall Hq Hw Hl Hk] Hct. split; try done; cbn [captures set_capture].
  - by rewrite length_insert.
  - by apply Forall_insert.
Qed.

Lemma typed_set_counters s cs : typed s -> counters_typed cs -> typed (set_counters s cs).
Proof. intros [Hr Hc Hs Hall Hq Hw Hl Hk] Hcs. by split. Qed.

Lemma typed_set_injector s j :
  typed s -> Forall relay_frame (in_write (inj_phase j)) -> limiter_typed (inj_limiter j) -> typed (set_injector s j).
Proof. intros [Hr Hc Hs Hall Hq Hw Hl Hk] Hj Hlj. by split. Qed.

Lemma queue_typed_send q x q' : queue_typed q -> relay_frame x -> chan_send q x = Some q' -> queue_typed q'.
Proof.
  intros (Hcap & Hb & Hall) Hx Hq. assert (chan_send q x <> None) as Hroom by (by rewrite Hq). rewrite send_full in Hroom.
  destruct (send_some _ _ _ Hq) as [Hc Hk]. rewrite Hcap in Hroom. unfold queue_typed. rewrite Hc, Hk, length_app. cbn.
  split_and!; [done|lia|]. by apply Forall_app_2; [|constructor].
Qed.

Lemma queue_typed_recv q x q' : queue_typed q -> chan_recv q = Some (x, q') -> relay_frame x /\ queue_typed q'.
Proof.
  intros (Hcap & Hb & Hall) Hq. destruct (recv_some _ _ _ Hq) as [Hc Hk]. rewrite Hc in Hb, Hall. cbn in Hb.
  apply Forall_cons in Hall as [Hx Hall]. unfold queue_typed. rewrite Hk. split_and!; [done..|lia|done].
Qed.

Lemma limiter_typed_admit l t ok cs cs' l' :
  limiter_typed l -> is_u64 t -> inject_admit cs l t = (ok, cs', l') -> limiter_typed l'.
Proof.
  intros (Hp & Hu & Hw) Ht [Ha _]%inject_admit_cases.
  assert (Limiter_ok l) as Hok by (split; rewrite Hp; lia).
  destruct (admit_ok _ _ _ _ Hok Ha) as ([Hp' Hu'] & Hwin & Hs & _). rewrite Hs, Hp in Hu'.
  unfold limiter_typed. rewrite Hs, Hp, Hwin. split_and!; [done|lia..|exact Ht].
Qed.

Lemma counters_typed_admit cs l t ok cs' l' :
  counters_typed cs -> inject_admit cs l t = (ok, cs', l') -> counters_typed cs'.
Proof. intros Hcs [_ ->]%inject_admit_cases. destruct ok; [done|by apply bump_typed]. Qed.

Lemma typed_view s ls s' : typed s -> view (IoError := IoError) filter mode start s ls s' -> uptime_fits s' -> typed s'.
Proof.
  intros Ht [i c buf' Hc Hp Hl|i c buf' msg cap Hc Hp Hl Hin Hcap|i c buf' Hc Hp Hl|i c out q Hc Hp Hj Hq
    |now frame q ok cs' l' Hj Hclk Hq Ha|outcome frame Hj|Hj] Hup;
    try (destruct (Forall_lookup_1 _ _ _ _ (typed_captures _ Ht) Hc) as [Hbuf Hpend]).
  - apply typed_set_capture; [done|]. split; [cbn [cap_buf]; congruence|constructor].
  - destruct (capture_frame_total filter (forward mode) (sys_counters s) (stored_in (cap_buf c) msg) (msg_vlan msg) Hfilter)
      as [entry He]. rewrite Hcap in He. apply Some_inj in He as ->. cbn [cap_counters cap_forward].
    apply typed_set_counters; [|apply bump_all_typed, Ht]. apply typed_set_capture; [done|].
    split; [cbn [cap_buf]; congruence|]. cbn [cap_phase]. destruct (relayed _ _ _ _) as [out|] eqn:Hr; [|constructor].
    repeat constructor. by eapply relayed_frame.
  - apply typed_set_capture; [done|]. split; [cbn [cap_buf]; congruence|constructor].
  - rewrite Hp in Hpend. apply Forall_cons in Hpend as [Hout _].
    destruct (typed_set_capture s i (mkCapture Receiving (cap_buf c) (heard c) (sent_by c ++ [out]) (unsent c)) Ht)
      as [Hr Hct Hs Hall Hqt Hw Hlt Hk]; [by split; [|constructor]|].
    split; try done. by apply (queue_typed_send (queue s) out).
  - destruct Ht as [Hr Hct Hs Hall Hqt Hw Hlt Hk]. destruct (queue_typed_recv _ _ _ Hqt Hq) as [Hx Hq'].
    split; try done; cbn [sys_counters injector inj_phase inj_limiter clock].
    + by eapply counters_typed_admit.
    + destruct ok; repeat constructor. done.
    + eapply limiter_typed_admit; [exact Hlt| |exact Ha]. split; [|exact Hup].
      unfold monotonic_secs. apply Z.div_pos; lia.
    + lia.
  - apply typed_set_counters; [apply typed_set_injector; [done|constructor|apply Ht]|].
    destruct outcome; apply bump_typed, Ht.
  - apply typed_set_injector; [done|constructor|apply Ht].
Qed.

(** C9. Types are preserved: the state in which [run] starts the tasks is typed, and so is
    the state after any step from any typed state (reachable or not) while the uptime
    fits a [u64]: the statistics keep their slots and stay below 2^64, each capture
    buffer keeps its 2048 bytes, the queue its bound, the limiter's registers their
    range, and every frame held by a task or the queue is an untagged RRB frame of the
    grammar that fits the buffer. *)
Theorem steps_preserve_types :
  typed (init mode sources pps start) /\
  forall (ev : Event IoError) s s',
    typed s -> exec filter mode start ev s = Some s' -> uptime_fits s' -> typed s'.
Proof.
  split; [apply typed_init|]. intros ev s s' Ht He. eapply typed_view; [done|]. by eapply exec_view.
Qed.
End Typing.

(** A frame is heard and waits to be sent. *)
Definition test_heard_event : Event unit :=
  Recv 0 [Ready (Ok (mkMsg (test_frame 3 false (encode_tlv test_local_tlv)) 0 []))].

Definition test_heard : System :=
  default (init Forward 1 20 0) (exec test_filter Forward 0 test_heard_event (init Forward 1 20 0)).

Lemma steps_preserve_types_witness :
  pending ∘ cap_phase <$> captures test_heard = [[encode (untagged (test_wire 3 false [test_local_tlv]))]] /\
  typed 1 20 0 test_heard.
Proof.
  destruct (steps_preserve_types (IoError := unit) test_filter Forward 1 20 0 test_filter_wf ltac:(lia)) as [Hinit Hstep].
  split; [vm_compute; reflexivity|]. apply (Hstep test_heard_event (init Forward 1 20 0)).
  - exact Hinit.
  - vm_compute. reflexivity.
  - vm_compute. reflexivity.
Defined.
