(* ===== verification/Daemon.v ===== *)
(** * The daemon's guarantees

    What the interleaved tasks of [System] promise on every reachable state: exact
    statistics, conservation and order of frames, what the TAP may receive and how
    fast, passivity in observe mode, and progress up to a clean end. *)

From Stdlib Require Import ZArith Lia Strings.Byte Strings.String Sorting.Sorted.
From stdpp Require Import base list numbers list_numbers sets.
From S2P Require Import Prelude Proto Parse Wire Verdict Relay MacText Config Packet Tap App Log System.
Local Open Scope nat_scope.
Local Open Scope rrb_scope.

(** A run of two sources: both hear a frame for the bridge and a malformed packet, the
    first also an echo of this host; one good frame reaches the TAP, one is queued. *)
Definition test_good : KernelMsg := mkMsg (test_frame 3 false (encode_tlv test_local_tlv)) 0 [].

Definition test_bad : KernelMsg := mkMsg (replicate 60 Byte.x08) 0 [].

Definition test_echo : KernelMsg := mkMsg (test_frame 3 false (encode_tlv test_local_tlv)) PACKET_OUTGOING [].

Definition test_events : list (Event unit) :=
  [Recv 0 [WouldBlock; Ready (Ok test_echo); Ready (Ok test_good)]; Recv 1 [Ready (Ok test_bad)]; Send 0;
   Recv 0 [Ready (Ok test_bad)]; Take 5000000000%Z; Recv 1 [Ready (Ok test_good)]; Written (Ok 60); Send 1;
   AbortCapture 0; AbortCapture 1].

Definition test_run (mode : Mode) (evs : list (Event unit)) : System :=
  default (init mode 2 20 0) (execs test_filter mode 0 evs (init mode 2 20 0)).

(** The state after the first [n] events of the run. *)
Definition test_state (n : nat) : System := test_run Forward (take n test_events).

Lemma test_state_reachable n : n <= 10 -> reachable (IoError := unit) test_filter Forward 2 20 0 (test_state n).
Proof.
  intros Hn. eapply (reachable_execs _ _ _ _ _ (take n test_events)); [apply reachable_init|].
  do 11 (destruct n as [|n]; [vm_compute; reflexivity|]). lia.
Qed.

Section Guarantees.
Context `{CH : Channel} `{!ChannelOk} {IoError : Type}.
Variables (filter : Filter) (mode : Mode) (sources : nat) (pps start : Z).
Hypothesis Hfilter : Filter_wf filter.
Local Abbreviation reach := (reachable (IoError := IoError) filter mode sources pps start).

(** C8. The statistics are exact, modulo 2^64, in every reachable state: [seen]
    counts the messages heard on all sources, each [reject_*] slot those the
    classifier rejected for that reason, [matched] and the message-type slots the
    accepted ones, [observed] the accepted ones in observe mode only, and
    [injected], [inject_error] and [rate_limited] the outcomes at the TAP. *)
Theorem counters_are_exact s :
  reach s ->
  let shows c n := count_of (sys_counters s) c = (Z.of_nat n mod u64_modulus)%Z in
  let msgs := heard_all s in
  shows Seen (length msgs) /\
  shows Matched (count_if (fun msg => is_ok (msg_verdict filter msg)) msgs) /\
  (forall c, c ∈ reject_counters -> shows c (count_if (fun msg => bool_decide (msg_verdict filter msg = Err c)) msgs)) /\
  (forall c, c ∈ kind_counters ->
     shows c (count_if (fun msg => match msg_verdict filter msg with
                                   | Ok m => bool_decide (kind_counter (kind m) = c)
                                   | Err _ => false
                                   end) msgs)) /\
  shows Observed (if forward mode then 0 else count_if (fun msg => is_ok (msg_verdict filter msg)) msgs) /\
  shows RateLimited (count_if (fun t => negb (taken_admitted t)) (taken (injector s))) /\
  shows Injected (count_if snd (writes (injector s))) /\
  shows InjectError (count_if (fun w => negb (snd w)) (writes (injector s))).
Proof.
  intros Hs shows msgs. apply (counters_ok_reachable _ _ _ _ _ Hfilter) in Hs as [_ Hc]. unfold shows.
  split_and!.
  - by rewrite (Hc Seen), <- count_if_true.
  - exact (Hc Matched).
  - intros c Hin. rewrite (Hc c). unfold reject_counters in Hin. rewrite !elem_of_cons, elem_of_nil in Hin.
    by destruct_or? Hin; subst c.
  - intros c Hin. rewrite (Hc c). unfold kind_counters in Hin. rewrite !elem_of_cons, elem_of_nil in Hin.
    by destruct_or? Hin; subst c.
  - rewrite (Hc Observed). unfold expected. cbn [counted]. destruct (forward mode); [by rewrite count_if_false|done].
  - exact (Hc RateLimited).
  - exact (Hc Injected).
  - exact (Hc InjectError).
Qed.

Lemma counters_ok_typed s : counters_ok filter mode s -> Forall is_u64 (sys_counters s).
Proof.
  intros Hok. apply Forall_lookup_2. intros i v Hv.
  assert (exists c, counter_index c = i) as [c <-].
  { apply counter_index_surj. rewrite <- (proj1 Hok). by eapply lookup_lt_Some. }
  pose proof (counters_ok_range _ _ _ c Hok) as Hr. unfold count_of in Hr.
  by rewrite (list_lookup_total_correct _ _ _ Hv) in Hr.
Qed.

(** C10. What the operator reads is exact: in the line logged for any reachable state, the
    entry of a counter, or zero when it has none, is modulo 2^64 what the history of
    the run calls for. *)
Theorem logged_statistics_are_exact s c name :
  reach s -> COUNTER_NAMES !! counter_index c = Some name ->
  value_of (read_log (log_counters (sys_counters s))) (b name) = (Z.of_nat (expected filter mode s c) mod u64_modulus)%Z.
Proof.
  intros Hs%(counters_ok_reachable _ _ _ _ _ Hfilter) Hname.
  rewrite (log_line_reads_back _ c name (proj1 Hs) (counters_ok_typed _ Hs) Hname). apply Hs.
Qed.
(** ** Frames *)

Definition limited (ts : list Taken) : list (list byte) := taken_frame <$> List.filter (fun t => negb (taken_admitted t)) ts.

Lemma taken_split ts : taken_frame <$> ts ≡ₚ admitted ts ++ limited ts.
Proof.
  induction ts as [|t ts IH]; [done|]. unfold admitted, limited. cbn [List.filter fmap list_fmap].
  destruct (taken_admitted t); cbn [negb fmap list_fmap app].
  - by constructor.
  - rewrite <- Permutation_middle. by constructor.
Qed.

Lemma captures_flow cs :
  Forall (capture_ok filter mode) cs ->
  omap (msg_out filter mode) (concat (heard <$> cs)) ≡ₚ
    concat (sent_by <$> cs) ++ concat ((fun c => pending (cap_phase c)) <$> cs) ++ concat (unsent <$> cs).
Proof.
  induction 1 as [|c cs Hc _ IH]; [done|]. cbn [fmap list_fmap concat]. rewrite omap_app, IH, <- (cap_flow _ _ _ Hc).
  generalize (sent_by c), (pending (cap_phase c)), (unsent c), (concat (sent_by <$> cs)),
    (concat ((fun c => pending (cap_phase c)) <$> cs)), (concat (unsent <$> cs)).
  intros. solve_Permutation.
Qed.

Lemma frames_accounted s :
  reach s ->
  let j := injector s in
  omap (msg_out filter mode) (heard_all s) ≡ₚ
    (writes j).*1 ++ in_write (inj_phase j) ++ unwritten j ++ limited (taken j) ++ contents (queue s) ++
    concat ((fun c => pending (cap_phase c)) <$> captures s) ++ concat (unsent <$> captures s).
Proof.
  intros Hs j. destruct (captures_ok_reachable _ _ _ _ _ Hfilter _ Hs) as [_ Hall].
  destruct (flow_ok_reachable _ _ _ _ _ Hfilter _ Hs) as [Hf Hp _ Hw _ _ _]. unfold heard_all.
  rewrite (captures_flow _ Hall), <- Hp, Hf, taken_split, Hw. subst j. by rewrite <- !app_assoc.
Qed.

(** The frames that the limiter dropped in second [t]. *)
Definition dropped_at (t : Z) (ts : list Taken) : nat :=
  count_if (fun x => (taken_at x =? t)%Z && negb (taken_admitted x)) ts.

Lemma taken_counts t ts :
  requests_at t (taken_at <$> ts) = admitted_at t (take_log ts) + dropped_at t ts.
Proof.
  unfold requests_at, admitted_at, take_log, dropped_at, count_if. induction ts as [|[u x ok] ts IH]; [done|].
  cbn. destruct (u =? t)%Z, ok; cbn; rewrite IH; lia.
Qed.

Lemma dropped_excess s t :
  (0 <= pps < 2 ^ 32)%Z -> reach s ->
  dropped_at t (taken (injector s)) = requests_at t (taken_at <$> taken (injector s)) - Z.to_nat pps.
Proof.
  intros Hpps Hs. destruct (rate_ok_reachable _ _ _ _ _ Hfilter _ Hs) as [Hlog _ Hsorted _].
  pose proof (taken_counts t (taken (injector s))) as Ht. rewrite Hlog, admit_all_exact in Ht by (by apply Limiter_new_ok || done || by left).
  cbn [Limiter_new per_second used window] in Ht. destruct (_ =? _)%Z; lia.
Qed.

(** ** Runs in which no task is aborted *)

Definition not_abort (ev : Event IoError) : Prop :=
  match ev with AbortCapture _ | AbortInject => False | _ => True end.

(** Nothing was given up, and a task that could send has its receiver. *)
Record calm (s : System) : Prop := {
  calm_sent : Forall (fun c => unsent c = []) (captures s);
  calm_written : unwritten (injector s) = [];
  calm_ended : inj_phase (injector s) = Ended -> mode = Forward -> Forall (fun c => cap_phase c = Stopped) (captures s);
}.

Lemma calm_init : calm (init mode sources pps start).
Proof.
  split; cbn [captures injector init unwritten inj_phase Injector_new]; [by apply Forall_replicate|done|].
  intros He Hm. unfold forward in He. by rewrite bool_decide_true in He.
Qed.

Lemma observe_pending s c : reach s -> mode = Observe -> c ∈ captures s -> pending (cap_phase c) = [].
Proof.
  intros Hs Hm Hc. destruct (captures_ok_reachable _ _ _ _ _ Hfilter _ Hs) as [_ Hall].
  pose proof (cap_flow _ _ _ (proj1 (Forall_forall _ _) Hall _ Hc)) as Hflow.
  replace (omap (msg_out filter mode) (heard c)) with (@nil (list byte)) in Hflow.
  - by apply app_nil in Hflow as [_ [? _]%app_nil].
  - clear Hflow. induction (heard c) as [|msg l IH]; [done|]. cbn [omap list_omap].
    assert (msg_out filter mode msg = None) as ->; [|done]. unfold msg_out, relayed, forward. by rewrite bool_decide_false by (by rewrite Hm).
Qed.

Lemma stopped_lookup s i c :
  forallb capture_stopped (captures s) = true -> captures s !! i = Some c -> cap_phase c = Stopped.
Proof.
  intros Hst Hc. apply list_elem_of_lookup_2, list_elem_of_In in Hc.
  pose proof (proj1 (forallb_forall _ _) Hst _ Hc) as Hx. unfold capture_stopped in Hx. by destruct (cap_phase c).
Qed.

(** How the inject task comes to its end. *)
Lemma ended_by (ev : Event IoError) s s' :
  exec filter mode start ev s = Some s' -> inj_phase (injector s') = Ended ->
  inj_phase (injector s) = Ended \/ forallb capture_stopped (captures s') = true \/ ev = AbortInject.
Proof.
  unfold exec. destruct (panicked s); [done|]. destruct ev as [i polls|i|i|now|sent| |]; [..|by auto].
  all: unfold exec_recv, exec_send, exec_abort_capture, exec_take, exec_written, exec_hung_up.
  - destruct (captures s !! i) as [c|]; cbn [mbind option_bind]; [|done]. destruct (cap_phase c); [|done..].
    destruct (recv _ _) as [[[[[n v]|e]|] buf'] [|]]; try done; try (intros [= <-]; by left).
    destruct (capture_frame _ _ _ _ _); intros [= <-]; by left.
  - destruct (captures s !! i) as [c|]; cbn [mbind option_bind]; [|done]. destruct (cap_phase c); [done| |done].
    destruct (inject_alive s); [|intros [= <-]; by left].
    destruct (chan_send _ _); cbn [mbind option_bind]; [|done]. intros [= <-]; by left.
  - destruct (captures s !! i) as [c|]; cbn [mbind option_bind]; [|done]. destruct (cap_phase c); [..|done]; intros [= <-]; by left.
  - destruct (inj_phase (injector s)); [|done..]. destruct (_ <=? _)%Z; [|done].
    destruct (chan_recv _) as [[x q]|]; cbn [mbind option_bind]; [|done].
    destruct (inject_admit _ _ _) as [[[] cs'] l']; by intros [= <-].
  - destruct (inj_phase (injector s)); [done| |done]. by intros [= <-].
  - destruct (inj_phase (injector s)); [|done..]. destruct (chan_recv _); [done|].
    destruct (forallb _ _) eqn:Hst; [|done]. intros [= <-] _. by right; left.
Qed.

(** In a calm state no step but an abort gives a frame up. *)
Lemma calm_no_loss (ev : Event IoError) s x :
  reach s -> calm s -> not_abort ev -> Lost x ∉ observe start ev s.
Proof.
  intros Hs Hcalm Hev. destruct ev as [i polls|i|i|now|sent| |]; cbn [observe not_abort] in *; try done.
  - destruct (captures s !! i); [|apply not_elem_of_nil]. destruct (recv _ _) as [[[[]|] ?] ?]; try apply not_elem_of_nil.
    by intros (y & ? & _)%list_elem_of_fmap.
  - unfold inject_alive, capture_pending. destruct (inj_phase (injector s)) eqn:Hj; try apply not_elem_of_nil.
    destruct (captures s !! i) as [c|] eqn:Hc; [|apply not_elem_of_nil].
    assert (pending (cap_phase c) = []) as ->; [|apply not_elem_of_nil]. apply list_elem_of_lookup_2 in Hc.
    assert (mode = Observe \/ mode = Forward) as [Hm|Hm] by (destruct mode; auto); [by apply (observe_pending s)|].
    by rewrite (proj1 (Forall_forall _ _) (calm_ended _ Hcalm Hj Hm) _ Hc).
  - destruct (chan_recv _) as [[y q]|]; [|apply not_elem_of_nil]. unfold taken_label.
    intros Hx%list_elem_of_singleton. by destruct (_.1.1).
  - by intros (y & ? & _)%list_elem_of_fmap.
  - apply not_elem_of_nil.
Qed.

Lemma calm_step (ev : Event IoError) s s' :
  reach s -> calm s -> not_abort ev -> exec filter mode start ev s = Some s' -> calm s'.
Proof.
  intros Hs Hcalm Hev He. pose proof (calm_no_loss ev s) as Hloss. specialize (fun x => Hloss x Hs Hcalm Hev).
  pose proof (ended_by _ _ _ He) as Hend. apply exec_view in He; [|done].
  assert (forall c i, captures s !! i = Some c -> cap_phase c <> Stopped -> inj_phase (injector s) = Ended -> mode <> Forward) as Hrun.
  { intros c i Hc Hp Hj Hm. apply list_elem_of_lookup_2 in Hc. by apply Hp, (proj1 (Forall_forall _ _) (calm_ended _ Hcalm Hj Hm)). }
  assert (forall c i, captures s !! i = Some c -> unsent c = []) as Hun.
  { intros c i Hc. exact (Forall_lookup_1 _ _ _ _ (calm_sent _ Hcalm) Hc). }
  revert Hloss Hend.
  destruct He as [i c buf' Hc Hp Hl|i c buf' msg cap Hc Hp Hl Hin Hcap|i c buf' Hc Hp Hl|i c out q Hc Hp Hj Hq
    |now frame q ok cs' l' Hj Hclk Hq Ha|outcome frame Hj|Hj]; intros Hloss Hend; split;
    cbn [captures injector unwritten inj_phase set_capture set_counters set_injector]; try apply Hcalm;
    try (apply Forall_insert; [apply Hcalm|cbn; by eapply Hun]); try done.
  - intros HE Hm. by destruct (Hrun c i Hc ltac:(by rewrite Hp) HE).
  - intros HE Hm. by destruct (Hrun c i Hc ltac:(by rewrite Hp) HE).
  - apply Forall_insert; [apply Hcalm|]. cbn. rewrite (Hun c i Hc).
    destruct (pending (cap_phase c)) as [|x l]; [done|]. destruct (Hloss x). by left.
  - intros HE Hm. by destruct (Hrun c i Hc Hp HE).
  - by destruct ok.
  - rewrite (calm_written _ Hcalm). destruct (in_write _) as [|x l]; [done|]. destruct (Hloss x). by left.
  - intros _ Hm. destruct (Hend eq_refl) as [|[Hst| ->]]; [done| |done].
    apply Forall_forall. intros c [i Hc]%list_elem_of_lookup. by eapply stopped_lookup.
Qed.

Lemma calm_execs evs : forall s s',
  reach s -> calm s -> Forall not_abort evs -> execs filter mode start evs s = Some s' -> calm s'.
Proof.
  induction evs as [|ev evs IH]; intros s s' Hs Hcalm Hall; cbn [execs]; [by intros [= <-]|].
  apply Forall_cons in Hall as [Hev Hall].
  destruct (exec filter mode start ev s) as [s1|] eqn:He; cbn [mbind option_bind]; [|done]. intros Hrun.
  eapply IH; [by eapply reachable_step|by eapply calm_step|done|done].
Qed.



Lemma msg_out_authorized msg out :
  msg_out filter mode msg = Some out ->
  mode = Forward /\ exists w, wire_wf w /\ msg_frame msg = encode w /\ authorized filter (msg_vlan msg) w /\
    out = encode (untagged w).
Proof.
  unfold msg_out, relayed, forward. case_bool_decide as Hm; cbn [andb]; [|done].
  destruct (classify _ _ _) as [m|e] eqn:Hc; cbn [is_ok]; [|done]. intros Hu. split; [done|].
  destruct (untag_accepted _ _ _ _ Hfilter Hc) as (w & Hw & He & Ha & _ & _ & Hu').
  exists w. split_and!; try done. congruence.
Qed.

Lemma write_was_heard s out : reach s -> out ∈ (writes (injector s)).*1 -> exists msg, msg ∈ heard_all s /\ msg_out filter mode msg = Some out.
Proof.
  intros Hs Hin. destruct (captures_ok_reachable _ _ _ _ _ Hfilter _ Hs) as [_ Hall].
  destruct (flow_ok_reachable _ _ _ _ _ Hfilter _ Hs) as [Hf Hp _ Hw _ _ _].
  apply list_elem_of_omap. unfold heard_all. rewrite (captures_flow _ Hall), <- Hp, Hf, taken_split, Hw. rewrite !elem_of_app. auto.
Qed.

(** C4. The TAP only ever receives authorised traffic: a frame written to it is the
    untagged form of a well-formed RRB frame that arrived on a source port, was not
    sent by this host, and passes the whole policy of the filter; this happens in
    forward mode only. *)
Theorem tap_receives_authorized_frames s out ok :
  reach s -> (out, ok) ∈ writes (injector s) ->
  mode = Forward /\
  exists msg w, msg ∈ heard_all s /\ sll_pkttype msg <> PACKET_OUTGOING /\
    wire_wf w /\ take MAX_FRAME (packet msg) = encode w /\ authorized filter (msg_vlan msg) w /\ out = encode (untagged w).
Proof.
  intros Hs Hin. destruct (write_was_heard s out Hs) as (msg & Hmsg & Hout).
  { apply list_elem_of_fmap. by exists (out, ok). }
  destruct (msg_out_authorized _ _ Hout) as (Hm & w & Hw & He & Ha & Ho). split; [done|]. exists msg, w. split_and!; try done.
  destruct (captures_ok_reachable _ _ _ _ _ Hfilter _ Hs) as [_ Hall].
  unfold heard_all in Hmsg. apply list_elem_of_In, in_concat in Hmsg as (h & Hin' & Hh%list_elem_of_In).
  apply list_elem_of_In, list_elem_of_fmap in Hin' as (c & -> & Hc).
  eapply Forall_forall in Hall; [|exact Hc]. pose proof (cap_incoming _ _ _ Hall) as Hinc.
  by eapply Forall_forall in Hinc.
Qed.
(** C17. Order is kept: the frames of each source are sent in the order in which the
    source heard them, what was sent leaves the queue first in, first out, and the
    TAP sees a subsequence of it. *)
Theorem frames_keep_their_order s :
  reach s ->
  (forall i c, captures s !! i = Some c -> from_source i (sent s) `prefix_of` omap (msg_out filter mode) (heard c)) /\
  (sent s).*2 = (taken_frame <$> taken (injector s)) ++ contents (queue s) /\
  (writes (injector s)).*1 `sublist_of` (sent s).*2.
Proof.
  intros Hs. destruct (captures_ok_reachable _ _ _ _ _ Hfilter _ Hs) as [_ Hall].
  destruct (flow_ok_reachable _ _ _ _ _ Hfilter _ Hs) as [Hf _ Ho Hw _ _ _]. split_and!.
  - intros i c Hc. rewrite <- (Ho _ _ Hc), <- (cap_flow _ _ _ (Forall_lookup_1 _ _ _ _ Hall Hc)). by eexists.
  - done.
  - rewrite Hf. transitivity (admitted (taken (injector s))).
    { rewrite Hw. apply sublist_inserts_r. done. }
    apply sublist_inserts_r. unfold admitted. generalize (taken (injector s)). intros ts.
    induction ts as [|t ts IH]; cbn [List.filter fmap list_fmap]; [done|].
    destruct (taken_admitted t); cbn [fmap list_fmap]; [by apply sublist_skip|by apply sublist_cons].
Qed.

(** C20. In observe mode the daemon is passive: nothing is ever sent, queued or
    written, and every accepted frame is counted as observed. *)
Theorem observe_mode_is_passive s :
  reach s -> mode = Observe ->
  sent s = [] /\ contents (queue s) = [] /\ writes (injector s) = [] /\
  count_of (sys_counters s) Observed = count_of (sys_counters s) Matched /\
  count_of (sys_counters s) Injected = 0%Z.
Proof.
  intros Hs Hm. destruct (captures_ok_reachable _ _ _ _ _ Hfilter _ Hs) as [_ Hall].
  destruct (flow_ok_reachable _ _ _ _ _ Hfilter _ Hs) as [Hf Hp _ Hw _ _ _].
  apply (counters_ok_reachable _ _ _ _ _ Hfilter) in Hs as [_ Hc].
  assert (forall msg, msg_out filter mode msg = None) as Hnone.
  { intros msg. unfold msg_out, relayed, forward. by rewrite bool_decide_false by (by rewrite Hm). }
  assert (forall msgs, omap (msg_out filter mode) msgs = []) as Hno.
  { intros msgs. induction msgs as [|msg msgs IH]; [done|]. cbn. by rewrite Hnone. }
  pose proof (captures_flow _ Hall) as Hflow. rewrite Hno in Hflow. symmetry in Hflow.
  apply Permutation_nil_r, app_eq_nil in Hflow as [Hsent _].
  rewrite Hsent in Hp. apply Permutation_nil_r in Hp. apply fmap_nil_inv in Hp. rewrite Hp in Hf. symmetry in Hf.
  apply app_eq_nil in Hf as [Ht%fmap_nil_inv Hq]. rewrite Ht in Hw. symmetry in Hw. apply app_eq_nil in Hw as [Hw%fmap_nil_inv _].
  split_and!; try done.
  - rewrite !Hc. f_equal. f_equal. unfold expected. apply count_if_ext. intros msg. cbn [counted].
    unfold forward. by rewrite bool_decide_false by (by rewrite Hm).
  - rewrite Hc. unfold expected. by rewrite Hw.
Qed.
(** C16. The limiter governs the TAP: of the frames taken from the queue in any one
    second of the daemon's clock, all up to [packets_per_second] and no more go on to
    the TAP, and nothing is written that was not let through. *)
Theorem tap_rate_is_limited s t :
  (0 <= pps < 2 ^ 32)%Z -> reach s ->
  let j := injector s in
  admitted_at t (take_log (taken j)) = Nat.min (Z.to_nat pps) (requests_at t (taken_at <$> taken j)) /\
  List.length (writes j) <= count_if taken_admitted (taken j).
Proof.
  intros Hpps Hs j. destruct (flow_ok_reachable _ _ _ _ _ Hfilter _ Hs) as [_ _ _ Hw _ _ _].
  destruct (rate_ok_reachable _ _ _ _ _ Hfilter _ Hs) as [Hlog _ Hsorted _]. split.
  - unfold j. rewrite Hlog, admit_all_exact; [|by apply Limiter_new_ok|done|by left].
    cbn [Limiter_new per_second used window]. f_equal. destruct (_ =? _)%Z; lia.
  - apply (f_equal List.length) in Hw. unfold admitted in Hw. rewrite !length_app, !length_fmap in Hw.
    unfold count_if, j. lia.
Qed.

(** ** Progress *)

Lemma exec_take_enabled s x rest :
  panicked s = false -> inj_phase (injector s) = Waiting -> contents (queue s) = x :: rest ->
  exists s', exec (IoError := IoError) filter mode start (Take (clock s)) s = Some s' /\ contents (queue s') = rest /\
    captures s' = captures s /\ panicked s' = false /\ capacity (queue s') = capacity (queue s) /\
    inj_phase (injector s') <> Ended.
Proof.
  intros Hp Hj Hq. unfold exec, exec_take. rewrite Hp, Hj, Z.leb_refl.
  destruct (chan_recv (queue s)) as [[y q]|] eqn:Hr; [|by rewrite recv_none, Hq in Hr].
  destruct (recv_some _ _ _ Hr) as [Hc Hk]. rewrite Hq in Hc. injection Hc as <- Hc. cbn [mbind option_bind].
  destruct (inject_admit _ _ _) as [[ok cs'] l']. eexists. split; [reflexivity|]. split_and!; try done.
  by destruct ok.
Qed.

Lemma exec_written_enabled s frame (sent : result IoError nat) :
  panicked s = false -> inj_phase (injector s) = Writing frame ->
  exists s', exec (IoError := IoError) filter mode start (Written sent) s = Some s' /\ queue s' = queue s /\
    captures s' = captures s /\ panicked s' = false /\ inj_phase (injector s') = Waiting.
Proof. intros Hp Hj. unfold exec, exec_written. rewrite Hp, Hj. by eexists. Qed.

Lemma exec_send_enabled s i c out :
  panicked s = false -> captures s !! i = Some c -> cap_phase c = Sending out ->
  (inj_phase (injector s) = Ended \/ List.length (contents (queue s)) < capacity (queue s)) ->
  is_Some (exec (IoError := IoError) filter mode start (Send i) s).
Proof.
  intros Hp Hc Hph Hroom. unfold exec, exec_send, inject_alive. rewrite Hp, Hc. cbn [mbind option_bind]. rewrite Hph.
  destruct (inj_phase (injector s)); [..|done]; destruct Hroom as [|Hroom]; try done;
    (destruct (chan_send (queue s) out) eqn:Hq; [done|apply send_full in Hq; lia]).
Qed.

(** The inject task alone can make room, in at most two of its steps. *)
Lemma make_room s (sent : result IoError nat) :
  panicked s = false -> inj_phase (injector s) <> Ended -> 0 < List.length (contents (queue s)) <= capacity (queue s) ->
  exists evs s', List.length evs <= 2 /\ Forall (fun ev => ev = Written sent \/ ev = Take (clock s)) evs /\
    execs (IoError := IoError) filter mode start evs s = Some s' /\ captures s' = captures s /\ panicked s' = false /\
    List.length (contents (queue s')) < capacity (queue s').
Proof.
  intros Hp Hj [Hpos Hle]. destruct (contents (queue s)) as [|x rest] eqn:Hq; [cbn in Hpos; lia|]. cbn in Hle.
  destruct (inj_phase (injector s)) as [|frame|] eqn:Hph; [| |done].
  - destruct (exec_take_enabled s x rest Hp Hph Hq) as (s' & He & Hc & Hcap & Hp' & Hk & _).
    exists [Take (clock s)], s'. split; [cbn; lia|]. split; [by constructor; [right|]|].
    cbn [execs]. rewrite He. split_and!; try done. rewrite Hc, Hk. lia.
  - destruct (exec_written_enabled s frame sent Hp Hph) as (s1 & He1 & Hq1 & Hc1 & Hp1 & Hph1).
    assert (clock s1 = clock s) as Hclk.
    { revert He1. unfold exec, exec_written. rewrite Hp, Hph. by intros [= <-]. }
    rewrite <- Hq1 in Hq. destruct (exec_take_enabled s1 x rest Hp1 Hph1 Hq) as (s' & He & Hc & Hcap & Hp' & Hk & _).
    exists [Written sent; Take (clock s)], s'. split; [cbn; lia|]. split; [constructor; [by left|]; constructor; [by right|done]|].
    cbn [execs]. rewrite He1. cbn [mbind option_bind]. rewrite <- Hclk, He. split_and!; try done; [congruence|].
    rewrite Hc, Hk, Hq1. lia.
Qed.

(** C18. No deadlock: a capture task that waits to send can always go on after at most
    two steps of the inject task, whatever the TAP answers; and a task whose receiver
    is gone is not stuck either. *)
Theorem blocked_sender_gets_through s i c out (sent : result IoError nat) :
  reach s -> captures s !! i = Some c -> cap_phase c = Sending out ->
  exists evs s', List.length evs <= 2 /\ Forall (fun ev => ev = Written sent \/ ev = Take (clock s)) evs /\
    execs (IoError := IoError) filter mode start evs s = Some s' /\
    is_Some (exec (IoError := IoError) filter mode start (Send i) s').
Proof.
  intros Hs Hc Hph. destruct (captures_ok_reachable _ _ _ _ _ Hfilter _ Hs) as [Hp _].
  destruct (flow_ok_reachable _ _ _ _ _ Hfilter _ Hs) as [_ _ _ _ _ Hcap Hb].
  assert ((inj_phase (injector s) = Ended \/ List.length (contents (queue s)) < capacity (queue s)) \/
          (inj_phase (injector s) <> Ended /\ 0 < List.length (contents (queue s)) <= capacity (queue s))) as [Hroom|[Hj Hfull]].
  { rewrite Hcap. unfold QUEUE_DEPTH in *. destruct (inj_phase (injector s)); [| |by left; left];
      (destruct (decide (List.length (contents (queue s)) < 64)); [left; by right|right; split; [done|lia]]). }
  - exists [], s. split_and!; [cbn; lia|done|done|]. by eapply exec_send_enabled.
  - destruct (make_room s sent Hp Hj Hfull) as (evs & s' & Hlen & Hevs & He & Hc' & Hp' & Hroom).
    exists evs, s'. split_and!; try done. rewrite <- Hc' in Hc. eapply exec_send_enabled; eauto.
Qed.

(** What is left to do once the capture tasks have stopped. *)
Definition remaining (s : System) : nat :=
  match inj_phase (injector s) with
  | Waiting => 1 + 2 * List.length (contents (queue s))
  | Writing _ => 2 + 2 * List.length (contents (queue s))
  | Ended => 0
  end.

(** With the capture tasks stopped only the inject task moves, towards its end. *)
Lemma stopped_step s ls s' :
  forallb capture_stopped (captures s) = true -> view (IoError := IoError) filter mode start s ls s' ->
  remaining s' < remaining s /\ captures s' = captures s.
Proof.
  intros Hst [i c buf' Hc Hp Hl|i c buf' msg cap Hc Hp Hl Hin Hcap|i c buf' Hc Hp Hl|i c out q Hc Hp Hj Hq
    |now frame q ok cs' l' Hj Hclk Hq Ha|ok frame Hj|Hj];
    try (pose proof (stopped_lookup _ _ _ Hst Hc); congruence); split; try done; unfold remaining; cbn.
  - rewrite Hj. destruct (recv_some _ _ _ Hq) as [-> _]. destruct ok; cbn; lia.
  - rewrite Hj. lia.
  - destruct (inj_phase (injector s)); [lia|lia|done].
Qed.

(** The hang-up ends the inject task with nothing left over. *)
Lemma hung_up_ends s s' :
  reach s -> exec (IoError := IoError) filter mode start HungUp s = Some s' ->
  inj_phase (injector s') = Ended /\ contents (queue s') = [] /\
  (writes (injector s')).*1 = admitted (taken (injector s')) /\ unwritten (injector s') = [].
Proof.
  intros Hs. destruct (flow_ok_reachable _ _ _ _ _ Hfilter _ Hs) as [_ _ _ Hw Hlost _ _].
  unfold exec, exec_hung_up. destruct (panicked s); [done|]. destruct (inj_phase (injector s)) eqn:Hph; [|done..].
  destruct (chan_recv (queue s)) eqn:Hq; [done|]. destruct (forallb _ _); [|done]. intros [= <-]. apply recv_none in Hq.
  destruct Hlost as [[? _]|Hlost]; [done|]. rewrite Hlost, app_nil_r in Hw. by split_and!.
Qed.

(** What the inject task does by itself, when the TAP answers [sent]. *)
Definition own_step (s : System) (sent : result IoError nat) (ev : Event IoError) : Prop :=
  ev = Take (clock s) \/ ev = Written sent \/ ev = HungUp.

Lemma stopped_enabled s (sent : result IoError nat) :
  panicked s = false -> forallb capture_stopped (captures s) = true -> inj_phase (injector s) <> Ended ->
  exists ev s', own_step s sent ev /\ exec (IoError := IoError) filter mode start ev s = Some s' /\ clock s' = clock s.
Proof.
  intros Hp Hst Hj. unfold own_step. destruct (inj_phase (injector s)) as [|frame|] eqn:Hph; [| |done].
  - destruct (contents (queue s)) as [|x rest] eqn:Hq.
    + exists HungUp. unfold exec, exec_hung_up. rewrite Hp, Hph, (proj2 (recv_none _) Hq), Hst. eexists. split; [auto|by split].
    + destruct (exec_take_enabled s x rest Hp Hph Hq) as (s' & He & _). exists (Take (clock s)), s'.
      split; [auto|]. split; [exact He|]. revert He. unfold exec, exec_take. rewrite Hp, Hph, Z.leb_refl.
      destruct (chan_recv (queue s)) as [[y q]|]; cbn [mbind option_bind]; [|done].
      destruct (inject_admit _ _ _) as [[ok cs'] l']. by intros [= <-].
  - exists (Written sent). unfold exec, exec_written. rewrite Hp, Hph. eexists. split; [auto|by split].
Qed.

(** The task's own steps take it to its end, which it reaches by the hang-up. *)
Lemma stopped_drains (sent : result IoError nat) n : forall s,
  remaining s <= n -> reach s -> forallb capture_stopped (captures s) = true -> inj_phase (injector s) <> Ended ->
  exists evs s0 s', List.length evs < n /\ Forall (own_step s sent) evs /\
    execs (IoError := IoError) filter mode start evs s = Some s0 /\
    exec (IoError := IoError) filter mode start HungUp s0 = Some s' /\ reach s0.
Proof.
  induction n as [|n IH]; intros s Hn Hs Hst Hj.
  { unfold remaining in Hn. destruct (inj_phase (injector s)); [lia|lia|done]. }
  destruct (captures_ok_reachable _ _ _ _ _ Hfilter _ Hs) as [Hp _].
  destruct (stopped_enabled s sent Hp Hst Hj) as (ev & s1 & Hev & He & Hclk).
  assert (reach s1) as Hs1 by (by eapply reachable_step).
  pose proof He as Hv. apply exec_view in Hv; [|done]. apply stopped_step in Hv as [Hlt Hc]; [|done].
  assert (ev = HungUp \/ inj_phase (injector s1) <> Ended) as [->|Hj1].
  { destruct Hev as [->|[->| ->]]; [right|right|by left]; revert He; unfold exec; rewrite Hp; unfold exec_take, exec_written;
      destruct (inj_phase (injector s)); try done.
    - rewrite Z.leb_refl. destruct (chan_recv (queue s)) as [[y q]|]; cbn [mbind option_bind]; [|done].
      destruct (inject_admit _ _ _) as [[ok cs'] l']. intros [= <-]. by destruct ok.
    - by intros [= <-]. }
  - exists [], s, s1. split_and!; try done. cbn. lia.
  - destruct (IH s1) as (evs & s0 & s' & Hl & Hevs & Hrun & Hh & Hs0); [lia|done|by rewrite Hc|done|].
    exists (ev :: evs), s0, s'. cbn [List.length execs]. rewrite He. split_and!; [lia| |done..].
    constructor; [done|]. unfold own_step in *. by rewrite Hclk in Hevs.
Qed.

(** C19. Once the capture tasks have stopped the inject task drains the queue and ends by
    itself, without being aborted: whatever the TAP answers, at most 129 steps of its
    own (taking a frame, the return of a write) lead to the hang-up, which is then
    possible and ends it with an empty queue and every admitted frame handed to a TAP
    write; until then one of these steps is always possible, and no step whatsoever
    leads away from the end. *)
Theorem inject_task_drains_and_ends s (sent : result IoError nat) :
  reach s -> forallb capture_stopped (captures s) = true -> inj_phase (injector s) <> Ended ->
  (exists evs s0 s', List.length evs <= 129 /\ Forall (own_step s sent) evs /\
     execs (IoError := IoError) filter mode start evs s = Some s0 /\
     exec (IoError := IoError) filter mode start HungUp s0 = Some s' /\
     inj_phase (injector s') = Ended /\ contents (queue s') = [] /\
     (writes (injector s')).*1 = admitted (taken (injector s')) /\ unwritten (injector s') = []) /\
  (exists ev s', own_step s sent ev /\ exec (IoError := IoError) filter mode start ev s = Some s') /\
  (forall ev s', exec (IoError := IoError) filter mode start ev s = Some s' ->
     remaining s' < remaining s /\ captures s' = captures s).
Proof.
  intros Hs Hst Hj. destruct (captures_ok_reachable _ _ _ _ _ Hfilter _ Hs) as [Hp _].
  destruct (flow_ok_reachable _ _ _ _ _ Hfilter _ Hs) as [_ _ _ _ _ _ Hb]. split; [|split].
  - destruct (stopped_drains sent 130 s) as (evs & s0 & s' & Hl & Hevs & Hrun & Hh & Hs0); [|done..|].
    { unfold remaining. unfold QUEUE_DEPTH in Hb. destruct (inj_phase (injector s)); lia. }
    exists evs, s0, s'. split; [lia|]. split; [done|]. split; [done|]. split; [done|]. by apply hung_up_ends in Hh.
  - destruct (stopped_enabled s sent Hp Hst Hj) as (ev & s' & ? & ? & _). eauto.
  - intros ev s' He. eapply stopped_step; [done|]. by eapply exec_view.
Qed.
End Guarantees.

(** C40. A packet longer than the 2048-byte capture buffer is cut, not rejected: the
    classifier would reject the packet for its length, but the capture task only sees
    its first 2048 bytes, and when those are acceptable the cut frame is relayed. *)
Theorem oversize_packet_is_cut_not_rejected {IoError : Type} filter counters (buf : list byte) msg m :
  Filter_wf filter -> List.length buf = MAX_FRAME -> MAX_FRAME < List.length (packet msg) ->
  sll_pkttype msg <> PACKET_OUTGOING ->
  classify (take MAX_FRAME (packet msg)) (msg_vlan msg) filter = Ok m ->
  classify (packet msg) (msg_vlan msg) filter = Err Length /\
  exists buf' cap out,
    recv (IoError := IoError) buf [Ready (Ok msg)] = (Some (Ok (MAX_FRAME, msg_vlan msg)), buf', []) /\
    capture_frame filter true counters (take MAX_FRAME buf') (msg_vlan msg) = Some cap /\
    cap_forward cap = Some out /\ untag (take MAX_FRAME (packet msg)) (msg_vlan msg) = Some out.
Proof.
  intros Hf Hb Hl Hin Hc. split.
  { unfold classify. cbn [rf_len slice_ReadFrame]. rewrite (proj2 (Nat.ltb_lt _ _) Hl), orb_true_r. done. }
  destruct (recv_first (IoError := IoError) [] msg [] buf) as (buf' & Hr & Ht); [constructor|done|].
  assert (List.length (stored_in buf msg) = MAX_FRAME) as Hn by (unfold stored_in; rewrite length_take; lia).
  rewrite Hn in Hr, Ht. unfold stored_in in Ht. rewrite Hb in Ht.
  destruct (capture_frame_total filter true counters (take MAX_FRAME (packet msg)) (msg_vlan msg) Hf) as [entry He].
  destruct (untag_accepted _ _ _ _ Hf Hc) as (w & _ & _ & _ & _ & _ & Hu).
  eexists buf', _, (encode (untagged w)). split; [exact Hr|]. rewrite Ht. split; [exact He|]. split; [|done].
  cbn [cap_forward]. unfold relayed. by rewrite Hc.
Qed.

(** ** The guarantees at concrete runs *)

Lemma counters_are_exact_witness :
  count_of (sys_counters (test_state 8)) Seen = 4%Z /\ count_of (sys_counters (test_state 8)) Matched = 2%Z /\
  count_of (sys_counters (test_state 8)) Injected = 1%Z.
Proof.
  destruct (counters_are_exact (IoError := unit) test_filter Forward 2 20 0 test_filter_wf (test_state 8)) as (H1 & H2 & _ & _ & _ & _ & H3 & _).
  { apply test_state_reachable. lia. }
  split_and!; [rewrite H1|rewrite H2|rewrite H3]; vm_compute; reflexivity.
Defined.

Lemma logged_statistics_are_exact_witness :
  log_counters (sys_counters (test_state 8)) = b "seen=4 reject_vlan=2 matched=2 injected=1 push=2" /\
  value_of (read_log (log_counters (sys_counters (test_state 8)))) (b "seen") = 4%Z.
Proof.
  split; [vm_compute; reflexivity|].
  rewrite (logged_statistics_are_exact (IoError := unit) test_filter Forward 2 20 0 test_filter_wf (test_state 8) Seen "seen");
    [vm_compute; reflexivity|apply test_state_reachable; lia|reflexivity].
Defined.


Lemma tap_receives_authorized_frames_witness :
  exists msg w, msg ∈ heard_all (test_state 8) /\ sll_pkttype msg <> PACKET_OUTGOING /\
    wire_wf w /\ take MAX_FRAME (packet msg) = encode w /\ authorized test_filter (msg_vlan msg) w /\
    encode (untagged (test_wire 3 false [test_local_tlv])) = encode (untagged w).
Proof.
  apply (tap_receives_authorized_frames (IoError := unit) test_filter Forward 2 20 0 test_filter_wf (test_state 8) _ true).
  - apply test_state_reachable. lia.
  - vm_compute. left.
Defined.

Lemma frames_keep_their_order_witness :
  (writes (injector (test_state 8))).*1 `sublist_of` (sent (test_state 8)).*2.
Proof.
  apply (frames_keep_their_order (IoError := unit) test_filter Forward 2 20 0 test_filter_wf (test_state 8)).
  apply test_state_reachable. lia.
Defined.

(** The same first events in observe mode. *)
Definition test_observed : System :=
  test_run Observe [Recv 0 [Ready (Ok test_echo); Ready (Ok test_good)]; Recv 1 [Ready (Ok test_bad)]].

Lemma test_observed_reachable : reachable (IoError := unit) test_filter Observe 2 20 0 test_observed.
Proof.
  eapply (reachable_execs _ _ _ _ _ [Recv 0 [Ready (Ok test_echo); Ready (Ok test_good)]; Recv 1 [Ready (Ok test_bad)]]);
    [apply reachable_init|]. vm_compute. reflexivity.
Qed.

Lemma observe_mode_is_passive_witness :
  sent test_observed = [] /\ writes (injector test_observed) = [] /\ count_of (sys_counters test_observed) Observed = 1%Z.
Proof.
  destruct (observe_mode_is_passive (IoError := unit) test_filter Observe 2 20 0 test_filter_wf test_observed
    test_observed_reachable eq_refl) as (H1 & _ & H2 & H3 & _).
  split; [exact H1|]. split; [exact H2|]. rewrite H3. vm_compute. reflexivity.
Defined.

Lemma tap_rate_is_limited_witness :
  admitted_at 5 (take_log (taken (injector (test_state 8)))) = 1 /\ List.length (writes (injector (test_state 8))) <= 1.
Proof.
  destruct (tap_rate_is_limited (IoError := unit) test_filter Forward 2 20 0 test_filter_wf (test_state 8) 5) as [H1 H2];
    [lia|apply test_state_reachable; lia|].
  split; [rewrite H1; vm_compute; reflexivity|exact H2].
Defined.

Lemma blocked_sender_gets_through_witness :
  exists evs s', List.length evs <= 2 /\ Forall (fun ev => ev = Written (Err tt) \/ ev = Take (clock (test_state 1))) evs /\
    execs (IoError := unit) test_filter Forward 0 evs (test_state 1) = Some s' /\
    is_Some (exec (IoError := unit) test_filter Forward 0 (Send 0) s').
Proof.
  eapply (blocked_sender_gets_through (IoError := unit) test_filter Forward 2 20 0 test_filter_wf (test_state 1) 0).
  - apply test_state_reachable. lia.
  - vm_compute. reflexivity.
  - vm_compute. reflexivity.
Defined.

Lemma inject_task_drains_and_ends_witness :
  exists evs s0 s', Forall (own_step (test_state 10) (Err tt)) evs /\
    execs (IoError := unit) test_filter Forward 0 evs (test_state 10) = Some s0 /\
    exec (IoError := unit) test_filter Forward 0 HungUp s0 = Some s' /\ contents (queue s') = [].
Proof.
  destruct (inject_task_drains_and_ends (IoError := unit) test_filter Forward 2 20 0 test_filter_wf (test_state 10) (Err tt))
    as [(evs & s0 & s' & _ & Hevs & Hrun & Hh & _ & Hq & _) _];
    [apply test_state_reachable; lia|vm_compute; reflexivity|vm_compute; discriminate|].
  exists evs, s0, s'. split; [exact Hevs|]. split; [exact Hrun|]. split; [exact Hh|exact Hq].
Defined.


(** A good frame followed by 2000 bytes of opaque payload. *)
Definition test_oversize : KernelMsg :=
  mkMsg (test_frame 3 false (encode_tlv test_local_tlv) ++ replicate 2000 Byte.xaa) 0 [].

Lemma oversize_packet_is_cut_not_rejected_witness :
  classify (packet test_oversize) (msg_vlan test_oversize) test_filter = Err Length /\
  exists buf' cap out,
    recv (IoError := unit) (replicate MAX_FRAME Byte.x00) [Ready (Ok test_oversize)] =
      (Some (Ok (MAX_FRAME, msg_vlan test_oversize)), buf', []) /\
    capture_frame test_filter true Counters_new (take MAX_FRAME buf') (msg_vlan test_oversize) = Some cap /\
    cap_forward cap = Some out /\ untag (take MAX_FRAME (packet test_oversize)) (msg_vlan test_oversize) = Some out.
Proof.
  apply (oversize_packet_is_cut_not_rejected test_filter _ _ _ (mkMatch 3 18) test_filter_wf).
  - apply length_replicate.
  - vm_compute. lia.
  - vm_compute. discriminate.
  - vm_compute. reflexivity.
Defined.
