(* ===== verification/Spec.v ===== *)
(** * What the daemon promises, abstractly, and that it keeps the promise

    The abstract relay knows no buffers, channel, tasks or counters: it holds a
    multiset of frames in flight and at most one frame on its way to the TAP, it is
    told which messages arrive, and it decides by the grammar and the policy of [Wire]
    and by a budget per second.  The daemon of [System] refines it: the labels that
    any run shows are those of a run of the abstract relay. *)

From Stdlib Require Import ZArith Lia Strings.Byte Strings.String Sorting.Sorted.
From stdpp Require Import base list numbers list_numbers sets gmultiset sorting.
From S2P Require Import Prelude Proto Parse Wire Verdict Relay MacText Config Packet Tap App System Daemon.
Local Open Scope nat_scope.
Local Open Scope rrb_scope.

(** Compare a frame with the one that moved, and count. *)
Ltac balance := repeat case_decide; repeat case_bool_decide; simplify_eq/=; lia.

Section Relay.
Variables (filter : Filter) (mode : Mode) (pps : Z).

(** A message carries [w], and the filter lets it in. *)
Definition carries (msg : KernelMsg) (w : Wire) : Prop :=
  wire_wf w /\ msg_frame msg = encode w /\ authorized filter (msg_vlan msg) w.

Record Relay := mkRelay {
  flight : gmultiset (list byte);
  outgoing : option (list byte);
  passes : list Z;
}.

Definition Relay_init : Relay := mkRelay ∅ None [].

(** The frames let through in second [t]. *)
Definition passes_at (t : Z) (ps : list Z) : nat := count_if (fun u => u =? t)%Z ps.

Inductive relay_step (st : Relay) : Label -> Relay -> Prop :=
| relay_accept msg w :
    mode = Forward -> sll_pkttype msg <> PACKET_OUTGOING -> carries msg w ->
    relay_step st (Heard msg) (mkRelay (flight st ⊎ {[+ encode (untagged w) +]}) (outgoing st) (passes st))
| relay_refuse msg :
    sll_pkttype msg <> PACKET_OUTGOING -> (mode = Forward -> forall w, ~ carries msg w) ->
    relay_step st (Heard msg) st
| relay_pass t frame :
    frame ∈ flight st -> outgoing st = None -> Forall (fun u => u <= t)%Z (passes st) ->
    (Z.of_nat (passes_at t (passes st)) < pps)%Z ->
    relay_step st (Passed t frame) (mkRelay (flight st ∖ {[+ frame +]}) (Some frame) (passes st ++ [t]))
| relay_limit t frame :
    frame ∈ flight st -> outgoing st = None -> Z.of_nat (passes_at t (passes st)) = pps ->
    relay_step st (Limited t frame) (mkRelay (flight st ∖ {[+ frame +]}) None (passes st))
| relay_put frame ok :
    outgoing st = Some frame ->
    relay_step st (Put frame ok) (mkRelay (flight st) None (passes st))
| relay_lose frame :
    frame ∈ flight st ->
    relay_step st (Lost frame) (mkRelay (flight st ∖ {[+ frame +]}) (outgoing st) (passes st))
| relay_lose_outgoing frame :
    outgoing st = Some frame ->
    relay_step st (Lost frame) (mkRelay (flight st) None (passes st)).

Inductive relay_run : Relay -> list Label -> Relay -> Prop :=
| relay_run_nil st : relay_run st [] st
| relay_run_cons st l st1 ls st2 : relay_step st l st1 -> relay_run st1 ls st2 -> relay_run st (l :: ls) st2.

Lemma relay_run_app st ls1 st1 ls2 st2 :
  relay_run st ls1 st1 -> relay_run st1 ls2 st2 -> relay_run st (ls1 ++ ls2) st2.
Proof. induction 1; cbn; [done|]. intros. econstructor; eauto. Qed.

Lemma relay_run_one st l st1 st' : relay_step st l st1 -> st' = st1 -> relay_run st [l] st'.
Proof. intros ? ->. econstructor; [done|constructor]. Qed.

(** ** What the abstract relay guarantees *)

(** How often [frame] leaves the relay, in any way. *)
Definition leaves (frame : list byte) (l : Label) : bool :=
  match l with
  | Limited _ x | Put x _ | Lost x => bool_decide (x = frame)
  | _ => false
  end.

Definition puts (frame : list byte) (l : Label) : bool :=
  match l with Put x _ => bool_decide (x = frame) | _ => false end.

Definition passed_at (t : Z) (l : Label) : bool := match l with Passed u _ => (u =? t)%Z | _ => false end.

Definition heard_as (frame : list byte) (l : Label) : bool :=
  match l with Heard msg => bool_decide (msg_out filter mode msg = Some frame) | _ => false end.

Lemma heard_as_observe frame ls : mode = Observe -> count_if (heard_as frame) ls = 0.
Proof.
  intros Hm. induction ls as [|l ls IH]; [done|]. rewrite count_if_cons, IH. destruct l; [|done..].
  cbn [heard_as]. rewrite bool_decide_false; [done|]. unfold msg_out, relayed, forward. by rewrite Hm.
Qed.

Hypothesis Hfilter : Filter_wf filter.

(** The executable form of [carries]. *)
Lemma carries_out msg w :
  mode = Forward -> carries msg w -> msg_out filter mode msg = Some (encode (untagged w)).
Proof.
  intros Hm (Hw & He & Ha). unfold msg_out, relayed, forward. rewrite bool_decide_true by done.
  assert (length (encode w) <= MAX_FRAME) as Hl.
  { rewrite <- He. unfold msg_frame. rewrite length_take. lia. }
  pose proof (classify_complete w _ filter Hfilter Hw Hl Ha) as Hc. rewrite <- He in Hc. rewrite Hc. cbn [andb is_ok].
  destruct (untag_accepted _ _ _ _ Hfilter Hc) as (w' & Hw' & He' & _ & _ & _ & ->).
  by rewrite (encode_inj w w') by (done || congruence).
Qed.

Lemma out_carries msg out :
  msg_out filter mode msg = Some out -> mode = Forward /\ exists w, carries msg w /\ out = encode (untagged w).
Proof.
  intros (Hm & w & Hw & He & Ha & ->)%msg_out_authorized; [|done]. split; [done|]. by exists w.
Qed.
Definition on_the_way (frame : list byte) (st : Relay) : nat := if decide (outgoing st = Some frame) then 1 else 0.

(** What holds [frame] before and after a step differs by what came in and left. *)
Lemma relay_step_balance st l st' frame :
  relay_step st l st' ->
  multiplicity frame (flight st) + on_the_way frame st + (if heard_as frame l then 1 else 0) =
  multiplicity frame (flight st') + on_the_way frame st' + (if leaves frame l then 1 else 0).
Proof.
  unfold on_the_way. intros [msg w Hm Hin Hc|msg Hin Hno|t x Hx Ho Hsort Hb|t x Hx Ho Hb|x ok Ho|x Hx|x Ho];
    cbn [flight outgoing heard_as leaves].
  - rewrite (carries_out _ _ Hm Hc), multiplicity_disj_union, multiplicity_singleton. balance.
  - rewrite bool_decide_false; [done|]. intros (Hm & w & Hc & _)%out_carries. by apply (Hno Hm w).
  - rewrite Ho, multiplicity_difference, multiplicity_singleton. rewrite elem_of_multiplicity in Hx. balance.
  - rewrite Ho, multiplicity_difference, multiplicity_singleton. rewrite elem_of_multiplicity in Hx. balance.
  - rewrite Ho. balance.
  - rewrite multiplicity_difference, multiplicity_singleton. rewrite elem_of_multiplicity in Hx. balance.
  - rewrite Ho. balance.
Qed.

Lemma relay_run_balance st ls st' frame :
  relay_run st ls st' ->
  multiplicity frame (flight st) + on_the_way frame st + count_if (heard_as frame) ls =
  multiplicity frame (flight st') + on_the_way frame st' + count_if (leaves frame) ls.
Proof.
  induction 1 as [|st l st1 ls st2 Hstep _ IH]; [done|]. rewrite !count_if_cons.
  pose proof (relay_step_balance _ _ _ frame Hstep). lia.
Qed.

Lemma puts_leaves frame ls : count_if (puts frame) ls <= count_if (leaves frame) ls.
Proof.
  induction ls as [|l ls IH]; [done|]. rewrite !count_if_cons. destruct l; cbn [puts leaves]; try lia.
Qed.

Lemma relay_run_passes st ls st' t :
  relay_run st ls st' -> passes_at t (passes st') = passes_at t (passes st) + count_if (passed_at t) ls.
Proof.
  unfold passes_at. induction 1 as [|st l st1 ls st2 Hstep _ IH]; [cbn; lia|]. rewrite count_if_cons.
  destruct Hstep; cbn [passes passed_at] in *; rewrite ?count_if_snoc in IH; lia.
Qed.

Lemma relay_run_budget st ls st' t :
  (0 <= pps)%Z -> relay_run st ls st' ->
  (Z.of_nat (passes_at t (passes st)) <= pps)%Z -> (Z.of_nat (passes_at t (passes st')) <= pps)%Z.
Proof.
  intros Hp. induction 1 as [|st l st1 ls st2 Hstep _ IH]; [done|]. intros Hb. apply IH.
  destruct Hstep as [| |u x _ _ _ Hu| | | |]; cbn [passes]; try done. unfold passes_at in *. rewrite count_if_snoc.
  destruct (Z.eqb_spec u t) as [->|]; lia.
Qed.
End Relay.

(** ** The daemon refines the abstract relay *)

(** A list of frames as the multiset in flight. *)
Lemma flight_perm l1 l2 : l1 ≡ₚ l2 -> list_to_set_disj l1 =@{gmultiset (list byte)} list_to_set_disj l2.
Proof. by intros ->. Qed.

Lemma flight_add l x : list_to_set_disj (l ++ [x]) =@{gmultiset (list byte)} list_to_set_disj l ⊎ {[+ x +]}.
Proof. rewrite list_to_set_disj_app, list_to_set_disj_cons, list_to_set_disj_nil. multiset_solver. Qed.

Lemma flight_remove l1 l2 x :
  l1 ≡ₚ l2 ++ [x] -> list_to_set_disj l2 =@{gmultiset (list byte)} list_to_set_disj l1 ∖ {[+ x +]}.
Proof. intros ->. rewrite flight_add. multiset_solver. Qed.

Lemma flight_elem l1 l2 x : l1 ≡ₚ l2 ++ [x] -> x ∈@{gmultiset (list byte)} list_to_set_disj l1.
Proof. intros ->. rewrite flight_add. multiset_solver. Qed.

Section Refinement.
Context `{CH : Channel} `{!ChannelOk} {IoError : Type}.
Variables (filter : Filter) (mode : Mode) (sources : nat) (pps start : Z).
Hypothesis Hfilter : Filter_wf filter.
Hypothesis Hpps : (0 <= pps < 2 ^ 32)%Z.

Local Abbreviation reach := (reachable (IoError := IoError) filter mode sources pps start).
Local Abbreviation run := (relay_run filter mode pps).

(** Frames waiting in a capture task or in the queue are in flight. *)
Definition waiting (s : System) : list (list byte) :=
  concat ((fun c => pending (cap_phase c)) <$> captures s) ++ contents (queue s).

Definition abstraction (s : System) : Relay :=
  mkRelay (list_to_set_disj (waiting s)) (head (in_write (inj_phase (injector s))))
    (taken_at <$> List.filter taken_admitted (taken (injector s))).

Lemma passes_admitted t ts : passes_at t (taken_at <$> List.filter taken_admitted ts) = admitted_at t (take_log ts).
Proof.
  unfold passes_at, admitted_at, take_log, count_if. induction ts as [|[u x ok] ts IH]; [done|].
  destruct ok; cbn; [rewrite andb_true_r|by rewrite andb_false_r]. by destruct (u =? t)%Z; cbn; rewrite IH.
Qed.

(** A task's pending frame, added or removed. *)
Lemma waiting_insert s i c c' k :
  captures s !! i = Some c -> pending (cap_phase c') = pending (cap_phase c) ++ k ->
  waiting (set_capture s i c') ≡ₚ waiting s ++ k.
Proof.
  intros Hc Hk. unfold waiting. cbn [captures queue set_capture].
  rewrite (concat_insert_app (fun c => pending (cap_phase c)) _ _ _ _ _ Hc Hk). solve_Permutation.
Qed.

Lemma waiting_remove s i c c' k :
  captures s !! i = Some c -> pending (cap_phase c) = pending (cap_phase c') ++ k ->
  waiting s ≡ₚ waiting (set_capture s i c') ++ k.
Proof.
  intros Hc Hk. assert (captures (set_capture s i c') !! i = Some c') as Hc'.
  { cbn. apply list_lookup_insert_eq. by eapply lookup_lt_Some. }
  rewrite <- (waiting_insert _ i c' c k Hc' Hk). unfold waiting. cbn [captures queue set_capture].
  by rewrite list_insert_insert_eq, list_insert_id.
Qed.

(** Two abstractions agree when the waiting frames do, up to order. *)
Lemma abstraction_eq s s' :
  waiting s' ≡ₚ waiting s -> injector s' = injector s -> abstraction s' = abstraction s.
Proof. intros Hw Hj. unfold abstraction. by rewrite (flight_perm _ _ Hw), Hj. Qed.

(** ** The simulation, step by step *)

Lemma sim_heard s i c buf' msg cap :
  reach s -> captures s !! i = Some c -> cap_phase c = Receiving -> sll_pkttype msg <> PACKET_OUTGOING ->
  capture_frame filter (forward mode) (sys_counters s) (stored_in (cap_buf c) msg) (msg_vlan msg) = Some cap ->
  run (abstraction s) [Heard msg] (abstraction (set_counters (set_capture s i
    (mkCapture (match cap_forward cap with Some out => Sending out | None => Receiving end)
       buf' (heard c ++ [msg]) (sent_by c) (unsent c))) (cap_counters cap))).
Proof.
  intros Hs Hc Hp Hin Hcap.
  destruct (captures_ok_reachable _ _ _ _ _ Hfilter _ Hs) as [_ Hall].
  rewrite (stored_msg_frame filter mode c) in Hcap by exact (Forall_lookup_1 _ _ _ _ Hall Hc).
  destruct (capture_frame_total filter (forward mode) (sys_counters s) (msg_frame msg) (msg_vlan msg) Hfilter) as [entry He].
  rewrite Hcap in He. apply Some_inj in He as ->. cbn [cap_forward]. fold (msg_out filter mode msg).
  destruct (msg_out filter mode msg) as [out|] eqn:Ho.
  - destruct (out_carries _ _ Hfilter _ _ Ho) as (Hm & w & Hcar & ->).
    eapply relay_run_one; [by eapply relay_accept|]. unfold abstraction at 1. f_equal. cbn [flight abstraction].
    rewrite <- flight_add. apply flight_perm, (waiting_insert s i c); [done|by rewrite Hp].
  - eapply relay_run_one; [apply relay_refuse; [done|]|apply abstraction_eq; [|done]].
    + intros Hm w Hcar. by rewrite (carries_out _ _ Hfilter _ _ Hm Hcar) in Ho.
    + rewrite <- (app_nil_r (waiting s)). apply (waiting_insert s i c); [done|by rewrite Hp].
Qed.

Lemma sim_stop s i c buf' u :
  captures s !! i = Some c ->
  run (abstraction s) (Lost <$> pending (cap_phase c)) (abstraction (set_capture s i (mkCapture Stopped buf' (heard c) (sent_by c) u))).
Proof.
  intros Hc. set (c' := mkCapture _ _ _ _ _). pose proof (waiting_remove s i c c' (pending (cap_phase c)) Hc eq_refl) as Hw.
  destruct (pending (cap_phase c)) as [|out [|]] eqn:Hk; [| |by destruct (cap_phase c)].
  - rewrite app_nil_r in Hw. rewrite (abstraction_eq s (set_capture s i c')); [constructor|by rewrite Hw|done].
  - eapply relay_run_one; [eapply relay_lose; exact (flight_elem _ _ _ Hw)|].
    unfold abstraction at 1. f_equal. exact (flight_remove _ _ _ Hw).
Qed.

(** A frame moves from its task to the queue: nothing an observer sees. *)
Lemma waiting_sent s i c c' out q cs j clk snt pan :
  captures s !! i = Some c -> cap_phase c = Sending out -> pending (cap_phase c') = [] -> chan_send (queue s) out = Some q ->
  waiting (mkSystem cs (<[i := c']> (captures s)) q j clk snt pan) ≡ₚ waiting s.
Proof.
  intros Hc Hp Hp' Hq. destruct (send_some _ _ _ Hq) as [Hqc _].
  rewrite (waiting_remove s i c c' [out] Hc) by (by rewrite Hp, Hp').
  unfold waiting. cbn [captures queue set_capture]. by rewrite Hqc, app_assoc.
Qed.

Lemma waiting_taken s frame q cs j clk snt pan :
  chan_recv (queue s) = Some (frame, q) -> waiting s ≡ₚ waiting (mkSystem cs (captures s) q j clk snt pan) ++ [frame].
Proof.
  intros Hq. destruct (recv_some _ _ _ Hq) as [Hqc _]. unfold waiting. cbn [captures queue]. rewrite Hqc.
  generalize (concat ((fun c => pending (cap_phase c)) <$> captures s)), (contents q). intros. solve_Permutation.
Qed.

(** The limiter decides by the frames let through in the second so far. *)
Lemma limiter_budget ts x :
  StronglySorted Z.le (taken_at <$> ts ++ [x]) ->
  take_log ts = admit_all (Limiter_new pps) (taken_at <$> ts) ->
  take_log (ts ++ [x]) = admit_all (Limiter_new pps) (taken_at <$> ts ++ [x]) ->
  if taken_admitted x then (Z.of_nat (admitted_at (taken_at x) (take_log ts)) < pps)%Z
  else Z.of_nat (admitted_at (taken_at x) (take_log ts)) = pps.
Proof.
  intros Hs' Hlog Hlog'. assert (StronglySorted Z.le (taken_at <$> ts)) as Hs.
  { rewrite fmap_app in Hs'. by apply StronglySorted_app_1_l in Hs'. }
  assert (admitted_at (taken_at x) (take_log (ts ++ [x])) =
    admitted_at (taken_at x) (take_log ts) + (if taken_admitted x then 1 else 0)) as Hadd.
  { rewrite <- !passes_admitted. unfold passes_at. rewrite List.filter_app, fmap_app, count_if_app. f_equal.
    cbn. destruct (taken_admitted x); cbn; [by rewrite Z.eqb_refl|done]. }
  rewrite Hlog' in Hadd. rewrite Hlog in Hadd |- *.
  rewrite !admit_all_exact in Hadd by (by apply Limiter_new_ok || done || by left).
  rewrite admit_all_exact by (by apply Limiter_new_ok || done || by left).
  assert (requests_at (taken_at x) (taken_at <$> ts ++ [x]) = requests_at (taken_at x) (taken_at <$> ts) + 1) as Hreq.
  { unfold requests_at. rewrite fmap_app, List.filter_app, length_app. cbn. by rewrite Z.eqb_refl. }
  cbn [per_second used Limiter_new] in *. destruct (taken_admitted x), (_ =? _)%Z; lia.
Qed.

Lemma sim_taken s now frame q (ok : bool) cs' l' :
  reach s -> inj_phase (injector s) = Waiting -> (clock s <= now)%Z -> chan_recv (queue s) = Some (frame, q) ->
  let t := monotonic_secs start now in
  let s' := mkSystem cs' (captures s) q (mkInjector (if ok then Writing frame else Waiting) l'
    (taken (injector s) ++ [mkTaken t frame ok]) (writes (injector s)) (unwritten (injector s))) now (sent s) (panicked s) in
  rate_ok pps start s' -> run (abstraction s) [taken_label t frame ok] (abstraction s').
Proof.
  intros Hs Hj Hnow Hq t s' [Hlog' _ Hsort' _].
  destruct (rate_ok_reachable _ _ _ _ _ Hfilter _ Hs) as [Hlog _ _ Hclk].
  pose proof (limiter_budget _ _ Hsort' Hlog Hlog') as Hb. cbn [taken_admitted taken_at] in Hb. rewrite <- passes_admitted in Hb.
  pose proof (waiting_taken s frame q cs' (injector s') now (sent s) (panicked s) Hq) as Hw. fold s' in Hw.
  assert (outgoing (abstraction s) = None) as Ho by (cbn; by rewrite Hj).
  destruct ok; cbn [taken_label].
  - eapply relay_run_one; [apply relay_pass; [exact (flight_elem _ _ _ Hw)|exact Ho| |exact Hb]|].
    + rewrite Forall_fmap in Hclk. apply Forall_fmap, Forall_forall.
      intros x [Hx _]%list_elem_of_In%List.filter_In. apply list_elem_of_In in Hx.
      pose proof (proj1 (Forall_forall _ _) Hclk _ Hx) as Ht. pose proof (monotonic_secs_mono start _ _ Hnow). cbn in *. lia.
    + unfold abstraction at 1. f_equal; [exact (flight_remove _ _ _ Hw)|].
      cbn [injector taken s' passes abstraction]. by rewrite List.filter_app, fmap_app.
  - eapply relay_run_one; [apply relay_limit; [exact (flight_elem _ _ _ Hw)|exact Ho|exact Hb]|].
    unfold abstraction at 1. f_equal; [exact (flight_remove _ _ _ Hw)|].
    cbn [injector taken s' passes abstraction]. rewrite List.filter_app. cbn. by rewrite app_nil_r.
Qed.

Lemma sim_ended s u :
  run (abstraction s) (Lost <$> in_write (inj_phase (injector s)))
    (abstraction (set_injector s (mkInjector Ended (inj_limiter (injector s)) (taken (injector s)) (writes (injector s)) u))).
Proof.
  destruct (inj_phase (injector s)) as [|frame|] eqn:Hj; cbn [in_write fmap list_fmap].
  2: { eapply relay_run_one; [apply relay_lose_outgoing; cbn; by rewrite Hj|done]. }
  all: unfold abstraction; cbn [injector inj_phase set_injector taken]; rewrite Hj; constructor.
Qed.

(** Every step of the daemon is matched by steps of the abstract relay with the same labels. *)
Lemma simulation (ev : Event IoError) s s' :
  reach s -> exec filter mode start ev s = Some s' -> run (abstraction s) (observe start ev s) (abstraction s').
Proof.
  intros Hs He. assert (rate_ok pps start s') as Hrate.
  { eapply rate_ok_reachable; [done|]. by eapply reachable_step. }
  apply exec_view in He; [|done]. revert Hrate.
  destruct He as [i c buf' Hc Hp Hl|i c buf' msg cap Hc Hp Hl Hin Hcap|i c buf' Hc Hp Hl|i c out q Hc Hp Hj Hq
    |now frame q ok cs' l' Hj Hclk Hq Ha|outcome frame Hj|Hj]; intros Hrate.
  - set (s' := set_capture _ _ _). rewrite (abstraction_eq s s'); [constructor| |done].
    rewrite <- (app_nil_r (waiting s)). apply (waiting_insert s i c); [done|by rewrite Hp].
  - by apply sim_heard.
  - by apply sim_stop.
  - set (s' := mkSystem _ _ _ _ _ _ _). rewrite (abstraction_eq s s'); [constructor| |done]. by eapply waiting_sent.
  - by apply sim_taken.
  - eapply relay_run_one; [apply relay_put; cbn; by rewrite Hj|done].
  - apply sim_ended.
Qed.

(** What an observer sees of a sequence of events. *)
Fixpoint observed (evs : list (Event IoError)) (s : System) : list Label :=
  match evs with
  | [] => []
  | ev :: evs' => match exec filter mode start ev s with
                  | Some s' => observe start ev s ++ observed evs' s'
                  | None => []
                  end
  end.

Lemma abstraction_init : abstraction (init mode sources pps start) = Relay_init.
Proof.
  unfold abstraction, waiting. cbn [captures queue injector init taken inj_phase Injector_new List.filter].
  rewrite contents_new, app_nil_r. replace (concat _) with (@nil (list byte)).
  - by destruct (forward mode).
  - symmetry. induction sources as [|n IHn]; [done|]. exact IHn.
Qed.

Lemma simulation_run evs : forall s s',
  reach s -> execs filter mode start evs s = Some s' -> run (abstraction s) (observed evs s) (abstraction s').
Proof.
  induction evs as [|ev evs IH]; intros s s' Hs; cbn [execs observed].
  - intros [= <-]. constructor.
  - destruct (exec filter mode start ev s) as [s1|] eqn:He; cbn [mbind option_bind]; [|done]. intros Hrun.
    eapply relay_run_app; [by apply simulation|]. apply IH; [|done]. by eapply reachable_step.
Qed.

Local Abbreviation s0 := (init mode sources pps start).

Lemma simulation_from_start evs s :
  execs filter mode start evs s0 = Some s -> run Relay_init (observed evs s0) (abstraction s).
Proof. intros He. rewrite <- abstraction_init. apply simulation_run; [constructor|done]. Qed.

(** C2. The daemon refines the abstract relay: whatever the interleaving of its tasks, the
    packets, the answers of the TAP and the clock, the labels of a run from the state
    in which [run] starts the tasks are the labels of a run of the abstract relay,
    which accepts exactly the authorized messages in forward mode, lets at most [pps]
    frames through per second and refuses one only when that budget is spent, and puts
    a frame on the TAP only after letting it through. *)
Theorem daemon_refines_relay evs s :
  execs filter mode start evs s0 = Some s ->
  relay_run filter mode pps Relay_init (observed evs s0) (abstraction s).
Proof. apply simulation_from_start. Qed.

(** C7. What that means at the TAP, for every run: a frame is written at most as often as
    messages that carry it in an authorized form were heard, nothing is written in
    observe mode, and at most [pps] frames are let through in any second. *)
Theorem daemon_keeps_relay_promise evs s frame t :
  execs filter mode start evs s0 = Some s ->
  let trace := observed evs s0 in
  count_if (puts frame) trace <= count_if (heard_as filter mode frame) trace /\
  (mode = Observe -> count_if (puts frame) trace = 0) /\
  (Z.of_nat (count_if (passed_at t) trace) <= pps)%Z.
Proof.
  intros Hrun%simulation_from_start. cbv zeta. set (trace := observed evs s0) in *. clearbody trace.
  pose proof (relay_run_balance _ _ _ Hfilter _ _ _ frame Hrun) as Hbal. pose proof (puts_leaves frame trace) as Hput.
  cbn [flight Relay_init] in Hbal. rewrite multiplicity_empty in Hbal.
  change (on_the_way frame Relay_init) with 0 in Hbal.
  split_and!.
  - lia.
  - intros Hm. pose proof (heard_as_observe filter mode frame trace Hm). lia.
  - pose proof (relay_run_passes _ _ _ _ _ _ t Hrun) as Hp.
    assert (Z.of_nat (passes_at t (passes (abstraction s))) <= pps)%Z; [|change (passes_at t (passes Relay_init)) with 0 in Hp; lia].
    eapply relay_run_budget; [|exact Hrun|]; cbn; lia.
Qed.
End Refinement.

Lemma daemon_refines_relay_witness :
  let out := encode (untagged (test_wire 3 false [test_local_tlv])) in
  relay_run test_filter Forward 20 Relay_init
    [Heard test_good; Heard test_bad; Heard test_bad; Passed 5 out; Heard test_good; Put out true]
    (abstraction (test_state 8)).
Proof.
  intros out. replace [Heard test_good; _; _; _; _; _]
    with (observed test_filter Forward 0 (take 8 test_events) (init Forward 2 20 0)) by (vm_compute; reflexivity).
  apply (daemon_refines_relay (IoError := unit) test_filter Forward 2 20 0 test_filter_wf ltac:(lia)).
  vm_compute. reflexivity.
Defined.

Lemma daemon_keeps_relay_promise_witness :
  count_if (puts (encode (untagged (test_wire 3 false [test_local_tlv]))))
    (observed test_filter Forward 0 (take 8 test_events) (init Forward 2 20 0)) <= 2.
Proof.
  destruct (daemon_keeps_relay_promise (IoError := unit) test_filter Forward 2 20 0 test_filter_wf ltac:(lia)
    (take 8 test_events) (test_state 8) (encode (untagged (test_wire 3 false [test_local_tlv]))) 5) as [H _];
    [vm_compute; reflexivity|]. vm_compute in H. vm_compute. exact H.
Defined.
