(* ===== verification/Startup.v ===== *)
(** * Start and stop: [run] of [src/src/app.rs]

    The set-up calls of the daemon in order, what is released when one of them fails,
    and the end of a run.  [System] models the tasks while they run. *)

From Stdlib Require Import ZArith Lia Strings.Byte Strings.String.
From stdpp Require Import base list numbers list_numbers sets.
From S2P Require Import Prelude Proto Parse Wire Verdict Relay MacText Hostapd Config Packet Tap App System Daemon.
Local Open Scope nat_scope.
Local Open Scope rrb_scope.

(** A spawned task, with what is moved into it. *)
Inductive Task :=
| InjectTask (relay : RelayTap) (packets_per_second : Z)
| CaptureTask (sock : PacketSocket) (filter : Filter) (forward : bool).

Inductive RunCall :=
| OnTap (c : TapCall)
| OnSocket (name : str) (c : Syscall)
| SpawnTask (t : Task)
| TaskEnded (i : nat)
| DropReceiver
| DropSender
| CatchInterrupt
| CatchTerminate
| WaitSignal
| LogCounters.

Inductive RunError (IoError : Type) : Type :=
| ConfigFailed (e : ConfigError IoError)
| TapFailed (e : TapError)
| OpenFailed (name : str) (e : OpenError)
| SignalFailed.
Arguments ConfigFailed {IoError} e.
Arguments TapFailed {IoError} e.
Arguments OpenFailed {IoError} name e.
Arguments SignalFailed {IoError}.

(** Run a component's program inside a larger one: its calls are appended. *)
Definition lift {Ev Ev' E E' A} (inj : Ev -> Ev') (wrap : E -> E') (m : list Ev' -> Sys Ev E A) : Sys Ev' E' A := fun tr =>
  let '(r, calls) := m tr [] in
  (match r with Ok a => Ok a | Err e => Err (wrap e) end, tr ++ (inj <$> calls)).

(** What goes when a task ends or is dropped: the device it owns, or the socket. *)
Definition release (t : Task) : RunCall :=
  match t with
  | InjectTask _ _ => OnTap DropDevice
  | CaptureTask sock _ _ => OnSocket (sock_name sock) CloseFd
  end.

(** The task set after a call; [None] is a task that has ended. *)
Definition task_step (ts : list (option Task)) (c : RunCall) : list (option Task) :=
  match c with
  | SpawnTask t => ts ++ [Some t]
  | TaskEnded i => <[i := None]> ts
  | _ => ts
  end.

Definition tasks (tr : list RunCall) : list (option Task) := fold_left task_step tr [].

(** The tasks still in the set. *)
Definition live (tr : list RunCall) : list Task := omap id (tasks tr).

(** Tasks that end by themselves: a capture whose receive fails or whose channel is
    gone, an injector without senders. *)
Fixpoint end_tasks (ids : list nat) (tr : list RunCall) : list RunCall :=
  match ids with
  | [] => tr
  | i :: ids' =>
      match tasks tr !! i with
      | Some (Some t) => end_tasks ids' (tr ++ [TaskEnded i; release t])
      | _ => end_tasks ids' tr
      end
  end.

Section Startup.
Context {IoError : Type}.

(** The outside world, at each point of the run. *)
Record RunEnv := mkRunEnv {
  config_env : Env IoError;
  tap_env : list RunCall -> TapEnv;
  kernel : list RunCall -> list Syscall -> Syscall -> Z;
  catches : list RunCall -> RunCall -> bool;
  (** The tasks that end by themselves while [run] waits, in order. *)
  ended : list RunCall -> list nat;
  (** [JoinSet::shutdown], or the drop of a [JoinSet]: the tasks it drops, in order. *)
  abort_all : list RunCall -> list Task -> list Task;
  abort_all_ok tr ts : abort_all tr ts ≡ₚ ts;
}.

Variable env : RunEnv.

Definition note (c : RunCall) : Sys RunCall (RunError IoError) unit := request (fun _ _ => tt) c.

Definition catch (c : RunCall) : Sys RunCall (RunError IoError) unit :=
  ok ← request (catches env) c;
  from_result (ensure ok SignalFailed).

Definition is_forward (s : Settings) : bool := bool_decide (s_mode s = Forward).

(** The relay and its task, in forward mode; otherwise the receiver is dropped. *)
Definition start_relay (s : Settings) : Sys RunCall (RunError IoError) unit :=
  if is_forward s then
    relay ← lift OnTap TapFailed (fun tr => create_relay (tap_env env tr) (s_tap s) (s_target s) (s_pref s));
    note (SpawnTask (InjectTask relay (packets_per_second (s_limits s))))
  else note DropReceiver.

(** A socket and its task for every source. *)
Fixpoint start_captures (s : Settings) (f : Filter) (names : list str) : Sys RunCall (RunError IoError) unit :=
  match names with
  | [] => mret tt
  | name :: names' =>
      sock ← lift (OnSocket name) (OpenFailed name) (fun tr => open (kernel env tr) name);
      _ ← note (SpawnTask (CaptureTask sock f (is_forward s)));
      start_captures s f names'
  end.

(** An await: the tasks run. *)
Definition others_run : Sys RunCall (RunError IoError) unit := fun tr => (Ok tt, end_tasks (ended env tr) tr).

(** The [select!] on the two signals. *)
Definition wait_signal : Sys RunCall (RunError IoError) unit :=
  _ ← note WaitSignal;
  others_run.

(** The kernel-side statistics, read before the tasks are dropped; a failure is only
    logged. *)
Definition report_stats (s : Settings) : Sys RunCall (RunError IoError) unit :=
  if is_forward s then
    _ ← ignore (lift OnTap TapFailed (fun tr => action_stats (tap_env env tr) (s_tap s)));
    others_run
  else mret tt.

(** From the signal handlers to the end of the wait. *)
Definition wind_down (s : Settings) : Sys RunCall (RunError IoError) unit :=
  _ ← note DropSender;
  _ ← catch CatchInterrupt;
  _ ← catch CatchTerminate;
  _ ← wait_signal;
  report_stats s.

(** Between the creation of the task set and its drop or shutdown. *)
Definition with_tasks (s : Settings) (f : Filter) : Sys RunCall (RunError IoError) unit :=
  _ ← start_relay s;
  _ ← start_captures s f (s_sources s);
  wind_down s.

Definition load_config (path : str) : result (ConfigError IoError) (Settings * Filter) :=
  s ← load (config_env env) path;
  f ← settings_filter (config_env env) s;
  Ok (s, f).

(** The task set is dropped or shut down: what the tasks still in it own is released. *)
Definition drop_tasks (m : Sys RunCall (RunError IoError) unit) : Sys RunCall (RunError IoError) unit := fun tr =>
  let '(r, tr') := m tr in (r, tr' ++ (release <$> abort_all env tr' (live tr'))).

Definition app_run (path : str) : Sys RunCall (RunError IoError) unit :=
  '(s, f) ← from_result (match load_config path with Ok sf => Ok sf | Err e => Err (ConfigFailed e) end);
  _ ← drop_tasks (with_tasks s f);
  note LogCounters.
End Startup.
Arguments RunEnv : clear implicits.

#[export] Instance SockFilter_eq_dec : EqDecision SockFilter.
Proof. solve_decision. Defined.
#[export] Instance SockFprog_eq_dec : EqDecision SockFprog.
Proof. solve_decision. Defined.
#[export] Instance Syscall_eq_dec : EqDecision Syscall.
Proof. solve_decision. Defined.
#[export] Instance TapCall_eq_dec : EqDecision TapCall.
Proof. solve_decision. Defined.
#[export] Instance RelayTap_eq_dec : EqDecision RelayTap.
Proof. solve_decision. Defined.
#[export] Instance PacketSocket_eq_dec : EqDecision PacketSocket.
Proof. solve_decision. Defined.
#[export] Instance Task_eq_dec : EqDecision Task.
Proof. solve_decision. Defined.
#[export] Instance RunCall_eq_dec : EqDecision RunCall.
Proof. solve_decision. Defined.

(** ** The task set *)

Lemma tasks_app tr1 tr2 : tasks (tr1 ++ tr2) = fold_left task_step tr2 (tasks tr1).
Proof. unfold tasks. by rewrite fold_left_app. Qed.

(** Calls that neither spawn nor end a task. *)
Definition no_task (c : RunCall) : Prop := forall ts, task_step ts c = ts.

Lemma tasks_same tr ext : Forall no_task ext -> tasks (tr ++ ext) = tasks tr.
Proof.
  rewrite tasks_app. generalize (tasks tr). induction 1 as [|c ext Hc _ IH]; [done|]. cbn. by rewrite Hc.
Qed.

(** A task that ends leaves the set and releases what it owns. *)
Lemma live_ended tr i t c :
  tasks tr !! i = Some (Some t) -> no_task c -> live tr ≡ₚ t :: live (tr ++ [TaskEnded i; c]).
Proof.
  intros Ht Hc. unfold live. rewrite tasks_app. cbn [fold_left]. rewrite Hc. cbn [task_step].
  revert i Ht. generalize (tasks tr). induction l as [|o l IH]; intros [|i] Ht; [done..|by injection Ht as ->|].
  cbn in Ht |- *. destruct o as [t'|]; [|by apply IH]. rewrite (IH i Ht). apply perm_swap.
Qed.

Lemma release_no_task t : no_task (release t).
Proof. by destruct t. Qed.

(** ** The shape of a run *)

Definition spawned (tr : list RunCall) : list Task :=
  omap (fun c => match c with SpawnTask t => Some t | _ => None end) tr.

Lemma spawned_app l1 l2 : spawned (l1 ++ l2) = spawned l1 ++ spawned l2.
Proof. apply omap_app. Qed.

Lemma elem_of_spawned t tr : t ∈ spawned tr <-> SpawnTask t ∈ tr.
Proof.
  unfold spawned. rewrite list_elem_of_omap. split.
  - intros (c & Hc & He). destruct c; simplify_eq. done.
  - intros Hc. by exists (SpawnTask t).
Qed.

(** Calls that spawn nothing. *)
Lemma spawned_none (tr : list RunCall) : Forall (fun c => match c with SpawnTask _ => False | _ => True end) tr -> spawned tr = [].
Proof. induction 1 as [|c tr Hc _ IH]; [done|]. unfold spawned. cbn. destruct c; done. Qed.

Lemma live_spawned t tr : t ∈ live tr -> t ∈ spawned tr.
Proof.
  unfold live, tasks, spawned. induction tr as [|c tr IH] using rev_ind; [done|].
  rewrite fold_left_app, omap_app, elem_of_app. cbn [fold_left]. destruct c; cbn [task_step]; try (intros H; left; by apply IH).
  - rewrite omap_app, elem_of_app. intros [H|H]; [left; by apply IH|by right].
  - intros (o & Ho & He)%list_elem_of_omap. left. apply IH. apply list_elem_of_omap. exists o. split; [|done].
    apply list_elem_of_lookup in Ho as [j Hj]. apply list_lookup_insert_Some in Hj as [(_ & <- & _)|[_ Hj]]; [done|].
    by eapply list_elem_of_lookup_2.
Qed.

Section Shape.
Context {IoError : Type}.
Variable env : RunEnv IoError.

Local Abbreviation pps s := (packets_per_second (s_limits s)).

(** What starting the relay does, by the answers of the system. *)
Inductive relay_shape (s : Settings) (tr : list RunCall) : result (RunError IoError) unit -> list RunCall -> Prop :=
| relay_none : is_forward s = false -> relay_shape s tr (Ok tt) [DropReceiver]
| relay_up relay calls :
    is_forward s = true -> create_relay (tap_env env tr) (s_tap s) (s_target s) (s_pref s) [] = (Ok relay, calls) ->
    relay_shape s tr (Ok tt) ((OnTap <$> calls) ++ [SpawnTask (InjectTask relay (pps s))])
| relay_failed e calls :
    is_forward s = true -> create_relay (tap_env env tr) (s_tap s) (s_target s) (s_pref s) [] = (Err e, calls) ->
    relay_shape s tr (Err (TapFailed e)) (OnTap <$> calls).

Lemma start_relay_shape s tr res tr' :
  start_relay env s tr = (res, tr') -> exists ext, tr' = tr ++ ext /\ relay_shape s tr res ext.
Proof.
  unfold start_relay. destruct (is_forward s) eqn:Hf.
  - unfold mbind, Sys_bind, lift. destruct (create_relay _ _ _ _ []) as [[relay|e] calls] eqn:Hc; intros [= <- <-].
    + eexists. rewrite <- app_assoc. split; [done|]. by apply relay_up.
    + eexists. split; [done|]. by apply relay_failed.
  - intros [= <- <-]. eexists. split; [done|]. by apply relay_none.
Qed.

(** A capture task for each of the first sources, in order. *)
Definition capture_task (s : Settings) (f : Filter) (name : str) : Task := CaptureTask (mkSocket name) f (is_forward s).

Definition capture_call (c : RunCall) : Prop :=
  match c with OnSocket _ _ | SpawnTask (CaptureTask _ _ _) => True | _ => False end.

Lemma start_captures_shape s f names : forall tr res tr',
  start_captures env s f names tr = (res, tr') ->
  exists ext opened, tr' = tr ++ ext /\ Forall capture_call ext /\
    spawned ext = capture_task s f <$> opened /\ opened `prefix_of` names /\ (is_ok res = true -> opened = names).
Proof.
  induction names as [|name names IH]; intros tr res tr'; cbn [start_captures].
  { intros [= <- <-]. exists [], []. by rewrite app_nil_r. }
  unfold mbind, Sys_bind, lift. destruct (open _ _ []) as [r0 calls] eqn:Ho. apply open_ends in Ho.
  assert (Forall capture_call (OnSocket name <$> calls)) as Hcalls by (apply Forall_fmap, Forall_true; done).
  assert (spawned (OnSocket name <$> calls) = []) as Hsp by (apply spawned_none, Forall_fmap, Forall_true; done).
  destruct r0 as [sock|e]; cbn [note request].
  - assert (sock = mkSocket name) as -> by (by inversion Ho). intros (ext & opened & -> & Hall & Hs & Hpre & Hfull)%IH.
    exists ((OnSocket name <$> calls) ++ SpawnTask (capture_task s f name) :: ext), (name :: opened).
    rewrite spawned_app, Hsp. split; [by rewrite <- !app_assoc|]. split.
    { apply Forall_app_2; [congruence|]. by constructor. }
    split; [|split]; [|by apply prefix_cons|by intros Hr; f_equal; apply Hfull].
    unfold spawned in *. cbn. by rewrite Hs.
  - intros [= <- <-]. exists (OnSocket name <$> calls), []. split_and!; try done. apply prefix_nil.
Qed.

(** What may be called from the drop of the sender on. *)
Definition wind_call (s : Settings) (tr : list RunCall) (c : RunCall) : Prop :=
  match c with
  | CatchInterrupt | CatchTerminate | WaitSignal | TaskEnded _ | OnSocket _ _ => True
  | OnTap c => (is_forward s = true /\ exists args, c = Spawn (b "tc") (b "-s" :: args)) \/
               (c = DropDevice /\ exists relay p, InjectTask relay p ∈ live tr)
  | _ => False
  end.

Lemma release_wind s tr t : t ∈ live tr -> wind_call s tr (release t).
Proof. intros Ht. destruct t as [relay p|sock f fw]; cbn; [right; split; [done|by exists relay, p]|done]. Qed.

(** A program that makes only such calls, and spawns nothing. *)
Definition winds (s : Settings) (tr0 : list RunCall) {A} (m : Sys RunCall (RunError IoError) A) : Prop :=
  forall tr, (forall t, t ∈ live tr -> t ∈ live tr0) ->
  exists ext, (m tr).2 = tr ++ ext /\ Forall (wind_call s tr0) ext /\ forall t, t ∈ live (tr ++ ext) -> t ∈ live tr0.

Lemma winds_bind s tr0 {A B} (m : Sys RunCall (RunError IoError) A) (k : A -> Sys RunCall (RunError IoError) B) :
  winds s tr0 m -> (forall x, winds s tr0 (k x)) -> winds s tr0 (m ≫= k).
Proof.
  intros Hm Hk tr Htr. destruct (Hm tr Htr) as (e1 & He1 & H1 & Hl1). unfold mbind, Sys_bind.
  destruct (m tr) as [[x|e] tr1]; cbn in He1; subst tr1; [|by exists e1].
  destruct (Hk x _ Hl1) as (e2 & He2 & H2 & Hl2). exists (e1 ++ e2). rewrite <- app_assoc in He2, Hl2.
  split; [done|]. split; [by apply Forall_app_2|done].
Qed.

Lemma winds_emits s tr0 {A} (m : Sys RunCall (RunError IoError) A) :
  emits (fun c => wind_call s tr0 c /\ no_task c) m -> winds s tr0 m.
Proof.
  intros Hm tr Htr. destruct (Hm tr) as (ext & He & [Hw Hn]%Forall_and). exists ext. split; [done|]. split; [done|].
  unfold live. by rewrite tasks_same.
Qed.

Lemma winds_others_run s tr0 : winds s tr0 (others_run env).
Proof.
  intros tr. unfold others_run. cbn [snd]. generalize (ended env tr). intros ids. revert tr.
  induction ids as [|i ids IH]; intros tr Hsub; cbn [end_tasks]; [exists []; by rewrite app_nil_r|].
  destruct (tasks tr !! i) as [[t|]|] eqn:Ht; [|by apply IH..].
  pose proof (live_ended tr i t (release t) Ht (release_no_task t)) as Hp.
  destruct (IH (tr ++ [TaskEnded i; release t])) as (ext & -> & Hall & Hl).
  { intros t' Ht'. apply Hsub. rewrite Hp. by right. }
  exists ([TaskEnded i; release t] ++ ext). rewrite <- app_assoc in Hl |- *. split; [done|]. split; [|done].
  repeat constructor; [|done]. apply release_wind, Hsub. rewrite Hp. left.
Qed.

Lemma report_stats_emits s tr0 tr : is_forward s = true ->
  exists ext, (ignore (lift OnTap (TapFailed (IoError := IoError)) (fun tr => action_stats (tap_env env tr) (s_tap s))) tr).2 = tr ++ ext /\
    Forall (fun c => wind_call s tr0 c /\ no_task c) ext.
Proof.
  intros Hf. unfold ignore, lift, action_stats. destruct (run _ _ _ []) as [r0 calls] eqn:Hc. apply run_Ok in Hc. subst calls.
  eexists. split; [done|]. constructor; [|constructor]. split; [|done]. left. split; [done|by eexists].
Qed.

Lemma winds_wind_down s tr0 : winds s tr0 (
  _ ← catch env CatchInterrupt; _ ← catch env CatchTerminate; _ ← wait_signal env; report_stats env s).
Proof.
  unfold catch, wait_signal, report_stats, note.
  repeat first [apply winds_bind; [|intros ?] | apply winds_others_run | apply winds_emits, emits_request; by split
               | apply winds_emits, emits_from_result | apply winds_emits, emits_mret | case_match].
  apply winds_emits. intros tr. by apply report_stats_emits.
Qed.

Lemma wind_down_waits s tr res tr' : wind_down env s tr = (res, tr') -> is_ok res = true -> WaitSignal ∈ tr'.
Proof.
  destruct res as [[]|]; [|done]. unfold wind_down, catch. intros H _.
  apply Sys_bind_Ok in H as (x1 & tr1 & _ & H). apply Sys_bind_Ok in H as (x2 & tr2 & _ & H).
  apply Sys_bind_Ok in H as (x3 & tr3 & _ & H). apply Sys_bind_Ok in H as (x4 & tr4 & H4 & H).
  unfold wait_signal in H4. apply Sys_bind_Ok in H4 as (x5 & tr5 & [_ ->]%request_Ok & H4).
  assert (forall tr, WaitSignal ∈ tr -> WaitSignal ∈ (others_run env tr).2) as Hkeep.
  { intros tr0 Hin. destruct (winds_others_run s tr0 tr0 ltac:(done)) as (ext & -> & _). apply elem_of_app. by left. }
  assert (WaitSignal ∈ tr4) as Hin.
  { specialize (Hkeep (tr3 ++ [WaitSignal])). rewrite H4 in Hkeep. apply Hkeep, elem_of_app. right. left. }
  unfold report_stats in H. destruct (is_forward s) eqn:Hf; [|by apply mret_Ok in H as [_ ->]].
  apply Sys_bind_Ok in H as (x6 & tr6 & H6 & H). specialize (Hkeep tr6). rewrite H in Hkeep. apply Hkeep.
  destruct (report_stats_emits s tr tr4 Hf) as (ext & He & _). rewrite H6 in He. cbn in He. rewrite He. apply elem_of_app. by left.
Qed.

Lemma wind_down_shape s tr res tr' :
  wind_down env s tr = (res, tr') ->
  exists ext, tr' = tr ++ DropSender :: ext /\ Forall (wind_call s tr) ext /\ (is_ok res = true -> WaitSignal ∈ tr').
Proof.
  intros H. pose proof (wind_down_waits _ _ _ _ H) as Hw. unfold wind_down in H. unfold note at 1, mbind at 1, Sys_bind at 1, request at 1 in H.
  destruct (winds_wind_down s tr (tr ++ [DropSender])) as (ext & He & Hall & _).
  { intros t. unfold live. by rewrite tasks_same by by repeat constructor. }
  rewrite H in He. cbn in He. subst tr'. exists ext. rewrite <- app_assoc in Hw |- *. done.
Qed.
End Shape.

Section Runs.
Context {IoError : Type}.
Variable env : RunEnv IoError.

(** What is done while the task set exists: the relay, the captures, the wait. *)
Record body_shape (s : Settings) (f : Filter) (body e1 e2 e3 : list RunCall) (opened : list str) : Prop := {
  body_eq : body = e1 ++ e2 ++ e3;
  body_relay : exists r1, relay_shape env s [] r1 e1 /\ (is_ok r1 = false -> e2 = [] /\ e3 = []);
  body_calls : Forall capture_call e2;
  body_spawned : spawned e2 = capture_task s f <$> opened;
  body_opened : opened `prefix_of` s_sources s;
  body_wait : e3 = [] \/ (opened = s_sources s /\ exists ext, e3 = DropSender :: ext /\ Forall (wind_call s (e1 ++ e2)) ext);
}.

Lemma with_tasks_shape s f res body :
  with_tasks env s f [] = (res, body) ->
  (exists e1 e2 e3 opened, body_shape s f body e1 e2 e3 opened) /\ (is_ok res = true -> WaitSignal ∈ body).
Proof.
  unfold with_tasks. unfold mbind at 1, Sys_bind at 1.
  destruct (start_relay env s []) as [r1 tr1] eqn:H1. apply start_relay_shape in H1 as (e1 & -> & Hrel). cbn [app].
  destruct r1 as [u|e].
  2: { intros [= <- <-]. split; [|done]. exists e1, [], [], []. split; [by rewrite !app_nil_r|by eexists|done..|apply prefix_nil|by left]. }
  unfold mbind at 1, Sys_bind at 1.
  destruct (start_captures env s f (s_sources s) e1) as [r2 tr2] eqn:H2.
  apply start_captures_shape in H2 as (e2 & opened & -> & Hall & Hsp & Hpre & Hfull). destruct r2 as [u2|e].
  2: { intros [= <- <-]. split; [|done]. exists e1, e2, [], opened. split; [by rewrite app_nil_r|by eexists|done..|by left]. }
  intros (ext & -> & Hw & Hok)%wind_down_shape. split.
  - exists e1, e2, (DropSender :: ext), opened. split; [by rewrite app_assoc|by eexists|done..|]. right. split; [by apply Hfull|by eexists].
  - exact Hok.
Qed.

Lemma load_config_Ok path s f :
  load_config env path = Ok (s, f) ->
  validate (IoError := IoError) s = Ok tt /\ load (config_env env) path = Ok s /\ settings_filter (config_env env) s = Ok f.
Proof.
  unfold load_config. intros (s' & Hl & (f' & Hf & [= <- <-])%bind_Ok)%bind_Ok. split; [|done]. unfold load in Hl.
  destruct (read_to_string _ _) as [text|]; [|done]. by apply bind_Ok in Hl as (raw & _ & ([] & Hv & [= <-])%bind_Ok).
Qed.

(** The trace of a run: everything up to the drop of the tasks, then what they held. *)
Lemma app_run_trace path r tr :
  app_run env path [] = (r, tr) ->
  (exists e, load_config env path = Err e /\ r = Err (ConfigFailed e) /\ tr = []) \/
  (exists s f r' body, load_config env path = Ok (s, f) /\ with_tasks env s f [] = (r', body) /\ is_ok r = is_ok r' /\
     tr = body ++ (release <$> abort_all env body (live body)) ++ (if is_ok r' then [LogCounters] else [])).
Proof.
  unfold app_run, mbind, Sys_bind, from_result. destruct (load_config env path) as [[s f]|e].
  2: { intros [= <- <-]. left. by exists e. }
  unfold drop_tasks. destruct (with_tasks env s f []) as [[[]|e] body] eqn:Hw; intros [= <- <-]; right.
  - exists s, f, (Ok tt), body. cbn [is_ok]. by rewrite <- app_assoc.
  - exists s, f, (Err e), body. cbn [is_ok]. by rewrite app_nil_r.
Qed.

(** What follows the drop of the tasks spawns nothing and waits for nothing. *)
Definition tail_call (c : RunCall) : Prop :=
  c = LogCounters \/ c = OnTap DropDevice \/ exists n, c = OnSocket n CloseFd.

Lemma tail_calls ts (ok : bool) : Forall tail_call ((release <$> ts) ++ (if ok then [LogCounters] else [])).
Proof.
  apply Forall_app_2; [|destruct ok; repeat constructor]. apply Forall_fmap, Forall_true.
  intros [relay p|sock f fw]; cbn; [right; by left|right; right; by eexists].
Qed.

(** Where a call that is not of the tail stands in the trace. *)
Lemma before_tail {A} (P : A -> Prop) body tail pre post x :
  body ++ tail = pre ++ x :: post -> Forall P tail -> ~ P x -> exists post', body = pre ++ x :: post'.
Proof.
  revert body. induction pre as [|z pre IH]; intros [|y body]; cbn [app]; intros H Ht Hx.
  - subst tail. by apply Forall_cons in Ht as [? _].
  - injection H as -> _. by exists body.
  - subst tail. apply Forall_cons in Ht as [_ Ht]. by apply Forall_app in Ht as [_ [? _]%Forall_cons].
  - injection H as -> H. destruct (IH body H Ht Hx) as [post' ->]. by exists post'.
Qed.

Lemma after_head {A} (P : A -> Prop) head rest pre post x :
  head ++ rest = pre ++ x :: post -> Forall P head -> ~ P x -> exists k, pre = head ++ k /\ rest = k ++ x :: post.
Proof.
  revert pre. induction head as [|y head IH]; intros pre H Hh Hx; [by exists pre|].
  apply Forall_cons in Hh as [Hy Hh]. destruct pre as [|z pre]; cbn [app] in H; injection H as -> H; [done|].
  destruct (IH pre H Hh Hx) as (k & -> & ->). by exists k.
Qed.
End Runs.

(** ** Claims *)

Section Order.
Context {IoError : Type}.
Variables (env : RunEnv IoError) (s : Settings) (f : Filter) (body e1 e2 e3 : list RunCall) (opened : list str).
Hypothesis Hshape : body_shape env s f body e1 e2 e3 opened.

(** The inject task, when there is one. *)
Definition inject_tasks (ts : list Task) : Prop :=
  if is_forward s then exists relay, ts = [InjectTask relay (packets_per_second (s_limits s))] else ts = [].

Lemma relay_tasks r1 : relay_shape env s [] r1 e1 -> (is_ok r1 = true -> inject_tasks (spawned e1)) /\ (is_forward s = false -> spawned e1 = []).
Proof.
  intros Hr. unfold inject_tasks. inversion Hr as [Hf|relay calls Hf _|e calls Hf _]; subst; rewrite Hf; split; try done.
  intros _. exists relay. rewrite spawned_app, (spawned_none (OnTap <$> calls)) by (apply Forall_fmap, Forall_true; done). done.
Qed.

Lemma started_relay : e2 ++ e3 <> [] -> inject_tasks (spawned e1).
Proof.
  intros Hne. destruct (body_relay _ _ _ _ _ _ _ _ Hshape) as (r1 & Hr & Hstop). apply (relay_tasks r1 Hr).
  destruct (is_ok r1) eqn:Hok; [done|]. destruct (Hstop eq_refl) as [-> ->]. done.
Qed.

(** No task is spawned once the sender is dropped. *)
Lemma spawned_wait : spawned e3 = [].
Proof.
  destruct (body_wait _ _ _ _ _ _ _ _ Hshape) as [->|(_ & ext & -> & Hw)]; [done|]. apply spawned_none. constructor; [done|].
  eapply Forall_impl; [exact Hw|]. by intros [].
Qed.

Lemma spawned_body t : t ∈ spawned body -> t ∈ spawned e1 \/ exists name, t = capture_task s f name.
Proof.
  rewrite (body_eq _ _ _ _ _ _ _ _ Hshape), !spawned_app, spawned_wait, app_nil_r, (body_spawned _ _ _ _ _ _ _ _ Hshape), elem_of_app.
  intros [?|(name & -> & _)%list_elem_of_fmap]; [by left|right; by exists name].
Qed.

Lemma relay_calls_no_capture : Forall (fun c => match c with SpawnTask (CaptureTask _ _ _) | WaitSignal => False | _ => True end) e1.
Proof.
  destruct (body_relay _ _ _ _ _ _ _ _ Hshape) as (r1 & Hr & _). inversion Hr; subst; [by repeat constructor|..].
  - apply Forall_app_2; [|by repeat constructor]. apply Forall_fmap, Forall_true. done.
  - apply Forall_fmap, Forall_true. done.
Qed.

Lemma capture_after_relay pre sock f' fw post :
  body = pre ++ SpawnTask (CaptureTask sock f' fw) :: post ->
  f' = f /\ fw = is_forward s /\ exists ts, inject_tasks ts /\ forall t, t ∈ ts -> SpawnTask t ∈ pre.
Proof.
  intros Hb. assert (SpawnTask (CaptureTask sock f' fw) ∈ body) as Hin.
  { rewrite Hb. apply elem_of_app. right. left. }
  rewrite (body_eq _ _ _ _ _ _ _ _ Hshape) in Hb. destruct (after_head _ _ _ _ _ _ Hb relay_calls_no_capture) as (k & -> & Hk); [by intros []|].
  apply elem_of_spawned, spawned_body in Hin as [Hin|(name & Hin)].
  - exfalso. apply elem_of_spawned in Hin. by apply (Forall_elem _ _ _ relay_calls_no_capture) in Hin.
  - injection Hin as _ -> ->. split_and!; [done..|]. exists (spawned e1). split; [apply started_relay; rewrite Hk; by destruct k|].
    intros t Ht%elem_of_spawned. apply elem_of_app. by left.
Qed.

Lemma observe_no_inject : s_mode s = Observe -> forall t, t ∈ spawned body -> exists name, t = capture_task s f name.
Proof.
  intros Hm t [Ht|?]%spawned_body; [|done]. destruct (body_relay _ _ _ _ _ _ _ _ Hshape) as (r1 & Hr & _).
  apply relay_tasks in Hr as [_ Hr]. rewrite Hr in Ht; [by apply not_elem_of_nil in Ht|]. unfold is_forward. by rewrite Hm, bool_decide_false.
Qed.

Lemma observe_no_tap t : s_mode s = Observe -> OnTap t ∉ body.
Proof.
  intros Hm. assert (is_forward s = false) as Hf by (unfold is_forward; by rewrite Hm, bool_decide_false).
  rewrite (body_eq _ _ _ _ _ _ _ _ Hshape), !not_elem_of_app. split_and!.
  - destruct (body_relay _ _ _ _ _ _ _ _ Hshape) as (r1 & Hr & _). inversion Hr; subst; [|congruence..].
    by intros ?%list_elem_of_singleton.
  - intros Hin. by apply (Forall_elem _ _ _ (body_calls _ _ _ _ _ _ _ _ Hshape)) in Hin.
  - destruct (body_wait _ _ _ _ _ _ _ _ Hshape) as [He3|(_ & ext & He3 & Hw)]; rewrite He3; [apply not_elem_of_nil|].
    intros [?|Hin]%elem_of_cons; [done|]. apply (Forall_elem _ _ _ Hw) in Hin as [[? _]|(_ & relay & p & Hl)]; [congruence|].
    assert (InjectTask relay p ∈ spawned body) as [? ?]%observe_no_inject; [|done|done].
    rewrite (body_eq _ _ _ _ _ _ _ _ Hshape), app_assoc, spawned_app, elem_of_app. left. by apply live_spawned.
Qed.

(** When the wait starts every task has been spawned and the run's own sender is gone. *)
Lemma wait_after_spawns pre post :
  body = pre ++ WaitSignal :: post ->
  DropSender ∈ pre /\ exists ts, inject_tasks ts /\ spawned pre = ts ++ (capture_task s f <$> s_sources s).
Proof.
  rewrite (body_eq _ _ _ _ _ _ _ _ Hshape). intros Hb. destruct (after_head _ _ _ _ _ _ Hb relay_calls_no_capture) as (k & -> & Hk); [by intros []|].
  destruct (after_head _ _ _ _ _ _ Hk (body_calls _ _ _ _ _ _ _ _ Hshape)) as (k' & -> & Hk'); [by intros []|].
  destruct (body_wait _ _ _ _ _ _ _ _ Hshape) as [Hnil|(Hop & ext & He & Hw)]; [rewrite Hnil in Hk'; by destruct k'|].
  rewrite He in Hk'. destruct k' as [|c k']; [done|]. injection Hk' as <- Hk'. split; [rewrite !elem_of_app; right; right; left|].
  exists (spawned e1). split; [apply started_relay; rewrite He; by destruct e2|].
  rewrite !spawned_app, (body_spawned _ _ _ _ _ _ _ _ Hshape), Hop. f_equal. rewrite <- (app_nil_r (_ <$> _)) at 2. f_equal.
  apply spawned_none. constructor; [done|]. rewrite Hk' in Hw. apply Forall_app in Hw as [Hw _].
  eapply Forall_impl; [exact Hw|]. by intros [].
Qed.
(** A body that waits has spawned a capture for every source. *)
Lemma waiting_spawned :
  WaitSignal ∈ body -> exists ts, inject_tasks ts /\ spawned body = ts ++ (capture_task s f <$> s_sources s).
Proof.
  rewrite (body_eq _ _ _ _ _ _ _ _ Hshape), !elem_of_app, !spawned_app, spawned_wait, app_nil_r, (body_spawned _ _ _ _ _ _ _ _ Hshape).
  intros [Hin|[Hin|Hin]].
  - by apply (Forall_elem _ _ _ relay_calls_no_capture) in Hin.
  - by apply (Forall_elem _ _ _ (body_calls _ _ _ _ _ _ _ _ Hshape)) in Hin.
  - destruct (body_wait _ _ _ _ _ _ _ _ Hshape) as [Hnil|(Hop & ext & He & _)]; [rewrite Hnil in Hin; by apply not_elem_of_nil in Hin|].
    exists (spawned e1). rewrite Hop. split; [|done]. apply started_relay. rewrite He. by destruct e2.
Qed.

(** In forward mode it has its relay. *)
Lemma waiting_relay :
  WaitSignal ∈ body -> is_forward s = true ->
  exists relay calls, create_relay (tap_env env []) (s_tap s) (s_target s) (s_pref s) [] = (Ok relay, calls) /\
    forall c, c ∈ calls -> OnTap c ∈ body.
Proof.
  rewrite (body_eq _ _ _ _ _ _ _ _ Hshape). intros Hin Hf.
  destruct (body_relay _ _ _ _ _ _ _ _ Hshape) as (r1 & Hr & Hstop).
  assert (WaitSignal ∉ e1) as Hno by (intros Hw; by apply (Forall_elem _ _ _ relay_calls_no_capture) in Hw).
  inversion Hr as [Hf'|relay calls _ Hc|e calls _ Hc]; subst r1; [congruence|..].
  - exists relay, calls. split; [done|]. intros c Hin'. rewrite !elem_of_app. left. left. by apply list_elem_of_fmap_2.
  - destruct (Hstop eq_refl) as [Hn2 Hn3]. rewrite Hn2, Hn3, !app_nil_r in Hin. congruence.
Qed.

(** Every command run on the device is of its set-up, or reads its statistics. *)
Lemma body_commands program args :
  OnTap (Spawn program args) ∈ body -> is_forward s = true /\
  ((exists rest, args = b "-s" :: rest) \/
   set_up_call (s_target s) (s_pref s) (device_name (tap_env env []) [BuildTap (s_tap s)] DeviceName) (Spawn program args)).
Proof.
  rewrite (body_eq _ _ _ _ _ _ _ _ Hshape), !elem_of_app. intros [Hin|[Hin|Hin]].
  - destruct (body_relay _ _ _ _ _ _ _ _ Hshape) as (r1 & Hr & _).
    assert (forall r calls, create_relay (tap_env env []) (s_tap s) (s_target s) (s_pref s) [] = (r, calls) ->
      OnTap (Spawn program args) ∈ OnTap <$> calls ->
      set_up_call (s_target s) (s_pref s) (device_name (tap_env env []) [BuildTap (s_tap s)] DeviceName) (Spawn program args)) as Hset.
    { intros r calls Hc (c & [= <-] & Hin')%list_elem_of_fmap. by apply (Forall_elem _ _ _ (create_relay_calls _ _ _ _ _ _ Hc)) in Hin'. }
    inversion Hr as [Hf|relay calls Hf Hc He|e calls Hf Hc]; subst.
    + by apply list_elem_of_singleton in Hin.
    + split; [done|]. right. apply elem_of_app in Hin as [Hin|?%list_elem_of_singleton]; [|done]. by eapply Hset.
    + split; [done|]. right. by eapply Hset.
  - by apply (Forall_elem _ _ _ (body_calls _ _ _ _ _ _ _ _ Hshape)) in Hin.
  - destruct (body_wait _ _ _ _ _ _ _ _ Hshape) as [Hnil|(_ & ext & He & Hw)]; [rewrite Hnil in Hin; by apply not_elem_of_nil in Hin|].
    rewrite He in Hin. apply elem_of_cons in Hin as [?|Hin]; [done|].
    apply (Forall_elem _ _ _ Hw) in Hin as [[Hf (rest & [= -> ->])]|[? _]]; [|done]. split; [done|]. left. by exists rest.
Qed.
End Order.

Lemma tail_no_capture sock f' fw : ~ tail_call (SpawnTask (CaptureTask sock f' fw)).
Proof. intros [?|[?|[n ?]]]; done. Qed.

Lemma tail_no_wait : ~ tail_call WaitSignal.
Proof. intros [?|[?|[n ?]]]; done. Qed.

(** C29. Set-up is ordered and mode-safe: in forward mode no capture starts before the
    relay and its redirect rule are in place and the inject task has its budget; every
    capture works with the filter and the mode of the settings; in observe mode the TAP
    is never touched; the wait for a signal starts only with every task spawned and the
    run's own sender dropped, so that the inject task can end; and a configuration
    error makes no call at all. *)
Theorem run_sets_up_in_order {IoError : Type} (env : RunEnv IoError) (path : str) r tr :
  app_run env path [] = (r, tr) ->
  (forall s f, load_config env path = Ok (s, f) ->
     (forall pre sock f' fw post, tr = pre ++ SpawnTask (CaptureTask sock f' fw) :: post ->
        f' = f /\ fw = is_forward s /\
        (s_mode s = Forward -> exists relay, SpawnTask (InjectTask relay (packets_per_second (s_limits s))) ∈ pre)) /\
     (s_mode s = Observe -> forall t, OnTap t ∉ tr) /\
     (forall pre post, tr = pre ++ WaitSignal :: post ->
        DropSender ∈ pre /\ exists ts, inject_tasks s ts /\ spawned pre = ts ++ (capture_task s f <$> s_sources s))) /\
  (forall e, load_config env path = Err e -> r = Err (ConfigFailed e) /\ tr = []).
Proof.
  intros [(e & He & -> & ->)|(s & f & r' & body & Hl & Hw & _ & ->)]%app_run_trace.
  { split; [intros s f Hl; congruence|]. intros e' He'. split; [congruence|done]. }
  apply with_tasks_shape in Hw as [(e1 & e2 & e3 & opened & Hshape) _].
  split; [|intros e He; congruence]. intros s' f' Hl'. rewrite Hl in Hl'. injection Hl' as <- <-. split; [|split].
  - intros pre sock f' fw post Heq. destruct (before_tail _ _ _ _ _ _ Heq (tail_calls _ _) (tail_no_capture _ _ _)) as [post' Hb].
    destruct (capture_after_relay _ _ _ _ _ _ _ _ Hshape _ _ _ _ _ Hb) as (-> & -> & ts & Hts & Hin). split_and!; [done..|].
    intros Hm. unfold inject_tasks, is_forward in Hts. rewrite bool_decide_true in Hts by done. destruct Hts as [relay ->].
    exists relay. apply Hin. left.
  - intros Hm t. rewrite !not_elem_of_app. split_and!; [by eapply observe_no_tap| |].
    + intros (tk & Htk & Hlive)%list_elem_of_fmap. rewrite abort_all_ok in Hlive. apply live_spawned in Hlive.
      by destruct (observe_no_inject _ _ _ _ _ _ _ _ Hshape Hm tk Hlive) as [name ->].
    + destruct (is_ok r'); [|apply not_elem_of_nil]. by intros ?%list_elem_of_singleton.
  - intros pre post Heq. destruct (before_tail _ _ _ _ _ _ Heq (tail_calls _ _) tail_no_wait) as [post' Hb].
    by eapply wait_after_spawns.
Qed.

(** ** Concrete runs *)

(** A system that grants everything; the first capture ends by itself. *)
Definition test_renv : RunEnv unit := {|
  config_env := test_cenv;
  tap_env _ := test_tap_env;
  kernel tr _ c := match c with IfNameToIndex n => 3 | _ => 0 end%Z;
  catches _ _ := true;
  ended _ := [1];
  abort_all _ ts := rev ts;
  abort_all_ok _ ts := symmetry (Permutation_rev ts);
|}.

(** The second source cannot be bound. *)
Definition test_failing_env : RunEnv unit := {|
  config_env := test_cenv;
  tap_env _ := test_tap_env;
  kernel tr _ c := match c with
                   | IfNameToIndex n => 3
                   | Bind _ _ => if bool_decide (List.length (spawned tr) <= 1)%nat then 0 else -1
                   | _ => 0
                   end%Z;
  catches _ _ := true;
  ended _ := [];
  abort_all _ ts := ts;
  abort_all_ok _ ts := reflexivity ts;
|}.

Definition test_trace : list RunCall := (app_run test_renv (b "config.yaml") []).2.

Lemma run_sets_up_in_order_witness :
  test_trace = take 18 test_trace ++ SpawnTask (capture_task test_settings test_built (b "eth1")) :: drop 19 test_trace /\
  (exists relay, SpawnTask (InjectTask relay 20) ∈ take 18 test_trace) /\
  test_trace = take 30 test_trace ++ WaitSignal :: drop 31 test_trace /\ DropSender ∈ take 30 test_trace.
Proof.
  destruct (run_sets_up_in_order test_renv (b "config.yaml") (app_run test_renv (b "config.yaml") []).1 test_trace
    (surjective_pairing _)) as [H _].
  destruct (H test_settings test_built ltac:(vm_compute; reflexivity)) as (H1 & _ & H2).
  assert (test_trace = take 18 test_trace ++ SpawnTask (capture_task test_settings test_built (b "eth1")) :: drop 19 test_trace) as E1
    by (vm_compute; reflexivity).
  assert (test_trace = take 30 test_trace ++ WaitSignal :: drop 31 test_trace) as E2 by (vm_compute; reflexivity).
  split; [exact E1|]. split; [exact (proj2 (proj2 (H1 _ _ _ _ _ E1)) eq_refl)|].
  split; [exact E2|]. exact (proj1 (H2 _ _ E2)).
Defined.
