(* ===== verification/Ledger.v ===== *)
(** * What a run acquires, and that it releases it

    A ledger over the calls of [Startup]: the system grants the device or a socket, and
    ending tasks, dropped task sets and error paths give them back.  Every part of
    [run] keeps the ledger: at its end the tasks in the set own exactly what is held. *)

From Stdlib Require Import ZArith Lia Strings.Byte Strings.String.
From stdpp Require Import base list numbers list_numbers sets.
From S2P Require Import Prelude Proto Parse Wire Verdict Relay MacText Hostapd Config Packet Tap App System Daemon Startup.
Local Open Scope nat_scope.
Local Open Scope rrb_scope.

(** ** The ledger of resources *)

Inductive Resource := Device | SocketOf (name : str).

#[export] Instance Resource_eq_dec : EqDecision Resource.
Proof. solve_decision. Defined.

(** The resource that a call creates, if the system grants it. *)
Definition acquired {IoError : Type} (env : RunEnv IoError) (pre : list RunCall) (c : RunCall) : option Resource :=
  match c with
  | OnTap (BuildTap name) => if build_tap (tap_env env pre) [] (BuildTap name) then Some Device else None
  | OnSocket name (Socket p) =>
      if (0 <=? kernel env (removelast pre) [IfNameToIndex name] (Socket p))%Z then Some (SocketOf name) else None
  | _ => None
  end.

Definition released (c : RunCall) : option Resource :=
  match c with
  | OnTap DropDevice => Some Device
  | OnSocket name CloseFd => Some (SocketOf name)
  | _ => None
  end.

(** How many of [r] are held after the calls [tr] that follow [pre], when [h] were held
    before; [None] when one is released that is not held. *)
Fixpoint held {IoError : Type} (env : RunEnv IoError) (r : Resource) (pre : list RunCall) (h : nat) (tr : list RunCall) : option nat :=
  match tr with
  | [] => Some h
  | c :: tr' =>
      if decide (released c = Some r) then
        match h with 0 => None | S h' => held env r (pre ++ [c]) h' tr' end
      else if decide (acquired env pre c = Some r) then held env r (pre ++ [c]) (S h) tr'
      else held env r (pre ++ [c]) h tr'
  end.

Definition owns (r : Resource) (t : Task) : bool := bool_decide (released (release t) = Some r).

(** How many of [r] the tasks in the set own. *)
Definition owned (r : Resource) (tr : list RunCall) : nat := count_if (owns r) (live tr).

Section Ledger.
Context {IoError : Type}.
Variable env : RunEnv IoError.

Lemma held_app r l1 : forall pre h l2,
  held env r pre h (l1 ++ l2) = (h' ← held env r pre h l1; held env r (pre ++ l1) h' l2).
Proof.
  induction l1 as [|c l1 IH]; intros pre h l2; cbn [held app]; [by rewrite app_nil_r|].
  repeat case_decide; [destruct h; [done|]|..]; by rewrite IH, <- app_assoc.
Qed.

(** Calls that concern no resource. *)
Definition neutral (c : RunCall) : Prop := released c = None /\ forall pre, acquired env pre c = None.

Lemma held_neutral r ext : Forall neutral ext -> forall pre h, held env r pre h ext = Some h.
Proof.
  induction 1 as [|c ext [Hr Ha] _ IH]; intros pre h; cbn [held]; [done|]. by rewrite Hr, Ha, !decide_False.
Qed.

(** A program keeps the ledger: whatever happens, the tasks in the set own exactly
    what is held. *)
Definition keeps {A} (m : Sys RunCall (RunError IoError) A) : Prop :=
  forall tr res tr', m tr = (res, tr') ->
  exists ext, tr' = tr ++ ext /\ forall r, held env r tr (owned r tr) ext = Some (owned r tr').

Lemma keeps_bind {A B} (m : Sys RunCall (RunError IoError) A) (k : A -> Sys RunCall (RunError IoError) B) :
  keeps m -> (forall x, keeps (k x)) -> keeps (m ≫= k).
Proof.
  intros Hm Hk tr res tr'. unfold mbind, Sys_bind. destruct (m tr) as [r1 tr1] eqn:H1.
  apply Hm in H1 as (e1 & -> & He1). destruct r1 as [x|e]; [|by intros [= <- <-]; eauto].
  intros (e2 & -> & He2)%Hk. exists (e1 ++ e2). split; [by rewrite app_assoc|]. intros r. rewrite held_app, He1. apply He2.
Qed.

Lemma keeps_result {A} (m : result (RunError IoError) A) : keeps (from_result m).
Proof. intros tr res tr' [= <- <-]. exists []. by rewrite app_nil_r. Qed.

(** Calls of no consequence for the ledger. *)
Lemma keeps_emits {A} (m : Sys RunCall (RunError IoError) A) :
  emits (fun c => neutral c /\ no_task c) m -> keeps m.
Proof.
  intros Hm tr res tr' Hrun. destruct (Hm tr) as (ext & He & Hall). rewrite Hrun in He. cbn in He. subst tr'.
  apply Forall_and in Hall as [Hn Ht]. exists ext. split; [done|]. intros r. rewrite held_neutral by done.
  unfold owned, live. by rewrite tasks_same.
Qed.

(** ** Each part of the run keeps the ledger *)

Lemma owned_spawn r tr ext t : Forall no_task ext -> owned r (tr ++ ext ++ [SpawnTask t]) = owned r tr + if owns r t then 1 else 0.
Proof.
  intros He. unfold owned, live. rewrite app_assoc, tasks_app, (tasks_same tr ext) by done. cbn [fold_left task_step].
  rewrite omap_app, count_if_app. f_equal. unfold count_if. cbn. by destruct (owns r t).
Qed.

Lemma no_task_lift {Ev} (inj : Ev -> RunCall) calls : (forall c, no_task (inj c)) -> Forall no_task (inj <$> calls).
Proof. intros H. apply Forall_fmap, Forall_true. exact H. Qed.

(** The device: created first, dropped on an error. *)
Lemma held_create_relay name target pref r pre h res calls :
  create_relay (tap_env env pre) name target pref [] = (res, calls) ->
  held env r pre h (OnTap <$> calls) = Some (h + if bool_decide (r = Device) && is_ok res then 1 else 0).
Proof.
  unfold create_relay, mbind, Sys_bind, request, from_result. cbn [app].
  destruct (build_tap (tap_env env pre) [] (BuildTap name)) eqn:Hb; cbn [ensure].
  2: { intros [= <- <-]. cbn [fmap list_fmap held released acquired]. by rewrite Hb, andb_false_r, Nat.add_0_r, !decide_False. }
  pose proof (create_owned_emits (tap_env env pre) target pref [BuildTap name]) as (mid & Hmid & Hall).
  assert (Forall neutral (OnTap <$> mid)) as Hn.
  { apply Forall_fmap. eapply Forall_impl; [exact Hall|]. by intros []. }
  unfold on_error. destruct (create_owned (tap_env env pre) target pref [BuildTap name]) as [[x|e] tr']; cbn in Hmid; subst tr';
    intros [= <- <-]; cbn [fmap list_fmap held released acquired is_ok]; rewrite Hb, ?andb_true_r, ?andb_false_r, (decide_False (P := None = Some r)) by done;
    case_decide as Hr; simplify_eq; rewrite ?fmap_app, ?held_app, ?held_neutral by done; cbn [mbind option_bind fmap list_fmap held released acquired].
  - by rewrite bool_decide_true, Nat.add_1_r by done.
  - by rewrite bool_decide_false, Nat.add_0_r by congruence.
  - by rewrite decide_True, Nat.add_0_r by done.
  - by rewrite !decide_False, Nat.add_0_r by done.
Qed.

(** The socket: opened second, closed on a later error. *)
Lemma held_opened name rest r pre h :
  Forall (fun c => neutral (OnSocket name c)) rest -> (0 <= kernel env pre [IfNameToIndex name] (Socket 0))%Z ->
  held env r pre h (OnSocket name <$> [IfNameToIndex name; Socket 0] ++ rest) =
    Some (h + if bool_decide (r = SocketOf name) then 1 else 0).
Proof.
  intros Hn Hs. rewrite fmap_app, held_app. cbn [fmap list_fmap held released acquired].
  rewrite removelast_last, (proj2 (Z.leb_le _ _) Hs), !(decide_False (P := None = Some r)) by done.
  assert (Forall neutral (OnSocket name <$> rest)) as Hn' by by apply Forall_fmap.
  case_decide; simplify_eq; cbn [mbind option_bind]; unfold fmap in Hn'; rewrite held_neutral by done.
  - by rewrite bool_decide_true, Nat.add_1_r by done.
  - by rewrite bool_decide_false, Nat.add_0_r by congruence.
Qed.

Lemma held_open name r pre h res calls :
  open (kernel env pre) name [] = (res, calls) ->
  held env r pre h (OnSocket name <$> calls) = Some (h + if bool_decide (r = SocketOf name) && is_ok res then 1 else 0).
Proof.
  intros [Hn|Hn Hz|Hn Hz Hs|idx pre' c post Hn Hi Hz Hsplit Ha Hc|idx Hn Hi Hz Ha]%open_ends; cbn [is_ok];
    rewrite ?andb_false_r, ?andb_true_r, ?Nat.add_0_r; try done.
  - cbn [fmap list_fmap held released acquired]. rewrite removelast_last, (proj2 (Z.leb_gt _ _) Hs).
    by rewrite !(decide_False (P := None = Some r)).
  - assert (Forall (fun c => neutral (OnSocket name c)) (pre' ++ [c])) as Hall.
    { assert (Forall (fun c => neutral (OnSocket name c)) (setup_calls idx)) as Hsc by (by repeat constructor).
      rewrite Hsplit, (cons_middle c pre' post), app_assoc in Hsc. by apply Forall_app in Hsc as [? _]. }
    replace ([IfNameToIndex name; Socket 0] ++ pre' ++ [c; CloseFd])
      with (([IfNameToIndex name; Socket 0] ++ (pre' ++ [c])) ++ [CloseFd]) by (by rewrite <- !app_assoc).
    rewrite fmap_app, held_app.
    rewrite held_opened; [|done|by apply (Ha 0)]. cbn [mbind option_bind fmap list_fmap held released].
    case_decide; simplify_eq.
    + by rewrite bool_decide_true, Nat.add_1_r by done.
    + rewrite bool_decide_false, Nat.add_0_r by congruence. by rewrite decide_False.
  - rewrite held_opened; [done|by repeat constructor|]. by apply (Ha 0).
Qed.

Lemma emits_lift {Ev Ev' E E' A} (P : Ev' -> Prop) (inj : Ev -> Ev') (wrap : E -> E') (m : list Ev' -> Sys Ev E A) :
  (forall tr, emits (fun c => P (inj c)) (m tr)) -> emits P (lift inj wrap m).
Proof.
  intros Hm tr. destruct (Hm tr []) as (ext & He & HP). unfold lift. destruct (m tr []) as [r calls]. cbn in *. subst calls.
  exists (inj <$> ext). split; [done|]. by apply Forall_fmap.
Qed.

(** What a component acquires is moved into a task at once. *)
Lemma keeps_acquire {Ev E A} (inj : Ev -> RunCall) (wrap : E -> RunError IoError) (m : list RunCall -> Sys Ev E A) (own : A -> Task) :
  (forall c, no_task (inj c)) ->
  (forall r pre h res calls, m pre [] = (res, calls) ->
     held env r pre h (inj <$> calls) = Some (h + match res with Ok x => if owns r (own x) then 1 else 0 | Err _ => 0 end)) ->
  keeps (x ← lift inj wrap m; note (SpawnTask (own x))).
Proof.
  intros Hinj Hm tr res tr'. unfold mbind, Sys_bind, lift. destruct (m tr []) as [[x|e] calls] eqn:Hc;
    [cbn [note request]|]; intros [= <- <-].
  - exists ((inj <$> calls) ++ [SpawnTask (own x)]). split; [by rewrite app_assoc|]. intros r.
    rewrite held_app, (Hm _ _ _ _ _ Hc). cbn [mbind option_bind held released acquired].
    rewrite !decide_False by done. by rewrite <- app_assoc, owned_spawn by by apply no_task_lift.
  - exists (inj <$> calls). split; [done|]. intros r. rewrite (Hm _ _ _ _ _ Hc), Nat.add_0_r.
    unfold owned, live. by rewrite tasks_same by by apply no_task_lift.
Qed.

Lemma keeps_ext {A} (m m' : Sys RunCall (RunError IoError) A) : (forall tr, m tr = m' tr) -> keeps m' -> keeps m.
Proof. intros He Hm tr res tr'. rewrite He. apply Hm. Qed.

Lemma keeps_note c : neutral c -> no_task c -> keeps (note c).
Proof. intros Hn Ht. apply keeps_emits, emits_request. done. Qed.

Lemma keeps_start_relay s : keeps (start_relay env s).
Proof.
  unfold start_relay. destruct (is_forward s); [|by apply keeps_note].
  apply (keeps_acquire OnTap TapFailed _ (fun relay => InjectTask relay _)); [done|].
  intros r pre h res calls Hc. rewrite (held_create_relay _ _ _ _ _ _ _ _ Hc). do 2 f_equal. unfold owns. cbn [release released].
  destruct res; cbn [is_ok]; [|by rewrite andb_false_r]. rewrite andb_true_r. repeat case_bool_decide; congruence.
Qed.

Lemma keeps_start_captures s f names : keeps (start_captures env s f names).
Proof.
  induction names as [|name names IH]; cbn [start_captures]; [apply keeps_emits, emits_mret|].
  apply (keeps_ext _ ((sock ← lift (OnSocket name) (OpenFailed name) (fun tr => open (kernel env tr) name);
    note (SpawnTask (CaptureTask sock f (is_forward s)))) ≫= fun _ => start_captures env s f names)).
  { intros tr. unfold mbind, Sys_bind. by destruct (lift _ _ _ tr) as [[x|e] tr1]. }
  apply keeps_bind; [|done].
  apply (keeps_acquire (OnSocket name) (OpenFailed name) (fun tr => open (kernel env tr) name)
    (fun sock => CaptureTask sock f (is_forward s))); [done|].
  intros r pre h res calls Ho. rewrite (held_open _ _ _ _ _ _ Ho). do 2 f_equal.
  apply open_ends in Ho. unfold owns. cbn [release released]. destruct res as [sock|e]; cbn [is_ok]; [|by rewrite andb_false_r].
  inversion Ho; subst. rewrite andb_true_r. cbn [sock_name]. repeat case_bool_decide; congruence.
Qed.

Lemma held_release r t pre h :
  held env r pre h [release t] = if owns r t then (match h with 0 => None | S h' => Some h' end) else Some h.
Proof.
  unfold owns. cbn [held]. case_bool_decide as Hr.
  - rewrite decide_True by done. by destruct h.
  - rewrite decide_False by done. rewrite decide_False; [done|]. by destruct t.
Qed.

Lemma held_ended r i t pre h :
  held env r pre h [TaskEnded i; release t] = if owns r t then (match h with 0 => None | S h' => Some h' end) else Some h.
Proof. rewrite <- (held_release r t (pre ++ [TaskEnded i])). done. Qed.

Lemma keeps_end_tasks ids : forall tr,
  exists ext, end_tasks ids tr = tr ++ ext /\ forall r, held env r tr (owned r tr) ext = Some (owned r (end_tasks ids tr)).
Proof.
  induction ids as [|i ids IH]; intros tr; cbn [end_tasks]; [exists []; by rewrite app_nil_r|].
  destruct (tasks tr !! i) as [[t|]|] eqn:Ht; [|apply IH..].
  destruct (IH (tr ++ [TaskEnded i; release t])) as (ext & Hext & Hh). exists ([TaskEnded i; release t] ++ ext).
  split; [by rewrite Hext, <- app_assoc|]. intros r. rewrite held_app.
  rewrite held_ended.
  assert (owned r tr = (if owns r t then 1 else 0) + owned r (tr ++ [TaskEnded i; release t])) as ->.
  { unfold owned. rewrite (live_ended tr i t (release t) Ht (release_no_task t)). apply count_if_cons. }
  destruct (owns r t); cbn [Nat.add mbind option_bind]; apply Hh.
Qed.

Lemma keeps_others_run : keeps (others_run env).
Proof.
  intros tr res tr' [= <- <-]. destruct (keeps_end_tasks (ended env tr) tr) as (ext & He & Hh). exists ext. by rewrite He in Hh |- *.
Qed.

Lemma keeps_report_stats s : keeps (report_stats env s).
Proof.
  unfold report_stats. destruct (is_forward s); [|apply keeps_emits, emits_mret].
  apply keeps_bind; [|intros _; apply keeps_others_run].
  apply keeps_emits. intros tr. destruct (emits_lift (fun c => neutral c /\ no_task c) OnTap (TapFailed (IoError := IoError))
    (fun tr => action_stats (tap_env env tr) (s_tap s))) with (tr := tr) as (ext & He & HP).
  { intros tr0. by apply emits_run. }
  exists ext. done.
Qed.

Lemma keeps_with_tasks s f : keeps (with_tasks env s f).
Proof.
  unfold with_tasks, wind_down, wait_signal, catch.
  repeat first [apply keeps_bind; [|intros ?] | apply keeps_start_relay | apply keeps_start_captures
               | apply keeps_others_run | apply keeps_report_stats | apply keeps_result | by apply keeps_note
               | by apply keeps_emits, emits_request].
Qed.

(** Dropping a set of tasks releases what they own. *)
Lemma held_drop r ts : forall pre, held env r pre (count_if (owns r) ts) (release <$> ts) = Some 0.
Proof.
  induction ts as [|t ts IH]; intros pre; [done|]. rewrite fmap_cons, count_if_cons.
  change (release t :: (release <$> ts)) with ([release t] ++ (release <$> ts)). rewrite held_app, held_release.
  destruct (owns r t); cbn [Nat.add mbind option_bind]; apply IH.
Qed.
End Ledger.


(** C28. A run leaks nothing and releases nothing twice: whatever the system answers,
    whichever tasks end by themselves, and whatever stops the run, at set-up or by a
    signal, the relay device and every socket that the system granted are each released
    exactly once, after they were granted and before the run returns. *)
Theorem run_releases_what_it_acquires {IoError : Type} (env : RunEnv IoError) (path : str) r tr :
  app_run env path [] = (r, tr) -> forall res, held env res [] 0 tr = Some 0.
Proof.
  intros [(e & _ & _ & ->)|(s & f & r' & body & _ & Hw & _ & ->)]%app_run_trace res; [done|].
  apply keeps_with_tasks in Hw as (ext & Hext & Hh). cbn in Hext. subst ext. specialize (Hh res).
  change (owned res []) with 0 in Hh. rewrite held_app, Hh. cbn [mbind option_bind].
  assert (owned res body = count_if (owns res) (abort_all env body (live body))) as -> by (unfold owned; by rewrite abort_all_ok).
  rewrite held_app, held_drop. cbn [mbind option_bind]. apply held_neutral. destruct (is_ok r'); by repeat constructor.
Qed.

(** A complete run, in which one capture ends by itself, and a run that stops at the
    second socket: both acquire the device and two sockets. *)
Lemma run_releases_what_it_acquires_witness :
  let tr := (app_run test_renv (b "config.yaml") []).2 in
  let failed := (app_run test_failing_env (b "config.yaml") []).2 in
  is_ok (app_run test_failing_env (b "config.yaml") []).1 = false /\
  (held test_renv (SocketOf (b "eth1")) [] 0 (take 28 tr), held test_renv (SocketOf (b "eth1")) [] 0 tr) = (Some 1, Some 0) /\
  (held test_failing_env Device [] 0 (take 18 failed), held test_failing_env Device [] 0 failed) = (Some 1, Some 0).
Proof.
  intros tr failed. split; [vm_compute; reflexivity|]. split.
  - rewrite (run_releases_what_it_acquires test_renv (b "config.yaml") (app_run test_renv (b "config.yaml") []).1 tr
      (surjective_pairing _)). apply f_equal2; [vm_compute; reflexivity|reflexivity].
  - rewrite (run_releases_what_it_acquires test_failing_env (b "config.yaml") (app_run test_failing_env (b "config.yaml") []).1 failed
      (surjective_pairing _)). apply f_equal2; [vm_compute; reflexivity|reflexivity].
Defined.
