(* ===== verification/EndToEnd.v ===== *)
(** * From the settings file to the TAP

    What a run that reached its wait has started, taken as the parameters of the running
    daemon of [System], and what this says of a frame that reaches the TAP, in terms of
    the settings the run was started with. *)

From Stdlib Require Import ZArith Lia Strings.Byte Strings.String.
From stdpp Require Import base list numbers list_numbers sets.
From S2P Require Import Prelude Proto Parse Wire Verdict Relay MacText Hostapd Config Packet Tap App System Daemon Startup.
Local Open Scope nat_scope.
Local Open Scope rrb_scope.

(** [ts] are the tasks of a daemon with this filter, mode, number of captures and budget,
    in the order of their spawning: these are the parameters of [init]. *)
Definition daemon_tasks (ts : list Task) (flt : Filter) (mode : Mode) (n : nat) (pps : Z) : Prop :=
  exists injectors socks, ts = injectors ++ ((fun sock => CaptureTask sock flt (forward mode)) <$> socks) /\
    List.length socks = n /\
    if forward mode then exists relay, injectors = [InjectTask relay pps] else injectors = [].

(** The type of [Settings] as the parser fills it: [u16] and [u32] fields. *)
Definition yaml_typed {IoError : Type} (env : Env IoError) : Prop :=
  forall text raw, from_yaml env text = Some raw -> Settings_typed (settings_of_raw raw).

Lemma load_typed {IoError : Type} (env : Env IoError) path s : yaml_typed env -> load env path = Ok s -> Settings_typed s.
Proof.
  intros Hy. unfold load. destruct (read_to_string env path) as [text|]; [|done].
  intros (raw & Hraw & (_ & _ & [= <-])%bind_Ok)%bind_Ok. apply (Hy text). by destruct (from_yaml env text); simplify_eq/=.
Qed.

(** A run that waits has started the daemon of its settings. *)
Lemma started_daemon {IoError : Type} (env : RunEnv IoError) path r tr :
  app_run env path [] = (r, tr) -> WaitSignal ∈ tr ->
  exists s f ts, load_config env path = Ok (s, f) /\ inject_tasks s ts /\
    spawned tr = ts ++ (capture_task s f <$> s_sources s).
Proof.
  intros [(e & _ & _ & ->)|(s & f & r' & body & Hl & Hw & _ & ->)]%app_run_trace Hin; [by apply not_elem_of_nil in Hin|].
  apply with_tasks_shape in Hw as [(e1 & e2 & e3 & opened & Hshape) _]. exists s, f.
  assert (WaitSignal ∈ body) as Hb.
  { apply elem_of_app in Hin as [?|Hin]; [done|]. apply (Forall_elem _ _ _ (tail_calls _ _)) in Hin. by apply tail_no_wait in Hin. }
  destruct (waiting_spawned _ _ _ _ _ _ _ _ Hshape Hb) as (ts & Hts & Hsp). exists ts. split_and!; [done..|].
  rewrite spawned_app, Hsp, (spawned_none (_ ++ _)), app_nil_r; [done|].
  eapply Forall_impl; [apply tail_calls|]. by intros c [->|[->|[n ->]]].
Qed.

(** The daemon read off a run's tasks is that of the settings. *)
Lemma daemon_of_settings s f ts flt mode n pps :
  s_sources s <> [] -> inject_tasks s ts ->
  daemon_tasks (ts ++ (capture_task s f <$> s_sources s)) flt mode n pps ->
  flt = f /\ mode = s_mode s /\ n = List.length (s_sources s) /\ (mode = Forward -> pps = packets_per_second (s_limits s)).
Proof.
  intros Hne Hts (injectors & socks & Heq & <- & Hinj).
  assert (capture_task s f <$> s_sources s = (fun sock => CaptureTask sock flt (forward mode)) <$> socks /\
    forward mode = is_forward s /\ (forward mode = true -> pps = packets_per_second (s_limits s))) as (Hcap & Hm & Hpps).
  { unfold inject_tasks in Hts. destruct (is_forward s), (forward mode).
    - destruct Hts as [relay ->], Hinj as [relay' ->]. by injection Heq as -> <- ?.
    - destruct Hts as [relay ->]. subst injectors. by destruct socks.
    - destruct Hinj as [relay ->]. subst ts. by destruct (s_sources s).
    - by subst. }
  pose proof (f_equal List.length Hcap) as Hlen. rewrite !length_fmap in Hlen.
  assert (flt = f) as Hf by (destruct (s_sources s), socks; [done..|]; by injection Hcap).
  split_and!; [done| |done|].
  - unfold forward, is_forward in Hm. destruct mode, (s_mode s); by vm_compute in Hm.
  - intros ->. by apply Hpps.
Qed.

(** ** Claims *)

(** C6. The relay does what its settings file says, from the file to the TAP: take a
    run that reached its wait and the daemon made of the tasks it spawned, in any state
    this daemon reaches.  Every frame written to the TAP was then forwarded in forward
    mode; it is the untagged form of a message that a capture heard; it is for the
    target bridge or broadcast, and for the BSSID or the R0KH-ID of a configured AP; and
    when peers are configured (without any, the file asks to accept every sender) it
    comes from the address of one of them and names a BSSID of this peer's entry. *)
Theorem relayed_traffic_is_configured {IoError E : Type} `{CH : Channel} `{!ChannelOk} (env : RunEnv IoError) path r tr
    flt mode n pps start sys out ok :
  yaml_typed (config_env env) ->
  app_run env path [] = (r, tr) -> WaitSignal ∈ tr ->
  daemon_tasks (spawned tr) flt mode n pps -> reachable (IoError := E) flt mode n pps start sys ->
  (out, ok) ∈ writes (injector sys) ->
  exists s, load (config_env env) path = Ok s /\ s_mode s = Forward /\
  exists msg, msg ∈ heard_all sys /\
    let fr := take MAX_FRAME (packet msg) in
    let v := msg_vlan msg in
    untag fr v = Some out /\
    (s_peers s <> [] -> exists i p bs, s_peers s !! i = Some p /\ mac (pe_mac p) = Ok (slice 6 12 fr) /\
       claims (config_env env) p bs /\ frame_source fr v ∈ bs) /\
    (sysfs_mac (config_env env) (s_target s) = Ok (slice 0 6 fr) \/ slice 0 6 fr = BROADCAST) /\
    exists i ap bss, s_aps s !! i = Some ap /\ sysfs_mac (config_env env) (interface ap) = Ok bss /\
      (frame_destination fr v = bss \/
       frame_destination fr v = BROADCAST /\ exists ts, tlv_block fr v ts /\ r0kh_of ts = Some (r0kh_text ap bss)).
Proof.
  intros Hy Hrun Hwait Hd Hs Hin.
  destruct (started_daemon env path r tr Hrun Hwait) as (s & f & ts & (Hv & Hl & Hf)%load_config_Ok & Hts & Hsp).
  rewrite Hsp in Hd. apply daemon_of_settings in Hd as (-> & -> & -> & _); [|by apply validate_Ok in Hv as [? _]|done].
  pose proof (load_typed _ _ _ Hy Hl) as Ht. exists s. split; [done|].
  pose proof (settings_filter_assembled _ _ _ Ht (proj1 (validate_Ok _) Hv) Hf) as [Hwf _].
  destruct (write_was_heard _ _ _ _ _ Hwf sys out Hs) as (msg & Hmsg & Hout).
  { apply list_elem_of_fmap. by exists (out, ok). }
  unfold msg_out, relayed, forward in Hout. case_bool_decide as Hm; cbn [andb] in Hout; [|done]. split; [done|].
  exists msg. split; [done|]. cbn zeta. fold (msg_frame msg).
  destruct (classify (msg_frame msg) (msg_vlan msg) f) as [m|e] eqn:Hc; cbn [is_ok] in Hout; [|done].
  split; [done|]. split.
  { intros Hp. by apply (accepted_from_peer (config_env env) s f _ _ m Ht Hv Hf Hp Hc). }
  destruct (accepted_for_local (config_env env) s f _ _ m Ht Hv Hf Hc) as (Heth & i & ap & bss & Hap & Hbss & Hdst).
  split; [done|]. exists i, ap, bss. split_and!; try done. destruct Hdst as [?|(? & _ & ?)]; auto.
Qed.

(** ** A concrete run *)

Definition test_relayed_events : list (Event unit) :=
  [Recv 0 [Ready (Ok (mkMsg test_peer_frame 0 []))]; Send 0; Take 1000000000%Z; Written (Ok 60)].

Definition test_relayed : System :=
  default (init Forward 2 20 0) (execs test_built Forward 0 test_relayed_events (init Forward 2 20 0)).

Lemma test_relayed_reachable : reachable (IoError := unit) test_built Forward 2 20 0 test_relayed.
Proof.
  eapply (reachable_execs _ _ _ _ _ test_relayed_events); [apply reachable_init|]. vm_compute. reflexivity.
Qed.

Lemma test_daemon : daemon_tasks (spawned test_trace) test_built Forward 2 20.
Proof.
  exists (take 1 (spawned test_trace)), [mkSocket (b "eth1"); mkSocket (b "eth2")]. split; [vm_compute; reflexivity|].
  split; [done|]. eexists. vm_compute. reflexivity.
Qed.

Lemma relayed_traffic_is_configured_witness :
  exists s out msg, load test_cenv (b "config.yaml") = Ok s /\ msg ∈ heard_all test_relayed /\
    untag (take MAX_FRAME (packet msg)) (msg_vlan msg) = Some out /\
    exists i p bs, s_peers s !! i = Some p /\ mac (pe_mac p) = Ok (slice 6 12 (take MAX_FRAME (packet msg))) /\
      claims test_cenv p bs /\ frame_source (take MAX_FRAME (packet msg)) (msg_vlan msg) ∈ bs.
Proof.
  destruct (untag test_peer_frame Vlan_default) as [out|] eqn:Hu; [|vm_compute in Hu; discriminate].
  destruct (relayed_traffic_is_configured (E := unit) test_renv (b "config.yaml")
      (app_run test_renv (b "config.yaml") []).1 test_trace test_built Forward 2 20 0 test_relayed out true)
    as (s & Hs & _ & msg & Hmsg & Hout & Hpeer & _).
  - intros text raw [= <-]. apply test_typed.
  - apply surjective_pairing.
  - apply (bool_decide_eq_true_1 _). vm_compute. reflexivity.
  - apply test_daemon.
  - apply test_relayed_reachable.
  - revert Hu. vm_compute. intros [= <-]. left.
  - exists s, out, msg. split; [exact Hs|]. split; [exact Hmsg|]. split; [exact Hout|]. apply Hpeer.
    change (config_env test_renv) with test_cenv in Hs.
    rewrite test_load in Hs. injection Hs as <-. discriminate.
Defined.
