(* ===== verification/Main.v ===== *)
(** * The command line: [src/src/main.rs]

    The subcommands with the defaults their attributes declare, and [main], which sets
    up logging, parses the arguments and hands over to [app_run], [destroy] or
    [action_stats].  The argument parser (clap), the log filter (tracing-subscriber)
    and the standard output are parameters. *)

From Stdlib Require Import ZArith Lia Strings.Byte Strings.String.
From stdpp Require Import base list numbers list_numbers sets.
From S2P Require Import Prelude Proto Parse Wire Verdict Relay MacText Decimal Hostapd Config Packet Tap App System Daemon Startup.
Local Open Scope nat_scope.
Local Open Scope rrb_scope.

Inductive Command :=
| Run (config : str)
| Destroy (tap : str) (pref : Z)
| Stats (tap : str).

(** The options as given: [None] is an option that is absent. *)
Inductive Given :=
| GivenRun (config : str)
| GivenDestroy (tap : option str) (pref : option Z)
| GivenStats (tap : option str).

(** [default_value] and [default_value_t]. *)
Definition command_of (g : Given) : Command :=
  match g with
  | GivenRun config => Run config
  | GivenDestroy tap pref => Destroy (default (b "rrb0") tap) (default DEFAULT_PREF pref)
  | GivenStats tap => Stats (default (b "rrb0") tap)
  end.

Inductive MainCall (LogFilter : Type) : Type :=
| InitLog (filter : LogFilter)
| OnRun (c : RunCall)
| OnTool (c : TapCall)
| Print (text : str).
Arguments InitLog {LogFilter} filter.
Arguments OnRun {LogFilter} c.
Arguments OnTool {LogFilter} c.
Arguments Print {LogFilter} text.

(** How [main] can fail: the parser ends the process with a status of its own, the
    work reports an error, or [print!] panics on a closed output. *)
Inductive MainError (IoError : Type) : Type :=
| Usage (status : Z)
| RunFailed (e : RunError IoError)
| ToolFailed (e : TapError)
| PrintPanicked.
Arguments Usage {IoError} status.
Arguments RunFailed {IoError} e.
Arguments ToolFailed {IoError} e.
Arguments PrintPanicked {IoError}.

(** A [Result] returned from [main] is status 0 or 1; a panic aborts the release build
    ([panic = abort] in [src/Cargo.toml]), which is status 134 (SIGABRT). *)
Definition exit_status {IoError : Type} (r : result (MainError IoError) unit) : Z :=
  match r with
  | Ok _ => 0
  | Err (Usage status) => status
  | Err (RunFailed _) | Err (ToolFailed _) => 1
  | Err PrintPanicked => 134
  end.

Section Main.
Context {IoError LogFilter : Type}.

Record MainEnv := mkMainEnv {
  (** [EnvFilter::try_from_default_env], [None] when it fails. *)
  filter_from_env : option LogFilter;
  (** [EnvFilter::new]. *)
  filter_new : str -> LogFilter;
  (** [Cli::parse], up to the defaults. *)
  parse_cli : list str -> result Z Given;
  run_env : list (MainCall LogFilter) -> RunEnv IoError;
  tool_env : list (MainCall LogFilter) -> TapEnv;
  stdout_open : list (MainCall LogFilter) -> MainCall LogFilter -> bool;
}.

Variable env : MainEnv.

Definition log_filter : LogFilter := default (filter_new env (b "rerrb=info")) (filter_from_env env).

Definition print_ (text : str) : Sys (MainCall LogFilter) (MainError IoError) unit :=
  ok ← request (stdout_open env) (Print text);
  from_result (ensure ok PrintPanicked).

Definition dispatch (c : Command) : Sys (MainCall LogFilter) (MainError IoError) unit :=
  match c with
  | Run config => lift OnRun RunFailed (fun tr => app_run (run_env env tr) config)
  | Destroy tap pref => lift OnTool ToolFailed (fun tr => destroy (tool_env env tr) tap pref)
  | Stats tap =>
      text ← lift OnTool ToolFailed (fun tr => action_stats (tool_env env tr) tap);
      print_ text
  end.

Definition main (args : list str) : Sys (MainCall LogFilter) (MainError IoError) unit :=
  _ ← request (fun _ _ => tt) (InitLog log_filter);
  given ← from_result (match parse_cli env args with Ok g => Ok g | Err status => Err (Usage status) end);
  dispatch (command_of given).
End Main.
Arguments MainEnv : clear implicits.

(** The build for other systems: a message on the error output, and the status. *)
Definition main_elsewhere : str * Z := (b "rerrb runs on Linux only (AF_PACKET, TAP, tc)", 1%Z).

(** ** Lemmas *)

(** The value that [tc] reads for an option: its arguments after object and verb are
    pairs of a name and a value. *)
Fixpoint pairs (args : list str) : list (str * str) :=
  match args with
  | key :: value :: args' => (key, value) :: pairs args'
  | _ => []
  end.

Definition tc_option (key : str) (args : list str) : option str :=
  snd <$> List.find (fun kv => bool_decide (kv.1 = key)) (pairs (drop 2 args)).

(** The object that a [tc] command adds. *)
Definition adds (object : str) (args : list str) : Prop := take 2 args = [object; b "add"].

Lemma destroy_prefix tenv name pref :
  exists rest, (destroy tenv name pref []).2 =
    [Spawn (b "tc") (filter_del_args name pref); Spawn (b "tc") (qdisc_del_args name);
     PathExists (b "/sys/class/net/" ++ name)] ++ rest.
Proof.
  rewrite destroy_run. destruct (path_exists _ _ _); [by eexists|]. exists []. by rewrite app_nil_r.
Qed.

Section MainLemmas.
Context {IoError LogFilter : Type}.
Variable env : MainEnv IoError LogFilter.

Local Abbreviation started := [InitLog (log_filter env)].

(** What [main] does once the arguments are parsed. *)
Lemma main_dispatch args g : parse_cli env args = Ok g -> main env args [] = dispatch env (command_of g) started.
Proof. intros Hg. unfold main, mbind, Sys_bind, request, from_result. by rewrite Hg. Qed.

Lemma lift_Ok {Ev Ev' E E' A} (inj : Ev -> Ev') (wrap : E -> E') (m : list Ev' -> Sys Ev E A) tr x tr' :
  lift inj wrap m tr = (Ok x, tr') <-> exists calls, m tr [] = (Ok x, calls) /\ tr' = tr ++ (inj <$> calls).
Proof.
  unfold lift. destruct (m tr []) as [[y|e] calls]; split.
  - intros [= <- <-]. by exists calls.
  - by intros (c & [= <- <-] & ->).
  - done.
  - by intros (c & ? & _).
Qed.

(** A run that ends without an error waited for a signal and logged the statistics last. *)
Lemma app_run_Ok renv path tr :
  app_run (IoError := IoError) renv path [] = (Ok tt, tr) -> WaitSignal ∈ tr /\ last tr = Some LogCounters.
Proof.
  intros [(e & _ & ? & _)|(s & f & r' & body & _ & Hw & Hr & ->)]%app_run_trace; [done|].
  cbn in Hr. destruct r' as [[]|]; [|done]. cbn [is_ok]. split.
  - apply elem_of_app. left. by apply (with_tasks_shape _ _ _ _ _ Hw).
  - by rewrite app_assoc, last_snoc.
Qed.

Lemma lift_status {Ev E} (inj : Ev -> MainCall LogFilter) (wrap : E -> MainError IoError) {A} (m : list (MainCall LogFilter) -> Sys Ev E A) tr r tr' :
  lift inj wrap m tr = (r, tr') -> (exists x, r = Ok x) \/ exists e, r = Err (wrap e).
Proof. unfold lift. destruct (m tr []) as [[x|e] calls]; intros [= <- _]; eauto. Qed.

(** Once parsing is done, status 0 is success. *)
Lemma dispatch_status c tr r tr' : dispatch env c tr = (r, tr') -> exit_status r = 0%Z -> r = Ok tt.
Proof.
  destruct c as [config|tap pref|tap]; cbn [dispatch].
  - intros [[[] ->]|[e ->]]%lift_status; [done|]. intros [=].
  - intros [[[] ->]|[e ->]]%lift_status; [done|]. intros [=].
  - unfold mbind, Sys_bind. destruct (lift _ _ _ tr) as [r1 tr1] eqn:Hl.
    apply lift_status in Hl as [[x ->]|[e ->]].
    + unfold print_, mbind, Sys_bind, request, from_result. destruct (stdout_open _ _ _); by intros [= <- _].
    + intros [= <- _]. intros [=].
Qed.

Lemma action_stats_Ok tenv tap text calls :
  action_stats tenv tap [] = (Ok text, calls) ->
  let c := Spawn (b "tc") [b "-s"; b "filter"; b "show"; b "dev"; tap; b "parent"; INGRESS_HANDLE] in
  exists out, spawn tenv [] c = Some out /\ success out = true /\ text = stdout out /\ calls = [c].
Proof.
  unfold action_stats, run, mbind, Sys_bind, request, from_result. destruct (spawn _ _ _) as [out|] eqn:Ho; cbn; [|done].
  destruct (success out) eqn:Hs; cbn; [|done]. destruct (utf8_valid (stdout out)); [|done]. intros [= <- <-]. by exists out.
Qed.

(** The same, of [main]. *)
Lemma main_Ok args g r tr :
  parse_cli env args = Ok g -> main env args [] = (r, tr) -> exit_status r = 0%Z ->
  r = Ok tt /\ dispatch env (command_of g) started = (Ok tt, tr).
Proof.
  intros Hg Hm Hr. rewrite (main_dispatch args g Hg) in Hm. pose proof (dispatch_status _ _ _ _ Hm Hr) as ->. done.
Qed.

Lemma main_run args path r tr :
  parse_cli env args = Ok (GivenRun path) -> main env args [] = (r, tr) ->
  exists r' calls, app_run (run_env env started) path [] = (r', calls) /\ tr = InitLog (log_filter env) :: (OnRun <$> calls).
Proof.
  intros Hg. rewrite (main_dispatch args _ Hg). cbn [command_of dispatch]. unfold lift.
  destruct (app_run _ path []) as [r' calls]. intros [= _ <-]. by exists r', calls.
Qed.

Lemma main_destroy args tap pref r tr :
  parse_cli env args = Ok (GivenDestroy tap pref) -> main env args [] = (r, tr) ->
  let name := default default_tap tap in
  exists rest, tr = InitLog (log_filter env) :: OnTool (Spawn (b "tc") (filter_del_args name (default default_pref pref))) ::
    OnTool (Spawn (b "tc") (qdisc_del_args name)) :: OnTool (PathExists (b "/sys/class/net/" ++ name)) :: rest.
Proof.
  intros Hg Hm name. rewrite (main_dispatch args _ Hg) in Hm. cbn [command_of dispatch] in Hm. change (b "rrb0") with default_tap in Hm.
  change DEFAULT_PREF with default_pref in Hm. fold name in Hm. unfold lift in Hm.
  destruct (destroy_prefix (tool_env env started) name (default default_pref pref)) as [rest Hrest].
  destruct (destroy _ _ _ []) as [r1 calls]. cbn [snd] in Hrest. subst calls. injection Hm as _ <-. by exists (OnTool <$> rest).
Qed.
End MainLemmas.

(** ** The commands of a run *)

Section RunCommands.
Context {IoError : Type}.
Variables (renv : RunEnv IoError) (path text : str) (raw : RawSettings) (r : result (RunError IoError) unit) (tr : list RunCall).
Hypotheses (Hrun : app_run renv path [] = (r, tr)) (Htext : read_to_string (config_env renv) path = Ok text)
  (Hraw : from_yaml (config_env renv) text = Some raw).

Local Abbreviation s := (settings_of_raw raw).

Lemma loaded_raw s' f : load_config renv path = Ok (s', f) -> s' = s.
Proof.
  intros (_ & Hl & _)%load_config_Ok. unfold load in Hl. rewrite Htext, Hraw in Hl. cbn [ok_or mbind result_bind] in Hl.
  by apply bind_Ok in Hl as (_ & _ & [= <-]).
Qed.

Lemma run_commands program args :
  OnTap (Spawn program args) ∈ tr ->
  (exists rest, args = b "-s" :: rest) \/
  exists dev, device_name (tap_env renv []) [BuildTap (s_tap s)] DeviceName = Some dev /\
    (args = qdisc_args dev \/ args = rule_args dev (s_target s) (s_pref s)).
Proof.
  destruct (app_run_trace _ _ _ _ Hrun) as [(e & _ & _ & ->)|(s' & f & r' & body & Hl & Hw & _ & ->)];
    [by intros ?%not_elem_of_nil|]. apply loaded_raw in Hl as ->.
  apply with_tasks_shape in Hw as [(e1 & e2 & e3 & opened & Hshape) _].
  intros [Hin|Hin]%elem_of_app.
  - destruct (body_commands _ _ _ _ _ _ _ _ Hshape program args Hin) as [_ [?|(_ & Hset)]]; [by left|by right].
  - apply (Forall_elem _ _ _ (tail_calls _ _)) in Hin as [?|[?|[n ?]]]; done.
Qed.

Lemma run_adds_rule :
  s_mode s = Forward -> WaitSignal ∈ tr -> exists dev, OnTap (Spawn (b "tc") (rule_args dev (s_target s) (s_pref s))) ∈ tr.
Proof.
  destruct (app_run_trace _ _ _ _ Hrun) as [(e & _ & _ & ->)|(s' & f & r' & body & Hl & Hw & _ & ->)];
    [by intros _ ?%not_elem_of_nil|]. apply loaded_raw in Hl as ->.
  apply with_tasks_shape in Hw as [(e1 & e2 & e3 & opened & Hshape) _]. intros Hm Hin.
  assert (WaitSignal ∈ body) as Hb.
  { apply elem_of_app in Hin as [?|Hin]; [done|]. apply (Forall_elem _ _ _ (tail_calls _ _)) in Hin. by apply tail_no_wait in Hin. }
  destruct (waiting_relay _ _ _ _ _ _ _ _ Hshape Hb) as (relay & calls & Hc & Hsub).
  { unfold is_forward. by rewrite bool_decide_true. }
  exists (tap_name relay). apply elem_of_app. left. apply Hsub. by apply create_relay_rule in Hc.
Qed.
End RunCommands.

(** ** Claims *)

(** C30. What the process does and when it reports success: arguments the parser refuses
    end it with the parser's status before anything but the logging is set up; [run]
    succeeds only after it has waited for a signal, with the statistics logged last;
    [stats] succeeds only when [tc] did, and prints exactly what [tc] printed; and a
    failure of the work is never reported as status 0. *)
Theorem main_reports_its_work {IoError LogFilter : Type} (env : MainEnv IoError LogFilter) args r tr :
  main env args [] = (r, tr) ->
  (forall status, parse_cli env args = Err status -> exit_status r = status /\ tr = [InitLog (log_filter env)]) /\
  (forall path, parse_cli env args = Ok (GivenRun path) -> exit_status r = 0%Z ->
     OnRun WaitSignal ∈ tr /\ last tr = Some (OnRun LogCounters)) /\
  (forall tap, parse_cli env args = Ok (GivenStats tap) -> exit_status r = 0%Z ->
     let c := Spawn (b "tc") [b "-s"; b "filter"; b "show"; b "dev"; default default_tap tap; b "parent"; INGRESS_HANDLE] in
     exists out, spawn (tool_env env [InitLog (log_filter env)]) [] c = Some out /\ success out = true /\
       tr = [InitLog (log_filter env); OnTool c; Print (stdout out)]) /\
  (forall g, parse_cli env args = Ok g -> exit_status r = 0%Z -> r = Ok tt).
Proof.
  intros Hm. split_and!.
  - intros status Hp. unfold main, mbind, Sys_bind, request, from_result in Hm. rewrite Hp in Hm. by injection Hm as <- <-.
  - intros path Hp Hr. destruct (main_Ok env args _ r tr Hp Hm Hr) as [_ Hd]. cbn [command_of dispatch] in Hd.
    apply lift_Ok in Hd as (calls & [Hw Hl]%app_run_Ok & ->). split.
    + apply elem_of_app. right. by apply list_elem_of_fmap_2.
    + rewrite last_app, fmap_last, Hl. done.
  - intros tap Hp Hr. destruct (main_Ok env args _ r tr Hp Hm Hr) as [_ Hd]. cbn [command_of dispatch] in Hd.
    apply Sys_bind_Ok in Hd as (text & tr1 & (calls & Hs & ->)%lift_Ok & Hd).
    apply action_stats_Ok in Hs as (out & Ho & Hok & -> & ->). exists out. split; [exact Ho|]. split; [exact Hok|].
    unfold print_ in Hd. apply Sys_bind_Ok in Hd as (ok & tr2 & [_ ->]%request_Ok & [_ ->]%from_result_Ok). done.
  - intros g Hp Hr. by destruct (main_Ok env args _ r tr Hp Hm Hr).
Qed.

(** C34. [destroy] looks for what [run] installs.  Take a process that runs a settings
    file, and one that destroys with the file's TAP and priority, or with neither where
    the file has none.  Whatever the answers, the second deletes a rule and then a qdisc
    before it looks at the device; every rule and every qdisc that the first adds is on
    the device under the name the kernel reports, the rule it deletes has the parent and
    the priority of every added rule, and when the device got the name it was asked for,
    rule and qdisc are deleted from the device they were added to.  In forward mode a run
    that waits has added a rule. *)
Theorem destroy_targets_what_run_installs {IoError LogFilter : Type} (env env' : MainEnv IoError LogFilter)
    path text raw args args' r r' tr tr' :
  let renv := run_env env [InitLog (log_filter env)] in
  parse_cli env args = Ok (GivenRun path) -> main env args [] = (r, tr) ->
  read_to_string (config_env renv) path = Ok text -> from_yaml (config_env renv) text = Some raw ->
  parse_cli env' args' = Ok (GivenDestroy (raw_tap raw) (raw_pref raw)) -> main env' args' [] = (r', tr') ->
  let s := settings_of_raw raw in
  let named := device_name (tap_env renv []) [BuildTap (s_tap s)] DeviceName in
  exists del del_qdisc rest,
    tr' = InitLog (log_filter env') :: OnTool (Spawn (b "tc") del) :: OnTool (Spawn (b "tc") del_qdisc) ::
          OnTool (PathExists (b "/sys/class/net/" ++ s_tap s)) :: rest /\
    (forall add, OnRun (OnTap (Spawn (b "tc") add)) ∈ tr -> adds (b "filter") add ->
       tc_option (b "dev") add = named /\
       Forall (fun key => is_Some (tc_option key del) /\ tc_option key del = tc_option key add) [b "parent"; b "pref"] /\
       (named = Some (s_tap s) -> tc_option (b "dev") del = tc_option (b "dev") add)) /\
    (forall add, OnRun (OnTap (Spawn (b "tc") add)) ∈ tr -> adds (b "qdisc") add ->
       tc_option (b "dev") add = named /\
       (named = Some (s_tap s) -> tc_option (b "dev") del_qdisc = tc_option (b "dev") add)) /\
    (s_mode s = Forward -> OnRun WaitSignal ∈ tr ->
       exists add, OnRun (OnTap (Spawn (b "tc") add)) ∈ tr /\ adds (b "filter") add).
Proof.
  intros renv Hg Hm Htext Hraw Hg' Hm' s named.
  destruct (main_destroy env' args' _ _ r' tr' Hg' Hm') as [rest ->].
  destruct (main_run env args path r tr Hg Hm) as (r1 & calls & Hrun & ->).
  exists (filter_del_args (s_tap s) (s_pref s)), (qdisc_del_args (s_tap s)), rest. split; [done|].
  assert (forall add, OnRun (OnTap (Spawn (b "tc") add)) ∈ InitLog (log_filter env) :: (OnRun <$> calls) ->
    (exists rest, add = b "-s" :: rest) \/ exists dev, named = Some dev /\ (add = qdisc_args dev \/ add = rule_args dev (s_target s) (s_pref s))) as Hset.
  { intros add [?|(c & [= <-] & Hin)%list_elem_of_fmap]%elem_of_cons; [done|].
    exact (run_commands _ _ _ _ _ _ Hrun Htext Hraw _ _ Hin). }
  split_and!.
  - intros add [(l & ->)|(dev & Hdev & [->| ->])]%Hset Ha; try done. rewrite Hdev. split; [done|]. split; [|by intros [= ->]].
    repeat constructor; by eexists.
  - intros add [(l & ->)|(dev & Hdev & [->| ->])]%Hset Ha; try done. rewrite Hdev. split; [done|]. by intros [= ->].
  - intros Hf Hw. destruct (run_adds_rule _ _ _ _ _ _ Hrun Htext Hraw Hf) as (dev & Hin).
    { apply elem_of_cons in Hw as [?|(c & [= <-] & ?)%list_elem_of_fmap]; done. }
    eexists. split; [right; by apply list_elem_of_fmap_2|done].
Qed.

(** ** Concrete invocations *)

Definition test_main_env : MainEnv unit str := {|
  filter_from_env := None;
  filter_new := id;
  parse_cli args :=
    match args with
    | cmd :: rest =>
        if bool_decide (cmd = b "run") then Ok (GivenRun (default [] (rest !! 1)))
        else if bool_decide (cmd = b "destroy") then Ok (GivenDestroy (rest !! 1) None)
        else if bool_decide (cmd = b "stats") then Ok (GivenStats (rest !! 1))
        else Err 2%Z
    | [] => Err 2%Z
    end;
  run_env _ := test_renv;
  tool_env _ := test_tap_env;
  stdout_open _ _ := true;
|}.

Example test_usage : exit_status (main test_main_env [b "frobnicate"] []).1 = 2%Z.
Proof. vm_compute. reflexivity. Qed.

Lemma main_reports_its_work_witness :
  exists out, success out = true /\
    (main test_main_env [b "stats"] []).2 =
    [InitLog (b "rerrb=info");
     OnTool (Spawn (b "tc") [b "-s"; b "filter"; b "show"; b "dev"; b "rrb0"; b "parent"; INGRESS_HANDLE]); Print (stdout out)].
Proof.
  destruct (main_reports_its_work test_main_env [b "stats"] (main test_main_env [b "stats"] []).1
    (main test_main_env [b "stats"] []).2) as (_ & _ & H & _); [apply surjective_pairing|].
  destruct (H None ltac:(vm_compute; reflexivity) ltac:(vm_compute; reflexivity)) as (out & _ & Hs & Htr).
  exists out. split; [exact Hs|exact Htr].
Defined.

Lemma destroy_targets_what_run_installs_witness :
  exists add del rest,
    OnRun (OnTap (Spawn (b "tc") add)) ∈ (main test_main_env [b "run"; b "-c"; b "config.yaml"] []).2 /\
    (main test_main_env [b "destroy"] []).2 = InitLog (b "rerrb=info") :: OnTool (Spawn (b "tc") del) :: rest /\
    tc_option (b "dev") del = tc_option (b "dev") add /\ tc_option (b "pref") del = tc_option (b "pref") add.
Proof.
  set (args := [b "run"; b "-c"; b "config.yaml"]).
  destruct (destroy_targets_what_run_installs test_main_env test_main_env (b "config.yaml") []
    (default (mkRaw [] [] None None None None None None None) (from_yaml test_cenv [])) args [b "destroy"]
    (main test_main_env args []).1 (main test_main_env [b "destroy"] []).1
    (main test_main_env args []).2 (main test_main_env [b "destroy"] []).2)
    as (del & delq & rest & Htr & Hrule & _ & Hadded).
  - vm_compute. reflexivity.
  - apply surjective_pairing.
  - vm_compute. reflexivity.
  - reflexivity.
  - reflexivity.
  - apply surjective_pairing.
  - destruct Hadded as (add & Hin & Ha); [reflexivity|apply (list_elem_of_lookup_2 _ 31); vm_compute; reflexivity|].
    destruct (Hrule add Hin Ha) as (_ & Hkeys & Hdev).
    exists add, del, (OnTool (Spawn (b "tc") delq) :: OnTool (PathExists (b "/sys/class/net/rrb0")) :: rest).
    split; [exact Hin|]. split; [exact Htr|]. split; [apply Hdev; reflexivity|].
    exact (proj2 (Forall_elem _ _ (b "pref") Hkeys (list_elem_of_further _ _ _ (list_elem_of_here _ _)))).
Defined.
