(* ===== verification/Regression.v ===== *)
(** * The unit tests of the repository, evaluated in the model

    Each [#[test]] function of [src/src/proto/tests.rs], [src/src/relay.rs],
    [src/src/config.rs] and [src/src/hostapd.rs] as a boolean: the conjunction of its
    assertions over the modelled functions.  Their evaluation to [true] ties the model
    to the expectations that the authors wrote down.  The YAML documents of the
    configuration tests are given as what serde reads from them. *)

From Stdlib Require Import ZArith Lia Strings.Byte Strings.String.
From stdpp Require Import base list numbers list_numbers sets gmap.
From S2P Require Import Prelude Proto Parse Wire Verdict Relay MacText Hostapd Config Tap.
Local Open Scope nat_scope.
Local Open Scope rrb_scope.

(** [assert_eq!]. *)
Definition assert_eq {A} `{EqDecision A} (x y : A) : bool := bool_decide (x = y).

Definition all (tests : list bool) : bool := forallb id tests.

(** [f[at] ^= x] and [f[at] |= x], in range. *)
Definition xor_at (f : list byte) (i : nat) (x : Z) : list byte := <[i := z2b (Z.lxor (b2z (f !!! i)) x)]> f.

Definition or_at (f : list byte) (i : nat) (x : Z) : list byte := <[i := z2b (Z.lor (b2z (f !!! i)) x)]> f.

(** ** [src/src/proto/tests.rs] *)

Module Classifier.

Definition accepted (f : list byte) : bool := is_ok (classify f Vlan_default test_filter).

(** The four tag bytes taken out. *)
Definition stripped (f : list byte) : list byte := slice 0 12 f ++ drop 16 f.

Definition nonce (kind : Z) : list byte := test_frame kind false (test_tlv 1 (b "nonce")).

(** The filter with its first local or peer replaced. *)
Definition with_local (l : Local_) : Filter :=
  {| management_vlan := management_vlan test_filter; peer_count := peer_count test_filter;
     local_count := local_count test_filter; target_mac := target_mac test_filter;
     locals := <[0 := l]> (locals test_filter); peers := peers test_filter |}.

Definition with_peer (count : Z) (p : Peer) : Filter :=
  {| management_vlan := management_vlan test_filter; peer_count := count;
     local_count := local_count test_filter; target_mac := target_mac test_filter;
     locals := locals test_filter; peers := <[0 := p]> (peers test_filter) |}.

Definition all_five_message_types_and_vlan_representations : bool :=
  all (map (fun kind =>
    let f := nonce kind in
    let v := {| present := true; proto := TPID_8021Q; tci := Z.lor 1 (Z.shiftl 7 13) |} in
    let wrong_vid := {| present := true; proto := TPID_8021Q; tci := 2 |} in
    all [assert_eq (classify f Vlan_default test_filter) (Ok (mkMatch kind (ETH_HEADER_LEN + VLAN_TAG_LEN)));
         is_ok (classify (stripped f) v test_filter);
         assert_eq (classify (stripped f) wrong_vid test_filter) (Err Vlan_);
         assert_eq (classify (stripped f) Vlan_default test_filter) (Err Vlan_);
         negb (is_ok (classify f v test_filter))]) [1; 2; 3; 4; 5]%Z).

Definition scope_mutations_are_rejected_without_mutating_original : bool :=
  let original := nonce 5 in
  all [all (map (fun offset => negb (accepted (xor_at original offset 0x10))) [0; 6; 12; 15; 16; 18; 22; 24; 30]);
       all (map (fun n => negb (accepted (take n original))) (seq 0 (List.length original)));
       accepted (or_at original 14 0xe0);
       negb (accepted (copy_at 18 (bytes_of [0x80; 0x2a; 0xa8; 0; 1]%Z) original));
       negb (accepted (original ++ replicate (MAX_FRAME + 1 - List.length original) Byte.x00))].

Definition broadcast_requires_correct_r0kh_and_request_type : bool :=
  all (map (fun kind =>
    all [assert_eq (accepted (test_frame kind true (test_tlv TLV_R0KH (b "local"))))
           ((kind =? KIND_PULL)%Z || (kind =? KIND_SEQ_REQUEST)%Z);
         negb (accepted (test_frame kind true (test_tlv TLV_R0KH (b "other"))));
         negb (accepted (test_frame kind true []))]) [1; 2; 3; 4; 5]%Z) &&
  accepted (copy_at 0 (replicate 6 Byte.xff) (test_frame KIND_SEQ_REQUEST true (test_tlv TLV_R0KH (b "local")))).

Definition deferred_r0kh_check_preserves_boundaries_and_unicast_scope : bool :=
  all (map (fun length =>
    let l := locals test_filter !!! 0 in
    let r := copy_at 0 (replicate length Byte.x61) (r0kh l) in
    let with_r0kh r := with_local {| local_bssid := local_bssid l; r0kh_len := Z.of_nat length; r0kh := r |} in
    let auth := test_tlv 1 (b "nonce") ++ test_tlv TLV_R0KH (replicate length Byte.x61) ++ test_tlv 5 (b "r1kh") in
    let f := test_frame KIND_SEQ_REQUEST true auth in
    all [is_ok (classify f Vlan_default (with_r0kh r));
         assert_eq (classify f Vlan_default (with_r0kh (<[length - 1 := Byte.x62]> r))) (Err BroadcastScope)])
    [1; 12; MAX_R0KH]) &&
  all [accepted (test_frame KIND_RESPONSE false (test_tlv TLV_R0KH (b "remote-r0kh")));
       negb (accepted (test_frame KIND_SEQ_REQUEST true (test_tlv TLV_R0KH [])));
       negb (accepted (test_frame KIND_SEQ_REQUEST true (test_tlv TLV_R0KH (replicate (MAX_R0KH + 1) Byte.x61))))].

Definition tlv_duplicate_overflow_and_count_limits : bool :=
  let a := test_tlv TLV_R0KH (b "local") in
  let auth := concat (map (fun tag => test_tlv (Z.of_nat tag) []) (seq 0 MAX_TLVS)) in
  all [negb (accepted (test_frame KIND_SEQ_REQUEST true (a ++ a)));
       negb (accepted (test_frame 4 false (bytes_of [1; 0; 255; 255]%Z)));
       negb (accepted (test_frame 4 false (bytes_of [1; 0; 0]%Z)));
       accepted (test_frame 5 false auth);
       negb (accepted (test_frame 5 false (auth ++ test_tlv 500 [])))].

Definition empty_peer_bssid_list_is_a_wildcard : bool :=
  let p := peers test_filter !!! 0 in
  let c := with_peer (peer_count test_filter) {| peer_mac := peer_mac p; bssid_count := 0; bssids := bssids p |} in
  all [is_ok (classify (copy_at 24 (replicate 6 Byte.x09) (nonce 5)) Vlan_default c);
       assert_eq (classify (xor_at (nonce 5) 6 0x10) Vlan_default c) (Err EtherAddress)].

Definition empty_peer_list_accepts_all_senders : bool :=
  let c := with_peer 0 (peers test_filter !!! 0) in
  all [is_ok (classify (copy_at 24 (replicate 6 Byte.x09) (copy_at 6 (replicate 6 Byte.x08) (nonce 5))) Vlan_default c);
       assert_eq (classify (copy_at 30 (replicate 6 Byte.x07) (nonce 5)) Vlan_default c) (Err DestinationBss)].

Definition encrypted_payload_is_never_scanned_or_misparsed : bool :=
  let c := test_filter in
  let auth := test_tlv 2 (replicate 16 Byte.x00) ++ test_tlv 1 (replicate 12 Byte.x00) ++
              test_tlv TLV_R0KH (b "020000000102") ++ test_tlv TLV_R1KH (local_bssid (locals c !!! 0)) in
  all (map (fun kind =>
    let f := test_frame kind false auth ++ test_tlv 6 (bytes_of [0xaa; 0xbb; 0xcc; 0xdd; 0xee; 0xff]%Z) in
    let vlan := {| present := true; proto := TPID_8021Q; tci := 1 |} in
    all [is_ok (classify f Vlan_default c); assert_eq (List.length (stripped f)) 122;
         is_ok (classify (stripped f) vlan c)]) [KIND_PULL; KIND_RESPONSE; KIND_PUSH]).
End Classifier.

(** ** [src/src/relay.rs] *)

Module RelayTests.

Definition untag_removes_inline_tag : bool :=
  let tagged := bytes_of [1; 2; 3; 4; 5; 6; 7; 8; 9; 10; 11; 12; 0x81; 0x00; 0x00; 0x01; 0x88; 0xb7; 0xaa; 0xbb]%Z in
  let expected := slice 0 12 tagged ++ drop 16 tagged in
  match untag tagged Vlan_default with
  | Some out => all [assert_eq out expected; assert_eq (slice 12 14 out) (bytes_of [0x88; 0xb7]%Z)]
  | None => false
  end.

Definition untag_passthrough_when_tag_in_metadata : bool :=
  let frame := bytes_of [1; 2; 3; 4; 5; 6; 7; 8; 9; 10; 11; 12; 0x88; 0xb7; 0xaa]%Z in
  let vlan := {| present := true; proto := TPID_8021Q; tci := 1 |} in
  assert_eq (untag frame vlan) (Some frame).

Definition limiter_windows : bool :=
  let '(r1, l) := admit_ (Limiter_new 2) 1 in
  let '(r2, l) := admit_ l 1 in
  let '(r3, l) := admit_ l 1 in
  let '(r4, l) := admit_ l 2 in
  let '(r5, l) := admit_ l 2 in
  let '(r6, l) := admit_ l 2 in
  let '(r7, l) := admit_ l 3 in
  all [is_ok r1; is_ok r2; assert_eq r3 (Err RateLimited); is_ok r4; is_ok r5; assert_eq r6 (Err RateLimited); is_ok r7].
End RelayTests.

(** ** [src/src/config.rs] *)

Module ConfigTests.

Definition mac_parsing : bool :=
  all [match mac (b "22:0b:8b:ea:60:c9") with
       | Ok m => assert_eq m (bytes_of [0x22; 0x0b; 0x8b; 0xea; 0x60; 0xc9]%Z)
       | Err _ => false
       end;
       negb (is_ok (mac (b "22:0b:8b:ea:60")));
       negb (is_ok (mac (b "22:0b:8b:ea:60:cg")));
       negb (is_ok (mac (b "220b8bea60c9")))].

(** A document with nothing but its required fields. *)
Definition only (sources : list str) : RawSettings :=
  mkRaw sources [mkAp (b "wifi1ap4") None] None None None None None None None.

Definition valid (s : Settings) : bool := is_ok (validate (IoError := unit) s).

Definition yaml_minimal_and_full : bool :=
  let minimal := settings_of_raw (only [b "eth1"]) in
  let full := settings_of_raw {|
    raw_sources := [b "eth1"; b "eth2"];
    raw_aps := [mkAp (b "wifi1ap4") (Some (b "my-r0kh-id"))];
    raw_peers := Some [(b "1c:0b:8b:ea:60:c9", Some [b "1c:0b:8b:ea:60:c9"; b "22:0b:8b:ea:60:c9"]);
                       (b "1c:0b:8b:ea:60:c8", None)];
    raw_target := Some (b "br1"); raw_management_vlan := Some 10%Z; raw_mode := Some Observe;
    raw_limits := Some (Some 5%Z); raw_tap := Some (b "rrb1"); raw_pref := Some 1234%Z |} in
  all [assert_eq (s_target minimal) (b "br0"); assert_eq (s_management_vlan minimal) 1%Z;
       assert_eq (s_mode minimal) Forward; assert_eq (packets_per_second (s_limits minimal)) 20%Z;
       assert_eq (s_tap minimal) (b "rrb0"); assert_eq (s_pref minimal) DEFAULT_PREF; valid minimal;
       assert_eq (s_mode full) Observe; assert_eq (packets_per_second (s_limits full)) 5%Z;
       assert_eq (s_pref full) 1234%Z;
       assert_eq (List.length ∘ pe_bssids <$> s_peers full) [2; 0]; valid full].

Definition yaml_rejects_bad_shape : bool :=
  all [negb (valid (settings_of_raw (only []))); negb (valid (settings_of_raw (only [b "eth1"; b "eth1"])))].
End ConfigTests.

(** ** [src/src/hostapd.rs] *)

Definition parses_get_config_reply : bool :=
  let cfg := parse_config (b "bssid=22:0b:8b:ea:60:c9" ++ [LF] ++ b "ssid=Home" ++ [LF] ++ b "key_mgmt=FT-PSK" ++ [LF]
                           ++ [LF] ++ b "junkline" ++ [LF]) in
  all [assert_eq (cfg !! b "bssid") (Some (b "22:0b:8b:ea:60:c9")); assert_eq (cfg !! b "junkline") None;
       assert_eq (size cfg) 3].

(** Every assertion of the repository's unit tests on the classifier, the relay logic,
    the configuration and the hostapd client holds of the model. *)
Example unit_tests_pass :
  all [Classifier.all_five_message_types_and_vlan_representations;
       Classifier.scope_mutations_are_rejected_without_mutating_original;
       Classifier.broadcast_requires_correct_r0kh_and_request_type;
       Classifier.deferred_r0kh_check_preserves_boundaries_and_unicast_scope;
       Classifier.tlv_duplicate_overflow_and_count_limits;
       Classifier.empty_peer_bssid_list_is_a_wildcard;
       Classifier.empty_peer_list_accepts_all_senders;
       Classifier.encrypted_payload_is_never_scanned_or_misparsed;
       RelayTests.untag_removes_inline_tag;
       RelayTests.untag_passthrough_when_tag_in_metadata;
       RelayTests.limiter_windows;
       ConfigTests.mac_parsing;
       ConfigTests.yaml_minimal_and_full;
       ConfigTests.yaml_rejects_bad_shape;
       parses_get_config_reply] = true.
Proof. vm_compute. reflexivity. Qed.
